(* ===== verification/_CoqProject ===== *)
-Q . S2P
Prelude.v
Proto.v
Auth.v
OutboundLog.v
Session.v
Exec.v
Channel.v
Registry.v
SweepRace.v
Attach.v
Handover.v
Target.v
RunExec.v
RunLoop.v
Gapless.v
System.v
SystemOut.v
SystemIn.v
EndToEnd.v
LostInput.v
Refinement.v
SystemLife.v
SshArgs.v
ServerMain.v
Oidc.v
Json.v
FakeIssuer.v
OidcRace.v
Agent.v
AgentFlow.v
AgentProps.v
AgentSetup.v
Daemon.v
DaemonInv.v
DaemonProps.v
Restarts.v
Transport.v
QuicSetup.v
Serve.v
Latency.v
UnitTests.v
FlakyProxy.v
IntegrationTests.v
