(* ===== verification/Prelude.v ===== *)
(** * herdr-eternal: a verification development

    herdr-eternal runs a command on another machine the way ssh(1) does, over a
    connection that may break: the server keeps the command and everything it
    printed, the client reconnects and resumes.  This library models the Rust
    code of the server ([server/src]), the client ([client/src]) and the wire
    protocol ([proto/src]) as executable definitions and proves what makes them
    correct.  This file documents the whole and holds what the others share.

    ** The parts and the files

    Wire protocol, [proto/src/lib.rs].  [Proto]: message types, [encode] and
    [decode] (tag byte, postcard body, zstd when it pays), [encode_frame],
    [Module FrameDecoder] ([push], [next_frame]), [worth_duplicating].

    Transports, [server/src/channel.rs] and [client/src/channel.rs].  [Channel]:
    receiving, [Module Server] for [Channel::next] and [recv], [Module Client]
    for [Conn::next]; a channel is the list of what tungstenite or quinn will
    answer, and a receive that runs out of answers is a pending future.
    [Transport]: sending, [Module ServerSide] and [Module ClientSide].
    [QuicSetup]: [connect_quic], [client/src/tls.rs], [server/src/quic.rs].

    Authentication, [server/src/auth.rs].  [Auth]: [verify] with the static
    token, [oidc_verify] and the JWKS cache.  [Json]: values of [serde_json] and
    the derived readers and writers of the documents exchanged.  [FakeIssuer]:
    the issuer of [server/src/test_oidc.rs] (keys, tokens, documents, routes,
    the token endpoint with its single-use grants), and client, issuer and
    server composed.

    Sessions, [server/src/lib.rs].  [OutboundLog]: the replay buffer, with the
    interface [ReplayLog] its clients rely on.  [Session]: the shared [Session],
    the locals [Task] of [session_task], and [task_step], one turn of its
    [select!].  [Exec]: [start_session], the child's environment, resume tokens.
    [Registry]: the token map, [expire_sessions], and [AttachGuard] as a step
    relation of atomic operations; [SweepRace] the same for an expiry sweep and
    the connections that resume while it runs.  [Attach]: [handle_connection], [dispatch] and
    the loop of [attach] ([flush], then [react] to one event).  [Handover]:
    [handover_sessions] and [restore_sessions].  [Daemon]: all of the server's
    tasks over one state; [DaemonInv] its invariant, [DaemonProps] what follows,
    [Restarts] any number of daemons succeeding each other.
    [Serve]: construction, [serve], [serve_quic], [shut_down].  [ServerMain]:
    [server/src/main.rs], options and descriptors from systemd.

    Client, [client/src].  [Target]: errors, configuration file, [Target].
    [RunExec]: [run_exec] as three step functions over its locals; [RunLoop]:
    these composed to the whole of it, with what others see as effects.
    [SshArgs]: [main.rs].  [Oidc]: [oidc.rs], device login and token cache; [OidcRace]:
    several clients refreshing at once against the fake issuer.  [Latency]: the
    benchmark [client/examples/latency.rs].

    Agent forwarding, [server/src/agent.rs] and [client/src/agent.rs].  [Agent]:
    hub, relay and local agents as one step function [agent_step]; [AgentFlow]
    its invariant, [AgentProps] what follows; [AgentSetup]: how hub and channel
    come up.

    Client and server composed.  [Gapless]: numbered streams.  [System]: one
    session with its client, any number of connections, drops, lost and
    repeated datagrams, and handovers to a successor (the task answers, the old
    daemon forgets the session, the successor restores it).  [SystemOut],
    [SystemIn], [SystemLife]: the invariants for output, input and the registry.
    [EndToEnd]: what they mean for the user.  [LostInput]: what a failed send of
    stdin costs, in any run.  [Refinement]: the abstract
    specification, a command connected to the terminal by pipes, and that the
    composed program implements it.  [UnitTests]: the unit tests of
    the repository as propositions about these definitions;
    [IntegrationTests]: the scenarios of [client/tests] and [server/tests] played
    on them; [FlakyProxy]: the proxy those tests cut connections with.

    ** How state and operations correspond

    A Rust struct is a record with its fields, an enum an inductive type with
    its variants; the locals of an asynchronous loop are a record as well
    ([Task], [Attach.Attach], [RunExec.Client]).  Definitions carry the names of
    the functions they translate.  [Result] is [result], [?] is [let?]; [u64] is
    [Z] with [add_u64] wrapping at [2^64] and [saturating_sub].  Bytes are lists
    of [Z], strings Rocq strings ([as_bytes], [of_bytes]).  Maps are stdpp's
    [gmap].  An [Arc<Session>] is an address into a heap of sessions, so that
    sharing is visible.  A channel between tasks is a list, with a flag for the
    receiver being gone.  One turn of a [select!] is one step: the event names
    the branch that fired and carries the operating system's answer; a disabled
    branch is no step ([None]).  Instants and durations are milliseconds,
    supplied by events.

    Code that is not part of the repository enters through classes of operations
    ([WireLib], [Serde], [JwtLib], [HttpLib], [TransportLib], [TomlLib],
    [JsonLib], [RsaLib]) or as answers in the arguments.  What is relied on is
    stated as classes of laws: [WireLibOk] and [SerdeOk], zstd and postcard
    invert themselves; [JsonLibOk], a printed document parses back; [RsaLibOk],
    a key published in a document verifies what its private half signed.  The
    [toy_] definitions implement the classes, and the witnesses run on them.

    ** What the theorems show

    End to end ([EndToEnd], [SystemLife]): in every run the output written is a
    prefix of what the command printed, and all of it when the exit code is
    returned.  In runs in which no send of freshly read stdin fails, the input
    applied is a prefix of what the client read, and every step is, to the user,
    a few steps of a command running locally ([Refinement]).  One reconnect
    completes a finished session that the server still has.  Without an expiry
    or a daemon lost with the session, the registry does not forget it before
    its client has the exit code, except in a handover, until the successor has
    restored it.  The client alone
    ([RunExec], [RunLoop]): a command is started at most once, later requests
    only resume it, at a bounded pace, and a WebSocket without messages is given
    up exactly at the timeout.  Sessions ([Exec], [OutboundLog], [Handover]):
    all output is logged once and in order, the log refines an append-only
    history, a handover and restore is the identity on running sessions.
    Server ([Attach], [Registry], [DaemonProps]): nothing happens before
    authentication; the state stays well formed, however the operations of the
    attach guards interleave; a new connection disturbs nobody; an abandoned
    session expires; under any interleaving a sweep ends only sessions it saw expired
    ([SweepRace]); sessions survive any number of restarts ([Restarts]).
    Protocol and transports ([Proto], [Channel], [Transport]): messages survive
    any chunking, receiving is cancel-safe, oversized frames are refused early,
    WebSocket and QUIC deliver the same events.  Authentication and login
    ([Auth], [Oidc], [OidcRace]): the exact acceptance condition, every branch
    of the key cache, termination of the device login, one grant per refresh
    however clients race.  What the issuer grants, the server accepts exactly
    while its claims say so, and a client that logged in gets a token the server
    accepts whenever it asks, through cache, refreshes and key documents
    ([FakeIssuer]).  Agent forwarding ([AgentProps]): streams are faithful,
    the newest channel is used.  Command lines ([SshArgs], [ServerMain]).
    The benchmark reports percentiles of what it measured ([Latency]), every
    unit test passes on the model ([UnitTests]), and so do the integration tests,
    with the interruption at every point of the command ([IntegrationTests]).

    Some theorems state what the code does although it should not: a stdin
    message whose send failed is lost in every continuation ([LostInput]), pongs
    do not count as activity, so that both sides drop a healthy WebSocket of an
    idle session ([silence_is_noticed], [next_control]), a token without an
    audience is accepted against the documentation ([verify_accepts_iff]), a
    resume that reaches a daemon that is handing over is denied for good
    ([resume_denied_in_handover]), the two effects of an attach guard can
    interleave ([attach_guard_race]), a sweep can end a session that was resumed after it was listed,
    a finished session does not survive a restart, a broken connection leaves a
    session that cannot be resumed running, a reconnect of the agent channel
    leaves programs waiting, a failed [accept] ends the daemon without a
    handover.

    ** Bounds and fuel

    [Server.recv_fuel] and [RunExec.recv_fuel] skip datagrams, each of which
    uses up an item: one more than the number of items is enough, which [recv]
    supplies.  [events_fuel], [server_receive] and [client_receive] call [next];
    the theorems hold for any fuel above the number of messages and items.
    [FrameDecoder.drain] and [Oidc.poll_loop] come with the number of turns they
    need.  All other recursion is structural.  Theorems about counters assume
    that fewer than [2^64] steps happened (sequence numbers, resume tokens,
    stream ids), and messages are below [MAX_FRAME] where they are framed.

    ** Granularity

    A flush of the attach loop is one step, as are a handshake, a token refresh
    in the sequential model (its atomic operations interleave in [OidcRace]),
    and, in [Daemon], an expiry sweep (whose operations interleave with resumes
    in [SweepRace]).  The creation and the drop of an attach guard are two
    atomic operations each, separate steps of [Daemon] ([guard_moves]) as of
    [Registry], where the race between them is shown.  [System] and [Agent] carry decoded messages: [Proto] and
    [Transport] justify that for both transports.  A program may connect to the
    agent socket at any time in [Agent]: the wait for a channel in
    [channel_attached] only removes some of these runs.  [Daemon] starts without
    sessions or from a restore; the tokens restored differ from those the new
    process will issue because the processes' ids differ, which [Restarts]
    requires of successive daemons.

    ** Not modelled

    Sockets, pipes, processes, TLS and QUIC handshakes, DNS and timers
    themselves (their answers are arguments); panics of the standard library on
    values out of range: instants are unbounded, where [Instant + Duration]
    panics on a huge [expires_in] or Retry-After of the issuer, and the
    environment is made of strings, where [std::env::vars] panics on a variable
    that is not Unicode; the text of JSON, JWT and RSA
    (classes of operations, above); number formatting of the benchmark; logging
    and the usage text; congestion control; the compression ratio a unit test
    measures and the endpoint pair another one builds; the integration test
    [herdr_remote.rs], which runs the external program herdr; Nix modules,
    patches and CI. *)

From stdpp Require Export base tactics list strings gmap.
From Stdlib Require Export ZArith Lia.
From Stdlib Require Ascii.

#[export] Set Warnings "-clear-no-such-hyp".
#[global] Open Scope Z_scope.

(** ** Results: Rust's [Result<T, E>] *)

Inductive result (T E : Type) : Type :=
| Ok (value : T)
| Err (error : E).
Arguments Ok {T E} value.
Arguments Err {T E} error.

Definition result_bind {T U E : Type} (r : result T E) (k : T -> result U E) : result U E :=
  match r with
  | Ok v => k v
  | Err e => Err e
  end.

Definition map_err {T E F : Type} (f : E -> F) (r : result T E) : result T F :=
  match r with
  | Ok v => Ok v
  | Err e => Err (f e)
  end.

Definition ok_or {T E : Type} (o : option T) (e : E) : result T E :=
  match o with
  | Some v => Ok v
  | None => Err e
  end.

Definition result_ok {T E : Type} (r : result T E) : option T :=
  match r with
  | Ok v => Some v
  | Err _ => None
  end.

Definition unwrap_or {T : Type} (o : option T) (d : T) : T :=
  match o with
  | Some v => v
  | None => d
  end.

Declare Scope rust_scope.
Delimit Scope rust_scope with rust.
(** [let? x := e in k] is Rust's [let x = e?; k]. *)
Notation "'let?' x ':=' e 'in' k" := (result_bind e (fun x => k))
  (at level 10, x binder, e at level 100, k at level 200) : rust_scope.

#[global] Instance result_eq_dec {T E} `{EqDecision T, EqDecision E} : EqDecision (result T E).
Proof. solve_decision. Defined.

(** ** Bytes and machine integers

    A byte, a [u32], a [u64] and an [i32] are integers of [Z] kept in range;
    additions that the code leaves unchecked wrap around, which is what the
    release profile compiles them to. *)

Abbreviation bytes := (list Z).

Definition is_byte (b : Z) : Prop := 0 <= b < 256.
Definition is_bytes (bs : bytes) : Prop := Forall is_byte bs.

Definition u64_modulus : Z := 2 ^ 64.
Definition is_u64 (n : Z) : Prop := 0 <= n < u64_modulus.
(** [a + b] on [u64]. *)
Definition add_u64 (a b : Z) : Z := (a + b) mod u64_modulus.
(** [a.saturating_sub(b)] on [u64]. *)
Definition saturating_sub (a b : Z) : Z := Z.max 0 (a - b).

Definition len {A : Type} (l : list A) : Z := Z.of_nat (length l).

Lemma u64_modulus_eq : u64_modulus = 18446744073709551616.
Proof. reflexivity. Qed.

Lemma add_u64_small a b : is_u64 (a + b) -> add_u64 a b = a + b.
Proof. unfold add_u64, is_u64. intros H. by apply Z.mod_small. Qed.

Lemma add_u64_range a b : is_u64 (add_u64 a b).
Proof. unfold add_u64, is_u64. apply Z.mod_pos_bound. by rewrite u64_modulus_eq. Qed.

Lemma len_nil {A} : len (@nil A) = 0.
Proof. reflexivity. Qed.

Lemma len_cons {A} (x : A) l : len (x :: l) = len l + 1.
Proof. unfold len. simpl length. lia. Qed.

Lemma len_app {A} (l k : list A) : len (l ++ k) = len l + len k.
Proof. unfold len. rewrite length_app. lia. Qed.

Lemma len_nonneg {A} (l : list A) : 0 <= len l.
Proof. unfold len. lia. Qed.

Lemma len_drop {A} n (l : list A) : len (drop n l) = Z.max 0 (len l - Z.of_nat n).
Proof. unfold len. rewrite length_drop. lia. Qed.

Lemma len_take {A} n (l : list A) : len (take n l) = Z.min (Z.of_nat n) (len l).
Proof. unfold len. rewrite length_take. lia. Qed.

Lemma in_map_fst {A B} (x : A) (y : B) l : (x, y) ∈ l -> x ∈ map fst l.
Proof. exact (list_elem_of_fmap_2 fst l (x, y)). Qed.

Lemma in_map_snd {A B} (x : A) (y : B) l : (x, y) ∈ l -> y ∈ map snd l.
Proof. exact (list_elem_of_fmap_2 snd l (x, y)). Qed.

(** Arithmetic about lengths and 64-bit numbers: [len_lia] computes lengths and
    calls [lia]; [u64] closes range conditions and removes an addition that
    does not wrap. *)

Create HintDb lens.
#[export] Hint Rewrite @len_nil @len_cons @len_app @len_drop @len_take : lens.

Ltac note_lens :=
  repeat match goal with
  | |- context [len ?l] =>
      lazymatch goal with H : 0 <= len l |- _ => fail | _ => pose proof (len_nonneg l) end
  | _ : context [len ?l] |- _ =>
      lazymatch goal with H : 0 <= len l |- _ => fail | _ => pose proof (len_nonneg l) end
  end.

Ltac len_lia := autorewrite with lens in *; note_lens; lia.

Ltac no_wrap := rewrite add_u64_small by (unfold is_u64; len_lia).

Create HintDb u64.
#[export] Hint Resolve add_u64_range len_nonneg : u64.
#[export] Hint Extern 3 (is_u64 _) => (unfold is_u64; len_lia) : u64.

Definition u32_modulus : Z := 2 ^ 32.
(** [n as u32]. *)
Definition as_u32 (n : Z) : Z := n mod u32_modulus.
Definition to_be_bytes (n : Z) : bytes :=
  [Z.land (Z.shiftr n 24) 255; Z.land (Z.shiftr n 16) 255;
   Z.land (Z.shiftr n 8) 255; Z.land n 255].
Definition from_be_bytes (bs : bytes) : Z :=
  fold_left (fun acc b => Z.lor (Z.shiftl acc 8) b) bs 0.

Lemma land_255 n : Z.land n 255 = n mod 256.
Proof. change 255 with (Z.ones 8). rewrite Z.land_ones by lia. reflexivity. Qed.

Lemma shiftl_lor_byte a b : 0 <= a -> is_byte b -> Z.lor (Z.shiftl a 8) b = a * 256 + b.
Proof.
  intros Ha [Hb0 Hb1]. rewrite Z.shiftl_mul_pow2 by lia.
  rewrite <- Z.add_lor_land. change (2 ^ 8) with 256.
  enough (Z.land (a * 256) b = 0) by lia.
  apply Z.bits_inj_0. intros i. rewrite Z.land_spec.
  destruct (Z.lt_ge_cases i 8).
  - change 256 with (2 ^ 8). rewrite Z.mul_pow2_bits_low by lia. reflexivity.
  - replace b with (b mod 2 ^ 8) by (apply Z.mod_small; lia).
    rewrite Z.mod_pow2_bits_high by lia. apply andb_false_r.
Qed.

Lemma length_to_be_bytes n : length (to_be_bytes n) = 4%nat.
Proof. reflexivity. Qed.

Lemma from_be_bytes_value a b c d : is_byte a -> is_byte b -> is_byte c -> is_byte d ->
  from_be_bytes [a; b; c; d] = ((a * 256 + b) * 256 + c) * 256 + d.
Proof.
  intros Ha Hb Hc Hd. unfold from_be_bytes. cbn [fold_left].
  rewrite (shiftl_lor_byte 0 a) by done.
  unfold is_byte in *.
  rewrite (shiftl_lor_byte (0 * 256 + a) b) by (done || lia).
  rewrite (shiftl_lor_byte ((0 * 256 + a) * 256 + b) c) by (done || lia).
  rewrite (shiftl_lor_byte (((0 * 256 + a) * 256 + b) * 256 + c) d) by (done || lia).
  lia.
Qed.

(** The length prefix round-trips on every [u32]. *)
Lemma from_to_be_bytes n : 0 <= n < u32_modulus -> from_be_bytes (to_be_bytes n) = n.
Proof.
  change u32_modulus with 4294967296. intros Hn. unfold to_be_bytes.
  assert (Hb : forall m, is_byte (m mod 256)) by (intros m; apply Z.mod_pos_bound; lia).
  rewrite !land_255, !Z.shiftr_div_pow2, from_be_bytes_value by (done || lia).
  change (2 ^ 24) with 16777216. change (2 ^ 16) with 65536. change (2 ^ 8) with 256.
  Z.to_euclidean_division_equations; lia.
Qed.

(** ** Decimal digits: [Display] and [FromStr] of unsigned integers, on the
    ASCII bytes of the text *)

Definition digit_byte (d : Z) : Z := 48 + d.

Fixpoint dec_go (fuel : nat) (n : Z) (acc : bytes) : bytes :=
  match fuel with
  | O => acc
  | S fuel =>
      let acc := digit_byte (n mod 10) :: acc in
      if n <? 10 then acc else dec_go fuel (n / 10) acc
  end.

(** [n.to_string()]; a number has no more decimal than binary digits. *)
Definition dec_bytes (n : Z) : bytes := dec_go (S (Z.to_nat (Z.log2 n))) n [].

Fixpoint parse_digits (max : Z) (acc : Z) (bs : bytes) : option Z :=
  match bs with
  | [] => Some acc
  | b :: bs =>
      if (48 <=? b) && (b <=? 57) then
        let acc := acc * 10 + (b - 48) in
        if acc <=? max then parse_digits max acc bs else None
      else None
  end.

(** [str::parse] for an unsigned type of maximum [max]: an optional [+], then
    one or more digits, rejected on overflow. *)
Definition parse_unsigned (max : Z) (bs : bytes) : option Z :=
  match bs with
  | [] => None
  | 43 :: [] => None
  | 43 :: rest => parse_digits max 0 rest
  | _ => parse_digits max 0 bs
  end.

(** [str::parse::<i32>]: an optional sign, then one or more digits. *)
Definition parse_i32 (bs : bytes) : option Z :=
  match bs with
  | [] => None
  | 43 :: [] => None
  | 45 :: [] => None
  | 43 :: rest => parse_digits (2 ^ 31 - 1) 0 rest
  | 45 :: rest => Z.opp <$> parse_digits (2 ^ 31) 0 rest
  | _ => parse_digits (2 ^ 31 - 1) 0 bs
  end.

Definition parse_u64 : bytes -> option Z := parse_unsigned (u64_modulus - 1).

Definition is_digit_byte (b : Z) : Prop := 48 <= b <= 57.

(** Value of a digit string appended to an accumulator. *)
Definition digits_value (acc : Z) (bs : bytes) : Z :=
  fold_left (fun acc b => acc * 10 + (b - 48)) bs acc.

Lemma parse_digits_value max bs : forall acc,
  0 <= acc -> Forall is_digit_byte bs -> digits_value acc bs <= max ->
  parse_digits max acc bs = Some (digits_value acc bs).
Proof.
  assert (Hmono : forall bs acc, 0 <= acc -> Forall is_digit_byte bs ->
            acc <= digits_value acc bs).
  { clear. induction bs as [|b bs IH]; intros acc Hacc Hbs; simpl; [lia|].
    inversion Hbs as [|? ? [Hb0 Hb1] Hbs']; subst.
    specialize (IH (acc * 10 + (b - 48)) ltac:(lia) Hbs'). unfold digits_value in *. lia. }
  induction bs as [|b bs IH]; intros acc Hacc Hbs Hle; [done|].
  inversion Hbs as [|? ? [Hb0 Hb1] Hbs']; subst. cbn [parse_digits].
  rewrite (proj2 (Z.leb_le 48 b)), (proj2 (Z.leb_le b 57)) by lia. cbn [andb].
  specialize (Hmono bs (acc * 10 + (b - 48)) ltac:(lia) Hbs').
  change (digits_value acc (b :: bs)) with (digits_value (acc * 10 + (b - 48)) bs) in *.
  rewrite (proj2 (Z.leb_le _ max)) by lia. apply IH; [lia|done|lia].
Qed.

Lemma digits_value_app acc xs ys : digits_value acc (xs ++ ys) = digits_value (digits_value acc xs) ys.
Proof. unfold digits_value. apply fold_left_app. Qed.

Lemma dec_go_spec fuel : forall n acc,
  0 <= n < 2 ^ Z.of_nat fuel -> (0 < fuel)%nat ->
  exists ds, dec_go fuel n acc = ds ++ acc /\ ds <> [] /\
    Forall is_digit_byte ds /\ digits_value 0 ds = n.
Proof.
  induction fuel as [|fuel IH]; intros n acc Hn Hf; [lia|].
  cbn [dec_go]. destruct (Z.ltb_spec n 10) as [Hlt|Hge].
  - exists [digit_byte (n mod 10)]. rewrite Z.mod_small by lia.
    split_and!; [done|done| |].
    + repeat constructor; unfold digit_byte; lia.
    + unfold digits_value, digit_byte. simpl. lia.
  - rewrite Nat2Z.inj_succ, Z.pow_succ_r in Hn by lia.
    assert (Hq : 0 <= n / 10 < 2 ^ Z.of_nat fuel).
    { split; [apply Z.div_pos; lia|]. apply Z.div_lt_upper_bound; lia. }
    destruct (IH (n / 10) (digit_byte (n mod 10) :: acc) Hq) as (ds & -> & Hne & Hds & Hv).
    { destruct fuel; [|lia]. simpl in Hn. lia. }
    exists (ds ++ [digit_byte (n mod 10)]). split_and!.
    + by rewrite <- app_assoc.
    + by destruct ds.
    + apply Forall_app. split; [done|]. repeat constructor; unfold digit_byte;
        pose proof (Z.mod_pos_bound n 10); lia.
    + rewrite digits_value_app, Hv. unfold digits_value, digit_byte. simpl.
      pose proof (Z.div_mod n 10). lia.
Qed.

Lemma dec_bytes_spec n : 0 <= n ->
  dec_bytes n <> [] /\ Forall is_digit_byte (dec_bytes n) /\ digits_value 0 (dec_bytes n) = n.
Proof.
  intros Hn. unfold dec_bytes.
  destruct (dec_go_spec (S (Z.to_nat (Z.log2 n))) n []) as (ds & -> & H); [|lia|by rewrite app_nil_r].
  split; [done|]. rewrite Nat2Z.inj_succ, Z2Nat.id by apply Z.log2_nonneg.
  destruct (decide (n = 0)) as [->|]; [done|]. apply Z.log2_spec. lia.
Qed.

(** Printing then parsing a number gives it back, for any range it fits. *)
Lemma parse_unsigned_dec max n : 0 <= n <= max -> parse_unsigned max (dec_bytes n) = Some n.
Proof.
  intros Hn. destruct (dec_bytes_spec n) as (Hne & Hds & Hv); [lia|].
  destruct (dec_bytes n) as [|b bs] eqn:E; [done|].
  assert (Hb : is_digit_byte b) by by inversion Hds.
  assert (Hgo : parse_digits max 0 (b :: bs) = Some n).
  { rewrite <- Hv. apply parse_digits_value; [lia|done|lia]. }
  unfold is_digit_byte in Hb.
  unfold parse_unsigned. destruct b as [|p|p]; [done| |lia].
  repeat (destruct p as [p|p|]; try exact Hgo; try lia).
Qed.

Lemma parse_i32_dec n : 0 <= n < 2 ^ 31 -> parse_i32 (dec_bytes n) = Some n.
Proof.
  intros Hn. destruct (dec_bytes_spec n) as (Hne & Hds & Hv); [lia|].
  destruct (dec_bytes n) as [|b bs] eqn:E; [done|].
  assert (Hb : is_digit_byte b) by by inversion Hds.
  assert (Hgo : parse_digits (2 ^ 31 - 1) 0 (b :: bs) = Some n).
  { rewrite <- Hv. apply parse_digits_value; [lia|done|lia]. }
  unfold is_digit_byte in Hb.
  unfold parse_i32. destruct b as [|p|p]; [done| |lia].
  repeat (destruct p as [p|p|]; try exact Hgo; try lia).
Qed.

(** ** Strings as bytes *)

(** [str::as_bytes]. *)
Definition as_bytes (s : string) : bytes :=
  map (fun c => Z.of_N (Ascii.N_of_ascii c)) (String.list_ascii_of_string s).

(** The string of the given bytes. *)
Definition of_bytes (bs : bytes) : string :=
  String.string_of_list_ascii (map (fun b => Ascii.ascii_of_N (Z.to_N b)) bs).

Lemma of_as_bytes s : of_bytes (as_bytes s) = s.
Proof.
  unfold of_bytes, as_bytes. rewrite map_map.
  rewrite <- (String.string_of_list_ascii_of_string s) at 2. f_equal.
  induction (String.list_ascii_of_string s) as [|c cs IH]; [done|]. cbn [map].
  rewrite N2Z.id, Ascii.ascii_N_embedding. by f_equal.
Qed.

Lemma as_of_bytes bs : is_bytes bs -> as_bytes (of_bytes bs) = bs.
Proof.
  intros Hbs. unfold of_bytes, as_bytes. rewrite String.list_ascii_of_string_of_list_ascii, map_map.
  induction Hbs as [|b bs [Hb0 Hb1] _ IH]; [done|]. cbn [map].
  rewrite Ascii.N_ascii_embedding by lia. rewrite Z2N.id by lia. by f_equal.
Qed.

Lemma as_bytes_inj s t : as_bytes s = as_bytes t -> s = t.
Proof. intros H. by rewrite <- (of_as_bytes s), <- (of_as_bytes t), H. Qed.

Lemma as_bytes_app s t : as_bytes (s +:+ t) = as_bytes s ++ as_bytes t.
Proof.
  unfold as_bytes. rewrite <- map_app. f_equal.
  induction s as [|c s IH]; [done|].
  change (String.list_ascii_of_string (String.String c s +:+ t))
    with (c :: String.list_ascii_of_string (s +:+ t)). by rewrite IH.
Qed.

Lemma is_bytes_as_bytes s : is_bytes (as_bytes s).
Proof.
  unfold as_bytes, is_bytes. apply List.Forall_map, List.Forall_forall. intros c _.
  pose proof (Ascii.N_ascii_bounded c). unfold is_byte. lia.
Qed.

Lemma is_bytes_digits bs : Forall is_digit_byte bs -> is_bytes bs.
Proof. intros H. eapply Forall_impl; [exact H|]. unfold is_digit_byte, is_byte. lia. Qed.

(** [n.to_string()]. *)
Definition dec_string (n : Z) : string := of_bytes (dec_bytes n).

Lemma as_bytes_dec_string n : 0 <= n -> as_bytes (dec_string n) = dec_bytes n.
Proof. intros Hn. apply as_of_bytes, is_bytes_digits. by apply dec_bytes_spec. Qed.

Lemma dec_bytes_inj n m : 0 <= n -> 0 <= m -> dec_bytes n = dec_bytes m -> n = m.
Proof.
  intros Hn Hm Heq. rewrite <- (proj2 (proj2 (dec_bytes_spec n Hn))), Heq.
  by apply dec_bytes_spec.
Qed.

(** Cutting at the first byte that cannot occur in the left parts. *)
Lemma app_sep_inj (P : Z -> Prop) (sep : Z) (xs ys xs' ys' : bytes) :
  ~ P sep -> Forall P xs -> Forall P xs' ->
  xs ++ sep :: ys = xs' ++ sep :: ys' -> xs = xs' /\ ys = ys'.
Proof.
  intros Hsep Hxs. revert xs'. induction Hxs as [|x xs Hx _ IH]; intros [|x' xs'] Hxs' Heq.
  - by injection Heq.
  - injection Heq as <- _. by inversion Hxs'.
  - by injection Heq as -> _.
  - injection Heq as -> Heq. inversion Hxs'; subst. apply IH in Heq as [-> ->]; done.
Qed.

(** [str::rsplit_once] at a one-byte separator. *)
Fixpoint split_first (sep : Z) (bs : bytes) : option (bytes * bytes) :=
  match bs with
  | [] => None
  | b :: bs =>
      if b =? sep then Some ([], bs)
      else match split_first sep bs with
           | Some (before, after) => Some (b :: before, after)
           | None => None
           end
  end.

Definition rsplit_once (sep : Z) (bs : bytes) : option (bytes * bytes) :=
  match split_first sep (reverse bs) with
  | Some (after, before) => Some (reverse before, reverse after)
  | None => None
  end.

Lemma split_first_app sep xs ys : Forall (fun b => b <> sep) xs ->
  split_first sep (xs ++ sep :: ys) = Some (xs, ys).
Proof.
  induction 1 as [|x xs Hx _ IH]; cbn [app split_first].
  - by rewrite Z.eqb_refl.
  - rewrite (proj2 (Z.eqb_neq x sep)) by done. by rewrite IH.
Qed.

Lemma split_first_inv sep bs xs ys : split_first sep bs = Some (xs, ys) -> bs = xs ++ sep :: ys.
Proof.
  revert xs ys. induction bs as [|b bs IH]; intros xs ys; cbn [split_first]; [done|].
  destruct (Z.eqb_spec b sep) as [->|]; [by intros [= <- <-]|].
  destruct (split_first sep bs) as [[x y]|]; [|done]. intros [= <- <-]. cbn. f_equal. by apply IH.
Qed.

Lemma rsplit_once_inv sep bs xs ys : rsplit_once sep bs = Some (xs, ys) -> bs = xs ++ sep :: ys.
Proof.
  unfold rsplit_once. destruct (split_first sep (reverse bs)) as [[a b]|] eqn:Hs; [|done]. intros [= <- <-].
  apply split_first_inv in Hs. rewrite <- (reverse_involutive bs), Hs.
  by rewrite reverse_app, reverse_cons, <- app_assoc.
Qed.

Lemma rsplit_once_app sep xs ys : Forall (fun b => b <> sep) ys ->
  rsplit_once sep (xs ++ sep :: ys) = Some (xs, ys).
Proof.
  intros Hys. unfold rsplit_once. rewrite reverse_app, reverse_cons, <- app_assoc. cbn [app].
  rewrite split_first_app, !reverse_involutive; [done|]. by apply Forall_reverse.
Qed.
