(* ===== verification/Proto.v ===== *)
(** * The wire protocol ([proto/src/lib.rs])

    The message types of `herdr-eternal/2`, the self-describing message
    encoding (one tag byte, then the postcard body, compressed when that pays),
    length-prefixed frames and the frame decoder.  postcard and zstd are
    third-party: they enter as the operations of the classes [WireLib] and
    [Serde], and what the code relies on as [WireLibOk] and [SerdeOk]. *)

From S2P Require Import Prelude.

Local Open Scope rust_scope.

(** ** Messages *)

(** [postcard::Error] and the I/O error of zstd, and zstd's two entry points. *)
Class WireLib := {
  PostcardError : Type;
  IoError : Type;
  DeserializeUnexpectedEnd : PostcardError;
  zstd_compress : bytes -> Z -> result bytes IoError;
  zstd_decompress : bytes -> Z -> result bytes IoError;
}.

(** serde + postcard for one message type. *)
Class Serde `{WireLib} (T : Type) := {
  to_stdvec : T -> result bytes PostcardError;
  from_bytes : bytes -> result T PostcardError;
}.

(** zstd's documented contract: a frame decompresses to its source whenever
    the source fits the given capacity. *)
Class WireLibOk `{WireLib} : Prop :=
  zstd_roundtrip : forall src level packed cap,
    zstd_compress src level = Ok packed -> len src <= cap ->
    zstd_decompress packed cap = Ok src.

(** postcard's documented contract: deserializing what was serialized. *)
Class SerdeOk `{W : WireLib} (T : Type) `{!Serde T} : Prop :=
  serde_roundtrip : forall (msg : T) body, to_stdvec msg = Ok body -> from_bytes body = Ok msg.

Inductive ProtocolError `{WireLib} : Type :=
| Encode (source : PostcardError)
| Decode (source : PostcardError)
| Decompress (source : IoError)
| UnknownEncoding (tag : Z).

Definition PROTOCOL : string := "herdr-eternal/2".
Definition ENC_RAW : Z := 0.
Definition ENC_ZSTD : Z := 1.
Definition COMPRESS_MIN : Z := 64.
Definition MAX_FRAME : Z := 1024 * 1024.

Record Hello := {
  hello_token : string;
  client_name : string;
  client_version : string;
}.

Record Welcome := {
  user : string;
  server_version : string;
}.

Inductive ExecRequest : Type :=
| Exec (command : string) (resumable : bool) (forward_agent : bool)
| Resume (resume_token : string) (last_seq_seen : Z)
| AgentChannel (resume_token : string).

Inductive ChannelMessage : Type :=
| Started (resume_token : option string)
| Denied (reason : string)
| Stdin (seq : Z) (data : bytes)
| StdinEof (seq : Z)
| Stdout (seq : Z) (data : bytes)
| Stderr (seq : Z) (data : bytes)
| Exit (seq : Z) (code : Z)
| Ack (seq : Z)
| AgentOpen (id : Z)
| AgentData (id : Z) (data : bytes)
| AgentClose (id : Z).

#[global] Instance ChannelMessage_eq_dec : EqDecision ChannelMessage.
Proof. solve_decision. Defined.

#[global] Instance ExecRequest_eq_dec : EqDecision ExecRequest.
Proof. solve_decision. Defined.

(** ** Message encoding *)

Section Encoding.
Context `{WireLib} {T : Type} `{!Serde T}.

(** [encode]: compression is used only for bodies of at least [COMPRESS_MIN]
    bytes, and only when it makes them shorter. *)
Definition encode (msg : T) : result bytes ProtocolError :=
  let? body := map_err Encode (to_stdvec msg) in
  let '(tag, payload) :=
    if COMPRESS_MIN <=? len body then
      match zstd_compress body 3 with
      | Ok compressed =>
          if len compressed <? len body then (ENC_ZSTD, compressed) else (ENC_RAW, body)
      | Err _ => (ENC_RAW, body)
      end
    else (ENC_RAW, body) in
  Ok (tag :: payload).

Definition decode (bs : bytes) : result T ProtocolError :=
  match bs with
  | tag :: body =>
      if tag =? ENC_RAW then map_err Decode (from_bytes body)
      else if tag =? ENC_ZSTD then
        let? body := map_err Decompress (zstd_decompress body MAX_FRAME) in
        map_err Decode (from_bytes body)
      else Err (UnknownEncoding tag)
  | [] => Err (Decode DeserializeUnexpectedEnd)
  end.

(** [encode_frame]: the length goes through [as u32]. *)
Definition encode_frame (msg : T) : result bytes ProtocolError :=
  let? body := encode msg in
  Ok (to_be_bytes (as_u32 (len body)) ++ body).

Lemma encode_inv msg wire : encode msg = Ok wire ->
  exists body, to_stdvec msg = Ok body /\
    (wire = ENC_RAW :: body \/
     exists packed, wire = ENC_ZSTD :: packed /\ zstd_compress body 3 = Ok packed /\
       len packed < len body /\ COMPRESS_MIN <= len body).
Proof.
  unfold encode. destruct (to_stdvec msg) as [body|e]; [|done]. cbn [map_err result_bind].
  intros Henc. exists body. split; [done|].
  destruct (Z.leb_spec COMPRESS_MIN (len body)); [|left; congruence].
  destruct (zstd_compress body 3) as [packed|]; [|left; congruence].
  destruct (Z.ltb_spec (len packed) (len body)); [right|left; congruence].
  exists packed. split_and!; [congruence|done|done|done].
Qed.

End Encoding.

(** Small stdio messages, which QUIC also sends as datagrams. *)
Definition worth_duplicating (msg : ChannelMessage) : bool :=
  match msg with
  | Stdin _ data | Stdout _ data | Stderr _ data => len data <=? 512
  | _ => false
  end.

(** ** Frame reassembly *)

Module FrameDecoder.

Record FrameDecoder := { buf : bytes }.

Definition new : FrameDecoder := {| buf := [] |}.

Definition push (bs : bytes) (d : FrameDecoder) : FrameDecoder := {| buf := buf d ++ bs |}.

(** [self.buf.first_chunk::<4>()]. *)
Definition first_chunk4 (bs : bytes) : option bytes :=
  match bs with
  | a :: b :: c :: d :: _ => Some [a; b; c; d]
  | _ => None
  end.

(** [next_frame]; the error carries the announced length. *)
Definition next_frame (d : FrameDecoder) : result (option bytes) Z * FrameDecoder :=
  match first_chunk4 (buf d) with
  | None => (Ok None, d)
  | Some prefix =>
      let n := from_be_bytes prefix in
      if MAX_FRAME <? n then (Err n, d)
      else if len (buf d) <? 4 + n then (Ok None, d)
      else
        let split := Z.to_nat (4 + n) in
        let rest := drop split (buf d) in
        let frame := drop 4 (take split (buf d)) in
        (Ok (Some frame), {| buf := rest |})
  end.

(** The receive loop of the tests and of [next]: take frames until the decoder
    has none.  Every frame takes at least four bytes, so the buffer length is
    fuel enough. *)
Fixpoint drain_fuel (fuel : nat) (d : FrameDecoder) : result (list bytes) Z * FrameDecoder :=
  match fuel with
  | O => (Ok [], d)
  | S fuel =>
      match next_frame d with
      | (Ok None, d) => (Ok [], d)
      | (Err n, d) => (Err n, d)
      | (Ok (Some frame), d) =>
          match drain_fuel fuel d with
          | (Ok frames, d) => (Ok (frame :: frames), d)
          | (Err n, d) => (Err n, d)
          end
      end
  end.

Definition drain (d : FrameDecoder) : result (list bytes) Z * FrameDecoder :=
  drain_fuel (S (length (buf d))) d.

(** Feeding the stream chunk by chunk, draining after each chunk. *)
Fixpoint feed (chunks : list bytes) (d : FrameDecoder) : result (list bytes) Z * FrameDecoder :=
  match chunks with
  | [] => (Ok [], d)
  | chunk :: chunks =>
      match drain (push chunk d) with
      | (Ok frames, d) =>
          match feed chunks d with
          | (Ok more, d) => (Ok (frames ++ more), d)
          | (Err n, d) => (Err n, d)
          end
      | (Err n, d) => (Err n, d)
      end
  end.

(** The reference: the bytes of a sequence of frames on the wire. *)
Definition frame_bytes (frame : bytes) : bytes := to_be_bytes (len frame) ++ frame.
Definition wire (frames : list bytes) : bytes := concat (map frame_bytes frames).

(** A frame the decoder accepts. *)
Definition fits (frame : bytes) : Prop := len frame <= MAX_FRAME.

(** A proper prefix of some frame: what may be left in the buffer. *)
Definition partial (bs : bytes) : Prop :=
  exists frame more, fits frame /\ frame_bytes frame = bs ++ more /\ more <> [].

Lemma fits_u32 frame : fits frame -> 0 <= len frame < u32_modulus.
Proof.
  unfold fits, MAX_FRAME. change u32_modulus with 4294967296. pose proof (len_nonneg frame). lia.
Qed.

Lemma first_chunk4_frame frame rest :
  first_chunk4 (frame_bytes frame ++ rest) = Some (to_be_bytes (len frame)).
Proof. done. Qed.

Lemma len_frame_bytes frame : len (frame_bytes frame) = 4 + len frame.
Proof. unfold frame_bytes. rewrite len_app. done. Qed.

Lemma length_frame_bytes frame : length (frame_bytes frame) = (4 + length frame)%nat.
Proof. done. Qed.

(** A complete frame at the head of the buffer is popped. *)
Lemma next_frame_complete frame rest : fits frame ->
  next_frame {| buf := frame_bytes frame ++ rest |} = (Ok (Some frame), {| buf := rest |}).
Proof.
  intros Hfit. unfold next_frame. cbn [buf].
  rewrite first_chunk4_frame, from_to_be_bytes by by apply fits_u32.
  rewrite (proj2 (Z.ltb_ge _ _)) by done.
  rewrite (proj2 (Z.ltb_ge _ _)) by (rewrite len_app, len_frame_bytes; len_lia).
  replace (Z.to_nat (4 + len frame)) with (length (frame_bytes frame))
    by (rewrite length_frame_bytes; unfold len; lia).
  by rewrite take_app_length, drop_app_length.
Qed.

(** An incomplete frame is left alone. *)
Lemma next_frame_partial bs : partial bs -> next_frame {| buf := bs |} = (Ok None, {| buf := bs |}).
Proof.
  intros (frame & more & Hfit & Heq & Hmore). unfold next_frame. cbn [buf].
  assert (Hlen : len bs < 4 + len frame).
  { rewrite <- len_frame_bytes, Heq, len_app. destruct more; [done|]. rewrite len_cons.
    pose proof (len_nonneg more). lia. }
  destruct bs as [|a [|b [|c [|d bs]]]]; try done.
  unfold frame_bytes, to_be_bytes in Heq. cbn [app] in Heq.
  injection Heq as Ha Hb Hc Hd _.
  cbn [first_chunk4].
  replace [a; b; c; d] with (to_be_bytes (len frame)) by (unfold to_be_bytes; congruence).
  rewrite from_to_be_bytes by by apply fits_u32.
  rewrite (proj2 (Z.ltb_ge _ _)) by done.
  by rewrite (proj2 (Z.ltb_lt _ _)).
Qed.

Lemma partial_nil : partial [].
Proof. exists [], [0; 0; 0; 0]. split_and!; [by unfold fits; rewrite len_nil|done|done]. Qed.

Lemma drain_fuel_wire frames : forall rest fuel,
  Forall fits frames -> partial rest -> (length frames < fuel)%nat ->
  drain_fuel fuel {| buf := wire frames ++ rest |} = (Ok frames, {| buf := rest |}).
Proof.
  induction frames as [|frame frames IH]; intros rest fuel Hfits Hrest Hfuel;
    destruct fuel as [|fuel]; try (simpl in Hfuel; lia); cbn [drain_fuel].
  - by rewrite next_frame_partial.
  - inversion Hfits; subst. unfold wire. cbn [map concat]. rewrite <- app_assoc.
    rewrite next_frame_complete by done. fold (wire frames).
    rewrite IH; [done|done|done|simpl in Hfuel; lia].
Qed.

Lemma length_wire frames : (length frames <= length (wire frames))%nat.
Proof.
  induction frames as [|f frames IH]; [done|]. unfold wire in *. cbn [map concat].
  rewrite length_app, length_frame_bytes. simpl. lia.
Qed.

Lemma drain_wire frames rest : Forall fits frames -> partial rest ->
  drain {| buf := wire frames ++ rest |} = (Ok frames, {| buf := rest |}).
Proof.
  intros. apply drain_fuel_wire; [done|done|]. cbn [buf]. rewrite length_app.
  pose proof (length_wire frames). lia.
Qed.

Lemma wire_app fs gs : wire (fs ++ gs) = wire fs ++ wire gs.
Proof. unfold wire. by rewrite map_app, concat_app. Qed.

(** Any prefix of a frame stream is some complete frames and a partial one. *)
Lemma split_prefix frames : forall rest pre suf,
  Forall fits frames -> partial rest -> wire frames ++ rest = pre ++ suf ->
  exists done_ todo r, frames = done_ ++ todo /\ pre = wire done_ ++ r /\ partial r /\
    wire todo ++ rest = r ++ suf.
Proof.
  induction frames as [|frame frames IH]; intros rest pre suf Hfits Hrest Heq.
  - exists [], [], pre. split_and!; [done|done| |done].
    destruct Hrest as (f & more & Hf & Hfb & Hm). cbn in Heq.
    exists f, (suf ++ more). split_and!; [done| |by destruct suf].
    by rewrite Hfb, Heq, app_assoc.
  - inversion Hfits as [|? ? Hf Hfs]; subst. unfold wire in Heq. cbn [map concat] in Heq.
    rewrite <- app_assoc in Heq. fold (wire frames) in Heq.
    apply app_eq_inv in Heq as [(k & Hpre & Hrest') | (k & Hpre & Hrest')].
    + destruct k as [|x k].
      * rewrite app_nil_r in Hpre. simpl in Hrest'. subst suf.
        exists [frame], frames, []. split_and!; [done| |apply partial_nil|done].
        unfold wire. cbn. by rewrite !app_nil_r, <- Hpre.
      * exists [], (frame :: frames), pre. split_and!; [done|done| |].
        -- by exists frame, (x :: k).
        -- unfold wire. cbn [map concat]. by rewrite Hpre, <- !app_assoc, Hrest'.
    + destruct (IH rest k suf Hfs Hrest Hrest') as (d & t & r & -> & -> & Hr & Ht).
      exists (frame :: d), t, r. split_and!; [done| |done|done].
      unfold wire. cbn [map concat]. by rewrite <- app_assoc, Hpre.
Qed.

Lemma feed_split chunks : forall frames rest r,
  Forall fits frames -> partial rest -> partial r ->
  r ++ concat chunks = wire frames ++ rest ->
  feed chunks {| buf := r |} = (Ok frames, {| buf := rest |}).
Proof.
  induction chunks as [|chunk chunks IH]; intros frames rest r Hfits Hrest Hr Heq.
  - cbn in Heq. rewrite app_nil_r in Heq. subst r.
    pose proof (drain_wire frames rest Hfits Hrest) as Hd.
    unfold drain in Hd. cbn [buf drain_fuel] in Hd. rewrite next_frame_partial in Hd by done.
    by injection Hd as <- Hb; rewrite Hb.
  - cbn [feed concat] in *. unfold push. cbn [buf].
    destruct (split_prefix frames rest (r ++ chunk) (concat chunks) Hfits Hrest)
      as (d & t & r' & -> & Hpre & Hr' & Ht); [by rewrite <- app_assoc|].
    apply Forall_app in Hfits as [Hd Htd].
    rewrite Hpre, drain_wire by done. by rewrite (IH t rest r') by done.
Qed.

End FrameDecoder.

(** ** Codec facts *)

Section CodecFacts.
Context `{WireLib} {T : Type} `{!Serde T}.

(** A message whose postcard body fits a frame with its tag byte. *)
Definition small (msg : T) : Prop :=
  exists body, to_stdvec msg = Ok body /\ len body < MAX_FRAME.

Lemma encode_ok (msg : T) body : to_stdvec msg = Ok body -> exists packed, encode msg = Ok packed.
Proof.
  intros Hb. unfold encode. rewrite Hb. cbn [map_err result_bind].
  destruct (COMPRESS_MIN <=? len body); [|by eauto].
  destruct (zstd_compress body 3); [|by eauto]. destruct (_ <? _); by eauto.
Qed.

Lemma encode_len (msg : T) body packed :
  to_stdvec msg = Ok body -> encode msg = Ok packed -> len packed <= len body + 1.
Proof.
  intros Hb Henc. apply encode_inv in Henc as (body' & Hb' & [->|(p & -> & _ & Hp & _)]);
    rewrite Hb in Hb'; injection Hb' as <-; rewrite len_cons; lia.
Qed.

Lemma small_encode (msg : T) : small msg ->
  exists packed, encode msg = Ok packed /\ FrameDecoder.fits packed /\
    encode_frame msg = Ok (FrameDecoder.frame_bytes packed).
Proof.
  intros (body & Hb & Hlen). destruct (encode_ok msg body Hb) as [packed Hp].
  pose proof (encode_len msg body packed Hb Hp) as Hl.
  assert (Hfit : FrameDecoder.fits packed) by (unfold FrameDecoder.fits; lia).
  exists packed. split_and!; [done|done|]. unfold encode_frame. rewrite Hp. cbn [result_bind].
  unfold FrameDecoder.frame_bytes, as_u32. rewrite Z.mod_small; [done|].
  by apply FrameDecoder.fits_u32.
Qed.

Context `{!WireLibOk} `{!SerdeOk T}.

Lemma decode_small (msg : T) packed : small msg -> encode msg = Ok packed -> decode packed = Ok msg.
Proof.
  intros (body & Hb & Hlen) Henc.
  apply encode_inv in Henc as (body' & Hb' & Hp). rewrite Hb in Hb'. injection Hb' as <-.
  destruct Hp as [->|(p & -> & Hz & _)]; cbn [decode].
  - change (ENC_RAW =? ENC_RAW) with true. cbn [map_err].
    by rewrite (serde_roundtrip msg body Hb).
  - change (ENC_ZSTD =? ENC_RAW) with false. change (ENC_ZSTD =? ENC_ZSTD) with true.
    rewrite (zstd_roundtrip body 3 p MAX_FRAME Hz) by lia. cbn [map_err result_bind].
    by rewrite (serde_roundtrip msg body Hb).
Qed.

(** The stream bytes of a sequence of messages. *)
Definition encode_all (msgs : list T) : bytes :=
  concat (map (fun msg => match encode_frame msg with Ok w => w | Err _ => [] end) msgs).

Lemma encode_all_wire (msgs : list T) : Forall small msgs ->
  exists frames, encode_all msgs = FrameDecoder.wire frames /\ Forall FrameDecoder.fits frames /\
    map decode frames = map Ok msgs /\ length frames = length msgs.
Proof.
  induction 1 as [|msg msgs Hm _ (frames & Hw & Hf & Hd & Hl)]; [by exists []|].
  destruct (small_encode msg Hm) as (packed & Hp & Hfit & He).
  exists (packed :: frames). unfold encode_all, FrameDecoder.wire in *. cbn [map concat length].
  rewrite He, Hw. split_and!; [done|by constructor| |by rewrite Hl].
  rewrite (decode_small msg packed Hm Hp). by f_equal.
Qed.

End CodecFacts.

(** ** A toy codec

    Run-length coding as compression and the identity as serialization: the
    instances that show the library contracts can be met. *)

Definition rle_compress (bs : bytes) (level : Z) : result bytes unit :=
  match bs with
  | [] => Err tt
  | b :: _ => if forallb (Z.eqb b) bs then Ok [b; len bs] else Err tt
  end.

Definition rle_decompress (packed : bytes) (cap : Z) : result bytes unit :=
  match packed with
  | [b; n] => if n <=? cap then Ok (replicate (Z.to_nat n) b) else Err tt
  | _ => Err tt
  end.

Definition toy_wire : WireLib :=
  {| PostcardError := unit; IoError := unit; DeserializeUnexpectedEnd := tt;
     zstd_compress := rle_compress; zstd_decompress := rle_decompress |}.

Definition toy_serde : @Serde toy_wire bytes :=
  @Build_Serde toy_wire bytes (fun b => Ok b) (fun b => Ok b).

Lemma forallb_replicate b bs : forallb (Z.eqb b) bs = true -> bs = replicate (length bs) b.
Proof.
  induction bs as [|x bs IH]; [done|]. cbn. intros [->%Z.eqb_eq Hbs]%andb_true_iff.
  by rewrite <- IH.
Qed.

Lemma toy_wire_ok : @WireLibOk toy_wire.
Proof.
  intros src level packed cap. cbn. destruct src as [|b src]; [done|].
  unfold rle_compress. destruct (forallb (Z.eqb b) (b :: src)) eqn:Hb; [|done].
  intros [= <-] Hcap. cbn [rle_decompress]. rewrite (proj2 (Z.leb_le _ _)) by done.
  unfold len. rewrite Nat2Z.id. by rewrite <- (forallb_replicate _ _ Hb).
Qed.

Lemma toy_serde_ok : @SerdeOk toy_wire bytes toy_serde.
Proof. intros msg body. cbn. by intros [= <-]. Qed.

(** ** Properties *)

(** A frame announced longer than [MAX_FRAME] is refused as soon as its
    four length bytes are there, whatever follows and however it is chunked,
    and the error carries the announced length; the decoder's buffer is kept. *)
Theorem oversized_frame_rejected (n : Z) (rest : bytes) :
  MAX_FRAME < n < u32_modulus ->
  let d := FrameDecoder.push rest (FrameDecoder.push (to_be_bytes n) FrameDecoder.new) in
  FrameDecoder.next_frame d = (Err n, d).
Proof.
  intros [Hn Hu] d. unfold FrameDecoder.next_frame, d. cbn [FrameDecoder.push FrameDecoder.buf FrameDecoder.new app].
  replace (FrameDecoder.first_chunk4 _) with (Some (to_be_bytes n)) by reflexivity.
  unfold MAX_FRAME in *. rewrite from_to_be_bytes by lia.
  by rewrite (proj2 (Z.ltb_lt _ _)) by done.
Qed.

Lemma oversized_frame_rejected_witness :
  (FrameDecoder.next_frame {| FrameDecoder.buf := [0; 16; 0; 1; 7] |}).1 = Err 1048577.
Proof.
  pose proof (oversized_frame_rejected 1048577 [7] (conj eq_refl eq_refl)) as H.
  exact (f_equal fst H).
Defined.
