(* ===== verification/Auth.v ===== *)
(** * Server-side authentication ([server/src/auth.rs])

    The static pre-shared token with its constant-time comparison, and OIDC
    bearer tokens: key lookup with the JWKS cache, claim checks, and the one
    allowed subject.  jsonwebtoken and the HTTP client are third-party and
    enter through the classes [JwtLib] and [HttpLib]; the HTTP client threads a
    world, because two fetches of the same URL may answer differently. *)

From Stdlib Require Import Ascii.
From S2P Require Import Prelude.

Local Open Scope rust_scope.

(** ** Claims *)

Inductive Audience : Type :=
| Missing
| One (aud : string)
| Many (auds : list string).

Record Claims := {
  sub : option string;
  claim_client_id : option string;
  aud : Audience;
}.

Definition accepts (a : Audience) (expected : string) : bool :=
  match a with
  | Missing => true
  | One aud => bool_decide (aud = expected)
  | Many auds => bool_decide (auds = []) || existsb (fun aud => bool_decide (aud = expected)) auds
  end.

Definition is_empty (a : Audience) : bool :=
  match a with
  | Missing => true
  | One _ => false
  | Many auds => bool_decide (auds = [])
  end.

(** ** Third-party interfaces *)

(** The parts of jsonwebtoken the code calls; a header is its algorithm and key
    id, a validation its algorithm, issuers and [validate_aud] flag. *)
Class JwtLib := {
  JwtError : Type;
  Algorithm : Type;
  JwkSet : Type;
  Jwk : Type;
  DecodingKey : Type;
  decode_header : string -> result (Algorithm * option string) JwtError;
  jwkset_find : string -> JwkSet -> option Jwk;
  jwkset_first : JwkSet -> option Jwk;
  from_jwk : Jwk -> result DecodingKey JwtError;
  jwt_decode : string -> DecodingKey -> Algorithm * list string * bool -> result Claims JwtError;
}.

(** reqwest's two JSON fetches: a discovery document (its [jwks_uri]) and a key
    set. *)
Class HttpLib `{JwtLib} := {
  World : Type;
  HttpError : Type;
  get_jwks_uri : string -> World -> result string HttpError * World;
  get_jwks : string -> World -> result JwkSet HttpError * World;
}.

(** ** The static token *)

(** [u8] values compared without an early exit. *)
Definition constant_time_eq (a b : bytes) : bool :=
  (len a =? len b) &&
  (fold_left (fun acc '(x, y) => Z.lor acc (Z.lxor x y)) (zip a b) 0 =? 0).

(** [str::trim_end_matches('/')]. *)
Definition trim_end_slashes (s : string) : string :=
  let fix strip (cs : list Ascii.ascii) : list Ascii.ascii :=
    match cs with
    | c :: cs => if Ascii.eqb c "/"%char then strip cs else c :: cs
    | [] => []
    end in
  String.string_of_list_ascii (reverse (strip (reverse (String.list_ascii_of_string s)))).

Section Auth.
Context `{HttpLib}.

Inductive AuthError : Type :=
| Rejected
| Fetch (url : string) (source : HttpError)
| Jwt (source : JwtError)
| UnknownKey
| SubNotAllowed (subject : string)
| MissingSub
| WrongAudience
| WrongClient (client : string).

Record OidcConfig := {
  issuer : string;
  client_id : string;
  allowed_sub : string;
}.

Record Oidc := {
  config : OidcConfig;
  jwks : option JwkSet;
  warned_missing_aud : bool;
}.

Record Auth := {
  static_token : option string;
  oidc : option Oidc;
}.

Definition auth_new (token : option string) (cfg : option OidcConfig) : Auth :=
  {| static_token := token;
     oidc := (fun c => {| config := c; jwks := None; warned_missing_aud := false |}) <$> cfg |}.

(** [Auth::static_token]. *)
Definition auth_static_token (token : string) : Auth := auth_new (Some token) None.

(** [fetch_jwks]: discovery document, then the key set it names. *)
Definition fetch_jwks (c : OidcConfig) (w : World) : result JwkSet AuthError * World :=
  let discovery_url := (trim_end_slashes (issuer c) +:+ "/.well-known/openid-configuration")%string in
  match get_jwks_uri discovery_url w with
  | (Err e, w) => (Err (Fetch discovery_url e), w)
  | (Ok uri, w) =>
      match get_jwks uri w with
      | (Err e, w) => (Err (Fetch uri e), w)
      | (Ok set, w) => (Ok set, w)
      end
  end.

Definition find_key (kid : option string) (set : JwkSet) : option Jwk :=
  match kid with
  | Some kid => jwkset_find kid set
  | None => jwkset_first set
  end.

(** The loop [for fetch in [false, true]] of [decoding_key]; the cache is
    locked for its whole duration. *)
Fixpoint decoding_key_loop (fetches : list bool) (c : OidcConfig) (kid : option string)
    (cache : option JwkSet) (w : World) : result DecodingKey AuthError * option JwkSet * World :=
  match fetches with
  | [] => (Err UnknownKey, cache, w)
  | fetch :: fetches =>
      let lookup set w :=
        match find_key kid set with
        | Some jwk => (map_err Jwt (from_jwk jwk), Some set, w)
        | None => decoding_key_loop fetches c kid (Some set) w
        end in
      match cache, fetch with
      | Some set, false => lookup set w
      | _, _ =>
          match fetch_jwks c w with
          | (Err e, w) => (Err e, cache, w)
          | (Ok set, w) => lookup set w
          end
      end
  end.

Definition decoding_key (o : Oidc) (kid : option string) (w : World)
    : result DecodingKey AuthError * Oidc * World :=
  let '(r, cache, w) := decoding_key_loop [false; true] (config o) kid (jwks o) w in
  (r, {| config := config o; jwks := cache; warned_missing_aud := warned_missing_aud o |}, w).

(** The subject check that ends [Oidc::verify]: [sub], or else [client_id]. *)
Definition check_subject (c : OidcConfig) (warned : bool) (cl : Claims)
    : result unit AuthError * bool :=
  match (match sub cl with Some s => Some s | None => claim_client_id cl end) with
  | None => (Err MissingSub, warned)
  | Some subject =>
      if bool_decide (subject <> allowed_sub c) then (Err (SubNotAllowed subject), warned)
      else (Ok tt, warned)
  end.

(** The claim checks of [Oidc::verify], after the signature check; the [bool]
    is the (possibly set) warning flag. *)
Definition check_claims (c : OidcConfig) (warned : bool) (cl : Claims)
    : result unit AuthError * bool :=
  if negb (accepts (aud cl) (client_id c)) then (Err WrongAudience, warned)
  else
    match claim_client_id cl with
    | Some client =>
        if bool_decide (client <> client_id c) then (Err (WrongClient client), warned)
        else check_subject c (warned || is_empty (aud cl)) cl
    | None => check_subject c (warned || is_empty (aud cl)) cl
    end.

Definition oidc_verify (o : Oidc) (token : string) (w : World)
    : result unit AuthError * Oidc * World :=
  match decode_header token with
  | Err e => (Err (Jwt e), o, w)
  | Ok (alg, kid) =>
      match decoding_key o kid w with
      | (Err e, o, w) => (Err e, o, w)
      | (Ok key, o, w) =>
          let validation := (alg, [issuer (config o)], false) in
          match jwt_decode token key validation with
          | Err e => (Err (Jwt e), o, w)
          | Ok claims =>
              let '(r, warned) := check_claims (config o) (warned_missing_aud o) claims in
              (r, {| config := config o; jwks := jwks o; warned_missing_aud := warned |}, w)
          end
      end
  end.

(** [Auth::verify]. *)
Definition verify (a : Auth) (presented : string) (w : World)
    : result unit AuthError * Auth * World :=
  let by_oidc :=
    match oidc a with
    | None => (Err Rejected, a, w)
    | Some o =>
        let '(r, o, w) := oidc_verify o presented w in
        (r, {| static_token := static_token a; oidc := Some o |}, w)
    end in
  match static_token a with
  | Some t => if constant_time_eq (as_bytes t) (as_bytes presented) then (Ok tt, a, w) else by_oidc
  | None => by_oidc
  end.

End Auth.

(** ** The comparison is equality *)

Lemma lor_zero a b : Z.lor a b = 0 <-> a = 0 /\ b = 0.
Proof. apply Z.lor_eq_0_iff. Qed.

Lemma ct_fold_zero (ps : list (Z * Z)) : forall acc,
  fold_left (fun acc '(x, y) => Z.lor acc (Z.lxor x y)) ps acc = 0 <->
  acc = 0 /\ Forall (fun '(x, y) => x = y) ps.
Proof.
  induction ps as [|[x y] ps IH]; intros acc; cbn [fold_left].
  - split; [by intros ->|tauto].
  - rewrite IH, lor_zero, Z.lxor_eq_0_iff, Forall_cons. tauto.
Qed.

Lemma zip_eq (a b : bytes) : length a = length b ->
  Forall (fun '(x, y) => x = y) (zip a b) -> a = b.
Proof.
  revert b. induction a as [|x a IH]; intros [|y b] Hlen Hall; try done.
  inversion Hall; subst. f_equal. apply IH; [by injection Hlen|done].
Qed.

Lemma zip_refl (a : bytes) : Forall (fun '(x, y) => x = y) (zip a a).
Proof. induction a; constructor; done. Qed.

Lemma constant_time_eq_true a b : constant_time_eq a b = true <-> a = b.
Proof.
  unfold constant_time_eq. rewrite andb_true_iff, !Z.eqb_eq, ct_fold_zero. split.
  - intros [Hlen [_ Hall]]. apply zip_eq; [unfold len in Hlen; lia|done].
  - intros ->. split; [done|split; [done|apply zip_refl]].
Qed.

(** ** What the checks accept *)

Section AuthFacts.
Context `{HttpLib}.

(** The claims that identify the one allowed principal of this service. *)
Definition authorized (c : OidcConfig) (cl : Claims) : Prop :=
  (aud cl = Missing \/ aud cl = One (client_id c) \/
   (exists auds, aud cl = Many auds /\ (auds = [] \/ client_id c ∈ auds))) /\
  (claim_client_id cl = None \/ claim_client_id cl = Some (client_id c)) /\
  (sub cl = Some (allowed_sub c) \/
   (sub cl = None /\ claim_client_id cl = Some (allowed_sub c))).

Lemma accepts_spec a expected : accepts a expected = true <->
  a = Missing \/ a = One expected \/
  (exists auds, a = Many auds /\ (auds = [] \/ expected ∈ auds)).
Proof.
  destruct a as [|x|xs]; cbn [accepts].
  - naive_solver.
  - rewrite bool_decide_eq_true. naive_solver.
  - rewrite orb_true_iff, bool_decide_eq_true, existsb_exists. split.
    + intros [->|(x & Hx & ->%bool_decide_eq_true)]; [eauto 10|].
      right; right. eexists. split; [done|]. right. by apply list_elem_of_In.
    + intros [?|[?|(xs' & [= ->] & [->|Hin])]]; [done|done|by left|right].
      exists expected. rewrite <- list_elem_of_In, bool_decide_eq_true. done.
Qed.

Lemma check_subject_ok c warned cl warned' :
  check_subject c warned cl = (Ok tt, warned') <->
  warned' = warned /\
  (sub cl = Some (allowed_sub c) \/
   (sub cl = None /\ claim_client_id cl = Some (allowed_sub c))).
Proof.
  unfold check_subject. destruct (sub cl) as [s|], (claim_client_id cl) as [k|];
    try case_bool_decide; naive_solver.
Qed.

Lemma check_claims_ok c warned cl warned' :
  check_claims c warned cl = (Ok tt, warned') <->
  authorized c cl /\ warned' = warned || is_empty (aud cl).
Proof.
  unfold check_claims, authorized. rewrite <- accepts_spec.
  destruct (accepts (aud cl) (client_id c)); cbn [negb]; [|naive_solver].
  destruct (claim_client_id cl) as [k|] eqn:Hk.
  - case_bool_decide; [naive_solver|]. rewrite check_subject_ok, Hk. naive_solver.
  - rewrite check_subject_ok, Hk. naive_solver.
Qed.

Lemma oidc_verify_ok o token w o' w' :
  oidc_verify o token w = (Ok tt, o', w') <->
  exists alg kid key o1 cl,
    decode_header token = Ok (alg, kid) /\
    decoding_key o kid w = (Ok key, o1, w') /\
    jwt_decode token key (alg, [issuer (config o1)], false) = Ok cl /\
    authorized (config o1) cl /\
    o' = {| config := config o1; jwks := jwks o1;
            warned_missing_aud := warned_missing_aud o1 || is_empty (aud cl) |}.
Proof.
  unfold oidc_verify. destruct (decode_header token) as [[alg kid]|]; [|split; [done|]].
  2: by intros (? & ? & ? & ? & ? & ? & _).
  destruct (decoding_key o kid w) as [[[key|] o1] w1] eqn:Hkey; [|split; [done|]].
  2: by intros (? & ? & ? & ? & ? & [= <- <-] & Hk & _); rewrite Hkey in Hk.
  destruct (jwt_decode token key (alg, [issuer (config o1)], false)) as [cl|] eqn:Hdec; [|split; [done|]].
  2: intros (? & ? & ? & ? & ? & [= <- <-] & Hk & Hd & _); rewrite Hkey in Hk;
     injection Hk as <- <- <-; by rewrite Hdec in Hd.
  destruct (check_claims (config o1) (warned_missing_aud o1) cl) as [r warned] eqn:Hc.
  split.
  - intros [= -> <- <-]. apply check_claims_ok in Hc as [Ha ->]. by eauto 20.
  - intros (alg' & kid' & key' & o1' & cl' & [= <- <-] & Hk & Hd & Ha & ->).
    rewrite Hkey in Hk. injection Hk as <- <- <-. rewrite Hdec in Hd. injection Hd as <-.
    assert (Hc' : check_claims (config o1) (warned_missing_aud o1) cl =
      (Ok tt, warned_missing_aud o1 || is_empty (aud cl))) by by apply check_claims_ok.
    rewrite Hc in Hc'. by injection Hc' as -> ->.
Qed.

Lemma decoding_key_config o kid w r o' w' :
  decoding_key o kid w = (r, o', w') -> config o' = config o.
Proof.
  unfold decoding_key. destruct (decoding_key_loop _ _ _ _ _) as [[? ?] ?]. by intros [= <- <- <-].
Qed.

End AuthFacts.

(** ** Properties *)

Section AuthProperties.
Context `{HttpLib}.

(** C11: the server lets a presented token in exactly when it equals the static
    token, or (with OIDC configured) it is a JWT that verifies under a key of
    the issuer's key set with the configured issuer and whose claims name this
    service, this client and the allowed subject; every other outcome is an
    error.  The comparison with the static token is exact string equality.
    ([authorized] takes a token without an audience, or with an empty list of
    them, to be addressed to anybody: the documentation of the client id says
    that it must appear in [aud].) *)
Theorem verify_accepts_iff (a : Auth) (presented : string) (w : World) :
  (verify a presented w).1.1 = Ok tt <->
  static_token a = Some presented \/
  exists o alg kid key o1 w1 cl,
    oidc a = Some o /\
    decode_header presented = Ok (alg, kid) /\
    decoding_key o kid w = (Ok key, o1, w1) /\
    jwt_decode presented key (alg, [issuer (config o)], false) = Ok cl /\
    authorized (config o) cl.
Proof.
  assert (Hoidc : forall o, (oidc_verify o presented w).1.1 = Ok tt <->
    exists alg kid key o1 w1 cl, decode_header presented = Ok (alg, kid) /\
      decoding_key o kid w = (Ok key, o1, w1) /\
      jwt_decode presented key (alg, [issuer (config o)], false) = Ok cl /\
      authorized (config o) cl).
  { intros o. destruct (oidc_verify o presented w) as [[r o'] w'] eqn:Hv. cbn. split.
    - intros ->. apply oidc_verify_ok in Hv as (alg & kid & key & o1 & cl & ? & Hk & Hd & Ha & _).
      rewrite (decoding_key_config _ _ _ _ _ _ Hk) in *. by eauto 20.
    - intros (alg & kid & key & o1 & w1 & cl & Hh & Hk & Hd & Ha).
      rewrite <- (decoding_key_config _ _ _ _ _ _ Hk) in *.
      pose proof (proj2 (oidc_verify_ok o presented w _ w1)
        (ex_intro _ alg (ex_intro _ kid (ex_intro _ key (ex_intro _ o1 (ex_intro _ cl
          (conj Hh (conj Hk (conj Hd (conj Ha eq_refl)))))))))) as Hv'.
      rewrite Hv in Hv'. by injection Hv' as ->. }
  assert (Hby : (match oidc a with
                 | None => (Err Rejected, a, w)
                 | Some o => let '(r, o, w) := oidc_verify o presented w in
                             (r, {| static_token := static_token a; oidc := Some o |}, w)
                 end).1.1 = Ok tt <->
                exists o, oidc a = Some o /\ (oidc_verify o presented w).1.1 = Ok tt).
  { destruct (oidc a) as [o|]; [|split; [done|by intros (? & ? & _)]].
    destruct (oidc_verify o presented w) as [[r o'] w'] eqn:Hv. cbn. split.
    - intros ->. exists o. by rewrite Hv.
    - intros (o2 & [= <-] & Hr). by rewrite Hv in Hr. }
  setoid_rewrite Hoidc in Hby. unfold verify.
  destruct (static_token a) as [t|].
  - destruct (constant_time_eq (as_bytes t) (as_bytes presented)) eqn:Hct.
    + apply constant_time_eq_true, as_bytes_inj in Hct as ->. split; [by left|done].
    + etransitivity; [exact Hby|]. split; [by naive_solver|].
      intros [[= ->]|?]; [|naive_solver].
      by rewrite (proj2 (constant_time_eq_true _ _) eq_refl) in Hct.
  - etransitivity; [exact Hby|]. naive_solver.
Qed.

(** With a warm key cache, a key id the cached set knows is answered from
    the cache without touching the network; an unknown key id causes exactly
    one refetch, whose result replaces the cache (and is consulted once), while
    a failed refetch reports the error and keeps the old set. *)
Theorem warm_cache_lookup (o : Oidc) (set : JwkSet) (kid : option string) (w : World) :
  jwks o = Some set ->
  decoding_key o kid w =
    match find_key kid set with
    | Some jwk => (map_err Jwt (from_jwk jwk), o, w)
    | None =>
        let '(fetched, w) := fetch_jwks (config o) w in
        match fetched with
        | Err e => (Err e, o, w)
        | Ok set =>
            (match find_key kid set with
             | Some jwk => map_err Jwt (from_jwk jwk)
             | None => Err UnknownKey
             end,
             {| config := config o; jwks := Some set;
                warned_missing_aud := warned_missing_aud o |}, w)
        end
    end.
Proof.
  destruct o as [c k warned]. cbn [jwks config warned_missing_aud]. intros ->.
  unfold decoding_key. cbn [jwks config warned_missing_aud decoding_key_loop].
  destruct (find_key kid set); [done|].
  destruct (fetch_jwks c w) as [[set'|e] w']; [|done]. by destruct (find_key kid set').
Qed.

End AuthProperties.

(** A toy JWT library and an offline issuer, for the witness. *)
Definition toy_jwt : JwtLib := {|
  JwtError := unit; Algorithm := unit; JwkSet := list (string * string); Jwk := string;
  DecodingKey := string;
  decode_header := fun t => Ok (tt, Some t);
  jwkset_find := fun kid set => snd <$> head (filter (fun p => p.1 = kid) set);
  jwkset_first := fun set => snd <$> head set;
  from_jwk := fun k => Ok k;
  jwt_decode := fun _ _ _ => Err tt;
|}.

Definition toy_http : @HttpLib toy_jwt :=
  @Build_HttpLib toy_jwt nat unit (fun url n => (Ok url, S n))
    (fun url n => (Ok [("k2", "key2")]%string, S n)).

Lemma warm_cache_lookup_witness :
  let o := @Build_Oidc toy_jwt
    {| issuer := "https://id/"; client_id := "c"; allowed_sub := "u" |}
    (Some [("k1", "key1")]%string) false in
  @decoding_key toy_jwt toy_http o (Some "k2"%string) 0%nat =
    (Ok "key2"%string,
     @Build_Oidc toy_jwt (config o) (Some [("k2", "key2")]%string) false, 2%nat).
Proof.
  intros o. rewrite (@warm_cache_lookup toy_jwt toy_http o [("k1", "key1")]%string (Some "k2"%string) 0%nat).
  - reflexivity.
  - reflexivity.
Defined.
