(* ===== verification/OutboundLog.v ===== *)
(** * The outbound log ([OutboundLog] in [server/src/lib.rs])

    The replay buffer of a session: the messages the client has not
    acknowledged, the number of acknowledged ones already dropped, and the
    watched latest sequence number.  The interface [ReplayLog] states what the
    session task and the attach loop rely on, over the abstract state of a
    replay log: the whole history of pushed messages and how many of them have
    been dropped. *)

From S2P Require Import Prelude Proto.

(** ** The interface *)

Class ReplayLog (L : Type) := {
  log_push : ChannelMessage -> L -> L;
  log_after : L -> Z -> list ChannelMessage;
  log_trim : Z -> L -> L;
  log_latest : L -> Z;
  log_snapshot : L -> Z * list ChannelMessage;
  log_restore : Z -> list ChannelMessage -> L;
}.

(** The laws, relative to an abstraction [represents log hist acked]: [hist] is
    everything ever pushed, the first [acked] messages of it are dropped. *)
Class ReplayLogOk (L : Type) `{ReplayLog L} := {
  represents : L -> list ChannelMessage -> Z -> Prop;
  represents_bounds : forall l hist acked, represents l hist acked ->
    0 <= acked <= len hist /\ len hist < u64_modulus;
  represents_latest : forall l hist acked, represents l hist acked -> log_latest l = len hist;
  represents_push : forall l hist acked m, represents l hist acked ->
    len hist + 1 < u64_modulus -> represents (log_push m l) (hist ++ [m]) acked;
  represents_after : forall l hist acked n, represents l hist acked ->
    0 <= n -> log_after l n = drop (Z.to_nat (Z.max n acked)) hist;
  represents_trim : forall l hist acked n, represents l hist acked ->
    represents (log_trim n l) hist (Z.max acked (Z.min n (len hist)));
  represents_handover : forall l hist acked, represents l hist acked ->
    let '(trimmed, buffer) := log_snapshot l in
    represents (log_restore trimmed buffer) hist acked;
}.

(** ** The implementation *)

Module OutboundLog.

(** [LogEntries]: the deque and the number of dropped leading entries. *)
Record LogEntries := {
  buffer : list ChannelMessage;
  trimmed : Z;
}.

Record OutboundLog := {
  entries : LogEntries;
  latest : Z;
}.

Definition default : OutboundLog :=
  {| entries := {| buffer := []; trimmed := 0 |}; latest := 0 |}.

Definition push (message : ChannelMessage) (l : OutboundLog) : OutboundLog :=
  let buffer := buffer (entries l) ++ [message] in
  let seq := add_u64 (trimmed (entries l)) (len buffer) in
  {| entries := {| buffer := buffer; trimmed := trimmed (entries l) |}; latest := seq |}.

Definition after (l : OutboundLog) (seq : Z) : list ChannelMessage :=
  let skip := Z.to_nat (saturating_sub seq (trimmed (entries l))) in
  drop skip (buffer (entries l)).

(** The [while] loop of [trim], on the deque. *)
Fixpoint trim_loop (seq : Z) (buffer : list ChannelMessage) (trimmed : Z) : LogEntries :=
  match buffer with
  | [] => {| buffer := []; trimmed := trimmed |}
  | _ :: rest =>
      if trimmed <? seq then trim_loop seq rest (add_u64 trimmed 1)
      else {| buffer := buffer; trimmed := trimmed |}
  end.

Definition trim (seq : Z) (l : OutboundLog) : OutboundLog :=
  {| entries := trim_loop seq (buffer (entries l)) (trimmed (entries l)); latest := latest l |}.

(** [subscribe] followed by [borrow]. *)
Definition subscribe (l : OutboundLog) : Z := latest l.

Definition snapshot (l : OutboundLog) : Z * list ChannelMessage :=
  (trimmed (entries l), buffer (entries l)).

Definition restore (trimmed : Z) (buffer : list ChannelMessage) : OutboundLog :=
  let latest := add_u64 trimmed (len buffer) in
  {| entries := {| buffer := buffer; trimmed := trimmed |}; latest := latest |}.

#[global] Instance replay_log : ReplayLog OutboundLog := {
  log_push := push;
  log_after := after;
  log_trim := trim;
  log_latest := subscribe;
  log_snapshot := snapshot;
  log_restore := restore;
}.

(** ** Refinement *)

(** The abstraction: the buffer is the history without its first [acked]
    messages, and [latest] is the length of the history. *)
Record Represents (l : OutboundLog) (hist : list ChannelMessage) (acked : Z) : Prop := {
  rep_bounds : 0 <= acked <= len hist;
  rep_u64 : len hist < u64_modulus;
  rep_trimmed : trimmed (entries l) = acked;
  rep_buffer : buffer (entries l) = drop (Z.to_nat acked) hist;
  rep_latest : latest l = len hist;
}.

Lemma default_represents : Represents default [] 0.
Proof. split; done. Qed.

Lemma push_represents l hist acked m : Represents l hist acked -> len hist + 1 < u64_modulus ->
  Represents (push m l) (hist ++ [m]) acked.
Proof.
  intros [Hb Hu Ht Hbuf Hl] Hroom.
  assert (Hsnoc : len (hist ++ [m]) = len hist + 1) by (rewrite len_app; done).
  assert (Hdrop : drop (Z.to_nat acked) hist ++ [m] = drop (Z.to_nat acked) (hist ++ [m])).
  { rewrite drop_app_le; [done|]. unfold len in *. lia. }
  split; cbn [entries latest trimmed buffer push].
  - lia.
  - lia.
  - done.
  - by rewrite Hbuf.
  - rewrite Hbuf, Ht, len_app, len_drop, Hsnoc. unfold add_u64. change (len [m]) with 1.
    rewrite Z.mod_small; lia.
Qed.

Lemma after_represents l hist acked n : Represents l hist acked -> 0 <= n ->
  after l n = drop (Z.to_nat (Z.max n acked)) hist.
Proof.
  intros [Hb _ Ht Hbuf _] Hn. unfold after, saturating_sub. rewrite Ht, Hbuf, drop_drop.
  f_equal. lia.
Qed.

Lemma trim_loop_spec seq hist : forall bs acked,
  bs = drop (Z.to_nat acked) hist -> 0 <= acked <= len hist -> len hist < u64_modulus ->
  trim_loop seq bs acked =
    {| buffer := drop (Z.to_nat (Z.max acked (Z.min seq (len hist)))) hist;
       trimmed := Z.max acked (Z.min seq (len hist)) |}.
Proof.
  induction bs as [|m bs IH]; intros acked Hbs Hb Hu.
  - assert (len hist - acked <= 0).
    { pose proof (f_equal len Hbs) as Hl. len_lia. }
    cbn [trim_loop]. replace (Z.max acked (Z.min seq (len hist))) with acked by lia.
    by rewrite <- Hbs.
  - cbn [trim_loop].
    assert (Hlt : acked < len hist).
    { pose proof (f_equal len Hbs) as Hl. rewrite len_cons, len_drop in Hl.
      pose proof (len_nonneg bs). lia. }
    destruct (Z.ltb_spec acked seq).
    + no_wrap. rewrite IH; [|..|done].
      * by replace (Z.max (acked + 1) (Z.min seq (len hist)))
          with (Z.max acked (Z.min seq (len hist))) by lia.
      * replace (Z.to_nat (acked + 1)) with (S (Z.to_nat acked)) by lia.
        replace (S (Z.to_nat acked)) with (Z.to_nat acked + 1)%nat by lia.
        rewrite <- drop_drop, <- Hbs. done.
      * lia.
    + replace (Z.max acked (Z.min seq (len hist))) with acked by lia. by rewrite <- Hbs.
Qed.

Lemma trim_represents l hist acked n : Represents l hist acked ->
  Represents (trim n l) hist (Z.max acked (Z.min n (len hist))).
Proof.
  intros [Hb Hu Ht Hbuf Hl]. unfold trim. rewrite Ht, (trim_loop_spec n hist) by done.
  split; cbn [entries latest trimmed buffer]; [lia|done|done|done|done].
Qed.

Lemma handover_represents l hist acked : Represents l hist acked ->
  Represents (restore (snapshot l).1 (snapshot l).2) hist acked.
Proof.
  intros [Hb Hu Ht Hbuf Hl]. cbn [snapshot fst snd]. rewrite Ht, Hbuf.
  split; cbn [restore entries latest trimmed buffer]; try done.
  rewrite len_drop. unfold add_u64. rewrite Z.mod_small; lia.
Qed.

#[global] Instance replay_log_ok : ReplayLogOk OutboundLog.
Proof.
  refine {| represents := Represents |}.
  - intros l hist acked [? ? _ _ _]. done.
  - intros l hist acked []. done.
  - intros. by apply push_represents.
  - intros. by apply after_represents.
  - intros. by apply trim_represents.
  - intros l hist acked Hr. exact (handover_represents l hist acked Hr).
Defined.

End OutboundLog.

(** ** Properties *)

(** The operations of a replay log, as a client of the interface issues them. *)
Inductive LogOp : Type :=
| OpPush (m : ChannelMessage)
| OpTrim (seq : Z)
| OpRestart.

Section LogProperties.
Context {L : Type} `{ReplayLogOk L}.

Definition apply_op (l : L) (op : LogOp) : L :=
  match op with
  | OpPush m => log_push m l
  | OpTrim seq => log_trim seq l
  | OpRestart => let '(trimmed, buffer) := log_snapshot l in log_restore trimmed buffer
  end.

(** The specification: the history and the highest acknowledged position. *)
Definition spec_op (st : list ChannelMessage * Z) (op : LogOp) : list ChannelMessage * Z :=
  let '(hist, acked) := st in
  match op with
  | OpPush m => (hist ++ [m], acked)
  | OpTrim seq => (hist, Z.max acked (Z.min seq (len hist)))
  | OpRestart => (hist, acked)
  end.

Lemma spec_ops_len ops : forall st, len st.1 <= len (fold_left spec_op ops st).1 <= len st.1 + len ops.
Proof.
  induction ops as [|op ops IH]; intros [hist acked]; cbn [fold_left fst].
  - len_lia.
  - rewrite len_cons. specialize (IH (spec_op (hist, acked) op)).
    destruct op; cbn [spec_op fst] in IH |- *; rewrite ?len_app in IH; try lia.
    change (len [m]) with 1 in IH. lia.
Qed.

Lemma apply_ops_represents ops : forall l hist acked,
  represents l hist acked -> len hist + len ops < u64_modulus ->
  let '(hist', acked') := fold_left spec_op ops (hist, acked) in
  represents (fold_left apply_op ops l) hist' acked'.
Proof.
  induction ops as [|op ops IH]; intros l hist acked Hr Hroom; [done|].
  rewrite len_cons in Hroom. pose proof (len_nonneg ops). cbn [fold_left].
  destruct op; cbn [apply_op spec_op].
  - apply IH; [apply represents_push; [done|lia]|]. len_lia.
  - apply IH; [by apply represents_trim|lia].
  - apply IH; [|lia]. pose proof (represents_handover l hist acked Hr) as Hh.
    by destruct (log_snapshot l).
Qed.

End LogProperties.

Section OutboundLogProperties.
Import OutboundLog.

(** C9: refinement of the outbound log.  Starting from an empty log, after any
    sequence of pushes, acknowledgements (any value, also above the latest
    message) and daemon restarts, [after seq] returns exactly the messages of
    the whole history past [seq] that were not yet acknowledged, in order, and
    [latest] is the number of messages ever pushed (below 2^64). *)
Theorem outbound_log_refines (ops : list LogOp) (seq : Z) :
  len ops < u64_modulus -> 0 <= seq ->
  let l := fold_left apply_op ops OutboundLog.default in
  let '(hist, acked) := fold_left spec_op ops ([], 0) in
  OutboundLog.after l seq = drop (Z.to_nat (Z.max seq acked)) hist /\
  OutboundLog.subscribe l = len hist /\ 0 <= acked <= len hist.
Proof.
  intros Hops Hseq.
  pose proof (apply_ops_represents ops OutboundLog.default [] 0 default_represents Hops) as Hr.
  destruct (fold_left spec_op ops ([], 0)) as [hist acked]. split_and!.
  - by apply after_represents.
  - exact (represents_latest _ hist acked Hr).
  - pose proof (represents_bounds _ _ _ Hr). lia.
  - pose proof (represents_bounds _ _ _ Hr). lia.
Qed.

End OutboundLogProperties.

(** The log of the repository's unit test, restarted once. *)
Lemma outbound_log_refines_witness :
  let l := fold_left apply_op
    [OpPush (Stdout 1 [1]); OpPush (Stdout 2 [2]); OpPush (Stdout 3 [3]); OpTrim 2; OpRestart]
    OutboundLog.default in
  OutboundLog.after l 0 = [Stdout 3 [3]] /\ OutboundLog.subscribe l = 3 /\ 0 <= 2 <= 3.
Proof.
  intros l. apply (outbound_log_refines
    [OpPush (Stdout 1 [1]); OpPush (Stdout 2 [2]); OpPush (Stdout 3 [3]); OpTrim 2; OpRestart] 0).
  - reflexivity.
  - lia.
Defined.
