(* ===== verification/Session.v ===== *)
(** * Sessions and the session task ([Session], [session_task], [write_stdin],
    [abort_session] in [server/src/lib.rs])

    A [Session] is the state shared (through [Arc]) by the session task and the
    connections attached to it; a [Task] holds the local variables of
    [session_task].  One iteration of the task's [select!] loop is one
    [task_step]: the event says which branch fired and what the operating
    system answered; a disabled branch (its [if] guard is false) is no step.
    Pipes are identified by their descriptor; what the child's stdin pipe
    accepted so far is the history variable [child_stdin]. *)

From S2P Require Import Prelude Proto OutboundLog.

(** ** Data *)

(** A [pipe::Receiver]: a descriptor, or the pipe at immediate EOF that
    [restore_sessions] opens for a stream without one. *)
Inductive Receiver : Type :=
| FromFd (fd : Z)
| InstantEof.

Record SessionRecord := {
  rec_pgid : Z;
  rec_exit_code : option Z;
  rec_trimmed : Z;
  rec_buffer : list ChannelMessage;
  rec_stdin_applied : Z;
  rec_forward_agent : bool;
}.

Record SessionHandover := {
  state : SessionRecord;
  fds : list (string * Receiver);
}.

Inductive SessionInput : Type :=
| Message (m : ChannelMessage)
| Datagram (m : ChannelMessage)
| Abort
| Handover.

(** [Session].  [inbound] is the queue behind the unbounded channel and
    [inbound_closed] says that the session task (its receiver) is gone;
    [agent] is [agent.is_some()]; instants are milliseconds. *)
Record Session := {
  inbound : list SessionInput;
  inbound_closed : bool;
  log : OutboundLog.OutboundLog;
  stdin_applied : Z;
  agent : bool;
  attached : Z;
  detached_at : option Z;
  resumable : bool;
}.

Definition with_inbound (q : list SessionInput) (s : Session) : Session :=
  {| inbound := q; inbound_closed := inbound_closed s; log := log s;
     stdin_applied := stdin_applied s; agent := agent s; attached := attached s;
     detached_at := detached_at s; resumable := resumable s |}.
Definition with_closed (s : Session) : Session :=
  {| inbound := inbound s; inbound_closed := true; log := log s;
     stdin_applied := stdin_applied s; agent := agent s; attached := attached s;
     detached_at := detached_at s; resumable := resumable s |}.
Definition with_log (l : OutboundLog.OutboundLog) (s : Session) : Session :=
  {| inbound := inbound s; inbound_closed := inbound_closed s; log := l;
     stdin_applied := stdin_applied s; agent := agent s; attached := attached s;
     detached_at := detached_at s; resumable := resumable s |}.
Definition with_stdin_applied (n : Z) (s : Session) : Session :=
  {| inbound := inbound s; inbound_closed := inbound_closed s; log := log s;
     stdin_applied := n; agent := agent s; attached := attached s;
     detached_at := detached_at s; resumable := resumable s |}.
Definition with_attached (n : Z) (at_ : option Z) (s : Session) : Session :=
  {| inbound := inbound s; inbound_closed := inbound_closed s; log := log s;
     stdin_applied := stdin_applied s; agent := agent s; attached := n;
     detached_at := at_; resumable := resumable s |}.

(** [session.inbound.send(input)]: the [bool] is [is_ok()]. *)
Definition send_input (input : SessionInput) (s : Session) : Session * bool :=
  if inbound_closed s then (s, false)
  else (with_inbound (inbound s ++ [input]) s, true).

(** [SessionIo]. *)
Record SessionIo := {
  io_stdin : option Z;
  io_stdout : Receiver;
  io_stderr : Receiver;
  io_exit : Receiver;
  io_exit_code : option Z;
  io_child : bool;
  io_pgid : Z;
}.

(** The locals of [session_task]. *)
Record Task := {
  stdin : option Z;
  stdout : Receiver;
  stderr : Receiver;
  exit : Receiver;
  exit_code : option Z;
  child : bool;
  pgid : Z;
  stdout_open : bool;
  stderr_open : bool;
  exit_line : bytes;
  seq : Z;
  last_client_seq : Z;
  child_stdin : bytes;
}.

(** The prologue of [session_task]; [accepted] is what the child's stdin pipe
    took before (non-empty only after a restart). *)
Definition task_start (io : SessionIo) (s : Session) (accepted : bytes) : Task :=
  {| stdin := io_stdin io; stdout := io_stdout io; stderr := io_stderr io; exit := io_exit io;
     exit_code := io_exit_code io; child := io_child io; pgid := io_pgid io;
     stdout_open := true; stderr_open := true; exit_line := [];
     seq := OutboundLog.subscribe (log s); last_client_seq := stdin_applied s;
     child_stdin := accepted |}.

Definition with_stdin (p : option Z) (accepted : bytes) (t : Task) : Task :=
  {| stdin := p; stdout := stdout t; stderr := stderr t; exit := exit t;
     exit_code := exit_code t; child := child t; pgid := pgid t;
     stdout_open := stdout_open t; stderr_open := stderr_open t; exit_line := exit_line t;
     seq := seq t; last_client_seq := last_client_seq t; child_stdin := accepted |}.
Definition with_open (out err : bool) (t : Task) : Task :=
  {| stdin := stdin t; stdout := stdout t; stderr := stderr t; exit := exit t;
     exit_code := exit_code t; child := child t; pgid := pgid t;
     stdout_open := out; stderr_open := err; exit_line := exit_line t;
     seq := seq t; last_client_seq := last_client_seq t; child_stdin := child_stdin t |}.
Definition with_exit (code : option Z) (line : bytes) (t : Task) : Task :=
  {| stdin := stdin t; stdout := stdout t; stderr := stderr t; exit := exit t;
     exit_code := code; child := child t; pgid := pgid t;
     stdout_open := stdout_open t; stderr_open := stderr_open t; exit_line := line;
     seq := seq t; last_client_seq := last_client_seq t; child_stdin := child_stdin t |}.
Definition with_seq (n : Z) (t : Task) : Task :=
  {| stdin := stdin t; stdout := stdout t; stderr := stderr t; exit := exit t;
     exit_code := exit_code t; child := child t; pgid := pgid t;
     stdout_open := stdout_open t; stderr_open := stderr_open t; exit_line := exit_line t;
     seq := n; last_client_seq := last_client_seq t; child_stdin := child_stdin t |}.
Definition with_client_seq (n : Z) (t : Task) : Task :=
  {| stdin := stdin t; stdout := stdout t; stderr := stderr t; exit := exit t;
     exit_code := exit_code t; child := child t; pgid := pgid t;
     stdout_open := stdout_open t; stderr_open := stderr_open t; exit_line := exit_line t;
     seq := seq t; last_client_seq := n; child_stdin := child_stdin t |}.

(** ** Answers of the operating system, events and effects *)

(** [read]: [ReadOk []] is end of file. *)
Inductive ReadResult : Type :=
| ReadOk (data : bytes)
| ReadErr.

(** [write_all] and [flush]: an error may come after a written prefix. *)
Inductive WriteResult : Type :=
| WroteAll
| WroteErr (written : nat).

Inductive TaskEvent : Type :=
| StdoutRead (r : ReadResult)
| StderrRead (r : ReadResult)
| ExitRead (r : ReadResult)
| InboundRecv (w : WriteResult) (reclaim : string -> bool)
| InboundDropped.

(** What a step does besides changing the state: a message pushed to the log, a
    signal to a process group, a reaped child, the handover reply. *)
Inductive TaskEffect : Type :=
| Logged (m : ChannelMessage)
| KilledGroup (pgid : Z)
| Reaped
| Replied (h : SessionHandover).

Inductive TaskStatus : Type :=
| Running
| Returned.

(** ** The exit line *)

(** The UTF-8 encodings of [char::is_whitespace].  [from_utf8_lossy] replaces
    invalid sequences by U+FFFD, which is neither white space nor a digit, and
    UTF-8 is self-synchronizing, so trimming and parsing the lossy text is
    trimming and parsing the bytes. *)
Definition whitespace : list bytes :=
  [[9]; [10]; [11]; [12]; [13]; [32]; [194; 133]; [194; 160]; [225; 154; 128];
   [226; 128; 128]; [226; 128; 129]; [226; 128; 130]; [226; 128; 131]; [226; 128; 132];
   [226; 128; 133]; [226; 128; 134]; [226; 128; 135]; [226; 128; 136]; [226; 128; 137];
   [226; 128; 138]; [226; 128; 168]; [226; 128; 169]; [226; 128; 175]; [226; 129; 159];
   [227; 128; 128]].

Fixpoint strip_one (pats : list bytes) (bs : bytes) : option bytes :=
  match pats with
  | [] => None
  | p :: pats =>
      if bool_decide (take (length p) bs = p) then Some (drop (length p) bs) else strip_one pats bs
  end.

Fixpoint strip_all (fuel : nat) (pats : list bytes) (bs : bytes) : bytes :=
  match fuel with
  | O => bs
  | S fuel => match strip_one pats bs with Some bs => strip_all fuel pats bs | None => bs end
  end.

(** [str::trim]; each step removes a byte at least. *)
Definition trim (bs : bytes) : bytes :=
  let bs := strip_all (length bs) whitespace bs in
  reverse (strip_all (length bs) (map reverse whitespace) (reverse bs)).

Definition parse_exit_line (line : bytes) : Z := unwrap_or (parse_i32 (trim line)) 255.

(** ** One iteration of the loop *)

(** [write_stdin]: a broken pipe closes stdin for good. *)
Definition write_stdin (data : bytes) (w : WriteResult) (t : Task) : Task :=
  match stdin t with
  | None => t
  | Some fd =>
      match w with
      | WroteAll => with_stdin (Some fd) (child_stdin t ++ data) t
      | WroteErr n => with_stdin None (child_stdin t ++ take n data) t
      end
  end.

(** [abort_session]: pgid 0 is never signalled. *)
Definition abort_session (t : Task) : list TaskEffect :=
  (if 0 <? pgid t then [KilledGroup (pgid t)] else []) ++ (if child t then [Reaped] else []).

Definition push_log (m : ChannelMessage) (s : Session) : Session :=
  with_log (OutboundLog.push m (log s)) s.

(** The stdout and stderr branches, after their guard. *)
Definition pump (mk : Z -> bytes -> ChannelMessage) (closed : Task) (s : Session) (t : Task)
    (r : ReadResult) : Session * Task * list TaskEffect :=
  match r with
  | ReadOk [] | ReadErr => (s, closed, [])
  | ReadOk data =>
      let seq' := add_u64 (seq t) 1 in
      let m := mk seq' data in
      (push_log m s, with_seq seq' t, [Logged m])
  end.

Definition read_exit (t : Task) (r : ReadResult) : Task * list TaskEffect :=
  let t :=
    match r with
    | ReadOk [] | ReadErr => with_exit (Some 255) (exit_line t) t
    | ReadOk data =>
        let line := exit_line t ++ data in
        if existsb (Z.eqb 10) line then with_exit (Some (parse_exit_line line)) line t
        else with_exit (exit_code t) line t
    end in
  (t, if bool_decide (is_Some (exit_code t)) && child t then [Reaped] else []).

(** Collecting the still-open pipe ends for the fd store. *)
Definition reclaim_fds (reclaim : string -> bool) (t : Task) : list (string * Receiver) :=
  (match stdin t with
   | Some fd => if reclaim "stdin"%string then [("stdin"%string, FromFd fd)] else []
   | None => []
   end) ++
  concat (map (fun '(role, pipe, open) => if (open : bool) && reclaim role then [(role, pipe)] else [])
    [("stdout"%string, stdout t, stdout_open t);
     ("stderr"%string, stderr t, stderr_open t);
     ("exit"%string, exit t, bool_decide (exit_code t = None))]).

Definition handover_reply (reclaim : string -> bool) (s : Session) (t : Task) : SessionHandover :=
  let '(trimmed, buffer) := OutboundLog.snapshot (log s) in
  {| state := {| rec_pgid := pgid t; rec_exit_code := exit_code t; rec_trimmed := trimmed;
                 rec_buffer := buffer; rec_stdin_applied := last_client_seq t;
                 rec_forward_agent := false |};
     fds := reclaim_fds reclaim t |}.

Definition apply_client_seq (n : Z) (s : Session) (t : Task) : Session * Task :=
  (with_stdin_applied n s, with_client_seq n t).

(** One received input. *)
Definition handle_input (input : SessionInput) (w : WriteResult) (reclaim : string -> bool)
    (s : Session) (t : Task) : Session * Task * list TaskEffect * TaskStatus :=
  match input with
  | Message (Stdin n data) =>
      if last_client_seq t <? n then
        let '(s, t) := apply_client_seq n s (write_stdin data w t) in (s, t, [], Running)
      else (s, t, [], Running)
  | Datagram (Stdin n data) =>
      if n =? add_u64 (last_client_seq t) 1 then
        let '(s, t) := apply_client_seq n s (write_stdin data w t) in (s, t, [], Running)
      else (s, t, [], Running)
  | Datagram _ => (s, t, [], Running)
  | Message (StdinEof n) =>
      if last_client_seq t <? n then
        let '(s, t) := apply_client_seq n s (with_stdin None (child_stdin t) t) in (s, t, [], Running)
      else (s, t, [], Running)
  | Message _ => (s, t, [], Running)
  | Handover => (s, t, [Replied (handover_reply reclaim s t)], Returned)
  | Abort => (s, t, abort_session t, Returned)
  end.

(** The [select!] of the loop; [None] when the branch is not enabled. *)
Definition select (s : Session) (t : Task) (ev : TaskEvent)
    : option (Session * Task * list TaskEffect * TaskStatus) :=
  match ev with
  | StdoutRead r =>
      if stdout_open t then
        let '(s, t, effs) := pump Stdout (with_open false (stderr_open t) t) s t r in
        Some (s, t, effs, Running)
      else None
  | StderrRead r =>
      if stderr_open t then
        let '(s, t, effs) := pump Stderr (with_open (stdout_open t) false t) s t r in
        Some (s, t, effs, Running)
      else None
  | ExitRead r =>
      if bool_decide (exit_code t = None) then
        let '(t, effs) := read_exit t r in Some (s, t, effs, Running)
      else None
  | InboundRecv w reclaim =>
      match inbound s with
      | [] => None
      | input :: rest => Some (handle_input input w reclaim (with_inbound rest s) t)
      end
  | InboundDropped =>
      match inbound s with
      | [] => Some (s, t, abort_session t, Returned)
      | _ => None
      end
  end.

(** The check at the end of the loop body: once the code is known and both
    streams are at EOF, the Exit message is logged and the task is done. *)
Definition finish (s : Session) (t : Task) : Session * Task * list TaskEffect * TaskStatus :=
  match exit_code t with
  | Some code =>
      if negb (stdout_open t) && negb (stderr_open t) then
        let seq' := add_u64 (seq t) 1 in
        let m := Exit seq' code in
        (with_closed (push_log m s), with_seq seq' t, [Logged m], Returned)
      else (s, t, [], Running)
  | None => (s, t, [], Running)
  end.

Definition task_step (s : Session) (t : Task) (ev : TaskEvent)
    : option (Session * Task * list TaskEffect * TaskStatus) :=
  match select s t ev with
  | None => None
  | Some (s, t, effs, Returned) => Some (with_closed s, t, effs, Returned)
  | Some (s, t, effs, Running) =>
      let '(s, t, effs', status) := finish s t in Some (s, t, effs ++ effs', status)
  end.

(** ** The history of a session *)

(** The sequence number of a logged message. *)
Definition msg_seq (m : ChannelMessage) : option Z :=
  match m with
  | Stdout n _ | Stderr n _ | Exit n _ => Some n
  | _ => None
  end.

Definition is_stdio (m : ChannelMessage) : Prop :=
  match m with
  | Stdout _ _ | Stderr _ _ => True
  | _ => False
  end.

(** Entry [i] of a history carries sequence number [i + 1]. *)
Definition numbered (hist : list ChannelMessage) : Prop :=
  forall i m, hist !! i = Some m -> msg_seq m = Some (Z.of_nat i + 1).

Definition stdout_data (m : ChannelMessage) : bytes :=
  match m with Stdout _ data => data | _ => [] end.
Definition stderr_data (m : ChannelMessage) : bytes :=
  match m with Stderr _ data => data | _ => [] end.
Definition stdout_bytes (hist : list ChannelMessage) : bytes := concat (map stdout_data hist).
Definition stderr_bytes (hist : list ChannelMessage) : bytes := concat (map stderr_data hist).

Lemma stdout_bytes_app h k : stdout_bytes (h ++ k) = stdout_bytes h ++ stdout_bytes k.
Proof. unfold stdout_bytes. by rewrite map_app, concat_app. Qed.
Lemma stderr_bytes_app h k : stderr_bytes (h ++ k) = stderr_bytes h ++ stderr_bytes k.
Proof. unfold stderr_bytes. by rewrite map_app, concat_app. Qed.

Lemma numbered_nil : numbered [].
Proof. by intros i m. Qed.

Lemma numbered_snoc hist m : numbered hist -> msg_seq m = Some (len hist + 1) -> numbered (hist ++ [m]).
Proof.
  intros Hn Hm i m' [Hi|[Hi Hm']]%lookup_app_Some.
  - by apply Hn.
  - apply list_lookup_singleton_Some in Hm' as [? <-]. rewrite Hm. unfold len. f_equal. lia.
Qed.

Fixpoint logged (effs : list TaskEffect) : list ChannelMessage :=
  match effs with
  | [] => []
  | Logged m :: effs => m :: logged effs
  | _ :: effs => logged effs
  end.

Lemma logged_app xs ys : logged (xs ++ ys) = logged xs ++ logged ys.
Proof. induction xs as [|[] xs IH]; cbn [logged app]; by rewrite ?IH. Qed.

Lemma logged_abort t : logged (abort_session t) = [].
Proof. unfold abort_session. by destruct (0 <? pgid t), (child t). Qed.

(** What an event reads from the child. *)
Definition out_read (ev : TaskEvent) : bytes :=
  match ev with StdoutRead (ReadOk data) => data | _ => [] end.
Definition err_read (ev : TaskEvent) : bytes :=
  match ev with StderrRead (ReadOk data) => data | _ => [] end.

(** ** What one step does to the log *)

(** The task's view of the log: it knows the history's length and numbers new
    messages accordingly, and the shared applied counter is its own. *)
Record task_inv (hist : list ChannelMessage) (acked : Z) (s : Session) (t : Task) : Prop := {
  ti_log : OutboundLog.Represents (log s) hist acked;
  ti_seq : seq t = len hist;
  ti_numbered : numbered hist;
  ti_applied : stdin_applied s = last_client_seq t;
}.

Lemma push_log_inv hist acked s t m n : task_inv hist acked s t ->
  len hist + 1 < u64_modulus -> n = add_u64 (seq t) 1 -> msg_seq m = Some n ->
  task_inv (hist ++ [m]) acked (push_log m s) (with_seq n t).
Proof.
  intros [Hl Hs Hn Ha] Hroom -> Hm. rewrite Hs, add_u64_small in *
    by (unfold is_u64; pose proof (len_nonneg hist); lia).
  split; cbn.
  - by apply OutboundLog.push_represents.
  - by rewrite len_app.
  - by apply numbered_snoc.
  - done.
Qed.

Lemma with_inbound_inv hist acked q s t : task_inv hist acked s t -> task_inv hist acked (with_inbound q s) t.
Proof. intros []. by split. Qed.
Lemma with_closed_inv hist acked s t : task_inv hist acked s t -> task_inv hist acked (with_closed s) t.
Proof. intros []. by split. Qed.

(** The three ways a step can end. *)
Variant step_log (hist : list ChannelMessage) (t' : Task) (ev : TaskEvent)
    : list ChannelMessage -> TaskStatus -> Prop :=
| SL_quiet status : out_read ev = [] -> err_read ev = [] -> step_log hist t' ev [] status
| SL_stdio m : is_stdio m -> stdout_data m = out_read ev -> stderr_data m = err_read ev ->
    step_log hist t' ev [m] Running
| SL_exit code : out_read ev = [] -> err_read ev = [] ->
    stdout_open t' = false -> stderr_open t' = false -> exit_code t' = Some code ->
    step_log hist t' ev [Exit (len hist + 1) code] Returned.

Lemma finish_log hist acked s t s' t' effs status ev :
  task_inv hist acked s t -> len hist + 1 < u64_modulus ->
  out_read ev = [] -> err_read ev = [] ->
  finish s t = (s', t', effs, status) ->
  task_inv (hist ++ logged effs) acked s' t' /\ step_log hist t' ev (logged effs) status.
Proof.
  intros Hinv Hroom Ho He. unfold finish.
  destruct (exit_code t) as [code|] eqn:Hcode; [|].
  - destruct (stdout_open t) eqn:Hout, (stderr_open t) eqn:Herr; cbn [negb andb];
      intros [= <- <- <- <-]; cbn [logged]; rewrite ?app_nil_r; try (split; [done|by constructor]).
    pose proof (ti_seq _ _ _ _ Hinv) as Hs.
    assert (Hadd : add_u64 (seq t) 1 = len hist + 1).
    { rewrite Hs. apply add_u64_small. auto with u64. }
    split.
    + by apply with_closed_inv, push_log_inv.
    + rewrite Hadd. by constructor.
  - intros [= <- <- <- <-]. cbn [logged]. rewrite app_nil_r. split; [done|by constructor].
Qed.

Lemma finish_open s t : stdout_open t = true \/ stderr_open t = true ->
  finish s t = (s, t, [], Running).
Proof.
  unfold finish. intros [->| ->]; destruct (exit_code t); [done|done| |done].
  by rewrite andb_false_r.
Qed.

Lemma with_open_inv hist acked s t o e : task_inv hist acked s t -> task_inv hist acked s (with_open o e t).
Proof. intros []. by split. Qed.

Lemma read_exit_inv hist acked s t r : task_inv hist acked s t ->
  task_inv hist acked s (read_exit t r).1 /\ logged (read_exit t r).2 = [].
Proof.
  intros []. unfold read_exit. cbn [fst snd]. split.
  - destruct r as [[|b data]|]; [by split| |by split].
    by destruct (existsb (Z.eqb 10) (exit_line t ++ b :: data)).
  - by destruct (bool_decide _ && _).
Qed.

Lemma write_stdin_frame data w t :
  seq (write_stdin data w t) = seq t /\ last_client_seq (write_stdin data w t) = last_client_seq t /\
  exit_code (write_stdin data w t) = exit_code t /\
  stdout_open (write_stdin data w t) = stdout_open t /\
  stderr_open (write_stdin data w t) = stderr_open t.
Proof. unfold write_stdin. by destruct (stdin t), w. Qed.

Lemma handle_input_inv hist acked input w reclaim s t s' t' effs status :
  task_inv hist acked s t -> handle_input input w reclaim s t = (s', t', effs, status) ->
  task_inv hist acked s' t' /\ logged effs = [].
Proof.
  intros [Hl Hs Hn Ha].
  assert (Hok : forall n data, task_inv hist acked (with_stdin_applied n s)
                  (with_client_seq n (write_stdin data w t))).
  { intros n data. split; cbn; [done| |done|done].
    by rewrite (proj1 (write_stdin_frame data w t)). }
  destruct input as [[]|[]| |]; cbn [handle_input]; try by intros [= <- <- <- <-].
  - destruct (_ <? _); cbn; intros [= <- <- <- <-]; split; done || apply Hok.
  - destruct (_ <? _); cbn; intros [= <- <- <- <-]; (split; [by split|done]).
  - destruct (_ =? _); cbn; intros [= <- <- <- <-]; split; done || apply Hok.
  - intros [= <- <- <- <-]. split; [done|]. apply logged_abort.
Qed.

Lemma pump_inv mk closed hist acked s t r s' t' effs :
  (forall n data, msg_seq (mk n data) = Some n) ->
  task_inv hist acked s closed -> task_inv hist acked s t -> len hist + 1 < u64_modulus ->
  pump mk closed s t r = (s', t', effs) ->
  task_inv (hist ++ logged effs) acked s' t' /\
  ((t' = closed /\ effs = [] /\ (r = ReadOk [] \/ r = ReadErr)) \/
   (exists data n, r = ReadOk data /\ effs = [Logged (mk n data)] /\
     stdout_open t' = stdout_open t /\ stderr_open t' = stderr_open t)).
Proof.
  intros Hmk Hc Ht Hroom. destruct r as [[|b data]|]; cbn [pump]; intros [= <- <- <-]; cbn [logged].
  - rewrite app_nil_r. split; [done|]. left. split_and!; [done|done|by left].
  - split; [by apply push_log_inv|]. right. by eexists _, _.
  - rewrite app_nil_r. split; [done|]. left. split_and!; [done|done|by right].
Qed.

(** One step keeps the log the faithful history of what was read. *)
Lemma task_step_log hist acked s t ev s' t' effs status :
  task_inv hist acked s t -> len hist + 1 < u64_modulus ->
  task_step s t ev = Some (s', t', effs, status) ->
  task_inv (hist ++ logged effs) acked s' t' /\ step_log hist t' ev (logged effs) status.
Proof.
  intros Hinv Hroom. unfold task_step.
  assert (Hdone : forall s1 t1 effs1, task_inv hist acked s1 t1 -> logged effs1 = [] ->
    out_read ev = [] -> err_read ev = [] ->
    (let '(s, t, effs', status) := finish s1 t1 in Some (s, t, effs1 ++ effs', status)) =
      Some (s', t', effs, status) ->
    task_inv (hist ++ logged effs) acked s' t' /\ step_log hist t' ev (logged effs) status).
  { intros s1 t1 effs1 H1 He1 Ho He. destruct (finish s1 t1) as [[[s2 t2] effs2] st2] eqn:Hf.
    intros [= <- <- <- <-]. rewrite logged_app, He1. cbn [app]. by eapply finish_log. }
  destruct ev as [r|r|r|w reclaim|]; cbn [select].
  - destruct (stdout_open t) eqn:Hopen; [|done].
    destruct (pump Stdout _ s t r) as [[s1 t1] effs1] eqn:Hp.
    pose proof (pump_inv Stdout _ _ _ _ _ _ _ _ _ (fun _ _ => eq_refl) (with_open_inv _ _ _ _ _ _ Hinv) Hinv Hroom Hp)
      as [H1 [(-> & -> & Hr)|(data & n & -> & -> & Ho & He)]].
    + cbn [logged] in H1. rewrite app_nil_r in H1.
      apply Hdone; [done|done| |done]. destruct Hr as [->| ->]; reflexivity.
    + rewrite finish_open by (left; congruence). intros [= <- <- <- <-].
      split; [done|]. by constructor.
  - destruct (stderr_open t) eqn:Hopen; [|done].
    destruct (pump Stderr _ s t r) as [[s1 t1] effs1] eqn:Hp.
    pose proof (pump_inv Stderr _ _ _ _ _ _ _ _ _ (fun _ _ => eq_refl) (with_open_inv _ _ _ _ _ _ Hinv) Hinv Hroom Hp)
      as [H1 [(-> & -> & Hr)|(data & n & -> & -> & Ho & He)]].
    + cbn [logged] in H1. rewrite app_nil_r in H1.
      apply Hdone; [done|done|done|]. destruct Hr as [->| ->]; reflexivity.
    + rewrite finish_open by (right; congruence). intros [= <- <- <- <-].
      split; [done|]. by constructor.
  - case_bool_decide; [|done].
    pose proof (read_exit_inv _ _ _ _ r Hinv) as [H1 H2].
    destruct (read_exit t r) as [t1 effs1]. by apply Hdone.
  - destruct (inbound s) as [|input rest]; [done|].
    destruct (handle_input input w reclaim (with_inbound rest s) t) as [[[s1 t1] effs1] st1] eqn:Hh.
    apply (handle_input_inv hist acked) in Hh as [H1 H2]; [|by apply with_inbound_inv].
    destruct st1; [by apply Hdone|]. intros [= <- <- <- <-]. rewrite H2, app_nil_r.
    split; [by apply with_closed_inv|by constructor].
  - destruct (inbound s); [|done]. intros [= <- <- <- <-]. rewrite logged_abort, app_nil_r.
    split; [by apply with_closed_inv|by constructor].
Qed.

(** ** Runs *)

(** The life of a session: steps of its task, interleaved with what attached
    connections do to the shared state (acknowledge output, forward input). *)
Inductive Act : Type :=
| ATask (ev : TaskEvent)
| ATrim (n : Z)
| ASend (input : SessionInput).

Definition act_out (a : Act) : bytes := match a with ATask ev => out_read ev | _ => [] end.
Definition act_err (a : Act) : bytes := match a with ATask ev => err_read ev | _ => [] end.

(** A run stops when the task returns. *)
Fixpoint run (acts : list Act) (s : Session) (t : Task)
    : option (Session * Task * list TaskEffect * TaskStatus) :=
  match acts with
  | [] => Some (s, t, [], Running)
  | ATrim n :: acts => run acts (with_log (OutboundLog.trim n (log s)) s) t
  | ASend input :: acts => run acts (send_input input s).1 t
  | ATask ev :: acts =>
      match task_step s t ev with
      | None => None
      | Some (s, t, effs, Returned) =>
          match acts with [] => Some (s, t, effs, Returned) | _ => None end
      | Some (s, t, effs, Running) =>
          match run acts s t with
          | Some (s, t, effs', status) => Some (s, t, effs ++ effs', status)
          | None => None
          end
      end
  end.

(** How a history ends: only stdio while the task runs; a returned task may
    have logged one Exit, last, after both streams closed. *)
Definition well_ended (hist out : list ChannelMessage) (t : Task) (status : TaskStatus) : Prop :=
  Forall is_stdio out \/
  (status = Returned /\ exists out' code,
    out = out' ++ [Exit (len (hist ++ out') + 1) code] /\ Forall is_stdio out' /\
    stdout_open t = false /\ stderr_open t = false /\ exit_code t = Some code).

Lemma trim_inv hist acked s t n : task_inv hist acked s t ->
  task_inv hist (Z.max acked (Z.min n (len hist))) (with_log (OutboundLog.trim n (log s)) s) t.
Proof. intros [Hl ? ? ?]. split; try done. by apply OutboundLog.trim_represents. Qed.

Lemma send_input_inv hist acked s t input : task_inv hist acked s t ->
  task_inv hist acked (send_input input s).1 t.
Proof. intros Hi. unfold send_input. destruct (inbound_closed s); [done|by apply with_inbound_inv]. Qed.

Lemma step_log_facts hist t ev out status : step_log hist t ev out status ->
  stdout_bytes out = out_read ev /\ stderr_bytes out = err_read ev /\ len out <= 1 /\
  well_ended hist out t status /\ (status = Running -> Forall is_stdio out).
Proof.
  intros [st ? ?|m Hm Ho He|code ? ? ? ? ?]; unfold stdout_bytes, stderr_bytes; cbn [map concat].
  - split_and!; [done|done|done|by left|done].
  - rewrite !app_nil_r. split_and!; [done|done|done|left|intros _]; by constructor.
  - split_and!; [done|done|done| |done]. right. split; [done|]. exists [], code.
    by rewrite app_nil_r.
Qed.

Lemma run_log acts : forall hist acked s t s' t' effs status,
  task_inv hist acked s t -> len hist + len acts < u64_modulus ->
  run acts s t = Some (s', t', effs, status) ->
  (exists acked', task_inv (hist ++ logged effs) acked' s' t') /\
  stdout_bytes (logged effs) = concat (map act_out acts) /\
  stderr_bytes (logged effs) = concat (map act_err acts) /\
  well_ended hist (logged effs) t' status.
Proof.
  induction acts as [|a acts IH]; intros hist acked s t s' t' effs status Hinv Hroom.
  { intros [= <- <- <- <-]. cbn [logged]. rewrite app_nil_r.
    split_and!; [by exists acked|done|done|left; constructor]. }
  rewrite len_cons in Hroom. pose proof (len_nonneg acts). destruct a as [ev|n|input]; cbn [run].
  - destruct (task_step s t ev) as [[[[s1 t1] effs1] st1]|] eqn:Hstep; [|done].
    apply (task_step_log hist acked) in Hstep as [H1 Hlog]; [|done|lia].
    apply step_log_facts in Hlog as (Ho & He & Hlen & Hend & Hrun).
    destruct st1.
    + destruct (run acts s1 t1) as [[[[s2 t2] effs2] st2]|] eqn:Hr; [|done].
      intros [= <- <- <- <-].
      apply (IH (hist ++ logged effs1) acked) in Hr as (Ha & Ho2 & He2 & Hend2); [|done|].
      2: { rewrite len_app. lia. }
      rewrite logged_app, stdout_bytes_app, stderr_bytes_app, Ho, He, Ho2, He2.
      split_and!; [by rewrite app_assoc|done|done|].
      destruct Hend2 as [Hs|(-> & out & code & Hout & Hs & Hc)].
      * left. apply Forall_app. auto.
      * right. split; [done|]. exists (logged effs1 ++ out), code.
        rewrite Hout, <- !app_assoc, app_assoc. split; [by rewrite !app_assoc|].
        split; [apply Forall_app; auto|done].
    + destruct acts; [|done]. intros [= <- <- <- <-]. cbn [map concat act_out act_err].
      rewrite !app_nil_r. split_and!; [by exists acked|done|done|done].
  - intros Hr. eapply IH in Hr; [exact Hr|by apply trim_inv|lia].
  - intros Hr. eapply IH in Hr; [exact Hr|by apply send_input_inv|lia].
Qed.

(** ** The exit line *)

Lemma strip_one_digit b bs : is_digit_byte b ->
  strip_one whitespace (b :: bs) = None /\ strip_one (map reverse whitespace) (b :: bs) = None.
Proof.
  intros Hb. unfold is_digit_byte in Hb.
  assert (Hgen : forall pats, Forall (fun p => exists x p', p = x :: p' /\ (x < 48 \/ 57 < x)) pats ->
    strip_one pats (b :: bs) = None).
  { induction 1 as [|p pats (x & p' & -> & Hx) _ IH]; [done|]. cbn [strip_one length take].
    case_bool_decide as Heq; [|done]. injection Heq as -> _. lia. }
  split; apply Hgen; cbn; repeat (apply List.Forall_cons; [eexists _, _; split; [reflexivity|lia]|]);
    apply List.Forall_nil.
Qed.

Lemma strip_all_digit fuel b bs : is_digit_byte b ->
  strip_all fuel whitespace (b :: bs) = b :: bs /\
  strip_all fuel (map reverse whitespace) (b :: bs) = b :: bs.
Proof.
  intros Hb. destruct (strip_one_digit b bs Hb) as [H1 H2].
  destruct fuel; [done|]. cbn [strip_all]. by rewrite H1, H2.
Qed.

Lemma trim_digits_newline ds : ds <> [] -> Forall is_digit_byte ds -> trim (ds ++ [10]) = ds.
Proof.
  intros Hne Hds. unfold trim.
  destruct ds as [|d ds']; [done|]. inversion Hds as [|? ? Hd Hds']; subst.
  cbn [app]. rewrite (proj1 (strip_all_digit _ d _ Hd)).
  replace (d :: ds' ++ [10]) with ((d :: ds') ++ [10]) by done.
  rewrite reverse_app. change (reverse [10]) with [10]. cbn [app].
  cbn [length strip_all].
  replace (strip_one (map reverse whitespace) (10 :: reverse (d :: ds')))
    with (Some (reverse (d :: ds'))) by reflexivity.
  destruct (reverse (d :: ds')) as [|e es] eqn:Hr.
  { apply (f_equal length) in Hr. rewrite length_reverse in Hr. done. }
  assert (He : is_digit_byte e).
  { assert (He : e ∈ reverse (d :: ds')) by (rewrite Hr; left).
    rewrite elem_of_reverse in He. rewrite Forall_forall in Hds. by apply Hds. }
  rewrite (proj2 (strip_all_digit _ e es He)), <- Hr. apply reverse_involutive.
Qed.

Lemma parse_exit_line_dec n : 0 <= n < 2 ^ 31 -> parse_exit_line (dec_bytes n ++ [10]) = n.
Proof.
  intros Hn. destruct (dec_bytes_spec n) as (Hne & Hds & _); [lia|].
  unfold parse_exit_line. by rewrite trim_digits_newline, parse_i32_dec.
Qed.

Lemma existsb_newline_digits ds : Forall is_digit_byte ds -> existsb (Z.eqb 10) ds = false.
Proof.
  induction 1 as [|d ds Hd _ IH]; [done|]. cbn [existsb]. rewrite IH, orb_false_r.
  apply Z.eqb_neq. unfold is_digit_byte in Hd. lia.
Qed.

(** Reading the exit pipe until the code is known (the branch's guard). *)
Definition read_exits (t : Task) (chunks : list bytes) : Task :=
  fold_left (fun t chunk => if bool_decide (exit_code t = None) then (read_exit t (ReadOk chunk)).1 else t)
    chunks t.

Lemma read_exits_line chunks : forall pre t ds,
  exit_code t = None -> exit_line t = pre -> Forall is_digit_byte ds ->
  Forall (fun c => c <> []) chunks -> pre ++ concat chunks = ds ++ [10] ->
  existsb (Z.eqb 10) pre = false ->
  exit_code (read_exits t chunks) = Some (parse_exit_line (ds ++ [10])).
Proof.
  induction chunks as [|c chunks IH]; intros pre t ds Hnone Hline Hds Hne Heq Hpre.
  { cbn [concat] in Heq. rewrite app_nil_r in Heq. rewrite Heq, existsb_app in Hpre.
    by apply orb_false_iff in Hpre as [_ ?]. }
  inversion Hne as [|? ? Hc Hne']; subst. cbn [read_exits fold_left].
  rewrite bool_decide_eq_true_2 by done. unfold read_exit. cbn [fst].
  destruct c as [|b c]; [done|]. cbn [concat] in Heq. rewrite app_assoc in Heq.
  destruct (existsb (Z.eqb 10) (exit_line t ++ b :: c)) eqn:Hnl.
  - assert (chunks = []) as ->.
    { destruct chunks as [|c2 chunks]; [done|exfalso].
      inversion Hne' as [|? ? Hc2 _]; subst. destruct c2 as [|b2 c2]; [done|].
      cbn [concat] in Heq. destruct (app_eq_inv _ _ _ _ Heq) as [(k & Hk & Hk2)|(k & Hk & Hk2)].
      - destruct k as [|? [|? ?]]; try discriminate.
        + rewrite app_nil_r in Hk. rewrite Hk in Hnl.
          by rewrite existsb_newline_digits in Hnl.
      - assert (Hd : existsb (Z.eqb 10) (ds) = false) by by apply existsb_newline_digits.
        rewrite Hk, existsb_app in Hd. by rewrite Hnl in Hd. }
    cbn [concat] in Heq. rewrite app_nil_r in Heq. cbn. by rewrite Heq.
  - fold (read_exits (with_exit (exit_code t) (exit_line t ++ b :: c) t) chunks).
    by apply (IH (exit_line t ++ b :: c)).
Qed.
