(* ===== verification/Exec.v ===== *)
(** * Starting sessions ([start_session], [session_environment],
    [new_resume_token] in [server/src/lib.rs])

    The spawned command with its environment, the fresh session and the locals
    its task starts with, and the resume token; then the properties of a whole
    session run from its start. *)

From S2P Require Import Prelude Proto OutboundLog Session.

(** ** The command *)

(** The wrapper script; [quoted w] is [w] between double quotes. *)
Definition quoted (w : string) : string := of_bytes [34] +:+ w +:+ of_bytes [34].

Definition WRAPPER : string :=
  quoted "$0" +:+ " -c " +:+ quoted "$1" +:+ " 3>&-; echo " +:+ quoted "$?" +:+ " >&3".

(** The argument vector of the wrapped command. *)
Definition command_line (shell command : string) : list string :=
  ["/bin/sh"; "-c"; WRAPPER; shell; command]%string.

(** [str::starts_with]. *)
Definition starts_with (prefix s : string) : bool := String.prefix prefix s.

Definition inherited (key : string) : bool :=
  bool_decide (key = "LANG"%string) || bool_decide (key = "TZ"%string) || starts_with "LC_" key.

(** [session_environment]: [user] is the passwd entry (name and home
    directory), [vars] the daemon's own environment, all of it Unicode
    ([std::env::vars] panics otherwise). *)
Definition session_environment (shell : string) (path : option string)
    (user : option (string * string)) (vars : list (string * string)) : gmap string string :=
  let env : gmap string string := ∅ in
  let env := <["SHELL"%string := shell]> env in
  let env := <["PATH"%string := unwrap_or path "/usr/bin:/bin"%string]> env in
  let env :=
    match user with
    | Some (name, dir) => <["HOME"%string := dir]> (<["LOGNAME"%string := name]> (<["USER"%string := name]> env))
    | None => env
    end in
  fold_left (fun env '(key, value) => if inherited key then <[key := value]> env else env) vars env.

(** The environment of the child: the above, the configured overrides, and the
    agent socket when forwarding. *)
Definition child_environment (shell : string) (path : option string)
    (user : option (string * string)) (vars session_env : list (string * string))
    (socket_path : option string) : gmap string string :=
  let env := session_environment shell path user vars in
  let env := fold_left (fun env '(key, value) => <[key := value]> env) session_env env in
  match socket_path with
  | Some path => <["SSH_AUTH_SOCK"%string := path]> env
  | None => env
  end.

(** ** The session *)

(** [u32 as i32]. *)
Definition as_i32 (n : Z) : Z :=
  let n := n mod u32_modulus in if n <? 2 ^ 31 then n else n - u32_modulus.

(** The state [start_session] creates around the spawned child: the parent's
    pipe ends, the child's process id and the current instant. *)
Definition start_session (stdin_write stdout_read stderr_read exit_read : Z)
    (child_id : option Z) (resumable agent : bool) (now : Z) : Session * Task :=
  let io := {| io_stdin := Some stdin_write; io_stdout := FromFd stdout_read;
               io_stderr := FromFd stderr_read; io_exit := FromFd exit_read;
               io_exit_code := None; io_child := true;
               io_pgid := as_i32 (unwrap_or child_id 0) |} in
  let session := {| inbound := []; inbound_closed := false; log := OutboundLog.default;
                    stdin_applied := 0; agent := agent; attached := 0;
                    detached_at := Some now; resumable := resumable |} in
  (session, task_start io session []).

(** [new_resume_token] with the value its counter had; and the counter after. *)
Definition new_resume_token (pid nanos counter : Z) : string * Z :=
  ((dec_string pid +:+ "-" +:+ dec_string nanos +:+ "-" +:+ dec_string counter)%string,
   add_u64 counter 1).

Lemma fresh_inv a b c d pid resumable agent now :
  let '(s, t) := start_session a b c d pid resumable agent now in task_inv [] 0 s t.
Proof. split; [apply OutboundLog.default_represents|done|apply numbered_nil|done]. Qed.

(** ** Facts about the environment *)

Definition well_known (key : string) : Prop :=
  key ∈ ["SHELL"; "PATH"; "USER"; "LOGNAME"; "HOME"]%string.

Lemma fold_inherited_dom vars : forall (env : gmap string string) key,
  is_Some (fold_left (fun env '(key, value) => if inherited key then <[key := value]> env else env)
    vars env !! key) -> is_Some (env !! key) \/ (inherited key = true /\ key ∈ map fst vars).
Proof.
  induction vars as [|[k v] vars IH]; intros env key; cbn [fold_left map fst]; [by left|].
  intros [H|[Hi Hin]]%IH; [|by right; split; [done|right]].
  destruct (inherited k) eqn:Hk; [|by left].
  destruct (decide (k = key)) as [->|Hne]; [right; split; [done|left]|left].
  by rewrite lookup_insert_ne in H.
Qed.

Lemma fold_insert_dom kvs : forall (env : gmap string string) key,
  is_Some (fold_left (fun env '(key, value) => <[key := value]> env) kvs env !! key) ->
  is_Some (env !! key) \/ key ∈ map fst kvs.
Proof.
  induction kvs as [|[k v] kvs IH]; intros env key; cbn [fold_left map fst]; [by left|].
  intros [H|Hin]%IH; [|by right; right].
  destruct (decide (k = key)) as [->|Hne]; [right; left|left].
  by rewrite lookup_insert_ne in H.
Qed.

Lemma insert_dom (env : gmap string string) k v key :
  is_Some (<[k := v]> env !! key) -> key = k \/ is_Some (env !! key).
Proof.
  destruct (decide (k = key)) as [->|Hne]; [by left|]. rewrite lookup_insert_ne by done. by right.
Qed.

Lemma session_environment_dom shell path user vars key :
  is_Some (session_environment shell path user vars !! key) ->
  well_known key \/ (inherited key = true /\ key ∈ map fst vars).
Proof.
  unfold session_environment. intros [H|H]%fold_inherited_dom; [left|by right].
  unfold well_known. destruct user as [[name dir]|];
    repeat (apply insert_dom in H as [->|H]; [set_solver|]); by rewrite lookup_empty in H; destruct H.
Qed.

(** ** Properties *)

(** C16: the session's child sees no variable of the daemon beyond the locale:
    every variable of its environment is one of the identity variables, a
    locale or time-zone variable the daemon has, a configured override, or the
    agent socket (only when forwarding). *)
Theorem child_environment_confined (shell : string) (path : option string)
    (user : option (string * string)) (vars session_env : list (string * string))
    (socket_path : option string) (key : string) :
  is_Some (child_environment shell path user vars session_env socket_path !! key) ->
  key ∈ ["SHELL"; "PATH"; "USER"; "LOGNAME"; "HOME"]%string \/
  ((key = "LANG"%string \/ key = "TZ"%string \/ starts_with "LC_" key = true) /\ key ∈ map fst vars) \/
  key ∈ map fst session_env \/
  (key = "SSH_AUTH_SOCK"%string /\ is_Some socket_path).
Proof.
  assert (Hbase : is_Some (fold_left (fun env '(key, value) => <[key := value]> env) session_env
                    (session_environment shell path user vars) !! key) ->
    well_known key \/ (inherited key = true /\ key ∈ map fst vars) \/ key ∈ map fst session_env).
  { intros [H|H]%fold_insert_dom; [|by auto]. apply session_environment_dom in H. tauto. }
  assert (Hinh : inherited key = true ->
    key = "LANG"%string \/ key = "TZ"%string \/ starts_with "LC_" key = true).
  { unfold inherited. rewrite !orb_true_iff, !bool_decide_eq_true. tauto. }
  unfold child_environment. destruct socket_path as [sock|].
  - intros [->|H]%insert_dom; [right; right; right; by eauto|]. apply Hbase in H. unfold well_known in H. tauto.
  - intros H%Hbase. unfold well_known in H. tauto.
Qed.

Lemma child_environment_confined_witness :
  let env := child_environment "/bin/sh" None (Some ("joerg", "/home/joerg"))%string
    [("LANG", "C"); ("NOTIFY_SOCKET", "/run/n")]%string [] None in
  env !! "NOTIFY_SOCKET"%string = None /\
  ("LANG"%string ∈ ["SHELL"; "PATH"; "USER"; "LOGNAME"; "HOME"]%string \/
   (("LANG"%string = "LANG"%string \/ "LANG"%string = "TZ"%string \/ starts_with "LC_" "LANG" = true) /\
    "LANG"%string ∈ map fst [("LANG", "C"); ("NOTIFY_SOCKET", "/run/n")]%string) \/
   "LANG"%string ∈ map fst (@nil (string * string)) \/
   ("LANG"%string = "SSH_AUTH_SOCK"%string /\ is_Some (@None string))).
Proof.
  intros env. split; [vm_compute; reflexivity|].
  apply (child_environment_confined "/bin/sh" None (Some ("joerg", "/home/joerg"))%string
    [("LANG", "C"); ("NOTIFY_SOCKET", "/run/n")]%string [] None "LANG"%string).
  exists "C"%string. vm_compute. reflexivity.
Defined.

(** Two resume tokens are equal only if they come from the same process id,
    clock reading and counter value, so the tokens one process hands out are
    pairwise different as long as its 64-bit counter has not wrapped. *)
Theorem resume_token_injective (p1 n1 c1 p2 n2 c2 : Z) :
  0 <= p1 -> 0 <= n1 -> 0 <= c1 -> 0 <= p2 -> 0 <= n2 -> 0 <= c2 ->
  (new_resume_token p1 n1 c1).1 = (new_resume_token p2 n2 c2).1 ->
  p1 = p2 /\ n1 = n2 /\ c1 = c2.
Proof.
  intros Hp1 Hn1 Hc1 Hp2 Hn2 Hc2 Heq. cbn [new_resume_token fst] in Heq.
  apply (f_equal as_bytes) in Heq. rewrite !as_bytes_app, !as_bytes_dec_string in Heq by done.
  change (as_bytes "-") with [45] in Heq. cbn [app] in Heq.
  assert (Hd : ~ is_digit_byte 45) by (unfold is_digit_byte; lia).
  apply (app_sep_inj is_digit_byte) in Heq as [Hp Heq];
    [|done|by apply dec_bytes_spec|by apply dec_bytes_spec].
  apply (app_sep_inj is_digit_byte) in Heq as [Hn Hc];
    [|done|by apply dec_bytes_spec|by apply dec_bytes_spec].
  by split_and!; apply dec_bytes_inj.
Qed.

(** C6: whatever a session's child prints is logged losslessly.  For every
    interleaving of task steps with acknowledgements and forwarded input from
    attached connections, the messages logged since the start are numbered
    1, 2, 3, ...; their stdout data is exactly what was read from stdout, their
    stderr data exactly what was read from stderr; [after n] replays exactly
    those past [n] that are not acknowledged; and an Exit is logged only by the
    task's last step, as the last message, after both streams reached EOF. *)
Theorem session_output_lossless (a b c d : Z) (pid : option Z) (resumable agent : bool) (now : Z)
    (acts : list Act) (s' : Session) (t' : Task) (effs : list TaskEffect) (status : TaskStatus) :
  len acts < u64_modulus ->
  (let '(s, t) := start_session a b c d pid resumable agent now in run acts s t)
    = Some (s', t', effs, status) ->
  let out := logged effs in
  numbered out /\
  stdout_bytes out = concat (map act_out acts) /\
  stderr_bytes out = concat (map act_err acts) /\
  (exists acked, 0 <= acked <= len out /\
     forall n, 0 <= n -> OutboundLog.after (log s') n = drop (Z.to_nat (Z.max n acked)) out) /\
  (Forall is_stdio out \/
   (status = Returned /\ exists out' code, out = out' ++ [Exit (len out' + 1) code] /\
      Forall is_stdio out' /\ stdout_open t' = false /\ stderr_open t' = false)).
Proof.
  intros Hlen Hrun. pose proof (fresh_inv a b c d pid resumable agent now) as Hinv.
  destruct (start_session a b c d pid resumable agent now) as [s t].
  eapply run_log in Hrun as ((acked & Hi) & Ho & He & Hend); [|exact Hinv|done].
  cbn [app] in Hi. split_and!; [apply Hi|done|done| |].
  - exists acked. split; [apply (ti_log _ _ _ _ Hi)|]. intros n Hn.
    apply OutboundLog.after_represents; [apply Hi|done].
  - destruct Hend as [?|(? & out' & code & ? & ? & ? & ? & _)]; [by left|right]. by eauto 10.
Qed.

Lemma session_output_lossless_witness :
  let acts := [ATask (StdoutRead (ReadOk [104; 105])); ATrim 1; ATask (StderrRead (ReadOk [33]));
    ATask (ExitRead (ReadOk [51; 10])); ATask (StdoutRead (ReadOk [])); ATask (StderrRead ReadErr)] in
  exists s' t', (let '(s, t) := start_session 4 5 6 7 (Some 100) true false 0 in run acts s t)
    = Some (s', t', [Logged (Stdout 1 [104; 105]); Logged (Stderr 2 [33]); Reaped; Logged (Exit 3 3)],
            Returned) /\
  stdout_bytes [Stdout 1 [104; 105]; Stderr 2 [33]; Exit 3 3] = concat (map act_out acts).
Proof.
  intros acts. eexists _, _. split; [reflexivity|].
  refine (proj1 (proj2 (session_output_lossless 4 5 6 7 (Some 100) true false 0 acts _ _
    [Logged (Stdout 1 [104; 105]); Logged (Stderr 2 [33]); Reaped; Logged (Exit 3 3)] Returned _ _))).
  - reflexivity.
  - reflexivity.
Defined.

(** C15: the exit code survives any fragmentation of the wrapper's report: if
    the pipe delivers the decimal code and a newline in any non-empty pieces,
    the task ends up with exactly that code. *)
Theorem exit_code_any_chunking (t : Task) (code : Z) (chunks : list bytes) :
  0 <= code < 2 ^ 31 -> exit_code t = None -> exit_line t = [] ->
  Forall (fun chunk => chunk <> []) chunks -> concat chunks = dec_bytes code ++ [10] ->
  exit_code (read_exits t chunks) = Some code.
Proof.
  intros Hcode Hnone Hline Hne Hcat.
  rewrite (read_exits_line chunks [] t (dec_bytes code)); try done.
  - by rewrite parse_exit_line_dec.
  - apply dec_bytes_spec. lia.
Qed.

Lemma exit_code_any_chunking_witness :
  exit_code (read_exits (start_session 4 5 6 7 (Some 100) true false 0).2 [[49]; [51; 55]; [10]]) = Some 137.
Proof.
  apply (exit_code_any_chunking (start_session 4 5 6 7 (Some 100) true false 0).2 137).
  - lia.
  - reflexivity.
  - reflexivity.
  - repeat constructor; discriminate.
  - reflexivity.
Defined.
