(* ===== verification/Channel.v ===== *)
(** * Transports ([server/src/channel.rs] and [client/src/channel.rs])

    The receive side of both connection types: WebSocket messages, or a QUIC
    stream reassembled by the frame decoder together with its datagrams.  What
    the transport library delivers is a list of items; a receive that has used
    up the items is pending and keeps the decoder's state, which is what a
    dropped [next()] future leaves behind.  tokio-tungstenite and quinn are
    third-party: only their answers occur. *)

From S2P Require Import Prelude Proto.

Local Open Scope rust_scope.

(** Error types of the transport libraries. *)
Class TransportLib := {
  WsError : Type;
  QuicError : Type;
}.

(** ** What the libraries deliver *)

Section Items.
Context `{TransportLib}.

(** The results of [ws.next()]; [WsOther] is a ping, pong or text message. *)
Inductive WsItem : Type :=
| WsBinary (bs : bytes)
| WsClose
| WsOther
| WsFailed (e : WsError)
| WsEnded.

(** The branch [select!] took, with the answer of [read_chunk] or
    [read_datagram]. *)
Inductive QuicItem : Type :=
| Chunk (bs : bytes)
| StreamEnded
| StreamFailed (e : QuicError)
| DatagramRead (bs : bytes)
| DatagramFailed (e : QuicError).

Inductive Items : Type :=
| WsItems (items : list WsItem)
| QuicItems (decoder : FrameDecoder.FrameDecoder) (items : list QuicItem).

End Items.

(** ** The server side *)

Module Server.
Section Server.
Context `{TransportLib}.

(** The error a failed transport reports: [WebSocket], or an I/O error made of
    a quinn error or of an oversized frame. *)
Inductive TransportError : Type :=
| WebSocketError (e : WsError)
| IoQuic (e : QuicError)
| IoOversizedFrame (n : Z).

Inductive Event : Type :=
| Frame (bs : bytes)
| Datagram (bs : bytes)
| Closed
| Failed (e : TransportError).

Fixpoint next_ws (items : list WsItem) : option Event * list WsItem :=
  match items with
  | [] => (None, [])
  | WsBinary bs :: items => (Some (Frame bs), items)
  | WsClose :: items | WsEnded :: items => (Some Closed, items)
  | WsOther :: items => next_ws items
  | WsFailed e :: items => (Some (Failed (WebSocketError e)), items)
  end.

(** Each turn of the loop first asks the decoder, then reads one item. *)
Fixpoint next_quic (d : FrameDecoder.FrameDecoder) (items : list QuicItem)
    : option Event * FrameDecoder.FrameDecoder * list QuicItem :=
  match FrameDecoder.next_frame d with
  | (Ok (Some frame), d) => (Some (Frame frame), d, items)
  | (Err n, d) => (Some (Failed (IoOversizedFrame n)), d, items)
  | (Ok None, d) =>
      match items with
      | [] => (None, d, [])
      | Chunk bs :: items => next_quic (FrameDecoder.push bs d) items
      | StreamEnded :: items => (Some Closed, d, items)
      | StreamFailed e :: items => (Some (Failed (IoQuic e)), d, items)
      | DatagramRead bs :: items => (Some (Datagram bs), d, items)
      | DatagramFailed e :: items => (Some (Failed (IoQuic e)), d, items)
      end
  end.

(** [Channel::next]; [None] while the future is pending. *)
Definition next (ch : Items) : option Event * Items :=
  match ch with
  | WsItems items => let '(ev, items) := next_ws items in (ev, WsItems items)
  | QuicItems d items => let '(ev, d, items) := next_quic d items in (ev, QuicItems d items)
  end.

Definition needs_ping (ch : Items) : bool :=
  match ch with WsItems _ => true | QuicItems _ _ => false end.

Context `{WireLib} {T : Type} `{!Serde T}.

(** [Channel::recv]: one message of the handshake; datagrams are skipped.  The
    fuel bounds the events skipped. *)
Inductive RecvError : Type :=
| RecvProtocol (e : ProtocolError)
| RecvHandshakeClosed
| RecvFailed (e : TransportError).

Fixpoint recv_fuel (fuel : nat) (ch : Items) : option (result T RecvError) * Items :=
  match fuel with
  | O => (None, ch)
  | S fuel =>
      match next ch with
      | (None, ch) => (None, ch)
      | (Some (Frame bs), ch) => (Some (map_err RecvProtocol (decode bs)), ch)
      | (Some (Datagram _), ch) => recv_fuel fuel ch
      | (Some Closed, ch) => (Some (Err RecvHandshakeClosed), ch)
      | (Some (Failed e), ch) => (Some (Err (RecvFailed e)), ch)
      end
  end.

(** Every skipped datagram uses up one item. *)
Definition recv (ch : Items) : option (result T RecvError) * Items :=
  recv_fuel (S (match ch with WsItems items => length items | QuicItems _ items => length items end)) ch.

End Server.
End Server.

(** ** The client side *)

Module Client.
Section Client.
Context `{TransportLib}.

Inductive Event : Type :=
| Frame (bs : bytes)
| Datagram (bs : bytes)
| Disconnected.

Fixpoint next_ws (items : list WsItem) : option Event * list WsItem :=
  match items with
  | [] => (None, [])
  | WsBinary bs :: items => (Some (Frame bs), items)
  | WsClose :: items | WsEnded :: items | WsFailed _ :: items => (Some Disconnected, items)
  | WsOther :: items => next_ws items
  end.

Fixpoint next_quic (d : FrameDecoder.FrameDecoder) (items : list QuicItem)
    : option Event * FrameDecoder.FrameDecoder * list QuicItem :=
  match FrameDecoder.next_frame d with
  | (Ok (Some frame), d) => (Some (Frame frame), d, items)
  | (Err _, d) => (Some Disconnected, d, items)
  | (Ok None, d) =>
      match items with
      | [] => (None, d, [])
      | Chunk bs :: items => next_quic (FrameDecoder.push bs d) items
      | StreamEnded :: items | StreamFailed _ :: items => (Some Disconnected, d, items)
      | DatagramRead bs :: items => (Some (Datagram bs), d, items)
      | DatagramFailed _ :: items => (Some Disconnected, d, items)
      end
  end.

(** [Conn::next]: transport failures surface as [Disconnected]. *)
Definition next (ch : Items) : option Event * Items :=
  match ch with
  | WsItems items => let '(ev, items) := next_ws items in (ev, WsItems items)
  | QuicItems d items => let '(ev, d, items) := next_quic d items in (ev, QuicItems d items)
  end.

Definition needs_ping (ch : Items) : bool :=
  match ch with WsItems _ => true | QuicItems _ _ => false end.

End Client.
End Client.

(** [send_duplicate] of both sides: the datagram sent [DUPLICATE_DELAY] later,
    if any. *)
Definition DUPLICATE_DELAY : Z := 3.

Definition send_duplicate `{WireLib} `{!Serde ChannelMessage} (quic : bool) (msg : ChannelMessage)
    : option bytes :=
  if quic then
    if worth_duplicating msg then result_ok (encode msg) else None
  else None.

(** ** Facts *)

Section ChannelFacts.
Context `{TransportLib}.

(** The client sees the server's events with every failure as a disconnect. *)
Definition to_client (ev : Server.Event) : Client.Event :=
  match ev with
  | Server.Frame bs => Client.Frame bs
  | Server.Datagram bs => Client.Datagram bs
  | Server.Closed | Server.Failed _ => Client.Disconnected
  end.

(** Nothing but control frames (pings, pongs) and text arrives on a WebSocket:
    neither side's receive ever returns. *)
Definition only_control (items : list WsItem) : Prop := Forall (fun item => item = WsOther) items.

Lemma next_control items : only_control items ->
  Server.next (WsItems items) = (None, WsItems []) /\ Client.next (WsItems items) = (None, WsItems []).
Proof. induction 1 as [|item items -> _ IH]; [done|exact IH]. Qed.

Lemma client_next_quic items : forall d,
  Client.next_quic d items =
    (let '(ev, d, items) := Server.next_quic d items in (to_client <$> ev, d, items)).
Proof.
  induction items as [|it items IH]; intros d; cbn [Client.next_quic Server.next_quic];
    destruct (FrameDecoder.next_frame d) as [[[f|]|n] d1]; try done.
  by destruct it.
Qed.

Lemma next_frame_none d d1 : FrameDecoder.next_frame d = (Ok None, d1) -> d1 = d.
Proof.
  unfold FrameDecoder.next_frame. destruct (FrameDecoder.first_chunk4 _); [|congruence].
  destruct (_ <? _); [congruence|]. destruct (_ <? _); congruence.
Qed.

(** Resuming a pending receive with more items is receiving from all of them. *)
Lemma next_quic_resume items : forall d d' rest more,
  Server.next_quic d items = (None, d', rest) ->
  Server.next_quic d (items ++ more) = Server.next_quic d' more.
Proof.
  induction items as [|it items IH]; intros d d' rest more; cbn [Server.next_quic app];
    destruct (FrameDecoder.next_frame d) as [[[f|]|n] d1] eqn:Hf; try done;
    apply next_frame_none in Hf as ->.
  - by intros [= <- <-].
  - destruct it; try done. apply IH.
Qed.

(** Calling [next] until it is pending. *)
Fixpoint events_fuel (fuel : nat) (d : FrameDecoder.FrameDecoder) (items : list QuicItem)
    : list Server.Event * FrameDecoder.FrameDecoder :=
  match fuel with
  | O => ([], d)
  | S fuel =>
      match Server.next_quic d items with
      | (None, d, _) => ([], d)
      | (Some ev, d, items) => let '(evs, d) := events_fuel fuel d items in (ev :: evs, d)
      end
  end.

Fixpoint stream_bytes (items : list QuicItem) : bytes :=
  match items with
  | [] => []
  | Chunk bs :: items => bs ++ stream_bytes items
  | _ :: items => stream_bytes items
  end.

Fixpoint datagrams_of (items : list QuicItem) : list bytes :=
  match items with
  | [] => []
  | DatagramRead bs :: items => bs :: datagrams_of items
  | _ :: items => datagrams_of items
  end.

(** Only stream chunks and datagrams: the connection is up. *)
Definition healthy (it : QuicItem) : Prop :=
  match it with Chunk _ | DatagramRead _ => True | _ => False end.

Definition frames_of (evs : list Server.Event) : list bytes :=
  omap (fun ev => match ev with Server.Frame bs => Some bs | _ => None end) evs.
Definition event_datagrams (evs : list Server.Event) : list bytes :=
  omap (fun ev => match ev with Server.Datagram bs => Some bs | _ => None end) evs.

(** Not the end of the connection. *)
Definition arrival (ev : Server.Event) : Prop :=
  match ev with Server.Frame _ | Server.Datagram _ => True | _ => False end.

Lemma events_chunk fuel d bs items : FrameDecoder.partial (FrameDecoder.buf d) ->
  events_fuel fuel d (Chunk bs :: items) = events_fuel fuel (FrameDecoder.push bs d) items \/ fuel = O.
Proof.
  intros Hp. destruct fuel; [by right|left]. cbn [events_fuel Server.next_quic].
  destruct d as [b]. by rewrite FrameDecoder.next_frame_partial.
Qed.

Lemma partial_frame_free frames rest r : FrameDecoder.partial r -> Forall FrameDecoder.fits frames ->
  FrameDecoder.partial rest -> r = FrameDecoder.wire frames ++ rest -> frames = [] /\ rest = r.
Proof.
  intros Hr Hf Hrest Heq.
  pose proof (FrameDecoder.drain_wire frames rest Hf Hrest) as Hd. rewrite <- Heq in Hd.
  pose proof (FrameDecoder.drain_wire [] r (List.Forall_nil _) Hr) as Hd'.
  change (FrameDecoder.wire [] ++ r) with r in Hd'. rewrite Hd in Hd'. by injection Hd' as -> ->.
Qed.

Lemma events_deliver n : forall frames items b rest fuel,
  n = (length frames + length items)%nat -> (n < fuel)%nat ->
  Forall healthy items -> Forall FrameDecoder.fits frames -> FrameDecoder.partial rest ->
  b ++ stream_bytes items = FrameDecoder.wire frames ++ rest ->
  exists evs, events_fuel fuel {| FrameDecoder.buf := b |} items = (evs, {| FrameDecoder.buf := rest |}) /\
    frames_of evs = frames /\ event_datagrams evs = datagrams_of items /\ Forall arrival evs.
Proof.
  induction n as [n IH] using lt_wf_ind; intros frames items b rest fuel Hn Hfuel Hh Hf Hrest Heq.
  destruct (FrameDecoder.split_prefix frames rest b (stream_bytes items) Hf Hrest (eq_sym Heq))
    as (done_ & todo & r & -> & -> & Hr & Ht).
  apply Forall_app in Hf as [Hfd Hft]. destruct fuel as [|fuel]; [lia|].
  destruct done_ as [|frame done_].
  - cbn [FrameDecoder.wire map concat app] in *. destruct items as [|it items].
    + cbn [stream_bytes] in Ht. rewrite app_nil_r in Ht.
      destruct (partial_frame_free todo rest r Hr Hft Hrest (eq_sym Ht)) as [-> ->].
      exists []. cbn [events_fuel Server.next_quic]. rewrite FrameDecoder.next_frame_partial by done.
      split_and!; [done|done|done|constructor].
    + inversion Hh as [|? ? Hit Hh']; subst. destruct it as [bs| | |bs|]; try done.
      * cbn [stream_bytes datagrams_of] in *.
        destruct (events_chunk (S fuel) {| FrameDecoder.buf := r |} bs items Hr) as [->|]; [|done].
        cbn [length] in Hfuel.
        destruct (IH (length todo + length items)%nat ltac:(simpl; lia) todo items (r ++ bs) rest (S fuel))
          as (evs & He & Hfr & Hdg & Hall); [done|lia|done|done|done|by rewrite <- app_assoc|by exists evs].
      * cbn [stream_bytes datagrams_of events_fuel Server.next_quic] in *.
        rewrite FrameDecoder.next_frame_partial by done. cbn [length] in Hfuel.
        destruct (IH (length todo + length items)%nat ltac:(simpl; lia) todo items r rest fuel)
          as (evs & He & Hfr & Hdg & Hall); [done|lia|done|done|done|done|].
        rewrite He. exists (Server.Datagram bs :: evs). rewrite <- Hdg. split_and!; [done|done|done|by constructor].
  - inversion Hfd; subst. cbn [events_fuel]. cbn [length app] in Hfuel |- *.
    assert (Hnext : Server.next_quic {| FrameDecoder.buf := FrameDecoder.wire (frame :: done_) ++ r |} items =
              (Some (Server.Frame frame), {| FrameDecoder.buf := FrameDecoder.wire done_ ++ r |}, items)).
    { unfold FrameDecoder.wire. cbn [map concat]. rewrite <- app_assoc.
      destruct items; cbn [Server.next_quic]; by rewrite FrameDecoder.next_frame_complete. }
    rewrite Hnext.
    destruct (IH (length (done_ ++ todo) + length items)%nat ltac:(simpl; lia) (done_ ++ todo) items
      (FrameDecoder.wire done_ ++ r) rest fuel) as (evs & He & Hfr & Hdg & Hall);
      [done|lia|done|by apply Forall_app|done| |].
    { by rewrite FrameDecoder.wire_app, <- !app_assoc, Ht. }
    rewrite He. exists (Server.Frame frame :: evs). rewrite <- Hfr. split_and!; [done|done|done|by constructor].
Qed.

End ChannelFacts.

(** ** Properties *)

Section ChannelProperties.
Context `{TransportLib} `{WireLib} `{!WireLibOk} {T : Type} `{!Serde T} `{!SerdeOk T}.

(** C10: end-to-end framing over QUIC.  Messages encoded as frames and written
    back to back are delivered to both sides' [next] complete, in order and
    decoding to the messages sent, however the stream is cut into chunks and
    wherever datagrams come in between; every datagram is delivered too, in
    arrival order, and the decoder ends empty.  (Messages whose body fits a
    frame; any fuel above the number of messages and items is enough.) *)
Theorem quic_stream_delivers (msgs : list T) (items : list QuicItem) (fuel : nat) :
  Forall small msgs -> Forall healthy items -> stream_bytes items = encode_all msgs ->
  (length msgs + length items < fuel)%nat ->
  let '(evs, d) := events_fuel fuel FrameDecoder.new items in
  map decode (frames_of evs) = map Ok msgs /\
  event_datagrams evs = datagrams_of items /\ FrameDecoder.buf d = [].
Proof.
  intros Hs Hh Hbytes Hfuel.
  destruct (encode_all_wire msgs Hs) as (frames & Hw & Hf & Hd & Hl).
  destruct (events_deliver _ frames items [] [] fuel eq_refl) as (evs & He & Hfr & Hdg & _);
    [lia|done|done|apply FrameDecoder.partial_nil|by rewrite app_nil_r, <- Hw, <- Hbytes|].
  unfold FrameDecoder.new. rewrite He, Hfr. done.
Qed.

End ChannelProperties.

Lemma quic_stream_delivers_witness :
  let msgs := [replicate 100 7; [1; 2; 3]] in
  let items : list (@QuicItem (Build_TransportLib unit unit)) :=
    [Chunk [0; 0]; DatagramRead [9]; Chunk [0; 3; 1; 7; 100; 0; 0]; Chunk [0; 4; 0; 1; 2]; Chunk [3]] in
  stream_bytes items = @encode_all toy_wire bytes toy_serde msgs /\
  (let '(evs, d) := events_fuel 10 FrameDecoder.new items in
   map (@decode toy_wire bytes toy_serde) (frames_of evs) = map Ok msgs /\
   event_datagrams evs = datagrams_of items /\ FrameDecoder.buf d = []).
Proof.
  intros msgs items. split; [vm_compute; reflexivity|].
  apply (@quic_stream_delivers (Build_TransportLib unit unit) toy_wire toy_wire_ok bytes toy_serde
    toy_serde_ok msgs items 10).
  - repeat constructor; (eexists; split; [reflexivity|vm_compute; reflexivity]).
  - repeat constructor.
  - vm_compute. reflexivity.
  - vm_compute. repeat constructor.
Defined.

(** C12: receiving is cancel-safe on both sides.  When a pending [next] is
    dropped (the other branch of a [select!] won), a later call that gets the
    remaining items returns exactly what one uninterrupted call on all the
    items would have returned. *)
Theorem next_cancel_safe `{TransportLib} (d d' : FrameDecoder.FrameDecoder)
    (items rest more : list QuicItem) :
  Server.next_quic d items = (None, d', rest) ->
  Server.next (QuicItems d (items ++ more)) = Server.next (QuicItems d' more) /\
  Client.next (QuicItems d (items ++ more)) = Client.next (QuicItems d' more).
Proof.
  intros Hp. cbn [Server.next Client.next].
  rewrite !client_next_quic, (next_quic_resume items d d' rest more Hp). done.
Qed.

Lemma next_cancel_safe_witness :
  let lib := Build_TransportLib unit unit in
  @Server.next lib (QuicItems FrameDecoder.new [Chunk [0; 0; 0]; Chunk [1; 5]]) =
    @Server.next lib (QuicItems {| FrameDecoder.buf := [0; 0; 0] |} [Chunk [1; 5]]).
Proof.
  intros lib.
  refine (proj1 (@next_cancel_safe lib FrameDecoder.new {| FrameDecoder.buf := [0; 0; 0] |}
    [Chunk [0; 0; 0]] [] [Chunk [1; 5]] _)).
  reflexivity.
Defined.
