(* ===== verification/Registry.v ===== *)
(** * The session registry and attach guards ([SessionRegistry],
    [expire_sessions], [AttachGuard] in [server/src/lib.rs])

    The registry maps resume tokens to sessions; a session is shared through an
    [Arc], so the model keeps the sessions in a heap and the registry holds
    their addresses.  Connections count themselves with an attach guard whose
    two effects (the counter, then the detach time) are separate atomic
    operations: the guards of concurrent connections interleave between
    them. *)

From stdpp Require Import relations.
From S2P Require Import Prelude Proto OutboundLog Session.

Abbreviation heap := (gmap nat Session).
Abbreviation registry := (gmap string nat).

(** ** The registry *)

Definition insert_session (token : string) (addr : nat) (r : registry) : registry := <[token := addr]> r.
Definition get (token : string) (r : registry) : option nat := r !! token.
Definition remove (token : string) (r : registry) : registry := delete token r.
Definition entries (r : registry) : list (string * nat) := map_to_list r.

(** [detached_at.is_some_and(|d| d.elapsed() >= timeout)]; [elapsed]
    saturates at zero. *)
Definition is_expired (timeout now : Z) (s : Session) : bool :=
  match detached_at s with
  | Some d => timeout <=? saturating_sub now d
  | None => false
  end.

Definition expired (timeout now : Z) (r : registry) (h : heap) : list (string * nat) :=
  filter (fun p => match h !! p.2 with Some s => is_expired timeout now s | None => false end = true)
    (entries r).

Definition modify (addr : nat) (f : Session -> Session) (h : heap) : heap := alter f addr h.

(** The body of one sweep of [expire_sessions]. *)
Definition expire_sweep (timeout now : Z) (r : registry) (h : heap) : registry * heap :=
  fold_left (fun '(r, h) '(token, addr) =>
      (remove token r, modify addr (fun s => (send_input Abort s).1) h))
    (expired timeout now r h) (r, h).

(** [(timeout / 10).max(10ms)]. *)
Definition sweep_interval (timeout : Z) : Z := Z.max (timeout / 10) 10.

(** ** Attach guards *)

(** A guard run without interruption. *)
Definition guard_new (s : Session) : Session := with_attached (attached s + 1) None s.
Definition guard_drop (now : Z) (s : Session) : Session :=
  with_attached (attached s - 1) (if attached s =? 1 then Some now else detached_at s) s.

(** The life of a guard between its atomic operations. *)
Inductive GuardPc : Type :=
| Idle
| Counted
| Held
| Uncounted (last : bool)
| Dropped.

(** One atomic operation of a guard on its session: [fetch_add] and clearing the
    detach time in [new], [fetch_sub] and (only if the old count was 1) setting
    it in [drop]. *)
Definition guard_moves (now : Z) (pc : GuardPc) (s : Session) : option (GuardPc * Session) :=
  match pc with
  | Idle => Some (Counted, with_attached (attached s + 1) (detached_at s) s)
  | Counted => Some (Held, with_attached (attached s) None s)
  | Held => Some (Uncounted (attached s =? 1), with_attached (attached s - 1) (detached_at s) s)
  | Uncounted true => Some (Dropped, with_attached (attached s) (Some now) s)
  | Uncounted false => Some (Dropped, s)
  | Dropped => None
  end.

(** The shared fields the guards work on. *)
Record Guards := {
  pcs : list GuardPc;
  count : Z;
  detached : option Z;
}.

(** One atomic operation of guard [i]: [fetch_add], clearing the detach time,
    [fetch_sub], and (only if the old count was 1) setting it. *)
Inductive guard_step (g : Guards) : Guards -> Prop :=
| GAdd i : pcs g !! i = Some Idle ->
    guard_step g {| pcs := <[i := Counted]> (pcs g); count := count g + 1; detached := detached g |}
| GClear i : pcs g !! i = Some Counted ->
    guard_step g {| pcs := <[i := Held]> (pcs g); count := count g; detached := None |}
| GSub i : pcs g !! i = Some Held ->
    guard_step g {| pcs := <[i := Uncounted (count g =? 1)]> (pcs g); count := count g - 1;
                    detached := detached g |}
| GSet i now : pcs g !! i = Some (Uncounted true) ->
    guard_step g {| pcs := <[i := Dropped]> (pcs g); count := count g; detached := Some now |}
| GEnd i : pcs g !! i = Some (Uncounted false) ->
    guard_step g {| pcs := <[i := Dropped]> (pcs g); count := count g; detached := detached g |}.

(** A session as [start_session] and [restore_sessions] create it. *)
Definition guards_init (n : nat) (now : Z) : Guards :=
  {| pcs := replicate n Idle; count := 0; detached := Some now |}.

Definition counted (pc : GuardPc) : bool :=
  match pc with Counted | Held => true | _ => false end.

Definition count_pcs (l : list GuardPc) : Z := len (filter (fun pc => counted pc = true) l).

Lemma count_pcs_insert l i pc pc' : l !! i = Some pc ->
  count_pcs (<[i := pc']> l) = count_pcs l - (if counted pc then 1 else 0) + (if counted pc' then 1 else 0).
Proof.
  unfold count_pcs. revert i. induction l as [|x l IH]; intros [|i] Hi; try done.
  - injection Hi as ->. cbn [insert list_insert]. rewrite !filter_cons.
    destruct (counted pc) eqn:E1, (counted pc') eqn:E2; repeat case_decide; try congruence;
      rewrite ?len_cons; lia.
  - cbn [insert list_insert]. rewrite !filter_cons. specialize (IH i Hi).
    destruct (counted x) eqn:E; repeat case_decide; try congruence; rewrite ?len_cons;
      fold (count_pcs l) in *; change (insert i pc' l) with (<[i:=pc']> l) in *; lia.
Qed.

Lemma count_pcs_pos l i pc : l !! i = Some pc -> counted pc = true -> 1 <= count_pcs l.
Proof.
  intros Hi Hc. unfold count_pcs.
  assert (Hin : pc ∈ filter (fun pc => counted pc = true) l).
  { apply list_elem_of_filter. split; [done|]. by eapply list_elem_of_lookup_2. }
  destruct (filter _ l) as [|y ys]; [by inversion Hin|]. rewrite len_cons.
  pose proof (len_nonneg ys). lia.
Qed.

Lemma count_pcs_exists l : 1 <= count_pcs l -> exists i pc, l !! i = Some pc /\ counted pc = true.
Proof.
  unfold count_pcs. destruct (filter (fun pc => counted pc = true) l) as [|y ys] eqn:E;
    [rewrite len_nil; lia|]. intros _.
  assert (Hin : y ∈ filter (fun pc => counted pc = true) l) by (rewrite E; left).
  apply list_elem_of_filter in Hin as [Hc Hin]. apply list_elem_of_lookup in Hin as [i Hi].
  by exists i, y.
Qed.

(** A guard that will still set the detach time, or whose drop is still to come. *)
Definition pending (pc : GuardPc) : Prop :=
  match pc with Counted | Held | Uncounted true => True | _ => False end.

Record guards_inv (g : Guards) : Prop := {
  gi_count : count g = count_pcs (pcs g);
  gi_detached : detached g = None -> exists i pc, pcs g !! i = Some pc /\ pending pc;
}.

Lemma guards_inv_init n now : guards_inv (guards_init n now).
Proof.
  split; [|done]. cbn. unfold count_pcs. induction n as [|n IH]; [done|].
  cbn [replicate]. rewrite filter_cons. by case_decide.
Qed.

Lemma lookup_insert_at (l : list GuardPc) i pc pc' : l !! i = Some pc -> <[i := pc']> l !! i = Some pc'.
Proof. intros Hi. apply list_lookup_insert_eq. by eapply lookup_lt_Some. Qed.

Lemma guards_inv_step g g' : guards_inv g -> guard_step g g' -> guards_inv g'.
Proof.
  intros [Hc Hd] Hstep. inversion Hstep as [i Hi|i Hi|i Hi|i now Hi|i Hi]; subst; split; cbn;
    try (rewrite (count_pcs_insert _ _ _ _ Hi), Hc; cbn [counted]; lia).
  - intros _. exists i, Counted. split; [by eapply lookup_insert_at|done].
  - intros _. exists i, Held. split; [by eapply lookup_insert_at|done].
  - intros _. destruct (Z.eqb_spec (count g) 1) as [H1|Hne].
    + exists i, (Uncounted true). split; [by eapply lookup_insert_at|done].
    + assert (Hrest : 1 <= count_pcs (<[i := Uncounted false]> (pcs g))).
      { rewrite (count_pcs_insert _ _ _ _ Hi). cbn [counted].
        pose proof (count_pcs_pos _ _ _ Hi eq_refl). lia. }
      apply count_pcs_exists in Hrest as (j & pc & Hj & Hpc). exists j, pc.
      split; [done|]. by destruct pc.
  - done.
  - intros Hnone. destruct (Hd Hnone) as (j & pc & Hj & Hp). exists j, pc. split; [|done].
    rewrite list_lookup_insert_ne; [done|]. intros ->. rewrite Hi in Hj. by injection Hj as <-.
Qed.

(** Without interruption the operations are [guard_new] and [guard_drop]. *)
Lemma guard_new_moves now s : exists s1,
  guard_moves now Idle s = Some (Counted, s1) /\ guard_moves now Counted s1 = Some (Held, guard_new s).
Proof. eexists. split; reflexivity. Qed.

Lemma guard_drop_moves now s : exists s1,
  guard_moves now Held s = Some (Uncounted (attached s =? 1), s1) /\
  guard_moves now (Uncounted (attached s =? 1)) s1 = Some (Dropped, guard_drop now s).
Proof. eexists. split; [reflexivity|]. unfold guard_drop. by destruct (attached s =? 1). Qed.

(** ** Expiry *)

Lemma fold_remove xs : forall (r : registry) (h : heap),
  let '(r', h') := fold_left (fun '(r, h) '(token, addr) =>
      (remove token r, modify addr (fun s => (send_input Abort s).1) h)) xs (r, h) in
  (forall token, r' !! token = if bool_decide (token ∈ map fst xs) then None else r !! token) /\
  (forall addr, addr ∉ map snd xs -> h' !! addr = h !! addr).
Proof.
  induction xs as [|[tk ad] xs IH]; intros r h; cbn [fold_left map fst snd].
  - split; [|done]. intros token. by rewrite bool_decide_eq_false_2 by by intros H%elem_of_nil.
  - specialize (IH (remove tk r) (modify ad (fun s => (send_input Abort s).1) h)).
    destruct (fold_left _ xs _) as [r' h']. destruct IH as [IHr IHh]. split.
    + intros token. rewrite IHr. unfold remove.
      destruct (decide (token = tk)) as [->|Hne].
      * rewrite lookup_delete_eq. rewrite (bool_decide_eq_true_2 (tk ∈ tk :: _)) by left.
        by case_bool_decide.
      * rewrite lookup_delete_ne by done.
        by rewrite (bool_decide_ext (token ∈ map fst xs) (token ∈ tk :: map fst xs)) by set_solver.
    + intros addr Hn. rewrite IHh by set_solver. unfold modify.
      rewrite lookup_alter_ne; [done|set_solver].
Qed.

Lemma expired_spec timeout now r h token addr :
  (token, addr) ∈ expired timeout now r h <->
  r !! token = Some addr /\ exists s, h !! addr = Some s /\ is_expired timeout now s = true.
Proof.
  unfold expired, entries. rewrite list_elem_of_filter, elem_of_map_to_list. cbn [snd].
  destruct (h !! addr) as [s|]; naive_solver.
Qed.

Lemma fold_abort xs : forall (r : registry) (h : heap) addr s,
  h !! addr = Some s ->
  exists s', (fold_left (fun '(r, h) '(token, addr) =>
      (remove token r, modify addr (fun s => (send_input Abort s).1) h)) xs (r, h)).2 !! addr = Some s' /\
    (inbound_closed s = false -> inbound_closed s' = false /\
       inbound s `prefix_of` inbound s' /\ (addr ∈ map snd xs -> Abort ∈ inbound s')).
Proof.
  induction xs as [|[tk ad] xs IH]; intros r h addr s Hs; cbn [fold_left map snd].
  - exists s. split; [done|]. intros Hc. split_and!; [done|done|]. by intros ?%elem_of_nil.
  - destruct (decide (ad = addr)) as [->|Hne].
    + destruct (IH (remove tk r) (modify addr (fun s => (send_input Abort s).1) h) addr
        (send_input Abort s).1) as (s' & Hs' & Hin).
      { unfold modify. rewrite lookup_alter_eq, Hs. done. }
      exists s'. split; [done|]. intros Hc. unfold send_input in Hin. rewrite Hc in Hin.
      destruct (Hin Hc) as (Hc' & Hpre & _). cbn [inbound with_inbound fst] in Hpre.
      split_and!; [done|by eapply prefix_app_l|]. intros _.
      destruct Hpre as [k ->]. set_solver.
    + destruct (IH (remove tk r) (modify ad (fun s => (send_input Abort s).1) h) addr s)
        as (s' & Hs' & Hin).
      { unfold modify. by rewrite lookup_alter_ne. }
      exists s'. split; [done|]. intros Hc. destruct (Hin Hc) as (? & ? & Ha).
      split_and!; [done|done|]. intros [->|?]%elem_of_cons; [done|by apply Ha].
Qed.

(** ** Properties *)

(** One sweep of the expiry task forgets exactly the tokens whose session
    has been without a connection for at least the timeout, tells the task of
    each of those sessions (if it still runs) to abort, and leaves every other
    session untouched; in particular an attached session is never affected. *)
Theorem expire_sweep_exact (timeout now : Z) (r : registry) (h : heap) :
  let '(r', h') := expire_sweep timeout now r h in
  (forall token addr s, r !! token = Some addr -> h !! addr = Some s ->
     if is_expired timeout now s
     then r' !! token = None /\ exists s', h' !! addr = Some s' /\
            (inbound_closed s = false -> Abort ∈ inbound s')
     else r' !! token = Some addr /\ h' !! addr = Some s) /\
  (forall s, detached_at s = None -> is_expired timeout now s = false).
Proof.
  unfold expire_sweep.
  pose proof (fold_remove (expired timeout now r h) r h) as Hrem.
  pose proof (fold_abort (expired timeout now r h) r h) as Hab.
  destruct (fold_left _ _ _) as [r' h']. cbn [snd] in Hab. destruct Hrem as [Hr Hh]. split.
  - intros token addr s Ht Hs. destruct (is_expired timeout now s) eqn:Hx.
    + assert (Hin : (token, addr) ∈ expired timeout now r h) by (apply expired_spec; eauto).
      split.
      * rewrite Hr, bool_decide_eq_true_2; [done|].
        apply list_elem_of_In, in_map_iff. exists (token, addr). by rewrite <- list_elem_of_In.
      * destruct (Hab addr s Hs) as (s' & Hs' & Hc). exists s'. split; [done|]. intros Hcl.
        apply (Hc Hcl). apply list_elem_of_In, in_map_iff. exists (token, addr). by rewrite <- list_elem_of_In.
    + split.
      * rewrite Hr, bool_decide_eq_false_2; [done|].
        intros Hin%list_elem_of_In%in_map_iff. destruct Hin as ([tk ad] & Heq & Hin). cbn in Heq. subst tk.
        apply list_elem_of_In, expired_spec in Hin as (Ht' & s2 & Hs2 & Hx2).
        rewrite Ht in Ht'. injection Ht' as <-. rewrite Hs in Hs2. injection Hs2 as <-. congruence.
      * rewrite Hh; [done|]. intros Hin%list_elem_of_In%in_map_iff.
        destruct Hin as ([tk ad] & Heq & Hin). cbn in Heq. subst ad.
        apply list_elem_of_In, expired_spec in Hin as (_ & s2 & Hs2 & Hx2).
        rewrite Hs in Hs2. injection Hs2 as <-. congruence.
  - intros s Hd. unfold is_expired. by rewrite Hd.
Qed.

(** A registry with one session detached at 0 and one attached, swept at 500 ms. *)
Lemma expire_sweep_exact_witness :
  let dead := {| inbound := []; inbound_closed := false; log := OutboundLog.default; stdin_applied := 0;
                 agent := false; attached := 0; detached_at := Some 0; resumable := true |} in
  let live := guard_new dead in
  let r : registry := {["a"%string := 0%nat]} in
  let '(r', h') := expire_sweep 200 500 r {[0%nat := dead; 1%nat := live]} in
  r' !! "a"%string = None /\ exists s', h' !! 0%nat = Some s' /\ (inbound_closed dead = false -> Abort ∈ inbound s').
Proof.
  intros dead live r.
  pose proof (expire_sweep_exact 200 500 r {[0%nat := dead; 1%nat := live]}) as H.
  destruct (expire_sweep 200 500 r {[0%nat := dead; 1%nat := live]}) as [r' h'].
  apply (proj1 H "a"%string 0%nat dead); reflexivity.
Defined.

(** C13: no session is kept alive by connections that are gone.  In every
    interleaving of the atomic operations of any number of attach guards, once
    no guard is live or in progress the counter is zero and the detach time is
    set, so the expiry task will find the session. *)
Theorem guards_quiescent_detached (n : nat) (now : Z) (g : Guards) :
  rtc guard_step (guards_init n now) g ->
  Forall (fun pc => pc = Idle \/ pc = Dropped) (pcs g) ->
  count g = 0 /\ is_Some (detached g).
Proof.
  intros Hrun Hq.
  assert (Hinv : guards_inv g).
  { pose proof (guards_inv_init n now) as H0. induction Hrun; [done|]. eauto using guards_inv_step. }
  destruct Hinv as [Hc Hd]. split.
  - rewrite Hc. destruct (decide (1 <= count_pcs (pcs g))) as [Hpos|].
    + apply count_pcs_exists in Hpos as (i & pc & Hi & Hpc).
      apply (Forall_lookup_1 _ _ _ _ Hq) in Hi as [-> | ->]; done.
    + pose proof (len_nonneg (filter (fun pc => counted pc = true) (pcs g))). unfold count_pcs in *. lia.
  - destruct (detached g) as [d|]; [done|]. destruct (Hd eq_refl) as (i & pc & Hi & Hp).
    apply (Forall_lookup_1 _ _ _ _ Hq) in Hi as [-> | ->]; done.
Qed.

Lemma guards_quiescent_detached_witness :
  let g := {| pcs := [Dropped]; count := 0; detached := Some 9 |} in
  rtc guard_step (guards_init 1 5) g /\ count g = 0 /\ is_Some (detached g).
Proof.
  intros g.
  assert (Hrun : rtc guard_step (guards_init 1 5) g).
  { eapply rtc_l; [apply (GAdd _ 0); reflexivity|]. eapply rtc_l; [apply (GClear _ 0); reflexivity|].
    eapply rtc_l; [apply (GSub _ 0); reflexivity|]. eapply rtc_l; [apply (GSet _ 0 9); reflexivity|].
    apply rtc_refl. }
  split; [exact Hrun|]. apply (guards_quiescent_detached 1 5 g Hrun).
  constructor; [right; reflexivity|constructor].
Defined.

(** C39: the two effects of a guard's drop are not atomic, and the gap matters.
    Two overlapping connections of a session (a lingering one and its own
    resume) can interleave so that the first one's late detach time overwrites
    the second one's clearing: the second connection is attached, counted, and
    stays attached, yet the session carries a detach time, and the expiry task
    will abort it once the timeout has passed. *)
Theorem attach_guard_race (timeout now : Z) :
  exists g, rtc guard_step (guards_init 2 now) g /\
    pcs g = [Dropped; Held] /\ count g = 1 /\
    forall s, detached_at s = detached g -> is_expired timeout (now + Z.max 0 timeout) s = true.
Proof.
  exists {| pcs := [Dropped; Held]; count := 1; detached := Some now |}. split_and!; [|done|done|].
  - eapply rtc_l; [apply (GAdd _ 0); reflexivity|]. eapply rtc_l; [apply (GClear _ 0); reflexivity|].
    eapply rtc_l; [apply (GSub _ 0); reflexivity|]. eapply rtc_l; [apply (GAdd _ 1); reflexivity|].
    eapply rtc_l; [apply (GClear _ 1); reflexivity|]. eapply rtc_l; [apply (GSet _ 0 now); reflexivity|].
    apply rtc_refl.
  - intros s Hs. cbn in Hs. unfold is_expired, saturating_sub. rewrite Hs. apply Z.leb_le. lia.
Qed.
