(* ===== verification/SweepRace.v ===== *)
(** * The expiry sweep against resuming connections ([expire_sessions],
    [SessionRegistry], [AttachGuard] in [server/src/lib.rs])

    [Registry.expire_sweep] is one sweep as a whole.  The code takes the lock of
    the registry once to list the expired sessions, and then again for every
    session it removes; it sends the aborts without the lock.  Connections that
    resume look their session up, and attach, between any two of these
    operations.  This file has them as separate steps. *)

From S2P Require Import Prelude Proto OutboundLog Session Registry.

(** Where the sweep is: waiting for the next tick, going through its list, or
    about to tell the session it just removed. *)
Inductive SweepPc : Type :=
| Waiting
| Listed (todo : list (string * nat))
| Removed (addr : nat) (todo : list (string * nat)).

(** Where a connection that resumes [token] is in [handle_connection] and in the
    creation and drop of its guard. *)
Inductive ResumePc : Type :=
| LooksUp (token : string)
| Found (addr : nat)
| Counting (addr : nat)
| Attached (addr : nat)
| Leaving (addr : nat) (last : bool)
| Gone.

Record Sweeping := {
  reg : registry;
  hp : heap;
  sweep : SweepPc;
  resumes : list ResumePc;
}.

Inductive SweepEvent : Type :=
| SweepMoves (now : Z)
| ResumeMoves (i : nat) (now : Z).

(** The sweep's next operation. *)
Definition sweep_moves (timeout now : Z) (st : Sweeping) : Sweeping :=
  match sweep st with
  | Waiting | Listed [] =>
      {| reg := reg st; hp := hp st;
         sweep := match sweep st with Waiting => Listed (expired timeout now (reg st) (hp st)) | _ => Waiting end;
         resumes := resumes st |}
  | Listed ((token, addr) :: todo) =>
      {| reg := remove token (reg st); hp := hp st; sweep := Removed addr todo; resumes := resumes st |}
  | Removed addr todo =>
      {| reg := reg st; hp := modify addr (fun s => (send_input Abort s).1) (hp st); sweep := Listed todo;
         resumes := resumes st |}
  end.

(** A connection's next operation: what becomes of it, and of its session. *)
Definition resume_moves (now : Z) (r : registry) (h : heap) (pc : ResumePc) : ResumePc * heap :=
  match pc with
  | LooksUp token => (match get token r with Some addr => Found addr | None => Gone end, h)
  | Found addr => (Counting addr, modify addr (fun s => with_attached (attached s + 1) (detached_at s) s) h)
  | Counting addr => (Attached addr, modify addr (fun s => with_attached (attached s) None s) h)
  | Attached addr =>
      (Leaving addr (match h !! addr with Some s => attached s =? 1 | None => false end),
       modify addr (fun s => with_attached (attached s - 1) (detached_at s) s) h)
  | Leaving addr last =>
      (Gone, if last then modify addr (fun s => with_attached (attached s) (Some now) s) h else h)
  | Gone => (Gone, h)
  end.

Definition sweep_step (timeout : Z) (st : Sweeping) (ev : SweepEvent) : Sweeping :=
  match ev with
  | SweepMoves now => sweep_moves timeout now st
  | ResumeMoves i now =>
      match resumes st !! i with
      | Some pc =>
          let '(pc, h) := resume_moves now (reg st) (hp st) pc in
          {| reg := reg st; hp := h; sweep := sweep st; resumes := <[i := pc]> (resumes st) |}
      | None => st
      end
  end.

Definition sweep_run (timeout : Z) (st : Sweeping) (evs : list SweepEvent) : Sweeping :=
  fold_left (sweep_step timeout) evs st.

(** ** One sweep that nothing interrupts *)

(** The two steps per entry of the list, and one to notice that it is empty. *)
Lemma sweep_rest timeout now : forall todo r h cs,
  sweep_run timeout {| reg := r; hp := h; sweep := Listed todo; resumes := cs |}
    (replicate (2 * length todo + 1) (SweepMoves now)) =
  let '(r', h') := fold_left (fun '(r, h) '(token, addr) =>
      (remove token r, modify addr (fun s => (send_input Abort s).1) h)) todo (r, h) in
  {| reg := r'; hp := h'; sweep := Waiting; resumes := cs |}.
Proof.
  induction todo as [|[token addr] todo IH]; intros r h cs; [done|].
  cbn [length]. replace (2 * S (length todo) + 1)%nat with (S (S (2 * length todo + 1))) by lia.
  cbn [replicate]. unfold sweep_run in *. cbn [fold_left sweep_step sweep_moves sweep reg hp resumes]. apply IH.
Qed.

(** ** What interleaved connections cannot change *)

(** A connection moves the counters of a session and nothing else of it. *)
Definition same_inbound (s s' : Session) : Prop :=
  inbound s' = inbound s /\ inbound_closed s' = inbound_closed s.

#[local] Instance same_inbound_refl : Reflexive same_inbound.
Proof. by split. Qed.

Lemma modify_lookup addr f h a s : h !! a = Some s ->
  modify addr f h !! a = Some (if bool_decide (addr = a) then f s else s).
Proof.
  intros Hs. unfold modify. case_bool_decide as Heq.
  - subst. by rewrite lookup_alter_eq, Hs.
  - by rewrite lookup_alter_ne.
Qed.

Lemma resume_same now r h pc pc' h' a s : resume_moves now r h pc = (pc', h') -> h !! a = Some s ->
  exists s', h' !! a = Some s' /\ same_inbound s s'.
Proof.
  intros Hm Hs. destruct pc as [token|addr|addr|addr|addr last|]; cbn in Hm; injection Hm as <- <-;
    try (destruct last); rewrite ?(modify_lookup _ _ _ _ _ Hs); eexists; (split; [first [done|reflexivity]|]);
    try case_bool_decide; by split.
Qed.

(** The sessions the sweep will still abort, and the tokens it will still forget. *)
Definition to_abort (sw : SweepPc) : list nat :=
  match sw with Waiting => [] | Listed todo => map snd todo | Removed addr todo => addr :: map snd todo end.
Definition to_forget (sw : SweepPc) : list string :=
  match sw with Waiting => [] | Listed todo | Removed _ todo => map fst todo end.

(** Somewhere in a run a sweep looks and finds the session expired. *)
Definition found_expired (timeout : Z) (st : Sweeping) (evs : list SweepEvent) (a : nat) : Prop :=
  exists evs1 now evs2, evs = evs1 ++ SweepMoves now :: evs2 /\
    let st1 := sweep_run timeout st evs1 in
    sweep st1 = Waiting /\
    exists token s, reg st1 !! token = Some a /\ hp st1 !! a = Some s /\ is_expired timeout now s = true.

Lemma found_later timeout st ev evs a :
  found_expired timeout (sweep_step timeout st ev) evs a -> found_expired timeout st (ev :: evs) a.
Proof. intros (evs1 & now & evs2 & -> & H). by exists (ev :: evs1), now, evs2. Qed.

Lemma found_now timeout now st evs a : sweep st = Waiting ->
  a ∈ map snd (expired timeout now (reg st) (hp st)) -> found_expired timeout st (SweepMoves now :: evs) a.
Proof.
  intros Hw Hin. apply list_elem_of_In, in_map_iff in Hin as ([token a'] & Heq & Hin). cbn in Heq. subst a'.
  apply list_elem_of_In, expired_spec in Hin as (Ht & s & Hs & Hx).
  exists [], now, evs. split; [done|]. split; [done|]. by exists token, s.
Qed.

(** One step: the inbox of a session changes only when the sweep was about to
    abort it, and the sweep's list only grows when it looks. *)
Lemma step_inbound timeout st ev a s : hp st !! a = Some s -> a ∉ to_abort (sweep st) ->
  (exists s', hp (sweep_step timeout st ev) !! a = Some s' /\ same_inbound s s') /\
  (a ∈ to_abort (sweep (sweep_step timeout st ev)) ->
     exists now, ev = SweepMoves now /\ sweep st = Waiting /\
       a ∈ map snd (expired timeout now (reg st) (hp st))).
Proof.
  intros Hs Hn. destruct ev as [now|i now]; cbn [sweep_step].
  - unfold sweep_moves. destruct (sweep st) as [|[|[token addr] todo]|addr todo]; cbn [hp sweep to_abort map snd] in *.
    + split; [by exists s|]. eauto.
    + split; [by exists s|]. by intros ?%elem_of_nil.
    + split; [by exists s|done].
    + apply not_elem_of_cons in Hn as [Hne Hn].
      split; [|done]. exists s. split; [|done]. rewrite (modify_lookup _ _ _ _ _ Hs).
      by rewrite bool_decide_eq_false_2.
  - destruct (resumes st !! i) as [pc|]; [|split; [by exists s|done]].
    destruct (resume_moves now (reg st) (hp st) pc) as [pc' h'] eqn:Hm. cbn [hp sweep].
    split; [by eapply resume_same|done].
Qed.

Lemma run_inbound timeout evs : forall st a s, hp st !! a = Some s -> a ∉ to_abort (sweep st) ->
  found_expired timeout st evs a \/ exists s', hp (sweep_run timeout st evs) !! a = Some s' /\ same_inbound s s'.
Proof.
  induction evs as [|ev evs IH]; intros st a s Hs Hn; [right; by exists s|].
  destruct (step_inbound timeout st ev a s Hs Hn) as [(s1 & Hs1 & Hsame) Hlist].
  destruct (decide (a ∈ to_abort (sweep (sweep_step timeout st ev)))) as [Hin|Hnot].
  - left. destruct (Hlist Hin) as (now & -> & Hw & Hx). by apply found_now.
  - destruct (IH _ a s1 Hs1 Hnot) as [Hf|(s' & Hs' & Hin' & Hcl')]; [left; by apply found_later|right].
    exists s'. split; [done|]. destruct Hsame as [Hi Hc]. split; congruence.
Qed.

(** The same for the registry. *)
Lemma step_registry timeout st ev token a : reg st !! token = Some a -> token ∉ to_forget (sweep st) ->
  reg (sweep_step timeout st ev) !! token = Some a /\
  (token ∈ to_forget (sweep (sweep_step timeout st ev)) ->
     exists now, ev = SweepMoves now /\ sweep st = Waiting /\
       a ∈ map snd (expired timeout now (reg st) (hp st))).
Proof.
  intros Ht Hn. destruct ev as [now|i now]; cbn [sweep_step].
  - unfold sweep_moves. destruct (sweep st) as [|[|[token' addr] todo]|addr todo]; cbn [reg sweep to_forget map fst] in *.
    + split; [done|]. intros Hin. exists now. split; [done|]. split; [done|].
      apply list_elem_of_In, in_map_iff in Hin as ([token' a'] & Heq & Hin). cbn in Heq. subst token'.
      apply list_elem_of_In in Hin. pose proof Hin as Hx. apply expired_spec in Hx as (Ht' & _).
      rewrite Ht in Ht'. injection Ht' as <-. apply list_elem_of_In, in_map_iff. exists (token, a).
      split; [done|by apply list_elem_of_In].
    + split; [done|]. by intros ?%elem_of_nil.
    + apply not_elem_of_cons in Hn as [Hne Hn]. unfold remove. rewrite lookup_delete_ne by done. by split.
    + by split.
  - destruct (resumes st !! i) as [pc|]; [|by split].
    by destruct (resume_moves now (reg st) (hp st) pc) as [pc' h'].
Qed.

Lemma run_registry timeout evs : forall st token a, reg st !! token = Some a -> token ∉ to_forget (sweep st) ->
  found_expired timeout st evs a \/ reg (sweep_run timeout st evs) !! token = Some a.
Proof.
  induction evs as [|ev evs IH]; intros st token a Ht Hn; [by right|].
  destruct (step_registry timeout st ev token a Ht Hn) as [Ht1 Hlist].
  destruct (decide (token ∈ to_forget (sweep (sweep_step timeout st ev)))) as [Hin|Hnot].
  - left. destruct (Hlist Hin) as (now & -> & Hw & Hx). by apply found_now.
  - destruct (IH _ token a Ht1 Hnot) as [Hf|Hr]; [left; by apply found_later|by right].
Qed.

(** ** Properties *)

(** C14: the expiry sweep, taken apart into its atomic operations and interleaved
    with any number of connections that look up sessions, attach and leave.
    Left alone, the operations of a sweep do exactly what [expire_sweep] does.
    However they interleave, a session that was told to abort, or whose token
    was forgotten, was found without a connection for the timeout when a sweep
    looked: in particular a session attached at that moment is spared. *)
Theorem sweep_only_expired (timeout : Z) (st : Sweeping) :
  sweep st = Waiting ->
  (forall now, let n := (2 * length (expired timeout now (reg st) (hp st)) + 2)%nat in
     let st' := sweep_run timeout st (replicate n (SweepMoves now)) in
     (reg st', hp st') = expire_sweep timeout now (reg st) (hp st) /\ sweep st' = Waiting) /\
  (forall evs a s, hp st !! a = Some s ->
     found_expired timeout st evs a \/
     exists s', hp (sweep_run timeout st evs) !! a = Some s' /\ same_inbound s s') /\
  (forall evs token a, reg st !! token = Some a ->
     found_expired timeout st evs a \/ reg (sweep_run timeout st evs) !! token = Some a).
Proof.
  intros Hw. split; [|split].
  - intros now n st'. subst n st'.
    replace (2 * length (expired timeout now (reg st) (hp st)) + 2)%nat
      with (S (2 * length (expired timeout now (reg st) (hp st)) + 1)) by lia.
    cbn [replicate]. unfold sweep_run. cbn [fold_left sweep_step]. unfold sweep_moves. rewrite Hw.
    pose proof (sweep_rest timeout now (expired timeout now (reg st) (hp st)) (reg st) (hp st) (resumes st)) as Hr.
    unfold sweep_run in Hr. rewrite Hr. unfold expire_sweep.
    by destruct (fold_left _ (expired timeout now (reg st) (hp st)) (reg st, hp st)) as [r' h'].
  - intros evs a s Hs. apply run_inbound; [done|]. rewrite Hw. apply not_elem_of_nil.
  - intros evs token a Ht. apply run_registry; [done|]. rewrite Hw. apply not_elem_of_nil.
Qed.

(** One expired session, and a connection about to resume it. *)
Definition raced : Sweeping :=
  {| reg := {["a"%string := 0%nat]};
     hp := {[0%nat := {| inbound := []; inbound_closed := false; log := OutboundLog.default; stdin_applied := 0;
                         agent := false; attached := 0; detached_at := Some 0; resumable := true |}]};
     sweep := Waiting; resumes := [LooksUp "a"%string] |}.

Lemma sweep_only_expired_witness :
  sweep_run 200 raced (replicate 4 (SweepMoves 500)) =
    {| reg := ∅; hp := modify 0%nat (fun s => (send_input Abort s).1) (hp raced); sweep := Waiting;
       resumes := resumes raced |} /\
  found_expired 200 raced (replicate 4 (SweepMoves 500)) 0%nat.
Proof.
  split; [vm_compute; reflexivity|].
  destruct (proj2 (proj2 (sweep_only_expired 200 raced eq_refl)) (replicate 4 (SweepMoves 500)) "a"%string 0%nat)
    as [Hf|Hr].
  - reflexivity.
  - exact Hf.
  - vm_compute in Hr. discriminate.
Defined.

(** A session that is attached between the look and the removal is lost: its
    client holds it, it carries no detach time, and yet its token is forgotten
    and it is told to abort. *)
Lemma sweep_aborts_attached :
  let st := sweep_run 200 raced
    ([SweepMoves 500] ++ replicate 3 (ResumeMoves 0 500) ++ replicate 2 (SweepMoves 500)) in
  resumes st = [Attached 0%nat] /\ reg st !! "a"%string = None /\
  exists s, hp st !! 0%nat = Some s /\ attached s = 1 /\ detached_at s = None /\ inbound s = [Abort].
Proof. split; [reflexivity|]. split; [reflexivity|]. eexists. split; [vm_compute; reflexivity|]. by split. Qed.
