(* ===== verification/Attach.v ===== *)
(** * Connections of the server ([handle_connection], [attach], [deny] in
    [server/src/lib.rs])

    The handshake of a connection (authenticate, then dispatch the request) and
    the attach loop that streams a session's log to the connection and forwards
    the connection's messages to the session.  One iteration of the loop is a
    flush (send what is new) followed by the reaction to one event of the
    [select!]. *)

From S2P Require Import Prelude Proto Auth OutboundLog Session Exec Channel Registry.

(** ** Errors *)

Section Errors.
Context `{TransportLib} `{WireLib} `{HttpLib}.

(** [ServerError]; [SpawnFailed] is the I/O error of creating the hub, the pipes
    or the child, [SendFailed] that of a failed send. *)
Inductive ServerError : Type :=
| Transport (e : Server.TransportError)
| SendFailed
| SpawnFailed
| Protocol (e : ProtocolError)
| HandshakeClosed
| AuthFailed (e : AuthError)
| UnknownResumeToken
| AgentNotEnabled
| SessionAborted.

Definition recv_error (e : Server.RecvError) : ServerError :=
  match e with
  | Server.RecvProtocol e => Protocol e
  | Server.RecvHandshakeClosed => HandshakeClosed
  | Server.RecvFailed e => Transport e
  end.

End Errors.

(** ** The attach loop *)

Definition KEEPALIVE_INTERVAL : Z := 15000.
Definition KEEPALIVE_TIMEOUT : Z := 45000.

(** The loop's locals. *)
Record Attach := {
  sent_up_to : Z;
  acked_stdin : Z;
  exit_seq : option Z;
  last_activity : Z;
}.

Definition attach_start (sent_up_to now : Z) : Attach :=
  {| sent_up_to := sent_up_to; acked_stdin := 0; exit_seq := None; last_activity := now |}.

(** The first message of an attached connection. *)
Definition started (token : string) (s : Session) : ChannelMessage :=
  Started (if resumable s then Some token else None).

(** The bookkeeping for one message sent. *)
Definition sent_one (a : Attach) (m : ChannelMessage) : Attach :=
  {| sent_up_to := add_u64 (sent_up_to a) 1; acked_stdin := acked_stdin a;
     exit_seq := match m with Exit n _ => Some n | _ => exit_seq a end;
     last_activity := last_activity a |}.

(** The top of the loop: the messages it sends when every send succeeds. *)
Definition flush (s : Session) (a : Attach) : list ChannelMessage * Attach :=
  let messages := OutboundLog.after (log s) (sent_up_to a) in
  let a := fold_left sent_one messages a in
  if acked_stdin a <? stdin_applied s then
    (messages ++ [Ack (stdin_applied s)],
     {| sent_up_to := sent_up_to a; acked_stdin := stdin_applied s; exit_seq := exit_seq a;
        last_activity := last_activity a |})
  else (messages, a).

Section Attach.
Context `{TransportLib} `{WireLib} `{HttpLib}.

(** What the loop does after an event: the shared session and locals, whether
    it unregisters the session and closes the channel, and its result when it
    returns. *)
Record Reaction := {
  r_session : Session;
  r_attach : Attach;
  r_remove : bool;
  r_close : bool;
  r_result : option (result unit ServerError);
}.

Definition continue (s : Session) (a : Attach) : Reaction :=
  {| r_session := s; r_attach := a; r_remove := false; r_close := false; r_result := None |}.

(** [return] after a lost client: a session that cannot be resumed is dropped
    and aborted. *)
Definition lost (s : Session) (a : Attach) (r : result unit ServerError) : Reaction :=
  if resumable s then
    {| r_session := s; r_attach := a; r_remove := false; r_close := false; r_result := Some (Ok tt) |}
  else
    {| r_session := (send_input Abort s).1; r_attach := a; r_remove := true; r_close := false;
       r_result := Some r |}.

(** A decoded message of the stream. *)
Definition on_message (s : Session) (a : Attach) (m : ChannelMessage) : Reaction :=
  match m with
  | Ack n =>
      let s := with_log (OutboundLog.trim n (log s)) s in
      if match exit_seq a with Some exit => exit <=? n | None => false end then
        {| r_session := s; r_attach := a; r_remove := true; r_close := true; r_result := Some (Ok tt) |}
      else continue s a
  | m => continue (send_input (Message m) s).1 a
  end.

Definition on_datagram (s : Session) (a : Attach) (m : ChannelMessage) : Reaction :=
  continue (send_input (Datagram m) s).1 a.

Context `{!Serde ChannelMessage}.

Definition on_event (s : Session) (a : Attach) (ev : Server.Event) : Reaction :=
  match ev with
  | Server.Datagram bs =>
      match decode bs with
      | Ok m => on_datagram s a m
      | Err _ => continue s a
      end
  | Server.Frame bs =>
      match decode bs with
      | Ok m => on_message s a m
      | Err e => {| r_session := s; r_attach := a; r_remove := false; r_close := false;
                    r_result := Some (Err (Protocol e)) |}
      end
  | Server.Closed => lost s a (Ok tt)
  | Server.Failed e => lost s a (Err (Transport e))
  end.

(** The branches of the [select!]; the log's watch channel reports an error
    only if its sender is gone. *)
Inductive AttachEvent : Type :=
| Tick (now : Z) (ping_ok : bool)
| Changed (is_err : bool)
| Incoming (now : Z) (ev : Server.Event).

Definition react (needs_ping : bool) (s : Session) (a : Attach) (ev : AttachEvent) : option Reaction :=
  match ev with
  | Tick now ping_ok =>
      if needs_ping then
        if KEEPALIVE_TIMEOUT <=? saturating_sub now (last_activity a) then Some (lost s a (Ok tt))
        else if ping_ok then Some (continue s a)
        else Some {| r_session := s; r_attach := a; r_remove := false; r_close := false;
                     r_result := Some (Err SendFailed) |}
      else None
  | Changed is_err =>
      match exit_seq a with
      | Some _ => None
      | None =>
          if is_err && bool_decide (OutboundLog.after (log s) (sent_up_to a) = []) then
            Some {| r_session := s; r_attach := a; r_remove := true; r_close := true;
                    r_result := Some (Err SessionAborted) |}
          else Some (continue s a)
      end
  | Incoming now ev =>
      let a := {| sent_up_to := sent_up_to a; acked_stdin := acked_stdin a; exit_seq := exit_seq a;
                  last_activity := now |} in
      Some (on_event s a ev)
  end.

(** ** The handshake *)

(** What the operating system answers to an exec request: the agent hub could
    be started, the pipes and the child's process id. *)
Record ExecEnv := {
  hub_started : bool;
  spawned : option (Z * Z * Z * Z * option Z);
  exec_now : Z;
  daemon_pid : Z;
  nanos : Z;
}.

(** The server's state behind its connections. *)
Record Server := {
  sessions : registry;
  objects : heap;
  tasks : gmap nat Task;
  token_counter : Z;
}.

Inductive Dispatch : Type :=
| AttachTo (token : string) (addr : nat) (sent_up_to : Z)
| AgentOf (addr : nat)
| Refused (denied : option string) (e : ServerError).

Definition fresh_addr (sv : Server) : nat := fresh (dom (objects sv) ∪ dom (tasks sv)).

(** The [match] on the request. *)
Definition dispatch (sv : Server) (env : ExecEnv) (req : ExecRequest) : Dispatch * Server :=
  match req with
  | Exec command resumable forward_agent =>
      if forward_agent && negb (hub_started env) then (Refused None SpawnFailed, sv)
      else
        match spawned env with
        | None => (Refused None SpawnFailed, sv)
        | Some (stdin_w, stdout_r, stderr_r, exit_r, child_id) =>
            let '(s, t) := start_session stdin_w stdout_r stderr_r exit_r child_id
                             resumable forward_agent (exec_now env) in
            let '(token, counter) := new_resume_token (daemon_pid env) (nanos env) (token_counter sv) in
            let addr := fresh_addr sv in
            (AttachTo token addr 0,
             {| sessions := insert_session token addr (sessions sv);
                objects := <[addr := s]> (objects sv); tasks := <[addr := t]> (tasks sv);
                token_counter := counter |})
        end
  | Resume token last_seq_seen =>
      match get token (sessions sv) with
      | None => (Refused (Some "unknown resume token"%string) UnknownResumeToken, sv)
      | Some addr => (AttachTo token addr last_seq_seen, sv)
      end
  | AgentChannel token =>
      match get token (sessions sv) with
      | None => (Refused (Some "unknown resume token"%string) UnknownResumeToken, sv)
      | Some addr =>
          match objects sv !! addr with
          | Some s =>
              if agent s then (AgentOf addr, sv)
              else (Refused (Some "agent forwarding not enabled"%string) AgentNotEnabled, sv)
          | None => (Refused (Some "unknown resume token"%string) UnknownResumeToken, sv)
          end
      end
  end.

Context `{!Serde Hello} `{!Serde ExecRequest}.

(** What the handshake put on the wire. *)
Inductive Reply : Type :=
| SentWelcome
| SentDenied (reason : string)
| ClosedChannel.

Inductive Handshake : Type :=
| Waiting (replies : list Reply)
| Rejected (replies : list Reply) (e : ServerError)
| Accepted (replies : list Reply) (d : Dispatch) (ch : Items).

(** [handle_connection] up to the attach (or agent) loop it ends in: Hello,
    verification, Welcome ([welcome_ok] says its send succeeded), request. *)
Definition handle_connection (ch : Items) (au : Auth) (w : World) (welcome_ok : bool)
    (sv : Server) (env : ExecEnv) : Handshake * Auth * World * Server :=
  match Server.recv (T:=Hello) ch with
  | (None, _) => (Waiting [], au, w, sv)
  | (Some (Err e), _) => (Rejected [] (recv_error e), au, w, sv)
  | (Some (Ok hello), ch) =>
      match verify au (hello_token hello) w with
      | (Err e, au, w) => (Rejected [ClosedChannel] (AuthFailed e), au, w, sv)
      | (Ok _, au, w) =>
          if negb welcome_ok then (Rejected [] SendFailed, au, w, sv)
          else
            match Server.recv (T:=ExecRequest) ch with
            | (None, _) => (Waiting [SentWelcome], au, w, sv)
            | (Some (Err e), _) => (Rejected [SentWelcome] (recv_error e), au, w, sv)
            | (Some (Ok req), ch) =>
                match dispatch sv env req with
                | (Refused (Some reason) e, sv) =>
                    (Rejected [SentWelcome; SentDenied reason; ClosedChannel] e, au, w, sv)
                | (Refused None e, sv) => (Rejected [SentWelcome] e, au, w, sv)
                | (d, sv) => (Accepted [SentWelcome] d ch, au, w, sv)
                end
            end
      end
  end.

End Attach.

(** ** Facts *)

Section AttachFacts.

Lemma fold_sent_one msgs : forall a, let a' := fold_left sent_one msgs a in
  acked_stdin a' = acked_stdin a /\ last_activity a' = last_activity a /\
  (0 <= sent_up_to a -> sent_up_to a + len msgs < u64_modulus -> sent_up_to a' = sent_up_to a + len msgs).
Proof.
  induction msgs as [|m msgs IH]; intros a; cbn [fold_left]; cbv zeta in *.
  - change (len []) with 0. split_and!; [done|done|lia].
  - destruct (IH (sent_one a m)) as (H1 & H2 & H3). cbn [sent_one acked_stdin last_activity sent_up_to] in *.
    rewrite len_cons. split_and!; [done|done|]. intros Ha Hl. pose proof (len_nonneg msgs).
    rewrite add_u64_small in H3 by auto with u64. rewrite H3 by lia. lia.
Qed.

Lemma flush_sent s a hist acked : OutboundLog.Represents (log s) hist acked ->
  acked <= sent_up_to a <= len hist ->
  let '(msgs, a') := flush s a in
  sent_up_to a' = len hist /\
  msgs = drop (Z.to_nat (sent_up_to a)) hist ++
           (if acked_stdin a <? stdin_applied s then [Ack (stdin_applied s)] else []).
Proof.
  intros Hr Ha. pose proof (OutboundLog.rep_bounds _ _ _ Hr). pose proof (OutboundLog.rep_u64 _ _ _ Hr).
  unfold flush. rewrite (OutboundLog.after_represents _ _ _ _ Hr) by lia.
  replace (Z.max (sent_up_to a) acked) with (sent_up_to a) by lia.
  destruct (fold_sent_one (drop (Z.to_nat (sent_up_to a)) hist) a) as (-> & _ & Hs).
  assert (Hlen : sent_up_to a + len (drop (Z.to_nat (sent_up_to a)) hist) = len hist).
  { rewrite len_drop. lia. }
  destruct (acked_stdin a <? stdin_applied s); cbn [sent_up_to]; rewrite Hs by lia;
    rewrite ?app_nil_r; done.
Qed.

End AttachFacts.

(** ** Properties *)

Section AttachProperties.
Context `{TL : TransportLib} `{WL : WireLib} `{HL : HttpLib}
  `{SM : !Serde ChannelMessage} `{SH : !Serde Hello} `{SR : !Serde ExecRequest}.

Definition replies_of (h : Handshake) : list Reply :=
  match h with Waiting rs | Rejected rs _ | Accepted rs _ _ => rs end.
Definition accepted (h : Handshake) : bool := match h with Accepted _ _ _ => true | _ => false end.

(** C17: nothing happens before authentication.  If a connection changed the
    server's state (a session, a task, the registry, the token counter), was
    sent a Welcome or a denial, or got as far as an attach or agent loop, then
    it presented a Hello whose token the authenticator accepts. *)
Theorem handshake_requires_auth (ch : Items) (au au' : Auth) (w w' : World) (welcome_ok : bool)
    (sv sv' : Server) (env : ExecEnv) (h : Handshake) :
  handle_connection ch au w welcome_ok sv env = (h, au', w', sv') ->
  sv' <> sv \/ SentWelcome ∈ replies_of h \/ (exists reason, SentDenied reason ∈ replies_of h) \/
    accepted h = true ->
  exists (hello : Hello) ch1, Server.recv ch = (Some (Ok hello), ch1) /\
    (verify au (hello_token hello) w).1.1 = Ok tt.
Proof.
  unfold handle_connection. destruct (Server.recv ch) as [[[hello|e]|] ch1] eqn:Hrecv.
  - destruct (verify au (hello_token hello) w) as [[r au1] w1] eqn:Hv. destruct r as [sub|e].
    + intros _ _. exists hello, ch1. rewrite Hv. by destruct sub.
    + intros [= <- <- <- <-] Hc. exfalso. cbn in Hc. rewrite !elem_of_cons, elem_of_nil in Hc.
      destruct Hc as [?|[[?|[]]|[[r Hr]|?]]]; try done.
      rewrite !elem_of_cons, elem_of_nil in Hr. by destruct Hr as [?|[]].
  - intros [= <- <- <- <-] Hc. exfalso. cbn in Hc. rewrite elem_of_nil in Hc.
    destruct Hc as [?|[?|[[r Hr]|?]]]; try done. by rewrite elem_of_nil in Hr.
  - intros [= <- <- <- <-] Hc. exfalso. cbn in Hc. rewrite elem_of_nil in Hc.
    destruct Hc as [?|[?|[[r Hr]|?]]]; try done. by rewrite elem_of_nil in Hr.
Qed.

(** The events after which the loop considers its client lost. *)
Definition client_lost (a : Attach) (ev : AttachEvent) : Prop :=
  match ev with
  | Tick now _ => KEEPALIVE_TIMEOUT <= saturating_sub now (last_activity a)
  | Incoming _ Server.Closed | Incoming _ (Server.Failed _) => True
  | _ => False
  end.

(** C18: what a lost client means.  When the connection closes, fails or stays
    silent past the keepalive timeout, a resumable session is left exactly as
    it was, still registered, and the loop ends without an error; any other
    session is unregistered and told to abort (its last queued input, unless
    its task is already gone).  And a resumable session is unregistered by the
    loop in two cases only: the client acknowledged the Exit this connection
    sent, or the task died without one and its log is fully sent. *)
Theorem attach_lifecycle (np : bool) (s : Session) (a : Attach) (ev : AttachEvent) (r : Reaction) :
  react np s a ev = Some r ->
  (client_lost a ev ->
     if resumable s then r_session r = s /\ r_remove r = false /\ r_result r = Some (Ok tt)
     else r_remove r = true /\ is_Some (r_result r) /\
          (if inbound_closed s then r_session r = s
           else inbound (r_session r) = inbound s ++ [Abort])) /\
  (resumable s = true -> r_remove r = true ->
     (exists now bs n exit, ev = Incoming now (Server.Frame bs) /\ decode bs = Ok (Ack n) /\
        exit_seq a = Some exit /\ exit <= n /\ r_result r = Some (Ok tt)) \/
     (ev = Changed true /\ exit_seq a = None /\ OutboundLog.after (log s) (sent_up_to a) = [] /\
        r_result r = Some (Err SessionAborted))).
Proof.
  assert (Hlost : forall a' x, let r := lost s a' x in
    (if resumable s then r_session r = s /\ r_remove r = false /\ r_result r = Some (Ok tt)
     else r_remove r = true /\ is_Some (r_result r) /\
          (if inbound_closed s then r_session r = s
           else inbound (r_session r) = inbound s ++ [Abort])) /\
    (resumable s = true -> r_remove r = true -> False)).
  { intros a' x. unfold lost, send_input. destruct (resumable s); cbn; [by split_and!|].
    split; [|done]. split_and!; [done|by eexists|]. by destruct (inbound_closed s). }
  destruct ev as [now ping_ok|is_err|now ev]; cbn [react].
  - destruct np; [|done]. destruct (Z.leb_spec KEEPALIVE_TIMEOUT (saturating_sub now (last_activity a))) as [Hle|Hlt].
    + intros [= <-]. destruct (Hlost a (Ok tt)) as [H1 H2]. split; [done|]. intros Hr Hrem. by destruct (H2 Hr Hrem).
    + destruct ping_ok; intros [= <-]; (split; [cbn; lia|done]).
  - destruct (exit_seq a) eqn:He; [done|]. destruct is_err; cbn [andb].
    + case_bool_decide as Ha; intros [= <-]; (split; [done|]); [|done]. intros _ _. by right.
    + by intros [= <-].
  - intros [= <-]. destruct ev as [bs|bs| |e]; cbn [on_event].
    + split; [done|]. destruct (decode bs) as [m|e] eqn:Hd; [|done]. intros Hr. unfold on_message.
      destruct m as [| | | | | | |n| | |]; try done. cbn [exit_seq].
      destruct (exit_seq a) as [exit|] eqn:He; [|done].
      destruct (Z.leb_spec exit n); [|done]. intros _. left. by exists now, bs, n, exit.
    + split; [done|]. by destruct (decode bs).
    + destruct (Hlost {| sent_up_to := sent_up_to a; acked_stdin := acked_stdin a; exit_seq := exit_seq a;
                         last_activity := now |} (Ok tt)) as [H1 H2].
      split; [done|]. intros Hr Hrem. by destruct (H2 Hr Hrem).
    + destruct (Hlost {| sent_up_to := sent_up_to a; acked_stdin := acked_stdin a; exit_seq := exit_seq a;
                         last_activity := now |} (Err (Transport e))) as [H1 H2].
      split; [done|]. intros Hr Hrem. by destruct (H2 Hr Hrem).
Qed.

(** The ways a connection breaks that the loop does not count as a lost client:
    a ping that cannot be sent, and a frame that does not decode.  (A failed
    send of the flush leaves the loop in the same way.) *)
Definition breaks (a : Attach) (ev : AttachEvent) : Prop :=
  match ev with
  | Tick now ping_ok => saturating_sub now (last_activity a) < KEEPALIVE_TIMEOUT /\ ping_ok = false
  | Incoming _ (Server.Frame bs) => exists e, decode (T:=ChannelMessage) bs = Err e
  | _ => False
  end.

(** C36: a session that cannot be resumed can outlive its only client.  If the
    connection breaks by a failed ping or an undecodable frame, the loop returns
    an error, but unlike for a closed connection the session is neither
    unregistered nor aborted: its command keeps running, although no client was
    ever told a token to resume it with, until the expiry sweep finds it
    [timeout] after the connection's guard was dropped, and not before. *)
Theorem broken_connection_orphans_session (token : string) (np : bool) (s : Session) (a : Attach)
    (ev : AttachEvent) (r : Reaction) :
  resumable s = false -> attached s = 1 -> breaks a ev -> react np s a ev = Some r ->
  started token s = Started None /\
  r_session r = s /\ r_remove r = false /\ (exists e, r_result r = Some (Err e)) /\
  forall timeout dropped now, 0 < timeout ->
    is_expired timeout now (guard_drop dropped (r_session r)) = (timeout <=? now - dropped).
Proof.
  intros Hres Hatt Hbreak Hreact.
  assert (r_session r = s /\ r_remove r = false /\ exists e, r_result r = Some (Err e)) as (-> & Hrm & He).
  { destruct ev as [now ping_ok|is_err|now [bs|bs| |e]]; cbn in Hbreak; try done.
    - destruct Hbreak as [Hlt ->]. cbn in Hreact. destruct np; [|done].
      destruct (Z.leb_spec KEEPALIVE_TIMEOUT (saturating_sub now (last_activity a))); [lia|].
      injection Hreact as <-. split_and!; [done|done|by eexists].
    - destruct Hbreak as [e He]. cbn [react on_event] in Hreact. rewrite He in Hreact. injection Hreact as <-.
      split_and!; [done|done|by eexists]. }
  unfold started. rewrite Hres. split_and!; [done|done|done|done|].
  intros timeout dropped now Ht. unfold is_expired, guard_drop. rewrite Hatt. cbn.
  unfold saturating_sub. destruct (Z.leb_spec timeout (Z.max 0 (now - dropped))), (Z.leb_spec timeout (now - dropped));
    try done; lia.
Qed.

End AttachProperties.

(** ** Witnesses *)

Definition toy_lib : TransportLib := Build_TransportLib unit unit.

(** Messages carried by a byte string: the token, a resume token, and the sequence number of an
    acknowledgement. *)
Definition toy_hello : @Serde toy_wire Hello :=
  @Build_Serde toy_wire Hello (fun h => Ok (as_bytes (hello_token h)))
    (fun bs => Ok {| hello_token := of_bytes bs; client_name := ""; client_version := "" |}).
Definition toy_request : @Serde toy_wire ExecRequest :=
  @Build_Serde toy_wire ExecRequest (fun _ => Err tt) (fun bs => Ok (Resume (of_bytes bs) 0)).
Definition toy_message : @Serde toy_wire ChannelMessage :=
  @Build_Serde toy_wire ChannelMessage (fun _ => Err tt) (fun bs => Ok (Ack (len bs))).

Definition toy_server : Server :=
  {| sessions := {["100-5-0"%string := 0%nat]};
     objects := {[0%nat := (start_session 4 5 6 7 (Some 100) true false 0).1]};
     tasks := ∅; token_counter := 1 |}.

Lemma handshake_requires_auth_witness :
  let ch := @WsItems toy_lib [WsBinary (0 :: as_bytes "secret"); WsBinary (0 :: as_bytes "100-5-0")] in
  let au := @auth_new toy_jwt (Some "secret"%string) None in
  let env := {| hub_started := true; spawned := None; exec_now := 0; daemon_pid := 1; nanos := 2 |} in
  let r := @handle_connection toy_lib toy_wire toy_jwt toy_http toy_hello toy_request ch au 0%nat true
             toy_server env in
  accepted r.1.1.1 = true /\
  exists hello ch1, @Server.recv toy_lib toy_wire Hello toy_hello ch = (Some (Ok hello), ch1) /\
    (@verify toy_jwt toy_http au (hello_token hello) 0%nat).1.1 = Ok tt.
Proof.
  intros ch au env r. assert (Ha : accepted r.1.1.1 = true) by (vm_compute; reflexivity).
  split; [exact Ha|].
  apply (@handshake_requires_auth toy_lib toy_wire toy_jwt toy_http toy_hello toy_request ch au r.1.1.2
    0%nat r.1.2 true toy_server r.2 env r.1.1.1).
  - change (r = (r.1.1.1, r.1.1.2, r.1.2, r.2)). clear Ha. clearbody r. by destruct r as [[[? ?] ?] ?].
  - right; right; right. exact Ha.
Defined.

(** An acknowledged Exit on a resumable session; a closed connection of a
    session that cannot be resumed. *)
Lemma attach_lifecycle_witness :
  let s resumable := (start_session 4 5 6 7 (Some 100) resumable false 0).1 in
  let a := {| sent_up_to := 2; acked_stdin := 0; exit_seq := Some 2; last_activity := 0 |} in
  let closed := @Incoming toy_lib 5 Server.Closed in
  (exists r, @react toy_lib toy_wire toy_jwt toy_http toy_message true (s true) a
     (Incoming 5 (Server.Frame [0; 9; 9])) = Some r /\ r_remove r = true) /\
  (exists r, @react toy_lib toy_wire toy_jwt toy_http toy_message true (s false) a closed = Some r /\
     r_remove r = true /\ is_Some (r_result r) /\ inbound (r_session r) = [Abort]).
Proof.
  intros s a closed. split; [eexists; split; vm_compute; reflexivity|].
  eexists. split; [reflexivity|].
  exact (proj1 (@attach_lifecycle toy_lib toy_wire toy_jwt toy_http toy_message true (s false) a closed _
    eq_refl) I).
Defined.

Lemma broken_connection_orphans_session_witness :
  let s := guard_new (start_session 4 5 6 7 (Some 100) false false 0).1 in
  let a := attach_start 0 100 in
  exists r, @react toy_lib toy_wire toy_jwt toy_http toy_message true s a (Tick 15100 false) = Some r /\
    inbound (r_session r) = [] /\ r_remove r = false /\
    is_expired 604800000 604799999 (guard_drop 15100 (r_session r)) = false.
Proof.
  intros s a.
  destruct (@react toy_lib toy_wire toy_jwt toy_http toy_message true s a (Tick 15100 false)) as [r|] eqn:Hr;
    [|vm_compute in Hr; discriminate].
  exists r. split; [reflexivity|].
  split; [vm_compute in Hr; injection Hr as <-; reflexivity|].
  destruct (@broken_connection_orphans_session toy_lib toy_wire toy_jwt toy_http toy_message "1-2-3" true s a
    (Tick 15100 false) r eq_refl eq_refl) as (_ & _ & Hrm & _ & Hx); [split; reflexivity|exact Hr|].
  split; [exact Hrm|]. rewrite Hx; [reflexivity|lia].
Defined.
