(* ===== verification/Handover.v ===== *)
(** * Handing sessions over a daemon restart ([handover_sessions],
    [restore_sessions] in [server/src/lib.rs])

    The old daemon asks every resumable session's task for its state and pipe
    ends, names the descriptors `<token>.<role>` for systemd's fd store and
    writes the records to sessions.json; the new daemon rebuilds the sessions
    from both.  The JSON text is third-party (serde_json): the file is its
    parsed content, absent, or a parse error. *)

From S2P Require Import Prelude Proto Auth OutboundLog Session Exec Channel Registry Attach.

Local Open Scope rust_scope.

Abbreviation records := (gmap string SessionRecord).
Abbreviation named_fds := (list (string * Receiver)).

(** ** The old daemon *)

(** [format!("{token}.{role}")]. *)
Definition fd_name (token role : string) : string := token +:+ "." +:+ role.

Definition set_forward_agent (b : bool) (rec : SessionRecord) : SessionRecord :=
  {| rec_pgid := rec_pgid rec; rec_exit_code := rec_exit_code rec; rec_trimmed := rec_trimmed rec;
     rec_buffer := rec_buffer rec; rec_stdin_applied := rec_stdin_applied rec;
     rec_forward_agent := b |}.

(** One turn of the loop.  [answer addr] is what the session's task replies
    within five seconds. *)
Definition handover_one (answer : nat -> option SessionHandover)
    (acc : named_fds * records * Server) (entry : string * nat) : named_fds * records * Server :=
  let '(fds_, recs, out) := acc in
  let '(token, addr) := entry in
  match objects out !! addr with
  | None => acc
  | Some s =>
      if negb (resumable s) then acc
      else
        let '(s', sent) := send_input Handover s in
        let out := {| sessions := sessions out; objects := <[addr := s']> (objects out);
                      tasks := tasks out; token_counter := token_counter out |} in
        if negb sent then (fds_, recs, out)
        else
          match answer addr with
          | None => (fds_, recs, out)
          | Some h =>
              (fds_ ++ map (fun '(role, fd) => (fd_name token role, fd)) (fds h),
               <[token := set_forward_agent (agent s) (state h)]> recs,
               {| sessions := remove token (sessions out); objects := objects out;
                  tasks := tasks out; token_counter := token_counter out |})
          end
  end.

(** [handover_sessions]: the descriptors, the content of sessions.json, and
    the daemon afterwards. *)
Definition handover_sessions (answer : nat -> option SessionHandover) (sv : Server)
    : named_fds * records * Server :=
  fold_left (handover_one answer) (entries (sessions sv)) ([], ∅, sv).

(** ** The new daemon *)

Inductive RestoreError : Type :=
| BadJson
| NotAPipe
| NoAgentHub.

(** [fds_by_token]: names without a dot are ignored. *)
Definition group_fd (groups : gmap string (gmap string Receiver)) (entry : string * Receiver)
    : gmap string (gmap string Receiver) :=
  let '(name, fd) := entry in
  match rsplit_once 46 (as_bytes name) with
  | None => groups
  | Some (token, role) =>
      let token := of_bytes token in
      let roles := unwrap_or (groups !! token) ∅ in
      <[token := <[of_bytes role := fd]> roles]> groups
  end.

Definition group_fds (named : named_fds) : gmap string (gmap string Receiver) :=
  fold_left group_fd named ∅.

(** [receiver]: a missing descriptor becomes a pipe at EOF. *)
Definition receiver (is_pipe : Receiver -> bool) (fd : option Receiver) : result Receiver RestoreError :=
  match fd with
  | Some fd => if is_pipe fd then Ok fd else Err NotAPipe
  | None => Ok InstantEof
  end.

Definition sender (is_pipe : Receiver -> bool) (fd : option Receiver) : option Z :=
  match fd with
  | Some (FromFd fd) => if is_pipe (FromFd fd) then Some fd else None
  | _ => None
  end.

(** The session and the task's locals made from a record and its descriptors;
    [accepted] is what the child's stdin took under the old daemon. *)
Definition restore_one (is_pipe : Receiver -> bool) (hub_started : bool) (now : Z) (accepted : bytes)
    (rec : SessionRecord) (roles : gmap string Receiver) : result (Session * Task) RestoreError :=
  let? out := receiver is_pipe (roles !! "stdout"%string) in
  let? err := receiver is_pipe (roles !! "stderr"%string) in
  let? ex := receiver is_pipe (roles !! "exit"%string) in
  let io := {| io_stdin := sender is_pipe (roles !! "stdin"%string);
               io_stdout := out; io_stderr := err; io_exit := ex;
               io_exit_code := rec_exit_code rec; io_child := false; io_pgid := rec_pgid rec |} in
  if rec_forward_agent rec && negb hub_started then Err NoAgentHub
  else
    let s := {| inbound := []; inbound_closed := false;
                log := OutboundLog.restore (rec_trimmed rec) (rec_buffer rec);
                stdin_applied := rec_stdin_applied rec; agent := rec_forward_agent rec;
                attached := 0; detached_at := Some now; resumable := true |} in
    Ok (s, task_start io s accepted).

(** The loop over the records: the first failure ends it. *)
Fixpoint restore_loop (is_pipe : Receiver -> bool) (hub_started : bool) (now : Z)
    (accepted : string -> bytes) (groups : gmap string (gmap string Receiver))
    (recs : list (string * SessionRecord)) (sv : Server) : result unit RestoreError * Server :=
  match recs with
  | [] => (Ok tt, sv)
  | (token, rec) :: recs =>
      match restore_one is_pipe hub_started now (accepted token) rec (unwrap_or (groups !! token) ∅) with
      | Err e => (Err e, sv)
      | Ok (s, t) =>
          let addr := fresh_addr sv in
          restore_loop is_pipe hub_started now accepted groups recs
            {| sessions := insert_session token addr (sessions sv);
               objects := <[addr := s]> (objects sv); tasks := <[addr := t]> (tasks sv);
               token_counter := token_counter sv |}
      end
  end.

Definition restore_sessions (is_pipe : Receiver -> bool) (hub_started : bool) (now : Z)
    (accepted : string -> bytes) (file : option (result records unit)) (named : named_fds)
    (sv : Server) : result unit RestoreError * Server :=
  match file with
  | None => (Ok tt, sv)
  | Some (Err _) => (Err BadJson, sv)
  | Some (Ok recs) =>
      restore_loop is_pipe hub_started now accepted (group_fds named) (map_to_list recs) sv
  end.

(** ** Grouping the descriptors *)

Definition no_dot (s : string) : Prop := Forall (fun b => b <> 46) (as_bytes s).

Lemma rsplit_fd_name token role : no_dot role ->
  rsplit_once 46 (as_bytes (fd_name token role)) = Some (as_bytes token, as_bytes role).
Proof.
  intros Hr. unfold fd_name. rewrite !as_bytes_app. change (as_bytes ".") with [46].
  cbn [app]. by apply rsplit_once_app.
Qed.

Lemma group_fd_lookup groups token role fd token' role' : no_dot role ->
  unwrap_or (group_fd groups (fd_name token role, fd) !! token') ∅ !! role' =
  if bool_decide (token' = token /\ role' = role) then Some fd
  else unwrap_or (groups !! token') ∅ !! role'.
Proof.
  intros Hr. unfold group_fd. rewrite rsplit_fd_name, !of_as_bytes by done.
  destruct (decide (token' = token)) as [->|Ht].
  - rewrite lookup_insert_eq. cbn [unwrap_or]. destruct (decide (role' = role)) as [->|Hro].
    + by rewrite lookup_insert_eq, bool_decide_eq_true_2.
    + rewrite lookup_insert_ne by done. by rewrite bool_decide_eq_false_2 by tauto.
  - rewrite lookup_insert_ne by done. by rewrite bool_decide_eq_false_2 by tauto.
Qed.

(** All descriptors by token and role; later ones win. *)
Definition flat_step (m : gmap (string * string) Receiver) (e : string * string * Receiver)
    : gmap (string * string) Receiver := <[e.1 := e.2]> m.
Definition flat (l : list (string * string * Receiver)) : gmap (string * string) Receiver :=
  fold_left flat_step l ∅.
Definition name_fd (e : string * string * Receiver) : string * Receiver :=
  (fd_name e.1.1 e.1.2, e.2).

Lemma group_flat l : forall groups m,
  Forall (fun e => no_dot e.1.2) l ->
  (forall token role, unwrap_or (groups !! token) ∅ !! role = m !! (token, role)) ->
  forall token role, unwrap_or (fold_left group_fd (map name_fd l) groups !! token) ∅ !! role =
    fold_left flat_step l m !! (token, role).
Proof.
  induction l as [|[[tk ro] fd] l IH]; intros groups m Hd Hg token role; [by apply Hg|].
  inversion Hd as [|? ? Hr Hd']; subst. cbn [map fold_left]. apply IH; [done|].
  intros token' role'. unfold name_fd, flat_step. cbn [fst snd] in *.
  rewrite group_fd_lookup by done. case_bool_decide as Heq.
  - destruct Heq as [-> ->]. by rewrite lookup_insert_eq.
  - rewrite lookup_insert_ne by naive_solver. apply Hg.
Qed.

Lemma group_fds_flat l token role : Forall (fun e => no_dot e.1.2) l ->
  unwrap_or (group_fds (map name_fd l) !! token) ∅ !! role = flat l !! (token, role).
Proof. intros Hd. apply (group_flat l ∅ ∅ Hd). done. Qed.

(** The descriptors of one answer, by role. *)
Definition roles_of (h : SessionHandover) : gmap string Receiver := list_to_map (fds h).

(** A task's reply names its roles once each, and without dots. *)
Definition reply_ok (h : SessionHandover) : Prop :=
  NoDup (map fst (fds h)) /\ Forall (fun p => no_dot p.1) (fds h).

Definition tagged (token : string) (h : SessionHandover) : list (string * string * Receiver) :=
  map (fun p => (token, p.1, p.2)) (fds h).

Lemma fold_tagged token l : forall m,
  NoDup (map fst l) ->
  forall token' role, fold_left flat_step (map (fun p : string * Receiver => (token, p.1, p.2)) l) m
    !! (token', role) =
    if bool_decide (token' = token) then
      match (list_to_map l : gmap string Receiver) !! role with
      | Some fd => Some fd | None => m !! (token', role) end
    else m !! (token', role).
Proof.
  induction l as [|[ro fd] l IH]; intros m Hnd token' role; cbn [map fold_left list_to_map foldr].
  - rewrite lookup_empty. by case_bool_decide.
  - inversion Hnd as [|? ? Hni Hnd']; subst. rewrite IH by done. unfold flat_step. cbn [fst snd].
    case_bool_decide as Ht; [subst token'|by rewrite lookup_insert_ne by naive_solver].
    change (uncurry insert (ro, fd)) with (insert (M := gmap string Receiver) ro fd).
    destruct (decide (role = ro)) as [->|Hne].
    + cbn [fst]. rewrite !lookup_insert_eq.
      assert (Hnone : (list_to_map l : gmap string Receiver) !! ro = None).
      { apply not_elem_of_list_to_map_1. rewrite list_elem_of_In. cbn in Hni.
        rewrite list_elem_of_In in Hni. exact Hni. }
      by rewrite Hnone.
    + rewrite !lookup_insert_ne by naive_solver. done.
Qed.

(** ** The handover loop *)

(** A session whose task can and does answer. *)
Definition handed (answer : nat -> option SessionHandover) (objs : heap) (addr : nat)
    (s : Session) (h : SessionHandover) : Prop :=
  objs !! addr = Some s /\ resumable s = true /\ inbound_closed s = false /\ answer addr = Some h.

Section HandoverLoop.
Variable answer : nat -> option SessionHandover.
Hypothesis answer_ok : forall addr h, answer addr = Some h -> reply_ok h.

(** One turn either takes the session over or leaves descriptors, records and
    registry as they were; it touches no other session. *)
Lemma handover_one_cases L recs out token addr :
  let '(fds', recs', out') := handover_one answer (map name_fd L, recs, out) (token, addr) in
  (forall a, a <> addr -> objects out' !! a = objects out !! a) /\
  ((exists s h, handed answer (objects out) addr s h /\
      fds' = map name_fd (L ++ tagged token h) /\
      recs' = <[token := set_forward_agent (agent s) (state h)]> recs /\
      sessions out' = remove token (sessions out)) \/
   ((forall s h, ~ handed answer (objects out) addr s h) /\
      fds' = map name_fd L /\ recs' = recs /\ sessions out' = sessions out)).
Proof.
  unfold handover_one, handed. destruct (objects out !! addr) as [s|] eqn:Hs.
  2: { split; [done|]. right. split_and!; [|done|done|done]. by intros s h (? & _). }
  destruct (resumable s) eqn:Hres; cbn [negb].
  2: { split; [done|]. right. split_and!; [|done|done|done]. intros s' h ([= <-] & ? & _). congruence. }
  unfold send_input. destruct (inbound_closed s) eqn:Hcl; cbn [negb objects sessions].
  - split; [intros a Ha; by rewrite lookup_insert_ne|]. right. split_and!; [|done|done|done].
    intros s' h ([= <-] & _ & ? & _). congruence.
  - destruct (answer addr) as [h|] eqn:Hans; cbn [objects sessions];
      (split; [intros a Ha; by rewrite lookup_insert_ne|]).
    + left. exists s, h. split; [done|]. split; [|done]. rewrite map_app. f_equal.
      unfold tagged. rewrite map_map. apply map_ext. by intros [role fd].
    + right. split_and!; [|done|done|done]. by intros s' h (_ & _ & _ & ?).
Qed.

Lemma flat_app l k : flat (l ++ k) = fold_left flat_step k (flat l).
Proof. unfold flat. apply fold_left_app. Qed.

(** What a session's descriptors add to the flat map: its own roles only. *)
Lemma flat_tagged_other L tk h token role : reply_ok h -> token <> tk ->
  flat (L ++ tagged tk h) !! (token, role) = flat L !! (token, role).
Proof.
  intros [Hnd Hdots] Hne. rewrite flat_app. unfold tagged. rewrite (fold_tagged tk (fds h)) by done.
  by rewrite bool_decide_eq_false_2.
Qed.

Lemma flat_tagged_self L tk h role : reply_ok h -> flat L !! (tk, role) = None ->
  flat (L ++ tagged tk h) !! (tk, role) = roles_of h !! role.
Proof.
  intros [Hnd Hdots] Hnone. rewrite flat_app. unfold tagged. rewrite (fold_tagged tk (fds h)) by done.
  rewrite bool_decide_eq_true_2 by done. unfold roles_of. by destruct (_ !! role).
Qed.

Lemma handed_functional f h1 a s s' h h' : handed f h1 a s h -> handed f h1 a s' h' -> s = s' /\ h = h'.
Proof. intros (Ho & _ & _ & Ha) (Ho' & _ & _ & Ha'). split; congruence. Qed.

Lemma handover_loop xs : forall L recs out,
  NoDup (map fst xs) -> NoDup (map snd xs) -> Forall (fun e => no_dot e.1.2) L ->
  (forall token role, token ∈ map fst xs -> flat L !! (token, role) = None) ->
  exists L' recs' out',
    fold_left (handover_one answer) xs (map name_fd L, recs, out) = (map name_fd L', recs', out') /\
    Forall (fun e => no_dot e.1.2) L' /\
    (forall token, token ∉ map fst xs ->
       recs' !! token = recs !! token /\ sessions out' !! token = sessions out !! token /\
       forall role, flat L' !! (token, role) = flat L !! (token, role)) /\
    (forall token addr s h, (token, addr) ∈ xs -> handed answer (objects out) addr s h ->
       recs' !! token = Some (set_forward_agent (agent s) (state h)) /\
       sessions out' !! token = None /\
       forall role, flat L' !! (token, role) = roles_of h !! role) /\
    (forall token addr, (token, addr) ∈ xs -> (forall s h, ~ handed answer (objects out) addr s h) ->
       recs' !! token = recs !! token).
Proof.
  induction xs as [|[tk ad] xs IH]; intros L recs out Hnt Hna HL Hflat.
  { exists L, recs, out. split_and!; [done|done|done| |]; intros ? ? * Hin; by apply elem_of_nil in Hin. }
  cbn [map fst snd] in *. apply NoDup_cons in Hnt as [Htk Hnt]. apply NoDup_cons in Hna as [Had Hna].
  cbn [fold_left]. pose proof (handover_one_cases L recs out tk ad) as Hone.
  destruct (handover_one answer (map name_fd L, recs, out) (tk, ad)) as [[fds1 recs1] out1].
  destruct Hone as [Hobj Hcase].
  assert (Hstable : forall addr s h, addr ∈ map snd xs ->
            handed answer (objects out1) addr s h <-> handed answer (objects out) addr s h).
  { intros addr s h Hin. unfold handed. rewrite Hobj; [done|]. by intros ->. }
  destruct Hcase as [(s1 & h1 & Hh1 & -> & -> & Hsess)|(Hno & -> & -> & Hsess)].
  - assert (Hok : reply_ok h1) by (apply (answer_ok ad), Hh1).
    destruct (IH (L ++ tagged tk h1) (<[tk:=set_forward_agent (agent s1) (state h1)]> recs) out1)
      as (L' & recs' & out' & Hf & HL' & Hout & Hin & Hskip); [done|done| | |].
    + apply Forall_app. split; [done|]. unfold tagged. rewrite List.Forall_map. apply Hok.
    + intros token role Ht. rewrite flat_tagged_other by (done || by intros ->). apply Hflat. by right.
    + exists L', recs', out'. split_and!; [done|done| | |].
      * intros token [Hne Hnin]%not_elem_of_cons. destruct (Hout token Hnin) as (Hr & Hs & Hfl).
        split_and!.
        -- by rewrite Hr, lookup_insert_ne.
        -- rewrite Hs, Hsess. unfold remove. by rewrite lookup_delete_ne.
        -- intros role. by rewrite Hfl, flat_tagged_other.
      * intros token addr s h [[= -> ->]|Hxs]%elem_of_cons Hh.
        -- destruct (Hout tk Htk) as (Hr & Hs & Hfl).
           destruct (handed_functional _ _ _ _ _ _ _ Hh Hh1) as [-> ->].
           split_and!; [by rewrite Hr, lookup_insert_eq| |].
           ++ rewrite Hs, Hsess. unfold remove. apply lookup_delete_eq.
           ++ intros role. rewrite Hfl. apply flat_tagged_self; [done|]. apply Hflat. by left.
        -- apply (Hin token addr s h Hxs). apply Hstable; [by eapply in_map_snd|done].
      * intros token addr [[= -> ->]|Hxs]%elem_of_cons Hnot; [by destruct (Hnot s1 h1)|].
        rewrite (Hskip token addr Hxs).
        -- rewrite lookup_insert_ne; [done|]. intros ->. by apply in_map_fst in Hxs.
        -- intros s h Hh. apply (Hnot s h), Hstable; [by eapply in_map_snd|done].
  - destruct (IH L recs out1) as (L' & recs' & out' & Hf & HL' & Hout & Hin & Hskip);
      [done|done|done|by intros; apply Hflat; right|].
    exists L', recs', out'. split_and!; [done|done| | |].
    + intros token [Hne Hnin]%not_elem_of_cons. destruct (Hout token Hnin) as (Hr & Hs & Hfl).
      rewrite Hs, Hsess. done.
    + intros token addr s h [[= -> ->]|Hxs]%elem_of_cons Hh; [by destruct (Hno s h)|].
      apply (Hin token addr s h Hxs). apply Hstable; [by eapply in_map_snd|done].
    + intros token addr [[= -> ->]|Hxs]%elem_of_cons Hnot.
      * by destruct (Hout tk Htk) as (Hr & _).
      * apply (Hskip token addr Hxs). intros s h Hh. apply (Hnot s h), Hstable; [by eapply in_map_snd|done].
Qed.

End HandoverLoop.

(** ** The restore loop *)

Section RestoreLoop.
Variables (is_pipe : Receiver -> bool) (hub_started : bool) (now : Z).
Variables (accepted : string -> bytes) (groups : gmap string (gmap string Receiver)).

Definition restored (sv : Server) (token : string) (s : Session) (t : Task) : Prop :=
  exists addr, sessions sv !! token = Some addr /\ objects sv !! addr = Some s /\
    tasks sv !! addr = Some t.

Lemma fresh_addr_new sv : objects sv !! fresh_addr sv = None /\ tasks sv !! fresh_addr sv = None.
Proof.
  pose proof (is_fresh (dom (objects sv) ∪ dom (tasks sv))) as Hf. fold (fresh_addr sv) in Hf.
  rewrite not_elem_of_union, !not_elem_of_dom in Hf. done.
Qed.

Lemma restore_loop_ok recs : forall sv sv',
  restore_loop is_pipe hub_started now accepted groups recs sv = (Ok tt, sv') ->
  NoDup (map fst recs) ->
  (forall token s t, token ∉ map fst recs -> restored sv token s t -> restored sv' token s t) /\
  (forall token, token ∉ map fst recs -> sessions sv' !! token = sessions sv !! token) /\
  (forall token rec, (token, rec) ∈ recs ->
     exists s t, restore_one is_pipe hub_started now (accepted token) rec
                   (unwrap_or (groups !! token) ∅) = Ok (s, t) /\ restored sv' token s t).
Proof.
  induction recs as [|[tk rec] recs IH]; intros sv sv' Hrun Hnd; cbn [restore_loop] in Hrun.
  { injection Hrun as <-. split_and!; [done|done|]. by intros ? ? ?%elem_of_nil. }
  cbn [map fst] in *. inversion Hnd as [|? ? Hni Hnd']; subst.
  destruct (restore_one _ _ _ (accepted tk) rec _) as [[s t]|e] eqn:Hone; [|done].
  destruct (fresh_addr_new sv) as [Hfo Hft].
  apply IH in Hrun as (Hkeep & Hsess & Hnew); [|done]. split_and!.
  - intros token s2 t2 [Hne Hnin]%not_elem_of_cons (addr & Ht & Ho & Hk). apply Hkeep; [done|].
    exists addr. cbn. unfold insert_session. rewrite !lookup_insert_ne by congruence. done.
  - intros token [Hne Hnin]%not_elem_of_cons. rewrite Hsess by done. cbn. unfold insert_session.
    by rewrite lookup_insert_ne.
  - intros token rec2 [[= -> ->]|Hin]%elem_of_cons; [|by apply Hnew].
    exists s, t. split; [done|]. apply Hkeep; [by rewrite list_elem_of_In in Hni |- *|].
    exists (fresh_addr sv). cbn. unfold insert_session. by rewrite !lookup_insert_eq.
Qed.

Lemma restore_loop_total recs : forall sv,
  (forall token rec, (token, rec) ∈ recs -> is_Some (result_ok
     (restore_one is_pipe hub_started now (accepted token) rec (unwrap_or (groups !! token) ∅)))) ->
  exists sv', restore_loop is_pipe hub_started now accepted groups recs sv = (Ok tt, sv').
Proof.
  induction recs as [|[tk rec] recs IH]; intros sv Hall; [by eexists|]. cbn [restore_loop].
  destruct (Hall tk rec ltac:(left)) as [? Hok].
  destruct (restore_one _ _ _ _ rec _) as [[s t]|e]; [|done].
  apply IH. intros token rec' Hin. apply Hall. by right.
Qed.

Lemma restore_one_total acc rec roles : is_pipe = (fun _ => true) -> hub_started = true ->
  is_Some (result_ok (restore_one is_pipe hub_started now acc rec roles)).
Proof.
  intros -> ->. unfold restore_one, receiver. rewrite andb_false_r.
  by destruct (roles !! "stdout"%string), (roles !! "stderr"%string), (roles !! "exit"%string).
Qed.

End RestoreLoop.

(** ** One session across the restart *)

Lemma dotless role : In role ["stdin"; "stdout"; "stderr"; "exit"]%string -> no_dot role.
Proof. intros [<-|[<-|[<-|[<-|[]]]]]; vm_compute; repeat constructor; discriminate. Qed.

(** What the new daemon sees of the old one's open pipe ends. *)
Definition reopened (open : bool) (r : Receiver) : Receiver := if open then r else InstantEof.

Lemma reclaim_roles (t : Task) :
  reclaim_fds (fun _ => true) t =
  match stdin t with Some fd => [("stdin"%string, FromFd fd)] | None => [] end ++
  (if stdout_open t then [("stdout"%string, stdout t)] else []) ++
  (if stderr_open t then [("stderr"%string, stderr t)] else []) ++
  (if bool_decide (exit_code t = None) then [("exit"%string, exit t)] else []).
Proof.
  unfold reclaim_fds. f_equal. cbn [map concat]. rewrite !andb_true_r. by rewrite app_nil_r.
Qed.

Lemma reclaim_lookup (t : Task) (h : SessionHandover) : fds h = reclaim_fds (fun _ => true) t ->
  reply_ok h /\
  roles_of h !! "stdin"%string = FromFd <$> stdin t /\
  roles_of h !! "stdout"%string = (if stdout_open t then Some (stdout t) else None) /\
  roles_of h !! "stderr"%string = (if stderr_open t then Some (stderr t) else None) /\
  roles_of h !! "exit"%string = (if bool_decide (exit_code t = None) then Some (exit t) else None).
Proof.
  intros Hf. unfold reply_ok, roles_of. rewrite Hf, reclaim_roles.
  destruct (stdin t), (stdout_open t), (stderr_open t), (bool_decide (exit_code t = None));
    cbn [app map fst]; (split; [split; [apply (bool_decide_unpack _); vm_compute; exact I|
      repeat (constructor; [apply dotless; cbn; tauto|]); constructor]|]);
    split_and!; reflexivity.
Qed.

Lemma restore_handed now accepted s t hist acked (h : SessionHandover) roles :
  h = handover_reply (fun _ => true) s t -> task_inv hist acked s t ->
  (forall role, roles !! role = roles_of h !! role) ->
  exists s2 t2,
    restore_one (fun _ => true) true now accepted (set_forward_agent (agent s) (state h)) roles = Ok (s2, t2) /\
    task_inv hist acked s2 t2 /\
    agent s2 = agent s /\ resumable s2 = true /\ detached_at s2 = Some now /\ attached s2 = 0 /\
    inbound s2 = [] /\
    stdin t2 = stdin t /\ exit_code t2 = exit_code t /\ last_client_seq t2 = last_client_seq t /\
    pgid t2 = pgid t /\ child_stdin t2 = accepted /\
    stdout t2 = reopened (stdout_open t) (stdout t) /\ stderr t2 = reopened (stderr_open t) (stderr t) /\
    exit t2 = reopened (bool_decide (exit_code t = None)) (exit t).
Proof.
  intros Hh [Hl Hs Hn Ha] Hroles.
  assert (Hfds : fds h = reclaim_fds (fun _ => true) t) by (rewrite Hh; done).
  destruct (reclaim_lookup t h Hfds) as (_ & Hin & Hout & Herr & Hex).
  pose proof (OutboundLog.handover_represents _ _ _ Hl) as Hrep.
  unfold restore_one. rewrite !Hroles, Hin, Hout, Herr, Hex, andb_false_r.
  assert (Hst : state h = state (handover_reply (fun _ => true) s t)) by (by rewrite Hh).
  rewrite Hst. cbn -[OutboundLog.restore].
  destruct (stdin t), (stdout_open t), (stderr_open t), (bool_decide (exit_code t = None));
    cbn [fmap option_fmap option_map receiver sender result_bind];
    (eexists _, _; split; [reflexivity|]; split;
     [split; [exact Hrep|apply (OutboundLog.rep_latest _ _ _ Hrep)|exact Hn|reflexivity]|
      split_and!; reflexivity]).
Qed.

(** The old daemon's tasks answer with their actual state. *)
Definition answers_truly (answer : nat -> option SessionHandover) (sv : Server) : Prop :=
  forall addr h, answer addr = Some h -> exists s t,
    objects sv !! addr = Some s /\ tasks sv !! addr = Some t /\
    h = handover_reply (fun _ => true) s t.

Lemma answers_reply_ok answer sv : answers_truly answer sv -> forall a k, answer a = Some k -> reply_ok k.
Proof. intros Htrue a k Hk. destruct (Htrue a k Hk) as (s & t & _ & _ & ->). by apply (reclaim_lookup t). Qed.

Lemma handed_decide answer objs addr :
  (exists s h, handed answer objs addr s h) \/ (forall s h, ~ handed answer objs addr s h).
Proof.
  unfold handed. destruct (objs !! addr) as [s|]; [|right; intros s h (? & _); congruence].
  destruct (resumable s) eqn:Hr; [|right; intros s' h ([= <-] & ? & _); congruence].
  destruct (inbound_closed s) eqn:Hc; [right; intros s' h ([= <-] & _ & ? & _); congruence|].
  destruct (answer addr) as [h|]; [left; by exists s, h|right; intros s' h (_ & _ & _ & ?); congruence].
Qed.

(** What the records and the descriptors contain. *)
Lemma handover_contents answer old : NoDup (map snd (entries (sessions old))) -> answers_truly answer old ->
  let '(fds_, recs, old') := handover_sessions answer old in
  (forall token rec, recs !! token = Some rec ->
     exists addr s h, sessions old !! token = Some addr /\ handed answer (objects old) addr s h) /\
  (forall token addr s h, sessions old !! token = Some addr -> handed answer (objects old) addr s h ->
     sessions old' !! token = None /\ recs !! token = Some (set_forward_agent (agent s) (state h)) /\
     forall role, unwrap_or (group_fds fds_ !! token) ∅ !! role = roles_of h !! role).
Proof.
  intros Hnd Htrue.
  destruct (handover_loop answer (answers_reply_ok _ _ Htrue) (entries (sessions old)) [] ∅ old)
    as (L & recs & old' & Hf & HL & Hout & Hin & Hskip);
    [apply NoDup_fst_map_to_list|done|done|done|].
  unfold handover_sessions. change (@nil (string * Receiver)) with (map name_fd []). rewrite Hf. split.
  - intros token rec Hrec. destruct (decide (token ∈ map fst (entries (sessions old)))) as [Hmem|Hnot].
    + apply list_elem_of_In, in_map_iff in Hmem as ([tk addr] & <- & Hmem%list_elem_of_In). cbn in *.
      destruct (handed_decide answer (objects old) addr) as [(s & h & Hh)|Hno].
      * exists addr, s, h. split; [by apply elem_of_map_to_list|done].
      * rewrite (Hskip tk addr Hmem Hno) in Hrec. by rewrite lookup_empty in Hrec.
    + destruct (Hout token Hnot) as (Hr & _). rewrite Hr, lookup_empty in Hrec. done.
  - intros token addr s h Ht Hh. destruct (Hin token addr s h) as (Hrec & Hgone & Hroles);
      [by apply elem_of_map_to_list|done|]. split_and!; [done|done|].
    intros role. by rewrite (group_fds_flat L token role HL), Hroles.
Qed.

Lemma restore_total recs fds_ now accepted new : exists new',
  restore_sessions (fun _ => true) true now accepted (Some (Ok recs)) fds_ new = (Ok tt, new').
Proof. apply restore_loop_total. intros. by apply restore_one_total. Qed.

(** ** Properties *)

(** C7: a daemon restart loses nothing of a running resumable session.  When
    every answering task replies with its state, the restore succeeds, and each
    answering session (of any number of them) is registered again under its
    token in the new daemon, with the same log contents and position (so the
    same replay for every client position), the same applied stdin position,
    exit code, process group and agent flag, and every pipe end that was still
    open; streams already at EOF come back at EOF.  The old daemon no longer
    serves it. *)
Theorem restart_preserves_session (answer : nat -> option SessionHandover) (old new : Server)
    (accepted : string -> bytes) (now : Z) (token : string) (addr : nat) (s : Session) (t : Task)
    (hist : list ChannelMessage) (acked : Z) :
  NoDup (map snd (entries (sessions old))) -> answers_truly answer old ->
  sessions old !! token = Some addr -> objects old !! addr = Some s -> tasks old !! addr = Some t ->
  resumable s = true -> inbound_closed s = false -> is_Some (answer addr) ->
  task_inv hist acked s t ->
  let '(fds_, recs, old') := handover_sessions answer old in
  sessions old' !! token = None /\
  exists new' s2 t2,
    restore_sessions (fun _ => true) true now accepted (Some (Ok recs)) fds_ new = (Ok tt, new') /\
    restored new' token s2 t2 /\ task_inv hist acked s2 t2 /\
    agent s2 = agent s /\ resumable s2 = true /\ detached_at s2 = Some now /\ attached s2 = 0 /\
    inbound s2 = [] /\
    stdin t2 = stdin t /\ exit_code t2 = exit_code t /\ last_client_seq t2 = last_client_seq t /\
    pgid t2 = pgid t /\ child_stdin t2 = accepted token /\
    stdout t2 = reopened (stdout_open t) (stdout t) /\ stderr t2 = reopened (stderr_open t) (stderr t) /\
    exit t2 = reopened (bool_decide (exit_code t = None)) (exit t).
Proof.
  intros Hnd Htrue Htok Hobj Htask Hres Hcl [h Hans] Hinv.
  assert (Hh : h = handover_reply (fun _ => true) s t).
  { destruct (Htrue addr h Hans) as (s' & t' & Hs' & Ht' & ->). congruence. }
  pose proof (handover_contents answer old Hnd Htrue) as Hcont.
  destruct (handover_sessions answer old) as [[fds_ recs] old']. destruct Hcont as [_ Hin].
  destruct (Hin token addr s h Htok) as (Hgone & Hrec & Hroles); [done|]. split; [done|].
  destruct (restore_total recs fds_ now accepted new) as [new' Hnew].
  pose proof (restore_loop_ok _ _ _ _ _ _ _ _ Hnew (NoDup_fst_map_to_list recs)) as (_ & _ & Hall).
  destruct (Hall token (set_forward_agent (agent s) (state h))) as (s2 & t2 & Hone & Hr);
    [by apply elem_of_map_to_list|].
  destruct (restore_handed now (accepted token) s t hist acked h _ Hh Hinv Hroles) as (s2' & t2' & Hone' & Hfacts).
  rewrite Hone' in Hone. injection Hone as -> ->. by exists new', s2, t2.
Qed.

(** One running session whose stdout already closed, restarted into an empty
    daemon. *)
Definition example_session : Session * Task :=
  let '(s, t) := start_session 4 5 6 7 (Some 100) true true 0 in
  (push_log (Stdout 1 [104]) s, with_open false true (with_seq 1 t)).
Definition example_old : Server :=
  {| sessions := {["100-5-0"%string := 0%nat]}; objects := {[0%nat := example_session.1]};
     tasks := {[0%nat := example_session.2]}; token_counter := 1 |}.
Definition example_new : Server :=
  {| sessions := ∅; objects := ∅; tasks := ∅; token_counter := 0 |}.
Definition example_answer (addr : nat) : option SessionHandover :=
  if bool_decide (addr = 0%nat)
  then Some (handover_reply (fun _ => true) example_session.1 example_session.2) else None.

Lemma restart_preserves_session_witness :
  let '(fds_, recs, old') := handover_sessions example_answer example_old in
  sessions old' !! "100-5-0"%string = None /\
  exists new' s2 t2,
    restore_sessions (fun _ => true) true 77 (fun _ => []) (Some (Ok recs)) fds_ example_new = (Ok tt, new') /\
    restored new' "100-5-0" s2 t2 /\ task_inv [Stdout 1 [104]] 0 s2 t2 /\
    agent s2 = true /\ resumable s2 = true /\ detached_at s2 = Some 77 /\ attached s2 = 0 /\
    inbound s2 = [] /\
    stdin t2 = Some 4 /\ exit_code t2 = None /\ last_client_seq t2 = 0 /\
    pgid t2 = 100 /\ child_stdin t2 = [] /\
    stdout t2 = InstantEof /\ stderr t2 = FromFd 6 /\ exit t2 = FromFd 7.
Proof.
  apply (restart_preserves_session example_answer example_old example_new (fun _ => []) 77
    "100-5-0" 0%nat example_session.1 example_session.2 [Stdout 1 [104]] 0).
  - apply (bool_decide_unpack _). vm_compute. exact I.
  - intros addr h. unfold example_answer. case_bool_decide as Ha; [|done]. subst addr.
    intros [= <-]. exists example_session.1, example_session.2. split_and!; reflexivity.
  - reflexivity.
  - reflexivity.
  - reflexivity.
  - reflexivity.
  - reflexivity.
  - eexists. reflexivity.
  - split; [|reflexivity| |reflexivity].
    + apply (OutboundLog.push_represents OutboundLog.default [] 0 (Stdout 1 [104]));
        [apply OutboundLog.default_represents|reflexivity].
    + intros i m Hi. apply list_lookup_singleton_Some in Hi as [-> <-]. reflexivity.
Defined.

(** C40: a session whose task has finished is not handed over.  If the command
    ended while its client was away (the Exit and the tail of the output are
    logged but not acknowledged, and the session is still registered), the
    handover writes no record for it, so the next daemon refuses the client's
    resume as an unknown token. *)
Theorem finished_session_not_handed_over (answer : nat -> option SessionHandover) (old new : Server)
    (accepted : string -> bytes) (now : Z) (token : string) (addr : nat) (s : Session)
    (env : ExecEnv) (last_seq_seen : Z)
    `{TransportLib} `{WireLib} `{HttpLib} :
  NoDup (map snd (entries (sessions old))) -> (forall a h, answer a = Some h -> reply_ok h) ->
  sessions old !! token = Some addr -> objects old !! addr = Some s -> inbound_closed s = true ->
  sessions new !! token = None ->
  let '(fds_, recs, _) := handover_sessions answer old in
  recs !! token = None /\
  forall new', restore_sessions (fun _ => true) true now accepted (Some (Ok recs)) fds_ new = (Ok tt, new') ->
    dispatch new' env (Resume token last_seq_seen) =
      (Refused (Some "unknown resume token"%string) UnknownResumeToken, new').
Proof.
  intros Hnd Hok Htok Hobj Hcl Hnew.
  destruct (handover_loop answer Hok (entries (sessions old)) [] ∅ old)
    as (L & recs & old' & Hf & _ & _ & _ & Hskip);
    [apply NoDup_fst_map_to_list|done|done|done|].
  unfold handover_sessions. change (@nil (string * Receiver)) with (map name_fd []). rewrite Hf.
  assert (Hnone : recs !! token = None).
  { rewrite (Hskip token addr); [apply lookup_empty|by apply elem_of_map_to_list|].
    intros s' h' (Hs' & _ & Hcl' & _). congruence. }
  split; [done|]. intros new' Hrun. cbn [restore_sessions] in Hrun.
  apply restore_loop_ok in Hrun as (_ & Hsess & _); [|apply NoDup_fst_map_to_list].
  cbn [dispatch]. unfold get. rewrite Hsess, Hnew; [done|].
  intros Hin%list_elem_of_In%in_map_iff. destruct Hin as ([tk rec] & Htk & Hin). cbn in Htk. subst tk.
  apply list_elem_of_In, elem_of_map_to_list in Hin. congruence.
Qed.

Lemma finished_session_not_handed_over_witness :
  let lib := Build_TransportLib unit unit in
  let old := {| sessions := sessions example_old;
                objects := {[0%nat := with_closed example_session.1]};
                tasks := tasks example_old; token_counter := 1 |} in
  let env := {| hub_started := true; spawned := None; exec_now := 0; daemon_pid := 1; nanos := 2 |} in
  let '(fds_, recs, _) := handover_sessions (fun _ => None) old in
  recs !! "100-5-0"%string = None /\
  forall new', restore_sessions (fun _ => true) true 77 (fun _ => []) (Some (Ok recs)) fds_ example_new = (Ok tt, new') ->
    @dispatch lib toy_wire Auth.toy_jwt Auth.toy_http new' env (Resume "100-5-0" 0) =
      (Refused (Some "unknown resume token"%string) UnknownResumeToken, new').
Proof.
  intros lib old env.
  apply (@finished_session_not_handed_over (fun _ => None) old example_new (fun _ => []) 77
    "100-5-0" 0%nat (with_closed example_session.1) env 0 lib toy_wire Auth.toy_jwt Auth.toy_http).
  - apply (bool_decide_unpack _). vm_compute. exact I.
  - intros a h. discriminate.
  - reflexivity.
  - reflexivity.
  - reflexivity.
  - reflexivity.
Defined.
