(* ===== verification/Target.v ===== *)
(** * Targets of the client ([client/src/lib.rs], first half)

    The client's errors, its configuration file and the connection parameters
    made from it.  The TOML parser is third-party: it is the class [TomlLib].
    The causes carried by I/O, transport and protocol errors are dropped: no
    code inspects them. *)

From S2P Require Import Prelude.

Local Open Scope rust_scope.

(** ** Errors *)

(** [ClientError]. *)
Inductive ClientError : Type :=
| ReadConfig (path : string)
| ParseConfig (path : string)
| UnknownTarget (target : string)
| Io
| WebSocket
| ProtocolFailed
| ConnectionClosed
| Denied (reason : string)
| ConnectTimeout
| Http (url : string)
| OidcError (msg : string)
| RateLimited (url : string) (retry_after : Z)
| NotLoggedIn (name : string)
| NoAuthConfigured.

#[global] Instance ClientError_eq_dec : EqDecision ClientError.
Proof. solve_decision. Defined.

(** ** Configuration *)

Record TargetConfig := {
  cfg_url : string;
  cfg_token : option string;
  cfg_issuer : option string;
  cfg_client_id : option string;
  cfg_forward_agent : bool;
  cfg_quic_addr : option string;
  cfg_quic_ca : option string;
}.

(** Where the token of a connection comes from. *)
Inductive TokenSource : Type :=
| Static (token : string)
| FromOidc (name : string) (config : TargetConfig).

(** [Target]; durations are milliseconds. *)
Record Target := {
  url : string;
  token : TokenSource;
  keepalive_interval : Z;
  keepalive_timeout : Z;
  connect_timeout : Z;
  agent_socket : option string;
  quic_addr : option string;
  quic_ca : option string;
}.

Definition with_token_source (url : string) (token : TokenSource) : Target :=
  {| url := url; token := token; keepalive_interval := 10000; keepalive_timeout := 30000;
     connect_timeout := 10000; agent_socket := None; quic_addr := None; quic_ca := None |}.

Definition target_new (url token : string) : Target := with_token_source url (Static token).

(** The end of [TargetConfig::resolve], once the token source is known;
    [ssh_auth_sock] is the environment's [SSH_AUTH_SOCK]. *)
Definition resolved (cfg : TargetConfig) (token : TokenSource) (ssh_auth_sock : option string) : Target :=
  let target := with_token_source (cfg_url cfg) token in
  {| url := url target; token := Target.token target;
     keepalive_interval := keepalive_interval target; keepalive_timeout := keepalive_timeout target;
     connect_timeout := connect_timeout target;
     agent_socket := if cfg_forward_agent cfg then ssh_auth_sock else agent_socket target;
     quic_addr := cfg_quic_addr cfg; quic_ca := cfg_quic_ca cfg |}.

(** ** The configuration file *)

(** [toml::from_str] for the file's [targets] table. *)
Class TomlLib := { toml_from_str : bytes -> option (gmap string TargetConfig) }.

Section LoadTarget.
Context `{TomlLib}.

(** [contents] is what reading the file gave. *)
Definition load_target (contents : option bytes) (path target : string) : result TargetConfig ClientError :=
  let? contents := ok_or contents (ReadConfig path) in
  let? targets := ok_or (toml_from_str contents) (ParseConfig path) in
  ok_or (targets !! target) (UnknownTarget target).

End LoadTarget.

(** [PathBuf::join] on Unix: an absolute component replaces the path. *)
Definition path_join (base comp : bytes) : bytes :=
  match comp with
  | 47 :: _ => comp
  | _ =>
      match base with
      | [] => comp
      | _ => if List.last base 0 =? 47 then base ++ comp else base ++ [47] ++ comp
      end
  end.

(** [env] is [std::env::var_os]. *)
Definition default_config_path (env : string -> option bytes) : bytes :=
  let base :=
    match env "XDG_CONFIG_HOME"%string with
    | Some dir => dir
    | None => path_join (unwrap_or (env "HOME"%string) []) (as_bytes ".config")
    end in
  path_join (path_join base (as_bytes "herdr-eternal")) (as_bytes "config.toml").

(** Every outcome of the lookup is the error that names what was wrong, or the
    configured entry. *)
Lemma load_target_cases `{TomlLib} contents path target :
  load_target contents path target =
    match contents with
    | None => Err (ReadConfig path)
    | Some bs =>
        match toml_from_str bs with
        | None => Err (ParseConfig path)
        | Some targets =>
            match targets !! target with
            | Some cfg => Ok cfg
            | None => Err (UnknownTarget target)
            end
        end
    end.
Proof.
  unfold load_target. destruct contents as [bs|]; [|done]. cbn [ok_or result_bind].
  destruct (toml_from_str bs) as [targets|]; [|done]. cbn [ok_or result_bind].
  by destruct (targets !! target).
Qed.
