(* ===== verification/RunExec.v ===== *)
(** * Running a command from the client ([run_exec], [connect_and_start],
    [is_next], [ack] in [client/src/lib.rs]; [Conn::connect] in
    [client/src/channel.rs])

    The locals of [run_exec] are a record; its nested loops are three step
    functions: the outcome of a connection attempt ([on_connect]), one event of
    the attached loop ([attached_step], with [on_message] for a decoded
    message), and what follows a finished attachment ([after_attached]).  What
    the command wrote to the caller's stdout and stderr is kept in the history
    variables [out] and [err]. *)

From S2P Require Import Prelude Proto Channel Session Target.

Local Open Scope rust_scope.

(** ** Data *)

Definition RESUME_RETRY_DELAY : Z := 300.
Definition RESUME_RETRY_MAX : Z := 2000.

(** The locals of [run_exec]. *)
Record Client := {
  stdin_open : bool;
  sent_stdin : list ChannelMessage;
  client_seq : Z;
  last_server_seq : Z;
  resume_token : option string;
  retry_delay : Z;
  agent_channel : bool;
  out : bytes;
  err : bytes;
}.

Definition client_start : Client :=
  {| stdin_open := true; sent_stdin := []; client_seq := 0; last_server_seq := 0;
     resume_token := None; retry_delay := RESUME_RETRY_DELAY; agent_channel := false;
     out := []; err := [] |}.

Definition with_token (token : option string) (agent : bool) (c : Client) : Client :=
  {| stdin_open := stdin_open c; sent_stdin := sent_stdin c; client_seq := client_seq c;
     last_server_seq := last_server_seq c; resume_token := token; retry_delay := retry_delay c;
     agent_channel := agent; out := out c; err := err c |}.
Definition with_retry (delay : Z) (c : Client) : Client :=
  {| stdin_open := stdin_open c; sent_stdin := sent_stdin c; client_seq := client_seq c;
     last_server_seq := last_server_seq c; resume_token := resume_token c; retry_delay := delay;
     agent_channel := agent_channel c; out := out c; err := err c |}.
Definition with_sent (open : bool) (sent : list ChannelMessage) (n : Z) (c : Client) : Client :=
  {| stdin_open := open; sent_stdin := sent; client_seq := n;
     last_server_seq := last_server_seq c; resume_token := resume_token c; retry_delay := retry_delay c;
     agent_channel := agent_channel c; out := out c; err := err c |}.
Definition with_output (n : Z) (o e : bytes) (c : Client) : Client :=
  {| stdin_open := stdin_open c; sent_stdin := sent_stdin c; client_seq := client_seq c;
     last_server_seq := n; resume_token := resume_token c; retry_delay := retry_delay c;
     agent_channel := agent_channel c; out := o; err := e |}.

(** Datagram duplicates may overtake earlier stream messages, so they are only
    applied when they are exactly the next message. *)
Definition is_next (seq last_seen : Z) (reliable : bool) : bool :=
  (seq =? add_u64 last_seen 1) || (reliable && (last_seen <? seq)).

(** ** The attached loop *)

(** What an iteration did: the new locals, the messages handed to [conn.send]
    and to [conn.send_duplicate], and the loop's result if it ended. *)
Record Attached := {
  a_client : Client;
  a_sent : list ChannelMessage;
  a_dup : list ChannelMessage;
  a_result : option (result (option Z) ClientError);
}.

Definition go_on (c : Client) (sent : list ChannelMessage) : Attached :=
  {| a_client := c; a_sent := sent; a_dup := []; a_result := None |}.
Definition stop (c : Client) (sent : list ChannelMessage) (r : result (option Z) ClientError) : Attached :=
  {| a_client := c; a_sent := sent; a_dup := []; a_result := Some r |}.

(** Writing output: an error ends [run_exec], the message was taken. *)
Definition write_out (stream : bool) (n : Z) (data : bytes) (w : WriteResult) (c : Client) : Attached :=
  let put bs := if stream then with_output n (out c ++ bs) (err c) c
                else with_output n (out c) (err c ++ bs) c in
  match w with
  | WroteAll => go_on (put data) [Ack n]
  | WroteErr k => stop (put (take k data)) [] (Err Io)
  end.

Definition acked_by (acked : Z) (m : ChannelMessage) : bool :=
  match m with
  | Stdin n _ | StdinEof n => n <=? acked
  | _ => false
  end.

(** The [match message] of the loop. *)
Definition on_message (c : Client) (m : ChannelMessage) (reliable : bool) (w : WriteResult) : Attached :=
  match m with
  | Stdout n data => if is_next n (last_server_seq c) reliable then write_out true n data w c else go_on c []
  | Stderr n data => if is_next n (last_server_seq c) reliable then write_out false n data w c else go_on c []
  | Exit n code => stop c [Ack n] (Ok (Some code))
  | Ack acked =>
      go_on (with_sent (stdin_open c) (filter (fun m => acked_by acked m = false) (sent_stdin c))
               (client_seq c) c) []
  | _ => go_on c []
  end.

(** The stdin branch; the buffer holds 16 KiB. *)
Definition STDIN_BUF : Z := 16384.

Definition on_stdin (c : Client) (r : ReadResult) (send_ok : bool) : Attached :=
  match r with
  | ReadErr => stop c [] (Err Io)
  | ReadOk data =>
      let n := add_u64 (client_seq c) 1 in
      let '(open, message) :=
        match data with
        | [] => (false, StdinEof n)
        | _ => (stdin_open c, Stdin n data)
        end in
      if send_ok then
        {| a_client := with_sent open (sent_stdin c ++ [message]) n c; a_sent := [message];
           a_dup := [message]; a_result := None |}
      else stop (with_sent open (sent_stdin c) n c) [] (Ok None)
  end.

Section AttachedLoop.
Context `{TransportLib} `{WireLib} `{!Serde ChannelMessage}.

(** The branches of the [select!]. *)
Inductive AttachedEvent : Type :=
| KeepaliveTick (now : Z) (ping_ok : bool)
| StdinRead (r : ReadResult) (send_ok : bool)
| ConnNext (now : Z) (ev : Client.Event) (w : WriteResult).

(** One iteration; [None] when the branch is disabled. *)
Definition attached_step (target : Target) (needs_ping : bool) (last_activity : Z) (c : Client)
    (ev : AttachedEvent) : option (Z * Attached) :=
  match ev with
  | KeepaliveTick now ping_ok =>
      if needs_ping then
        if keepalive_timeout target <=? saturating_sub now last_activity then
          Some (last_activity, stop c [] (Ok None))
        else if ping_ok then Some (last_activity, go_on c [])
        else Some (last_activity, stop c [] (Ok None))
      else None
  | StdinRead r send_ok =>
      if stdin_open c then Some (last_activity, on_stdin c r send_ok) else None
  | ConnNext now ev w =>
      Some (now,
        match ev with
        | Client.Frame bs =>
            match decode bs with
            | Ok m => on_message c m true w
            | Err _ => stop c [] (Err ProtocolFailed)
            end
        | Client.Datagram bs =>
            match decode bs with
            | Ok m => on_message c m false w
            | Err _ => go_on c []
            end
        | Client.Disconnected => stop c [] (Ok None)
        end)
  end.

(** Resending on a new connection: [ok_until] is how many sends succeed. *)
Definition resend (c : Client) (ok_until : nat) : list ChannelMessage * bool :=
  (take ok_until (sent_stdin c), bool_decide (length (sent_stdin c) <= ok_until)%nat).

(** ** Connecting *)

(** [Conn::connect]: QUIC within half of the budget when it is configured,
    WebSocket otherwise or if that fails.  [quic] and [ws] are the results of
    the two attempts ([None] for a timeout). *)
Definition connect (target : Target) (quic : option (result Items ClientError))
    (tls_ok : bool) (ws : result Items ClientError) : result Items ClientError :=
  let websocket := if tls_ok then ws else Err Io in
  match quic_addr target with
  | Some _ => match unwrap_or quic (Err ConnectTimeout) with Ok conn => Ok conn | Err _ => websocket end
  | None => websocket
  end.

(** [Conn::recv]: a lost connection is an error; datagrams are skipped. *)
Fixpoint recv_fuel {T : Type} `{!Serde T} (fuel : nat) (conn : Items)
    : option (result T ClientError) * Items :=
  match fuel with
  | O => (None, conn)
  | S fuel =>
      match Client.next conn with
      | (None, conn) => (None, conn)
      | (Some (Client.Frame bs), conn) => (Some (map_err (fun _ => ProtocolFailed) (decode bs)), conn)
      | (Some (Client.Datagram _), conn) => recv_fuel fuel conn
      | (Some Client.Disconnected, conn) => (Some (Err ConnectionClosed), conn)
      end
  end.

Definition recv {T : Type} `{!Serde T} (conn : Items) : option (result T ClientError) * Items :=
  recv_fuel (S (match conn with WsItems items => length items | QuicItems _ items => length items end)) conn.

Context `{!Serde Welcome}.

(** The request that starts or resumes the session. *)
Definition request (target : Target) (command : string) (c : Client) : ExecRequest :=
  match resume_token c with
  | Some token => Resume token (last_server_seq c)
  | None => Exec command true (bool_decide (is_Some (agent_socket target)))
  end.

(** [connect_and_start] after its two sends, on the answers of the connection;
    [None] while it is pending. *)
Definition read_started (conn : Items) : option (result (Items * option string) ClientError) :=
  match recv (T:=Welcome) conn with
  | (None, _) => None
  | (Some (Err e), _) => Some (Err e)
  | (Some (Ok _), conn) =>
      match recv (T:=ChannelMessage) conn with
      | (None, _) => None
      | (Some (Err e), _) => Some (Err e)
      | (Some (Ok (Started token)), conn) => Some (Ok (conn, token))
      | (Some (Ok (Proto.Denied reason)), _) => Some (Err (Denied reason))
      | (Some (Ok _), _) => Some (Err ConnectionClosed)
      end
  end.

(** [connect_and_start]: the token, the connection, the two sends and the
    answer; a pending future runs into the timeout of its caller. *)
Definition connect_and_start (token : result string ClientError) (conn : result Items ClientError)
    (hello_ok request_ok : result unit ClientError) : result (Items * option string) ClientError :=
  let? _ := token in
  let? conn := conn in
  let? _ := hello_ok in
  let? _ := request_ok in
  unwrap_or (read_started conn) (Err ConnectTimeout).

End AttachedLoop.

(** What the outer loop does after a connection attempt. *)
Inductive Connected : Type :=
| AttachNow (c : Client)
| LoginThenRetry (c : Client) (name : string) (config : TargetConfig)
| SleepThenRetry (delay : Z) (c : Client)
| GiveUp (e : ClientError).

(** The first [match] of the loop body; on success the token of the session is
    remembered and the agent channel started once. *)
Definition on_connect (target : Target) (c : Client) (r : result (option string) ClientError) : Connected :=
  match r with
  | Ok token =>
      let token := match resume_token c with None => token | Some t => Some t end in
      let start := negb (agent_channel c) && bool_decide (is_Some (agent_socket target)) &&
                   bool_decide (is_Some token) in
      AttachNow (with_retry RESUME_RETRY_DELAY (with_token token (agent_channel c || start) c))
  | Err (NotLoggedIn name) =>
      match token target with
      | FromOidc target_name config => LoginThenRetry c target_name config
      | Static _ => GiveUp (NotLoggedIn name)
      end
  | Err e =>
      if bool_decide (is_Some (resume_token c)) && negb (match e with Denied _ => true | _ => false end) then
        SleepThenRetry (retry_delay c) (with_retry (Z.min (retry_delay c * 2) RESUME_RETRY_MAX) c)
      else GiveUp e
  end.

(** The last [match] of the loop body. *)
Inductive AfterAttached : Type :=
| ReturnExec (r : result Z ClientError)
| SleepThenReconnect (delay : Z).

Definition after_attached (c : Client) (r : result (option Z) ClientError) : AfterAttached :=
  match r with
  | Ok (Some code) => ReturnExec (Ok code)
  | Ok None =>
      if bool_decide (is_Some (resume_token c)) then SleepThenReconnect RESUME_RETRY_DELAY
      else ReturnExec (Err ConnectionClosed)
  | Err e => ReturnExec (Err e)
  end.

(** ** Properties *)

(** A run of failed attempts: the delays slept, and the locals after them;
    [None] if [run_exec] does anything but sleep and try again. *)
Fixpoint failures (target : Target) (c : Client) (es : list ClientError) : option (list Z * Client) :=
  match es with
  | [] => Some ([], c)
  | e :: es =>
      match on_connect target c (Err e) with
      | SleepThenRetry d c =>
          match failures target c es with Some (ds, c) => Some (d :: ds, c) | None => None end
      | _ => None
      end
  end.

(** Errors that do not end a resumable session. *)
Definition retryable (e : ClientError) : Prop :=
  match e with Denied _ | NotLoggedIn _ => False | _ => True end.

Definition backoff (k : nat) : Z := Z.min (RESUME_RETRY_DELAY * 2 ^ Z.of_nat k) RESUME_RETRY_MAX.

Lemma on_connect_retry target c e : retryable e -> is_Some (resume_token c) ->
  on_connect target c (Err e) =
    SleepThenRetry (retry_delay c) (with_retry (Z.min (retry_delay c * 2) RESUME_RETRY_MAX) c).
Proof. intros He [tok Ht]. destruct e; try done; cbn; by rewrite Ht. Qed.

Lemma backoff_next k : Z.min (backoff k * 2) RESUME_RETRY_MAX = backoff (S k).
Proof.
  unfold backoff, RESUME_RETRY_DELAY, RESUME_RETRY_MAX. rewrite Nat2Z.inj_succ, Z.pow_succ_r by lia.
  pose proof (Z.pow_pos_nonneg 2 (Z.of_nat k)). lia.
Qed.

Lemma failures_backoff target es : forall k c, Forall retryable es -> is_Some (resume_token c) ->
  retry_delay c = backoff k ->
  exists c', failures target c es = Some (map backoff (List.seq k (length es)), c') /\
    resume_token c' = resume_token c /\ last_server_seq c' = last_server_seq c /\
    sent_stdin c' = sent_stdin c /\ client_seq c' = client_seq c.
Proof.
  induction es as [|e es IH]; intros k c Hes Ht Hd; cbn [failures length]; [by exists c|].
  inversion Hes; subst. rewrite on_connect_retry by done.
  destruct (IH (S k) (with_retry (Z.min (retry_delay c * 2) RESUME_RETRY_MAX) c))
    as (c' & -> & H1' & H2' & H3' & H4'); [done|done|cbn; by rewrite Hd, backoff_next|].
  exists c'. cbn [List.seq map]. by rewrite Hd.
Qed.

(** C22: the client never gives up a session by itself, and backs off.  Once the
    session has a resume token, any number of failed connection attempts (other
    than a denial or a missing login) only makes [run_exec] sleep and try again
    with the same token, position and unacknowledged stdin; the k-th failure in
    a row sleeps min(300 ms * 2^k, 2 s), between 300 ms and 2 s, and a
    successful connection starts the schedule over. *)
Theorem resume_backoff (target : Target) (c : Client) (es : list ClientError) (reply : option string) :
  Forall retryable es -> is_Some (resume_token c) ->
  exists c0 c', on_connect target c (Ok reply) = AttachNow c0 /\
    failures target c0 es = Some (map backoff (List.seq 0 (length es)), c') /\
    Forall (fun d => RESUME_RETRY_DELAY <= d <= RESUME_RETRY_MAX) (map backoff (List.seq 0 (length es))) /\
    resume_token c' = resume_token c /\ last_server_seq c' = last_server_seq c /\
    sent_stdin c' = sent_stdin c /\ client_seq c' = client_seq c.
Proof.
  intros Hes [tok Ht]. cbn [on_connect]. rewrite Ht. eexists.
  destruct (failures_backoff target es 0 (with_retry RESUME_RETRY_DELAY (with_token (Some tok)
    (agent_channel c || (negb (agent_channel c) && bool_decide (is_Some (agent_socket target)) &&
                         bool_decide (is_Some (Some tok)))) c)))
    as (c' & Hf & Hs & Hl & H1 & H2); [done|by eexists|done|].
  exists c'. split; [done|]. split; [exact Hf|]. split_and!; try done.
  rewrite Forall_forall. intros d (k & -> & _)%list_elem_of_fmap.
  unfold backoff, RESUME_RETRY_DELAY, RESUME_RETRY_MAX.
  pose proof (Z.pow_pos_nonneg 2 (Z.of_nat k)). lia.
Qed.

Lemma resume_backoff_witness :
  let c := with_token (Some "100-5-0"%string) false client_start in
  exists c0 c', on_connect (target_new "ws://h" "t") c (Ok None) = AttachNow c0 /\
    failures (target_new "ws://h" "t") c0 [ConnectTimeout; Io; WebSocket; ConnectionClosed] =
      Some ([300; 600; 1200; 2000], c') /\
    Forall (fun d => RESUME_RETRY_DELAY <= d <= RESUME_RETRY_MAX) [300; 600; 1200; 2000] /\
    resume_token c' = resume_token c /\ last_server_seq c' = last_server_seq c /\
    sent_stdin c' = sent_stdin c /\ client_seq c' = client_seq c.
Proof.
  intros c. apply (resume_backoff (target_new "ws://h" "t") c [ConnectTimeout; Io; WebSocket; ConnectionClosed] None).
  - repeat constructor.
  - by eexists.
Defined.
