(* ===== verification/RunLoop.v ===== *)
(** * The whole of [run_exec] ([client/src/lib.rs])

    The step functions of [RunExec] composed the way [run_exec] composes them:
    attempts to connect, the attached loop on each connection that comes up,
    the sleeps, logins and the agent channel in between.  What it does that
    others can see is a list of effects. *)

From S2P Require Import Prelude Proto Channel Session Target RunExec.

Local Open Scope rust_scope.

(** ** What the world answers *)

(** The outcome of [conn.send]; a send that hangs runs into the timeout. *)
Inductive SendAnswer : Type :=
| SendDone
| SendBroken (over_quic : bool)
| SendUnencodable
| SendHangs.

Definition send_answer (a : SendAnswer) : result unit ClientError :=
  match a with
  | SendDone => Ok tt
  | SendBroken true => Err Io
  | SendBroken false => Err WebSocket
  | SendUnencodable => Err ProtocolFailed
  | SendHangs => Err ConnectTimeout
  end.

(** Which branch of the attached loop's [select!] fires. *)
Inductive Turn : Type :=
| KeepaliveTurn (now : Z) (ping_ok : bool)
| StdinTurn (r : ReadResult) (send_ok : bool)
| ConnTurn (now : Z) (w : WriteResult).

(** One round of the outer loop: the access token, the connection (with all
    that will arrive on it), the sends of [connect_and_start], the login should
    it be needed, how many resends succeed, and the turns of the attached
    loop. *)
Record Attempt `{TransportLib} := {
  at_token : result string ClientError;
  at_conn : result Items ClientError;
  at_hello : SendAnswer;
  at_request : SendAnswer;
  at_login : result unit ClientError;
  at_now : Z;
  at_resend : nat;
  at_turns : list Turn;
}.

Inductive Effect : Type :=
| Requested (req : ExecRequest)
| LoggedIn (name : string)
| Slept (delay : Z)
| AgentStarted (token : string)
| AgentAborted.

Section Loop.
Context `{TransportLib} `{WireLib} `{!Serde ChannelMessage} `{!Serde Welcome}.
Context (target : Target) (command : string).

(** ** The attached loop *)

(** The event of a turn, and what is left on the connection; [None] if the
    branch is not ready. *)
Definition turn_event (conn : Items) (turn : Turn) : option AttachedEvent * Items :=
  match turn with
  | KeepaliveTurn now ping_ok => (Some (KeepaliveTick now ping_ok), conn)
  | StdinTurn r send_ok => (Some (StdinRead r send_ok), conn)
  | ConnTurn now w =>
      let '(ev, conn) := Client.next conn in
      (match ev with Some ev => Some (ConnNext now ev w) | None => None end, conn)
  end.

(** [None] for a loop that is still running after these turns. *)
Fixpoint attached_run (conn : Items) (last_activity : Z) (c : Client) (turns : list Turn)
    : Client * option (result (option Z) ClientError) :=
  match turns with
  | [] => (c, None)
  | turn :: turns =>
      let '(ev, conn') := turn_event conn turn in
      match ev ≫= attached_step target (Client.needs_ping conn) last_activity c with
      | None => attached_run conn' last_activity c turns
      | Some (last_activity, a) =>
          match a_result a with
          | Some r => (a_client a, Some r)
          | None => attached_run conn' last_activity (a_client a) turns
          end
      end
  end.

(** The [async] block: resend, then loop. *)
Definition attached (conn : Items) (c : Client) (att : Attempt)
    : Client * option (result (option Z) ClientError) :=
  if (resend c (at_resend att)).2 then attached_run conn (at_now att) c (at_turns att)
  else (c, Some (Ok None)).

(** ** The outer loop *)

(** [connect_and_start] got as far as sending its request. *)
Definition reaches_request (att : Attempt) : bool :=
  match at_token att, at_conn att, send_answer (at_hello att) with
  | Ok _, Ok _, Ok _ => true
  | _, _, _ => false
  end.

Definition connected (att : Attempt) : result (Items * option string) ClientError :=
  connect_and_start (at_token att) (at_conn att) (send_answer (at_hello att)) (send_answer (at_request att)).

Definition requested (c : Client) (att : Attempt) : list Effect :=
  if reaches_request att then [Requested (request target command c)] else [].

(** [AbortOnDrop] of the agent channel, when [run_exec] returns. *)
Definition dropped (c : Client) : list Effect := if agent_channel c then [AgentAborted] else [].

(** The agent channel [on_connect] starts. *)
Definition agent_started (c c' : Client) : list Effect :=
  match resume_token c' with
  | Some token => if agent_channel c' && negb (agent_channel c) then [AgentStarted token] else []
  | None => []
  end.

(** How one round of the outer loop ends: with the next one ([continue], or the
    end of the body), with a [return], or not within the turns given. *)
Inductive RoundEnd : Type :=
| NextRound
| Returns (r : result Z ClientError)
| StillAttached.

Definition round (c : Client) (att : Attempt) : list Effect * Client * RoundEnd :=
  let req := requested c att in
  match connected att with
  | Err e =>
      match on_connect target c (Err e) with
      | SleepThenRetry d c => (req ++ [Slept d], c, NextRound)
      | LoginThenRetry c name _ =>
          match at_login att with
          | Ok _ => (req ++ [LoggedIn name], c, NextRound)
          | Err e => (req ++ dropped c, c, Returns (Err e))
          end
      | GiveUp e => (req ++ dropped c, c, Returns (Err e))
      | AttachNow c => (req, c, StillAttached)
      end
  | Ok (conn, token) =>
      match on_connect target c (Ok token) with
      | AttachNow c1 =>
          let '(c2, r) := attached conn c1 att in
          match r with
          | None => (req ++ agent_started c c1, c2, StillAttached)
          | Some r =>
              match after_attached c2 r with
              | ReturnExec r => (req ++ agent_started c c1 ++ dropped c2, c2, Returns r)
              | SleepThenReconnect d => (req ++ agent_started c c1 ++ [Slept d], c2, NextRound)
              end
          end
      | _ => (req, c, StillAttached)
      end
  end.

(** [run_exec] for as many rounds as are given: the effects, the locals, and
    the result if it returned. *)
Fixpoint run_exec_from (c : Client) (atts : list Attempt)
    : list Effect * Client * option (result Z ClientError) :=
  match atts with
  | [] => ([], c, None)
  | att :: atts =>
      match round c att with
      | (effs, c, NextRound) => let '(more, c, r) := run_exec_from c atts in (effs ++ more, c, r)
      | (effs, c, Returns r) => (effs, c, Some r)
      | (effs, c, StillAttached) => (effs, c, None)
      end
  end.

Definition run_exec (atts : list Attempt) : list Effect * Client * option (result Z ClientError) :=
  run_exec_from client_start atts.

End Loop.

(** ** Lemmas *)

Definition is_login (e : Effect) : Prop := match e with LoggedIn _ => True | _ => False end.

(** Effects of a client that holds the session [tok]: it only ever resumes it. *)
Definition session_effect (tok : string) (e : Effect) : Prop :=
  match e with
  | Requested req => exists n, req = Resume tok n
  | AgentStarted t => t = tok
  | _ => True
  end.

(** What the attached loop never touches. *)
Definition same_session (c c' : Client) : Prop :=
  resume_token c' = resume_token c /\ retry_delay c' = retry_delay c /\ agent_channel c' = agent_channel c.

#[export] Instance same_session_preorder : PreOrder same_session.
Proof.
  split; [by intros c|]. intros c1 c2 c3 (H1 & H2 & H3) (K1 & K2 & K3). split_and!; congruence.
Qed.

Lemma message_keeps_session c m reliable w : same_session c (a_client (on_message c m reliable w)).
Proof. destruct m; cbn [on_message]; try done; destruct (is_next _ _ _), w; done. Qed.

Lemma stdin_keeps_session c r send_ok : same_session c (a_client (on_stdin c r send_ok)).
Proof. by destruct r as [[|b r]|], send_ok. Qed.

(** A request that was sent leaves no [NotLoggedIn] behind: that comes from
    the access token. *)
Definition not_login (e : ClientError) : Prop := match e with NotLoggedIn _ => False | _ => True end.

Section LoopFacts.
Context `{TL : TransportLib} `{WL : WireLib} `{SM : !Serde ChannelMessage} `{SW : !Serde Welcome}.
Context (target : Target) (command : string).

Lemma attached_step_session needs_ping last c ev last' a :
  attached_step target needs_ping last c ev = Some (last', a) -> same_session c (a_client a).
Proof.
  destruct ev as [now ping_ok|r send_ok|now ev w]; cbn [attached_step].
  - destruct needs_ping; [|done]. destruct (_ <=? _); [by intros [= <- <-]|]. destruct ping_ok; by intros [= <- <-].
  - destruct (stdin_open c); [|done]. intros [= <- <-]. apply stdin_keeps_session.
  - intros [= <- <-]. destruct ev; [destruct (decode _)|destruct (decode _)|]; try done; apply message_keeps_session.
Qed.

Lemma attached_run_session turns : forall conn last c c' r,
  attached_run target conn last c turns = (c', r) -> same_session c c'.
Proof.
  induction turns as [|turn turns IH]; intros conn last c c' r; cbn [attached_run]; [by intros [= <- <-]|].
  destruct (turn_event conn turn) as [ev conn']. 
  destruct (ev ≫= _) as [[last' a]|] eqn:Hstep; [|apply IH].
  apply bind_Some in Hstep as (e & _ & Hstep%attached_step_session).
  destruct (a_result a); [by intros [= <- <-]|]. intros Hrun%IH. by etrans.
Qed.

Lemma attached_session conn c att c' r : attached target conn c att = (c', r) -> same_session c c'.
Proof. unfold attached. destruct (resend _ _).2; [apply attached_run_session|by intros [= <- <-]]. Qed.

Lemma recv_not_login {T} `{!Serde T} fuel : forall (conn : Items) e conn',
  recv_fuel fuel conn = (Some (Err e : result T ClientError), conn') -> not_login e.
Proof.
  induction fuel as [|fuel IH]; intros conn e conn'; cbn [recv_fuel]; [done|].
  destruct (Client.next conn) as [[[bs|bs|]|] conn1]; [| |by intros [= <- _]|done].
  - destruct (decode bs); cbn [map_err]; [done|]. by intros [= <- _].
  - apply IH.
Qed.

Lemma connected_not_login att e : reaches_request att = true -> connected att = Err e -> not_login e.
Proof.
  unfold reaches_request, connected, connect_and_start. destruct (at_token att); [|done].
  destruct (at_conn att) as [conn|]; [|done]. destruct (send_answer (at_hello att)); [|done]. intros _. cbn [result_bind].
  destruct (at_request att) as [|[]| |]; cbn [send_answer result_bind]; try by intros [= <-].
  unfold read_started, RunExec.recv. destruct (recv_fuel _ conn) as [[[welcome|e1]|] conn1] eqn:H1.
  - destruct (recv_fuel _ conn1) as [[[m|e2]|] conn2] eqn:H2.
    + destruct m; cbn; by intros [= <-].
    + intros [= <-]. by apply recv_not_login in H2.
    + by intros [= <-].
  - intros [= <-]. by apply recv_not_login in H1.
  - by intros [= <-].
Qed.

Lemma connected_reaches att x : connected att = Ok x -> reaches_request att = true.
Proof.
  unfold reaches_request, connected, connect_and_start. destruct (at_token att); [|done].
  destruct (at_conn att); [|done]. by destruct (send_answer (at_hello att)).
Qed.

(** What follows a failed attempt. *)
Lemma on_connect_err c e :
  (~ not_login e /\ exists name cfg, on_connect target c (Err e) = LoginThenRetry c name cfg) \/
  (exists e', on_connect target c (Err e) = GiveUp e') \/
  (is_Some (resume_token c) /\ on_connect target c (Err e) =
     SleepThenRetry (retry_delay c) (with_retry (Z.min (retry_delay c * 2) RESUME_RETRY_MAX) c)).
Proof.
  destruct e; cbn [on_connect]; try (case_bool_decide; cbn; [by right; right|right; left; by eexists]).
  - rewrite andb_false_r. right; left. by eexists.
  - destruct (token target); [right; left; by eexists|]. left. split; [by intros []|by eexists _, _].
Qed.

(** What follows a connection. *)
Definition token_after (c : Client) (token : option string) : option string :=
  match resume_token c with None => token | Some t => Some t end.

Lemma on_connect_ok c token : exists c', on_connect target c (Ok token) = AttachNow c' /\
  resume_token c' = token_after c token /\ retry_delay c' = RESUME_RETRY_DELAY /\
  (agent_channel c' = true -> agent_channel c = true \/ is_Some (resume_token c')) /\
  (agent_channel c = true -> agent_channel c' = true).
Proof.
  eexists. split; [reflexivity|]. cbn. split_and!; [done|done| |by intros ->].
  unfold token_after. destruct (agent_channel c); [by left|]. cbn.
  intros [_ Ht%bool_decide_eq_true]%andb_true_iff. by right.
Qed.

Lemma after_attached_cases c r :
  (exists r', after_attached c r = ReturnExec r') \/
  (is_Some (resume_token c) /\ after_attached c r = SleepThenReconnect RESUME_RETRY_DELAY).
Proof.
  destruct r as [[code|]|e]; cbn; [left; by eexists| |left; by eexists].
  case_bool_decide; [by right|left; by eexists].
Qed.

(** ** One session *)

Lemma requested_session c att tok : resume_token c = Some tok ->
  Forall (session_effect tok) (requested target command c att).
Proof.
  intros Ht. unfold requested, request. rewrite Ht. destruct (reaches_request att); [|constructor].
  constructor; [by eexists|constructor].
Qed.

Lemma dropped_session c tok : Forall (session_effect tok) (dropped c).
Proof. unfold dropped. destruct (agent_channel c); by repeat constructor. Qed.

Lemma agent_started_session c c' tok : resume_token c' = Some tok ->
  Forall (session_effect tok) (agent_started c c').
Proof. intros Ht. unfold agent_started. rewrite Ht. destruct (_ && _); by repeat constructor. Qed.

(** The shapes of a round, with what each preserves. *)
Inductive round_shape (c : Client) (att : Attempt) : list Effect -> Client -> RoundEnd -> Prop :=
| RoundRetries : is_Some (resume_token c) ->
    round_shape c att (requested target command c att ++ [Slept (retry_delay c)])
      (with_retry (Z.min (retry_delay c * 2) RESUME_RETRY_MAX) c) NextRound
| RoundLogin name : reaches_request att = false -> round_shape c att [LoggedIn name] c NextRound
| RoundFails e : round_shape c att (requested target command c att ++ dropped c) c (Returns (Err e))
| RoundAttached c1 c2 conn token e tail : reaches_request att = true -> connected att = Ok (conn, token) ->
    on_connect target c (Ok token) = AttachNow c1 -> same_session c1 c2 ->
    (e = StillAttached /\ tail = []) \/ (exists r, e = Returns r /\ tail = dropped c2) \/
      (is_Some (resume_token c2) /\ e = NextRound /\ tail = [Slept RESUME_RETRY_DELAY]) ->
    round_shape c att (requested target command c att ++ agent_started c c1 ++ tail) c2 e.

Lemma round_inv c att effs c' e : round target command c att = (effs, c', e) -> round_shape c att effs c' e.
Proof.
  unfold round. destruct (connected att) as [[conn token]|err] eqn:Hc.
  - destruct (on_connect_ok c token) as (c1 & Hon & _). rewrite Hon.
    destruct (attached target conn c1 att) as [c2 r2] eqn:Hat. apply attached_session in Hat.
    pose proof (connected_reaches att _ Hc).
    assert (Hgo : forall e tail, (e = StillAttached /\ tail = []) \/ (exists r, e = Returns r /\ tail = dropped c2) \/
      (is_Some (resume_token c2) /\ e = NextRound /\ tail = [Slept RESUME_RETRY_DELAY]) ->
      round_shape c att (requested target command c att ++ agent_started c c1 ++ tail) c2 e)
      by (intros; by eapply RoundAttached).
    destruct r2 as [r2|].
    + destruct (after_attached_cases c2 r2) as [[r3 ->]|[Ht ->]]; intros [= <- <- <-]; apply Hgo;
        [right; left; by eexists|by right; right].
    + intros [= <- <- <-]. specialize (Hgo StillAttached []). rewrite app_nil_r in Hgo. apply Hgo. by left.
  - destruct (on_connect_err c err) as [(Hl & name & cfg & ->)|[(e' & ->)|(Ht & ->)]].
    + assert (Hr : reaches_request att = false).
      { destruct (reaches_request att) eqn:Hr; [|done]. destruct Hl. by eapply connected_not_login. }
      destruct (at_login att); intros [= <- <- <-]; [|apply RoundFails].
      unfold requested. rewrite Hr. by apply RoundLogin.
    + intros [= <- <- <-]. apply RoundFails.
    + intros [= <- <- <-]. by apply RoundRetries.
Qed.

Lemma round_resumes tok c att effs c' e : resume_token c = Some tok ->
  round target command c att = (effs, c', e) -> Forall (session_effect tok) effs /\ resume_token c' = Some tok.
Proof.
  intros Ht Hround%round_inv. pose proof (requested_session c att tok Ht) as Hreq.
  destruct Hround as [_|name _|e|c1 c2 conn token e tail _ _ Hon (H2 & _) Htail]; rewrite ?Forall_app.
  - split_and!; [done|by repeat constructor|done].
  - split; [by repeat constructor|done].
  - split_and!; [done|apply dropped_session|done].
  - destruct (on_connect_ok c token) as (c1' & Hon' & Ht1 & _). rewrite Hon in Hon'. injection Hon' as <-.
    unfold token_after in Ht1. rewrite Ht in Ht1. split; [|congruence].
    split_and!; [done|by apply agent_started_session|].
    destruct Htail as [(_ & ->)|[(r & _ & ->)|(_ & _ & ->)]]; [constructor|apply dropped_session|by repeat constructor].
Qed.

Lemma run_resumes tok atts : forall c effs c' r, resume_token c = Some tok ->
  run_exec_from target command c atts = (effs, c', r) -> Forall (session_effect tok) effs.
Proof.
  induction atts as [|att atts IH]; intros c effs c' r Ht; cbn [run_exec_from]; [by intros [= <- <- <-]|].
  destruct (round _ _ c att) as [[effs1 c1] e] eqn:Hr. apply (round_resumes tok) in Hr as [H1 Ht1]; [|done].
  destruct e; try by intros [= <- <- <-].
  destruct (run_exec_from _ _ c1 atts) as [[more c2] r2] eqn:Hrun. intros [= <- <- <-].
  apply Forall_app. split; [done|]. by eapply IH.
Qed.

(** Before there is a session: logins, then the one request that starts it. *)
Lemma run_starts atts : forall c effs c' r, resume_token c = None -> agent_channel c = false ->
  run_exec_from target command c atts = (effs, c', r) ->
  exists logins rest, effs = logins ++ rest /\ Forall is_login logins /\
    (rest = [] \/ exists tok more,
       rest = Requested (Exec command true (bool_decide (is_Some (agent_socket target)))) :: more /\
       Forall (session_effect tok) more).
Proof.
  induction atts as [|att atts IH]; intros c effs c' r Ht Ha; cbn [run_exec_from].
  { intros [= <- <- <-]. exists [], []. split_and!; [done|constructor|by left]. }
  destruct (round _ _ c att) as [[effs1 c1] e] eqn:Hr. apply round_inv in Hr.
  destruct Hr as [[tok Hs]|name _|e|c1 c2 conn token e tail Hreach _ Hon (H2 & _ & H2a) Htail]; [congruence|..].
  - destruct (run_exec_from _ _ c atts) as [[more c2] r2] eqn:Hrun. intros [= <- <- <-].
    destruct (IH c more c2 r2 Ht Ha Hrun) as (logins & rest & -> & Hl & Hrest).
    exists (LoggedIn name :: logins), rest. split_and!; [done|by constructor|done].
  - intros [= <- <- <-]. exists [], (requested target command c att ++ dropped c). split_and!; [done|constructor|].
    unfold requested, request, dropped. rewrite Ht, Ha. destruct (reaches_request att); [right|by left].
    by exists ""%string, [].
  - destruct (on_connect_ok c token) as (c1' & Hon' & Ht1 & _ & Hag & _). rewrite Hon in Hon'. injection Hon' as <-.
    unfold token_after in Ht1. rewrite Ht in Ht1.
    assert (Hreq : requested target command c att =
      [Requested (Exec command true (bool_decide (is_Some (agent_socket target))))])
      by (unfold requested, request; by rewrite Hreach, Ht).
    rewrite Hreq. intros Hrun. destruct token as [tok|].
    + assert (Htail' : Forall (session_effect tok) tail)
        by (destruct Htail as [(_ & ->)|[(r' & _ & ->)|(_ & _ & ->)]];
            [constructor|apply dropped_session|by repeat constructor]).
      pose proof (agent_started_session c c1 tok Ht1).
      assert (exists more, effs = (Requested (Exec command true (bool_decide (is_Some (agent_socket target)))) ::
        agent_started c c1 ++ tail) ++ more /\ Forall (session_effect tok) more) as (more & -> & Hmore).
      { destruct e; try (injection Hrun as <- _ _; exists []; rewrite app_nil_r; by split).
        destruct (run_exec_from _ _ c2 atts) as [[more c3] r3] eqn:Hgo. injection Hrun as <- _ _.
        exists more. split; [done|]. eapply run_resumes; [|done]. congruence. }
      eexists [], _. split_and!; [reflexivity|constructor|right]. exists tok. eexists. split; [reflexivity|].
      rewrite !Forall_app. by split_and!.
    + assert (Hno : agent_started c c1 = []) by (unfold agent_started; by rewrite Ht1). rewrite Hno in Hrun.
      assert (Hoff : agent_channel c2 = false).
      { rewrite H2a. destruct (agent_channel c1) eqn:Hc1; [|done].
        destruct (Hag eq_refl) as [?|[tok Hs]]; congruence. }
      destruct Htail as [(-> & ->)|[(r' & -> & ->)|([tok Hs] & _)]]; [| |congruence];
        injection Hrun as <- _ _; unfold dropped; rewrite ?Hoff; eexists [], _;
        (split_and!; [reflexivity|constructor|right]); by exists ""%string, [].
Qed.

(** ** Pace *)

(** A request only after a sleep within the bounds since the last one. *)
Fixpoint paced (rested : bool) (effs : list Effect) : Prop :=
  match effs with
  | [] => True
  | Requested _ :: effs => rested = true /\ paced false effs
  | Slept d :: effs => RESUME_RETRY_DELAY <= d <= RESUME_RETRY_MAX /\ paced true effs
  | _ :: effs => paced rested effs
  end.

(** Effects of one round, followed by those of the rest. *)
Lemma run_paced atts : forall c effs c' r, RESUME_RETRY_DELAY <= retry_delay c <= RESUME_RETRY_MAX ->
  run_exec_from target command c atts = (effs, c', r) -> paced true effs.
Proof.
  induction atts as [|att atts IH]; intros c effs c' r Hd; cbn [run_exec_from]; [by intros [= <- <- <-]|].
  destruct (round _ _ c att) as [[effs1 c1] e] eqn:Hr. apply round_inv in Hr.
  assert (Hreq : forall effs, paced false effs -> paced true effs -> paced true (requested target command c att ++ effs)).
  { intros effs' H1 H2. unfold requested. by destruct (reaches_request att). }
  assert (Hdrop : forall c b, paced b (dropped c)) by (intros c0 b; unfold dropped; by destruct (agent_channel c0)).
  destruct Hr as [_|name _|e|c1 c2 conn token e tail _ _ Hon (_ & H2 & _) Htail].
  - destruct (run_exec_from _ _ _ atts) as [[more c2] r2] eqn:Hrun. intros [= <- <- <-]. rewrite <- app_assoc.
    apply IH in Hrun; [|cbn; unfold RESUME_RETRY_DELAY, RESUME_RETRY_MAX in *; lia].
    apply Hreq; by split.
  - destruct (run_exec_from _ _ _ atts) as [[more c2] r2] eqn:Hrun. intros [= <- <- <-]. cbn. by eapply IH.
  - intros [= <- <- <-]. by apply Hreq.
  - destruct (on_connect_ok c token) as (c1' & Hon' & _ & Hd1 & _). rewrite Hon in Hon'. injection Hon' as <-.
    assert (Hstart : forall b effs, paced b effs -> paced b (agent_started c c1 ++ effs)).
    { intros b effs'. unfold agent_started. destruct (resume_token c1); [|done]. by destruct (_ && _). }
    destruct Htail as [(-> & ->)|[(r' & -> & ->)|(_ & -> & ->)]].
    + intros [= <- <- <-]. by apply Hreq; apply Hstart.
    + intros [= <- <- <-]. by apply Hreq; apply Hstart.
    + destruct (run_exec_from _ _ _ atts) as [[more c3] r3] eqn:Hrun. intros [= <- <- <-].
      apply IH in Hrun; [|rewrite H2, Hd1; unfold RESUME_RETRY_DELAY, RESUME_RETRY_MAX; lia].
      rewrite <- !app_assoc. by apply Hreq; apply Hstart.
Qed.

(** ** The agent channel *)

(** Whether it runs after these effects; [None] if it was started twice or
    aborted while it did not run. *)
Fixpoint agent_after (running : bool) (effs : list Effect) : option bool :=
  match effs with
  | [] => Some running
  | AgentStarted _ :: effs => if running then None else agent_after true effs
  | AgentAborted :: effs => if running then agent_after false effs else None
  | _ :: effs => agent_after running effs
  end.

Lemma run_agent atts : forall c effs c' r, run_exec_from target command c atts = (effs, c', r) ->
  agent_after (agent_channel c) effs = Some (match r with Some _ => false | None => agent_channel c' end).
Proof.
  induction atts as [|att atts IH]; intros c effs c' r; cbn [run_exec_from]; [by intros [= <- <- <-]|].
  destruct (round _ _ c att) as [[effs1 c1] e] eqn:Hr. apply round_inv in Hr.
  assert (Hreq : forall b effs, agent_after b (requested target command c att ++ effs) = agent_after b effs).
  { intros b effs'. unfold requested. by destruct (reaches_request att). }
  assert (Hdrop : forall c, agent_after (agent_channel c) (dropped c) = Some false).
  { intros c0. unfold dropped. by destruct (agent_channel c0). }
  destruct Hr as [_|name _|e|c1 c2 conn token e tail _ _ Hon (_ & _ & H2) Htail].
  - destruct (run_exec_from _ _ _ atts) as [[more c2] r2] eqn:Hrun. intros [= <- <- <-]. rewrite <- app_assoc, Hreq.
    by apply IH in Hrun.
  - destruct (run_exec_from _ _ _ atts) as [[more c2] r2] eqn:Hrun. intros [= <- <- <-]. by apply IH in Hrun.
  - intros [= <- <- <-]. by rewrite Hreq.
  - destruct (on_connect_ok c token) as (c1' & Hon' & _ & _ & Hag & Hkeep). rewrite Hon in Hon'. injection Hon' as <-.
    assert (Hstart : forall effs, agent_after (agent_channel c) (agent_started c c1 ++ effs) =
                                  agent_after (agent_channel c1) effs).
    { intros effs'. unfold agent_started. destruct (agent_channel c) eqn:Hac.
      - rewrite Hkeep by done. by destruct (resume_token c1).
      - destruct (agent_channel c1) eqn:Hac1; [|by destruct (resume_token c1)].
        destruct (Hag eq_refl) as [?|[tok ->]]; [congruence|done]. }
    destruct Htail as [(-> & ->)|[(r' & -> & ->)|(_ & -> & ->)]].
    + intros [= <- <- <-]. by rewrite Hreq, Hstart, H2.
    + intros [= <- <- <-]. by rewrite Hreq, Hstart, <- H2.
    + destruct (run_exec_from _ _ _ atts) as [[more c3] r3] eqn:Hrun. intros [= <- <- <-].
      rewrite <- !app_assoc, Hreq, Hstart, <- H2. by apply IH in Hrun.
Qed.

(** ** Silence *)

(** What the user does on a connection on which no message arrives: stdin is
    read and sent without failure. *)
Definition stdin_fine (turn : Turn) : Prop :=
  match turn with StdinTurn r send_ok => (exists data, r = ReadOk data) /\ send_ok = true | _ => True end.

(** A keepalive tick that finds the last message recent enough. *)
Definition tick_fine (last : Z) (turn : Turn) : Prop :=
  match turn with
  | KeepaliveTurn now ping_ok => saturating_sub now last < keepalive_timeout target /\ ping_ok = true
  | _ => True
  end.

#[export] Instance tick_fine_dec last turn : Decision (tick_fine last turn).
Proof. destruct turn; cbn; apply _. Defined.

Lemma silent_run last turns : forall items c, only_control items -> Forall stdin_fine turns ->
  match (attached_run target (WsItems items) last c turns).2 with
  | None => Forall (tick_fine last) turns
  | Some r => r = Ok None /\ ~ Forall (tick_fine last) turns
  end.
Proof.
  induction turns as [|turn turns IH]; intros items c Hi Hf; [by constructor|].
  inversion Hf as [|? ? Hturn Hrest]; subst.
  assert (Hgo : forall items c, only_control items -> tick_fine last turn ->
    match (attached_run target (WsItems items) last c turns).2 with
    | None => Forall (tick_fine last) (turn :: turns)
    | Some r => r = Ok None /\ ~ Forall (tick_fine last) (turn :: turns)
    end).
  { intros items1 c1 Hi1 Ht. specialize (IH items1 c1 Hi1 Hrest). destruct (attached_run _ _ _ c1 turns).2.
    - destruct IH as [-> Hno]. split; [done|]. by rewrite Forall_cons; intros [_ ?].
    - by constructor. }
  destruct turn as [now ping_ok|r send_ok|now w]; cbn [attached_run turn_event].
  - cbn [Client.needs_ping attached_step option_bind mbind].
    destruct (Z.leb_spec (keepalive_timeout target) (saturating_sub now last)).
    { cbn. split; [done|]. rewrite Forall_cons. intros [[? _] _]. lia. }
    destruct ping_ok; cbn [a_result a_client go_on stop]; [by apply Hgo|].
    split; [done|]. rewrite Forall_cons. by intros [[_ ?] _].
  - destruct Hturn as [[data ->] ->]. cbn [attached_step option_bind mbind].
    destruct (stdin_open c); [|by apply Hgo]. destruct data; cbn [on_stdin a_result]; by apply Hgo.
  - destruct (next_control items Hi) as [_ ->]. cbn [option_bind mbind]. apply Hgo; [constructor|done].
Qed.

End LoopFacts.

(** ** Properties *)

Section LoopProperties.
Context `{TL : TransportLib} `{WL : WireLib} `{SM : !Serde ChannelMessage} `{SW : !Serde Welcome}.

(** C19: the command is started at most once.  Whatever the connections, logins,
    timeouts and losses, all [run_exec] does is to log in any number of times
    and then send one request to start the command; every later request
    resumes the one session whose token it was given, the agent channel is
    attached to that session only, and a command whose start was never
    confirmed is not started again. *)
Theorem command_started_once (target : Target) (command : string) (atts : list Attempt) :
  let effs := (run_exec target command atts).1.1 in
  exists logins rest, effs = logins ++ rest /\ Forall is_login logins /\
    (rest = [] \/ exists tok more,
       rest = Requested (Exec command true (bool_decide (is_Some (agent_socket target)))) :: more /\
       Forall (session_effect tok) more).
Proof.
  cbv zeta. unfold run_exec. destruct (run_exec_from target command client_start atts) as [[effs c'] r] eqn:Hrun.
  exact (run_starts target command atts client_start effs c' r eq_refl eq_refl Hrun).
Qed.

(** C20: [run_exec] neither floods the server nor leaks its agent channel.  Two
    requests are always separated by a sleep, every sleep lies between 300 ms
    and 2 s, the agent channel is never started while it runs, and it is
    aborted on every path on which [run_exec] returns. *)
Theorem run_exec_paced (target : Target) (command : string) (atts : list Attempt) :
  let '(effs, c, r) := run_exec target command atts in
  paced true effs /\
  agent_after false effs = Some (match r with Some _ => false | None => agent_channel c end).
Proof.
  unfold run_exec. destruct (run_exec_from target command client_start atts) as [[effs c] r] eqn:Hrun.
  split; [|by apply run_agent in Hrun].
  eapply run_paced; [|exact Hrun]. cbn. unfold RESUME_RETRY_DELAY, RESUME_RETRY_MAX. lia.
Qed.

(** C21: which WebSocket the client takes for dead.  After the last message, and
    whatever control frames keep arriving (nothing at all on a blackholed
    connection; the pongs that answer the client's pings on a healthy one), as
    long as stdin can be read and sent, the attached loop runs on exactly while
    every keepalive tick comes within the timeout of that message and every
    ping can be sent; the first tick that does not ends it as a disconnect (no
    error, no exit code), from which a session that can be resumed is resumed.
    So silence is noticed, but a pong does not break it: a healthy connection
    of an idle session is dropped after the same time, which the documentation
    of the timeout denies. *)
Theorem silence_is_noticed (target : Target) (last : Z) (c : Client) (items : list WsItem) (turns : list Turn) :
  only_control items -> Forall stdin_fine turns ->
  let '(c', r) := attached_run target (WsItems items) last c turns in
  (r = None <-> Forall (tick_fine target last) turns) /\
  (forall e, r = Some e -> e = Ok None /\
     (is_Some (resume_token c) -> after_attached c' e = SleepThenReconnect RESUME_RETRY_DELAY)).
Proof.
  intros Hi Hf. pose proof (silent_run target last turns items c Hi Hf) as Hs.
  destruct (attached_run target (WsItems items) last c turns) as [c' r] eqn:Hrun. cbn in Hs.
  apply attached_run_session in Hrun as (Ht & _). destruct r as [r|].
  - destruct Hs as [-> Hno]. split; [split; [done|by intros]|]. intros e [= <-]. split; [done|].
    intros Hsome. cbn. by rewrite bool_decide_true by (by rewrite Ht).
  - split; [by split|done].
Qed.

End LoopProperties.

(** ** A run *)

(** A codec of the messages the run receives. *)
Definition run_message : @Serde toy_wire ChannelMessage :=
  @Build_Serde toy_wire ChannelMessage (fun _ => Err tt)
    (fun bs => match bs with
               | [0] => Ok (Started (Some "t"%string))
               | [1; n; b] => Ok (Stdout n [b])
               | [2; n; code] => Ok (Exit n code)
               | _ => Err tt
               end).
Definition run_welcome : @Serde toy_wire Welcome :=
  @Build_Serde toy_wire Welcome (fun _ => Err tt)
    (fun bs => Ok {| user := "u"; server_version := of_bytes bs |}).

Definition run_lib : TransportLib := Build_TransportLib unit unit.

Definition run_attempt (conn : result (@Items run_lib) ClientError) (turns : list Turn) : @Attempt run_lib :=
  {| at_token := Ok "secret"%string; at_conn := conn; at_hello := SendDone; at_request := SendDone;
     at_login := Ok tt; at_now := 0; at_resend := 9%nat; at_turns := turns |}.

Definition run_turn : Turn := ConnTurn 5 WroteAll.

(** Output, a lost connection, two attempts that fail, the resume (which
    repeats the output) and the exit. *)
Definition run_story : list (@Attempt run_lib) :=
  [run_attempt (Ok (@WsItems run_lib [WsBinary [0]; WsBinary [0; 0]; WsBinary [0; 1; 1; 104]; WsClose])) [run_turn; run_turn];
   run_attempt (Err ConnectTimeout) [];
   run_attempt (Ok (@WsItems run_lib [WsBinary [0]; WsEnded])) [];
   run_attempt (Ok (@WsItems run_lib [WsBinary [0]; WsOther; WsBinary [0; 0]; WsBinary [0; 1; 1; 104];
                                      WsBinary [0; 1; 2; 105]; WsBinary [0; 2; 3; 7]])) [run_turn; run_turn; run_turn]].

Example run_story_ends :
  let '(effs, c, r) := @run_exec run_lib toy_wire run_message run_welcome (target_new "ws://h" "secret") "cat" run_story in
  effs = [Requested (Exec "cat" true false); Slept 300; Slept 300; Requested (Resume "t" 1); Slept 600;
          Requested (Resume "t" 1)] /\
  out c = [104; 105] /\ r = Some (Ok 7).
Proof. vm_compute. by split_and!. Qed.

(** With the default timeout of 30 s: every ping is answered at once, and the
    tick 30 s after the last message ends the loop all the same. *)
Lemma silence_is_noticed_witness :
  let target := target_new "ws://h" "secret" in
  let turns := [KeepaliveTurn 20000 true; ConnTurn 20100 WroteAll; StdinTurn (ReadOk [65]) true;
                KeepaliveTurn 35000 true; ConnTurn 35100 WroteAll; KeepaliveTurn 50000 true] in
  let '(c', r) := @attached_run run_lib toy_wire run_message target (WsItems [WsOther; WsOther]) 10000
                    client_start turns in
  r = Some (Ok None) /\ (r = None <-> Forall (tick_fine target 10000) turns).
Proof.
  pose proof (@silence_is_noticed run_lib toy_wire run_message (target_new "ws://h" "secret") 10000 client_start
    [WsOther; WsOther]
    [KeepaliveTurn 20000 true; ConnTurn 20100 WroteAll; StdinTurn (ReadOk [65]) true;
     KeepaliveTurn 35000 true; ConnTurn 35100 WroteAll; KeepaliveTurn 50000 true]) as Hs.
  cbv zeta. destruct (attached_run _ _ _ _ _) as [c' r] eqn:Hrun.
  split; [vm_compute in Hrun; by injection Hrun as <- <-|]. apply Hs.
  - by repeat constructor.
  - repeat (constructor; [done || by split; [exists [65]|]|]). constructor.
Defined.
