(* ===== verification/Gapless.v ===== *)
(** * Numbered streams

    The ordering argument shared by both directions of a session.  A receiver
    that stands at position [p] takes a message numbered [n] only when [n] is
    above [p]; a queue is [gapless] from [p] when no message in it would make
    such a receiver skip a number, and [reach] is the position after it.  The
    numbering is given by [key], so the same lemmas serve the output stream,
    the stdin stream and the session's input queue. *)

From S2P Require Import Prelude.

Section Gapless.
Context {M : Type} (key : M -> option Z).

Definition advance (p : Z) (m : M) : Z :=
  match key m with Some n => Z.max p n | None => p end.

Definition reach (p : Z) (q : list M) : Z := fold_left advance q p.

Fixpoint gapless (p : Z) (q : list M) : Prop :=
  match q with
  | [] => True
  | m :: q => (match key m with Some n => n <= p + 1 | None => True end) /\ gapless (advance p m) q
  end.

(** Entry [i] is numbered [p + i + 1]. *)
Definition consecutive (p : Z) (q : list M) : Prop :=
  forall i m, q !! i = Some m -> key m = Some (p + Z.of_nat i + 1).

Lemma advance_mono p p' m : p <= p' -> advance p m <= advance p' m.
Proof. unfold advance. destruct (key m); lia. Qed.

Lemma advance_ge p m : p <= advance p m.
Proof. unfold advance. destruct (key m); lia. Qed.

Lemma reach_mono q : forall p p', p <= p' -> reach p q <= reach p' q.
Proof. induction q as [|m q IH]; intros p p' Hp; [done|]. cbn. by apply IH, advance_mono. Qed.

Lemma reach_ge q : forall p, p <= reach p q.
Proof.
  induction q as [|m q IH]; intros p; [done|]. cbn. pose proof (advance_ge p m).
  specialize (IH (advance p m)). unfold reach in IH. lia.
Qed.

Lemma reach_app p q k : reach p (q ++ k) = reach (reach p q) k.
Proof. unfold reach. by rewrite fold_left_app. Qed.

Lemma gapless_mono q : forall p p', p <= p' -> gapless p q -> gapless p' q.
Proof.
  induction q as [|m q IH]; intros p p' Hp; [done|]. cbn [gapless]. intros [Hm Hq]. split.
  - destruct (key m); [lia|done].
  - eapply IH; [|exact Hq]. by apply advance_mono.
Qed.

Lemma gapless_app p q k : gapless p (q ++ k) <-> gapless p q /\ gapless (reach p q) k.
Proof.
  revert p. induction q as [|m q IH]; intros p; cbn [app gapless]; [cbn; tauto|].
  rewrite IH. cbn. tauto.
Qed.

(** A queue whose numbers a receiver at [p] has all seen moves nobody. *)
Lemma reach_unkeyed p q : Forall (fun m => key m = None) q -> reach p q = p.
Proof.
  revert p. induction q as [|m q IH]; intros p Hq; [done|]. inversion Hq as [|? ? Hm Hq']; subst.
  cbn. unfold advance at 2. rewrite Hm. by apply IH.
Qed.

Lemma gapless_unkeyed p q : Forall (fun m => key m = None) q -> gapless p q.
Proof.
  revert p. induction q as [|m q IH]; intros p Hq; [done|]. inversion Hq as [|? ? Hm Hq']; subst.
  cbn [gapless]. rewrite Hm. split; [done|]. unfold advance. rewrite Hm. by apply IH.
Qed.

Lemma consecutive_cons p m q : consecutive p (m :: q) <-> key m = Some (p + 1) /\ consecutive (p + 1) q.
Proof.
  split.
  - intros H. split; [rewrite (H 0%nat m eq_refl); f_equal; lia|].
    intros i m' Hi. rewrite (H (S i) m' Hi). f_equal. lia.
  - intros [Hm Hq] [|i] m' Hi.
    + injection Hi as <-. rewrite Hm. f_equal. lia.
    + rewrite (Hq i m' Hi). f_equal. lia.
Qed.

(** A consecutive run starting at or below the receiver's position leaves no
    gap and ends at its last number, if that is higher. *)
Lemma consecutive_gapless q : forall p p', p <= p' -> consecutive p q ->
  gapless p' q /\ reach p' q = Z.max p' (p + len q).
Proof.
  induction q as [|m q IH]; intros p p' Hp Hc.
  - split; [done|]. change (reach p' []) with p'. len_lia.
  - apply consecutive_cons in Hc as [Hm Hc]. cbn [gapless]. rewrite Hm.
    change (reach p' (m :: q)) with (reach (advance p' m) q).
    assert (Ha : advance p' m = Z.max p' (p + 1)) by (unfold advance; by rewrite Hm).
    destruct (IH (p + 1) (advance p' m)) as [Hg Hr]; [lia|done|].
    split; [split; [lia|done]|]. rewrite Hr, Ha. len_lia.
Qed.

Lemma consecutive_drop p q k : consecutive p q -> (k <= length q)%nat ->
  consecutive (p + Z.of_nat k) (drop k q).
Proof.
  intros Hc Hk i m. rewrite lookup_drop. intros Hi. rewrite (Hc _ _ Hi). f_equal. lia.
Qed.

End Gapless.

Lemma gapless_head {M} (key : M -> option Z) p m q n : gapless key p (m :: q) -> key m = Some n ->
  n <= p + 1 /\ gapless key (Z.max p n) q.
Proof. cbn [gapless]. unfold advance. intros [H1 H2] Hm. by rewrite Hm in H1, H2. Qed.
