(* ===== verification/System.v ===== *)
(** * One session, end to end

    The client's [run_exec], the connections of the server's [attach] that
    serve it (the current one and any number of older ones the server has not
    given up yet), and the session task, composed.  A connection is a pair of
    reliable queues plus the datagrams sent next to them, which may arrive in
    any order, any number of times, or never.  A step is one iteration of one
    of the parties; the daemon may hand the session over and be replaced by its
    successor at any time: the task answers, the old daemon forgets the
    session, the successor restores it. *)

From S2P Require Import Prelude Proto Auth OutboundLog Session Exec Channel Registry Attach Handover.
From S2P Require Import Target RunExec Gapless.

(** ** State *)

(** A connection: the server's attach loop on it (or none, if that has
    returned), and what is in flight in each direction. *)
Record Link := {
  server_end : option Attach;
  to_client : list ChannelMessage;
  to_server : list ChannelMessage;
  dup_to_client : list ChannelMessage;
  dup_to_server : list ChannelMessage;
  over_quic : bool;
}.

Inductive Phase : Type :=
| Connecting
| AttachedTo (i : nat)
| Finished (r : result Z ClientError).

(** [handed] is the answer to a handover request until the successor picks it
    up; [registered] says that the registry of the daemon that serves now has
    the session.  History variables: [hist], everything the session task logged, and [typed], what
    the client read from its stdin ([[]] for end of file). *)
Record System := {
  session : Session;
  task : Task;
  status : TaskStatus;
  handed : option SessionHandover;
  registered : bool;
  links : list Link;
  client : Client;
  phase : Phase;
  hist : list ChannelMessage;
  typed : list bytes;
}.

Inductive SysEvent : Type :=
| TaskRuns (ev : TaskEvent)
| Flushes (i : nat) (ok_until : option nat)
| ServerFrame (i : nat)
| ServerDatagram (i j : nat)
| ServerLost (i : nat)
| Expires
| AsksHandover
| HandsOver
| Restarts (is_pipe : Receiver -> bool) (hub : bool) (now : Z)
| DaemonLost
| ClientReads (r : ReadResult) (send_ok : bool)
| ClientFrame (w : WriteResult)
| ClientDatagram (j : nat) (w : WriteResult)
| ClientLost
| Connects (now : Z) (quic : bool) (resend_ok : nat)
| ConnectFails (e : ClientError) (login : result unit ClientError).

Section Steps.
Context `{TransportLib} `{WireLib} `{HttpLib}.
Context (target : Target) (command token : string).

Definition with_client (c : Client) (p : Phase) (ls : list Link) (sys : System) : System :=
  {| session := session sys; task := task sys; status := status sys; handed := handed sys;
     registered := registered sys; links := ls; client := c; phase := p;
     hist := hist sys; typed := typed sys |}.
Definition with_session (s : Session) (registered : bool) (ls : list Link) (sys : System) : System :=
  {| session := s; task := task sys; status := status sys; handed := handed sys;
     registered := registered; links := ls; client := client sys; phase := phase sys;
     hist := hist sys; typed := typed sys |}.

(** ** The server's parties *)

Fixpoint replied (effs : list TaskEffect) : option SessionHandover :=
  match effs with
  | [] => None
  | Replied h :: _ => Some h
  | _ :: effs => replied effs
  end.

Definition task_runs (ev : TaskEvent) (sys : System) : option System :=
  match status sys with
  | Returned => None
  | Running =>
      match task_step (session sys) (task sys) ev with
      | None => None
      | Some (s, t, effs, st) =>
          Some {| session := s; task := t; status := st; handed := replied effs;
                  registered := registered sys; links := links sys; client := client sys;
                  phase := phase sys; hist := hist sys ++ logged effs; typed := typed sys |}
      end
  end.

Definition duplicates (quic : bool) (ms : list ChannelMessage) : list ChannelMessage :=
  if quic then filter (fun m => worth_duplicating m = true) ms else [].

(** The top of the attach loop on connection [l]; if a send fails, a prefix
    went out and the loop returns. *)
Definition flush_link (s : Session) (ok_until : option nat) (a : Attach) (l : Link) : Link :=
  let '(ms, a') := flush s a in
  let '(ms, live) := match ok_until with Some k => (take k ms, None) | None => (ms, Some a') end in
  {| server_end := live; to_client := to_client l ++ ms; to_server := to_server l;
     dup_to_client := dup_to_client l ++ duplicates (over_quic l) ms;
     dup_to_server := dup_to_server l; over_quic := over_quic l |}.

Definition with_ends (a : option Attach) (rest : list ChannelMessage) (l : Link) : Link :=
  {| server_end := a; to_client := to_client l; to_server := rest; dup_to_client := dup_to_client l;
     dup_to_server := dup_to_server l; over_quic := over_quic l |}.

(** The attach loop reacted to an event of connection [i]. *)
Definition reacted (i : nat) (rest : list ChannelMessage) (l : Link) (r : Reaction) (sys : System) : System :=
  let live := match r_result r with None => Some (r_attach r) | Some _ => None end in
  with_session (r_session r) (registered sys && negb (r_remove r))
    (<[i := with_ends live rest l]> (links sys)) sys.

(** [handover_sessions] has the task's reply and removes the session from the
    registry.  The old daemon goes on until every other session has answered
    and the descriptors are stored, and so do the connections it has accepted:
    a resume that one of them brings now is denied. *)
Definition hands_over (sys : System) : option System :=
  match handed sys with
  | Some _ => Some (with_session (session sys) false (links sys) sys)
  | None => None
  end.

(** The successor restores the session from what was handed over; every
    connection of the old daemon is gone. *)
Definition kill (l : Link) : Link := with_ends None (to_server l) l.

Definition restarts (is_pipe : Receiver -> bool) (hub : bool) (now : Z) (sys : System) : option System :=
  match handed sys with
  | None => None
  | Some h =>
      if registered sys then None
      else match restore_one is_pipe hub now (child_stdin (task sys))
              (set_forward_agent (agent (session sys)) (state h)) (list_to_map (fds h)) with
      | Err _ => None
      | Ok (s, t) =>
          Some {| session := s; task := t; status := Running; handed := None;
                  registered := true; links := map kill (links sys); client := client sys;
                  phase := phase sys; hist := hist sys; typed := typed sys |}
      end
  end.

(** The daemon is replaced by one that does not know the session: it was not
    asked, or had nothing to hand over. *)
Definition daemon_lost (sys : System) : System :=
  {| session := with_closed (session sys); task := task sys; status := Returned; handed := None;
     registered := false; links := map kill (links sys); client := client sys;
     phase := phase sys; hist := hist sys; typed := typed sys |}.

(** ** The client *)

(** Where the client stands after an iteration of the attached loop. *)
Definition phase_after (i : nat) (a : Attached) : Phase :=
  match a_result a with
  | None => AttachedTo i
  | Some r =>
      match after_attached (a_client a) r with
      | ReturnExec r => Finished r
      | SleepThenReconnect _ => Connecting
      end
  end.

(** One iteration of the attached loop on connection [i]. *)
Definition client_did (i : nat) (l : Link) (a : Attached) (sys : System) : System :=
  let l := {| server_end := server_end l; to_client := to_client l;
              to_server := to_server l ++ a_sent a; dup_to_client := dup_to_client l;
              dup_to_server := dup_to_server l ++ duplicates (over_quic l) (a_dup a);
              over_quic := over_quic l |} in
  with_client (a_client a) (phase_after i a) (<[i := l]> (links sys)) sys.

Definition with_typed (r : ReadResult) (sys : System) : System :=
  {| session := session sys; task := task sys; status := status sys; handed := handed sys;
     registered := registered sys; links := links sys; client := client sys; phase := phase sys;
     hist := hist sys;
     typed := match r with ReadOk data => typed sys ++ [data] | ReadErr => typed sys end |}.

Definition pop_to_client (rest : list ChannelMessage) (l : Link) : Link :=
  {| server_end := server_end l; to_client := rest; to_server := to_server l;
     dup_to_client := dup_to_client l; dup_to_server := dup_to_server l; over_quic := over_quic l |}.

(** A resume that reaches the registered session: the server attaches after
    [last_seq_seen], the client resends its unacknowledged stdin. *)
Definition connects (now : Z) (quic : bool) (resend_ok : nat) (sys : System) : option System :=
  match phase sys, request target command (client sys) with
  | Connecting, Resume tok last_seq_seen =>
      if registered sys && bool_decide (tok = token) then
        match on_connect target (client sys) (Ok (if resumable (session sys) then Some token else None)) with
        | AttachNow c =>
            let '(resent, all_sent) := resend c resend_ok in
            let l := {| server_end := Some (attach_start last_seq_seen now); to_client := [];
                        to_server := resent; dup_to_client := []; dup_to_server := [];
                        over_quic := quic |} in
            let p := if all_sent then AttachedTo (length (links sys)) else Connecting in
            Some (with_client c p (links sys ++ [l]) sys)
        | _ => None
        end
      else None
  | _, _ => None
  end.

(** A failed attempt; the server denies a session only if it has none. *)
Definition connect_fails (e : ClientError) (login : result unit ClientError) (sys : System) : option System :=
  match phase sys with
  | Connecting =>
      if registered sys && (match e with Denied _ => true | _ => false end) then None
      else
        match on_connect target (client sys) (Err e) with
        | AttachNow _ => None
        | SleepThenRetry _ c => Some (with_client c Connecting (links sys) sys)
        | LoginThenRetry c _ _ =>
            Some (with_client c (match login with Ok _ => Connecting | Err e => Finished (Err e) end)
                    (links sys) sys)
        | GiveUp e => Some (with_client (client sys) (Finished (Err e)) (links sys) sys)
        end
  | _ => None
  end.

(** ** Steps and runs *)

Definition current (sys : System) : option (nat * Link) :=
  match phase sys with
  | AttachedTo i => match links sys !! i with Some l => Some (i, l) | None => None end
  | _ => None
  end.

Definition live_end (i : nat) (sys : System) : option (Link * Attach) :=
  match links sys !! i with
  | Some l => match server_end l with Some a => Some (l, a) | None => None end
  | None => None
  end.

Definition sys_step (sys : System) (ev : SysEvent) : option System :=
  match ev with
  | TaskRuns ev => task_runs ev sys
  | Flushes i ok_until =>
      match live_end i sys with
      | Some (l, a) =>
          Some (with_session (session sys) (registered sys)
                  (<[i := flush_link (session sys) ok_until a l]> (links sys)) sys)
      | None => None
      end
  | ServerFrame i =>
      match live_end i sys with
      | Some (l, a) =>
          match to_server l with
          | m :: rest => Some (reacted i rest l (Attach.on_message (session sys) a m) sys)
          | [] => None
          end
      | None => None
      end
  | ServerDatagram i j =>
      match live_end i sys with
      | Some (l, a) =>
          match dup_to_server l !! j with
          | Some m => Some (reacted i (to_server l) l (on_datagram (session sys) a m) sys)
          | None => None
          end
      | None => None
      end
  | ServerLost i =>
      match live_end i sys with
      | Some (l, a) => Some (reacted i (to_server l) l (lost (session sys) a (Ok tt)) sys)
      | None => None
      end
  | Expires => Some (with_session (send_input Abort (session sys)).1 false (links sys) sys)
  | AsksHandover =>
      Some (with_session (send_input Handover (session sys)).1 (registered sys) (links sys) sys)
  | HandsOver => hands_over sys
  | Restarts is_pipe hub now => restarts is_pipe hub now sys
  | DaemonLost => Some (daemon_lost sys)
  | ClientReads r send_ok =>
      match current sys with
      | Some (i, l) =>
          if stdin_open (client sys) then
            Some (client_did i l (on_stdin (client sys) r send_ok) (with_typed r sys))
          else None
      | None => None
      end
  | ClientFrame w =>
      match current sys with
      | Some (i, l) =>
          match to_client l with
          | m :: rest =>
              Some (client_did i (pop_to_client rest l) (on_message (client sys) m true w) sys)
          | [] => None
          end
      | None => None
      end
  | ClientDatagram j w =>
      match current sys with
      | Some (i, l) =>
          match dup_to_client l !! j with
          | Some m => Some (client_did i l (on_message (client sys) m false w) sys)
          | None => None
          end
      | None => None
      end
  | ClientLost =>
      match current sys with
      | Some (i, l) => Some (client_did i l (stop (client sys) [] (Ok None)) sys)
      | None => None
      end
  | Connects now quic resend_ok => connects now quic resend_ok sys
  | ConnectFails e login => connect_fails e login sys
  end.

Fixpoint sys_run (sys : System) (evs : list SysEvent) : option System :=
  match evs with
  | [] => Some sys
  | ev :: evs => match sys_step sys ev with Some sys => sys_run sys evs | None => None end
  end.

(** The session just started by [start_session], and the client just attached
    to it. *)
Definition sys_start (s : Session) (t : Task) (now : Z) (quic : bool) : System :=
  {| session := s; task := t; status := Running; handed := None; registered := true;
     links := [{| server_end := Some (attach_start 0 now); to_client := []; to_server := [];
                  dup_to_client := []; dup_to_server := []; over_quic := quic |}];
     client := with_token (Some token) (agent_channel client_start) client_start;
     phase := AttachedTo 0; hist := []; typed := [] |}.

End Steps.
