(* ===== verification/SystemOut.v ===== *)
(** * Output is delivered exactly ([System], server to client)

    The invariant behind the output direction and its preservation by every
    step of the composed system: what is in flight on the current connection
    never lets the client skip a message, and nothing the client has not seen
    is ever dropped from the log. *)

From S2P Require Import Prelude Proto Auth OutboundLog Session Exec Channel Registry Attach Handover.
From S2P Require Import Target RunExec Gapless System.

(** ** The invariant *)

(** A message of the output stream is the entry of the history its number
    names, or an acknowledgement. *)
Definition authentic (h : list ChannelMessage) (m : ChannelMessage) : Prop :=
  match msg_seq m with
  | Some n => 1 <= n /\ h !! Z.to_nat (n - 1) = Some m
  | None => exists n, m = Ack n
  end.

Definition ack_le (b : Z) (m : ChannelMessage) : Prop :=
  match m with Ack n => n <= b | _ => True end.
Definition not_ack (m : ChannelMessage) : Prop :=
  match m with Ack _ => False | _ => True end.

(** The current connection, seen by a client that has taken [last] messages. *)
Record link_out (h : list ChannelMessage) (last : Z) (l : Link) : Prop := {
  lo_auth : Forall (authentic h) (to_client l);
  lo_dup : Forall (fun m => authentic h m /\ is_stdio m) (dup_to_client l);
  lo_gapless : gapless msg_seq last (to_client l);
  lo_live : forall a, server_end l = Some a ->
    reach msg_seq last (to_client l) = sent_up_to a /\ sent_up_to a <= len h /\
    Forall (fun m => forall n, msg_seq m = Some n -> n <= sent_up_to a) (dup_to_client l);
}.

(** What the client wrote, by how far it got. *)
Definition client_ok (h : list ChannelMessage) (c : Client) (p : Phase) : Prop :=
  let seen := take (Z.to_nat (last_server_seq c)) h in
  match p with
  | Finished (Err _) => out c `prefix_of` stdout_bytes seen /\ err c `prefix_of` stderr_bytes seen
  | Finished (Ok code) =>
      (exists h', h = h' ++ [Exit (len h' + 1) code] /\ Forall is_stdio h') /\
      out c = stdout_bytes h /\ err c = stderr_bytes h
  | _ => out c = stdout_bytes seen /\ err c = stderr_bytes seen
  end.

(** Only stdio, until an Exit ends it. *)
Definition history_ok (sys : System) : Prop :=
  Forall is_stdio (hist sys) \/
  (status sys = Returned /\ handed sys = None /\
   exists h code, hist sys = h ++ [Exit (len h + 1) code] /\ Forall is_stdio h).

(** The highest number the client may have acknowledged. *)
Definition cap_of (c : Client) (p : Phase) : Z :=
  match p with Finished (Ok _) => u64_modulus | _ => last_server_seq c end.
Definition cap (sys : System) : Z := cap_of (client sys) (phase sys).

Record out_inv (sys : System) : Prop := {
  oi_task : exists acked, task_inv (hist sys) acked (session sys) (task sys) /\ acked <= cap sys;
  oi_hist : history_ok sys;
  oi_handed : forall h, handed sys = Some h -> status sys = Returned /\ Forall is_stdio (hist sys) /\
    exists s0 acked reclaim, h = handover_reply reclaim s0 (task sys) /\
      task_inv (hist sys) acked s0 (task sys) /\ acked <= cap sys;
  oi_last : 0 <= last_server_seq (client sys) <= len (hist sys);
  oi_client : client_ok (hist sys) (client sys) (phase sys);
  oi_seen : Forall is_stdio (take (Z.to_nat (last_server_seq (client sys))) (hist sys));
  oi_sent : Forall not_ack (sent_stdin (client sys));
  oi_acks : forall i l, links sys !! i = Some l -> Forall (ack_le (cap sys)) (to_server l);
  oi_current : forall i, phase sys = AttachedTo i ->
    exists l, links sys !! i = Some l /\ link_out (hist sys) (last_server_seq (client sys)) l;
}.

(** ** Messages and the growing history *)

Lemma authentic_grows h k m : authentic h m -> authentic (h ++ k) m.
Proof.
  unfold authentic. destruct (msg_seq m); [|done]. intros [H1 H2]. split; [done|].
  by apply lookup_app_l_Some.
Qed.

Lemma ack_le_mono b b' q : b <= b' -> Forall (ack_le b) q -> Forall (ack_le b') q.
Proof. intros Hb Hq. eapply Forall_impl; [exact Hq|]. intros []; cbn; try done. lia. Qed.

Lemma not_ack_le b q : Forall not_ack q -> Forall (ack_le b) q.
Proof. intros Hq. eapply Forall_impl; [exact Hq|]. by intros []. Qed.

Lemma link_out_grows h k last l : link_out h last l -> link_out (h ++ k) last l.
Proof.
  intros [Ha Hd Hg Hl]. split; [| |done|].
  - eapply Forall_impl; [exact Ha|]. intros m. apply authentic_grows.
  - eapply Forall_impl; [exact Hd|]. intros m []. split; [by apply authentic_grows|done].
  - intros a Hs. destruct (Hl a Hs) as (? & ? & ?). split_and!; [done| |done].
    len_lia.
Qed.

Lemma link_out_dies h last l rest : link_out h last l -> link_out h last (with_ends None rest l).
Proof. intros []. by split. Qed.

Lemma link_out_reacts h last l a a' rest : server_end l = Some a -> sent_up_to a' = sent_up_to a ->
  link_out h last l -> link_out h last (with_ends (Some a') rest l).
Proof.
  intros Hl Hs [H1 H2 H3 H4]. split; [done|done|done|]. cbn. intros ? [= <-]. rewrite Hs. by apply H4.
Qed.

Lemma client_ok_grows h k c p : 0 <= last_server_seq c <= len h -> (forall code, p <> Finished (Ok code)) ->
  client_ok h c p -> client_ok (h ++ k) c p.
Proof.
  intros Hl Hp. unfold client_ok.
  rewrite take_app_le by (unfold len in Hl; lia).
  destruct p as [|i|[code|e]]; [done|done| |done]. by specialize (Hp code).
Qed.

Lemma is_stdio_exit h n code : ~ Forall is_stdio (h ++ [Exit n code]).
Proof. intros [_ He]%Forall_app. inversion He; subst. done. Qed.

(** Every entry of the history is authentic. *)
Lemma history_authentic h i m : numbered h -> h !! i = Some m -> authentic h m.
Proof.
  intros Hn Hi. unfold authentic. rewrite (Hn i m Hi). split; [lia|].
  by replace (Z.to_nat (Z.of_nat i + 1 - 1)) with i by lia.
Qed.

Lemma numbered_consecutive h : numbered h <-> consecutive msg_seq 0 h.
Proof.
  unfold numbered, consecutive. split; intros H i m Hi; rewrite (H i m Hi); f_equal; lia.
Qed.

(** What a flush sends moves the connection to the end of the history. *)
Lemma flush_stream h n : numbered h -> 0 <= n <= len h ->
  Forall (authentic h) (drop (Z.to_nat n) h) /\
  gapless msg_seq n (drop (Z.to_nat n) h) /\ reach msg_seq n (drop (Z.to_nat n) h) = len h.
Proof.
  intros Hn Hl. split.
  - rewrite Forall_lookup. intros i m. rewrite lookup_drop. by apply history_authentic.
  - pose proof (consecutive_drop msg_seq 0 h (Z.to_nat n) (proj1 (numbered_consecutive h) Hn)
      ltac:(unfold len in Hl; lia)) as Hc.
    replace (0 + Z.of_nat (Z.to_nat n)) with n in Hc by lia.
    destruct (consecutive_gapless msg_seq _ n n ltac:(lia) Hc) as [Hg Hr]. split; [done|].
    rewrite Hr, len_drop. lia.
Qed.

(** ** Generic updates *)

Lemma server_update sys s reg ls : out_inv sys ->
  (exists acked, task_inv (hist sys) acked s (task sys) /\ acked <= cap sys) ->
  (forall i l, ls !! i = Some l -> Forall (ack_le (cap sys)) (to_server l)) ->
  (forall i l, phase sys = AttachedTo i -> links sys !! i = Some l ->
     link_out (hist sys) (last_server_seq (client sys)) l ->
     exists l', ls !! i = Some l' /\ link_out (hist sys) (last_server_seq (client sys)) l') ->
  out_inv (with_session s reg ls sys).
Proof.
  intros [] Ht Hacks Hcur. split; try done.
  intros i Hp. destruct (oi_current0 i Hp) as (l & Hl & Ho). by eapply Hcur.
Qed.

Lemma client_update sys c p ls : out_inv sys -> cap sys <= cap_of c p ->
  last_server_seq c <= len (hist sys) -> 0 <= last_server_seq c ->
  client_ok (hist sys) c p -> Forall is_stdio (take (Z.to_nat (last_server_seq c)) (hist sys)) ->
  Forall not_ack (sent_stdin c) ->
  (forall i l, ls !! i = Some l -> Forall (ack_le (cap_of c p)) (to_server l)) ->
  (forall i, p = AttachedTo i -> exists l, ls !! i = Some l /\ link_out (hist sys) (last_server_seq c) l) ->
  out_inv (with_client c p ls sys).
Proof.
  intros [(acked & Ht & Ha) Hh Hho _ _ _ _ _ _] Hcap Hl0 Hl Hok Hseen Hsent Hacks Hcur. split; try done.
  - exists acked. split; [done|]. change (cap (with_client c p ls sys)) with (cap_of c p). lia.
  - intros h Hsome. destruct (Hho h Hsome) as (? & ? & s0 & k & reclaim & ? & ? & ?).
    split_and!; [done|done|]. exists s0, k, reclaim. split_and!; [done|done|].
    change (cap (with_client c p ls sys)) with (cap_of c p). lia.
Qed.

(** Updating one connection. *)
Lemma update_acks b (ls : list Link) i l' :
  (forall j l, ls !! j = Some l -> Forall (ack_le b) (to_server l)) -> Forall (ack_le b) (to_server l') ->
  forall j l, <[i := l']> ls !! j = Some l -> Forall (ack_le b) (to_server l).
Proof.
  intros Hls Hl' j l Hj. apply list_lookup_insert_Some in Hj as [(_ & <- & _)|[_ Hj]]; [done|by eapply Hls].
Qed.

Lemma update_current h last (ls : list Link) i l l' :
  ls !! i = Some l -> (link_out h last l -> link_out h last l') ->
  forall j k, ls !! j = Some k -> link_out h last k ->
  exists k', <[i := l']> ls !! j = Some k' /\ link_out h last k'.
Proof.
  intros Hi Hl j k Hj Hk. destruct (decide (i = j)) as [<-|Hne].
  - exists l'. rewrite Hi in Hj. injection Hj as <-. split; [|by apply Hl].
    apply list_lookup_insert_eq. by eapply lookup_lt_Some.
  - exists k. by rewrite list_lookup_insert_ne.
Qed.

Lemma cap_nonneg sys : out_inv sys -> 0 <= cap sys.
Proof. intros []. unfold cap, cap_of. destruct (phase sys) as [| |[]]; done || lia. Qed.

(** ** The server's steps *)

Lemma duplicates_stdio quic h ms : Forall (authentic h) ms ->
  Forall (fun m => authentic h m /\ is_stdio m) (duplicates quic ms).
Proof.
  intros Hms. unfold duplicates. destruct quic; [|constructor].
  rewrite Forall_forall in Hms |- *. intros m [Hw Hin]%list_elem_of_filter.
  specialize (Hms m Hin). split; [done|].
  destruct m; try done. unfold authentic in Hms. cbn in Hms. by destruct Hms.
Qed.

Lemma duplicates_elem quic ms m : m ∈ duplicates quic ms -> m ∈ ms.
Proof. unfold duplicates. destruct quic; [|by intros ?%elem_of_nil]. by intros [_ ?]%list_elem_of_filter. Qed.

Lemma reach_bounds ms : forall p m n, m ∈ ms -> msg_seq m = Some n -> n <= reach msg_seq p ms.
Proof.
  induction ms as [|m' ms IH]; intros p m n; [by intros ?%elem_of_nil|].
  intros [->|Hin]%elem_of_cons Hm; cbn.
  - pose proof (reach_ge msg_seq ms (advance msg_seq p m')) as Hr. unfold advance at 1 in Hr.
    rewrite Hm in Hr. unfold reach in Hr. lia.
  - by eapply IH.
Qed.

Lemma flush_stream_ack h n s a : numbered h -> 0 <= n <= len h -> forall tail,
  tail = (if acked_stdin a <? stdin_applied s then [Ack (stdin_applied s)] else []) ->
  let ms := drop (Z.to_nat n) h ++ tail in
  Forall (authentic h) ms /\ gapless msg_seq n ms /\ reach msg_seq n ms = len h.
Proof.
  intros Hn Hl tail -> ms. destruct (flush_stream h n Hn Hl) as (H1 & H2 & H3). subst ms.
  rewrite gapless_app, reach_app, H3.
  destruct (_ <? _); cbn; rewrite ?app_nil_r; split_and!; try done.
  apply Forall_app. split; [done|]. constructor; [by eexists|done].
Qed.

Lemma link_out_flush h acked last s ok_until a l :
  OutboundLog.Represents (log s) h acked -> numbered h -> acked <= last -> 0 <= last ->
  link_out h last l -> server_end l = Some a -> link_out h last (flush_link s ok_until a l).
Proof.
  intros Hr Hn Hacked Hlast [H1 H2 H3 H4] Hend. destruct (H4 a Hend) as (Hreach & Hle & Hdup).
  pose proof (reach_ge msg_seq (to_client l) last) as Hge.
  assert (Hf : acked <= sent_up_to a <= len h) by lia.
  pose proof (flush_sent s a h acked Hr Hf) as Hsent.
  unfold flush_link. destruct (flush s a) as [ms a']. destruct Hsent as [Hs' Hms].
  destruct (flush_stream_ack h (sent_up_to a) s a Hn ltac:(lia) _ eq_refl) as (Ha & Hg & Hre).
  rewrite <- Hms in Ha, Hg, Hre.
  assert (Hall : forall ms1, Forall (authentic h) ms1 -> gapless msg_seq (sent_up_to a) ms1 ->
    Forall (authentic h) (to_client l ++ ms1) /\
    Forall (fun m => authentic h m /\ is_stdio m) (dup_to_client l ++ duplicates (over_quic l) ms1) /\
    gapless msg_seq last (to_client l ++ ms1)).
  { intros ms1 Ha1 Hg1. split_and!; [by apply Forall_app|
      apply Forall_app; split; [done|by apply duplicates_stdio]|].
    apply gapless_app. by rewrite Hreach. }
  destruct ok_until as [k|]; cbn -[reach gapless].
  - rewrite <- (take_drop k ms) in Ha, Hg. apply Forall_app in Ha as [Ha _].
    apply gapless_app in Hg as [Hg _]. destruct (Hall _ Ha Hg) as (? & ? & ?). by split.
  - destruct (Hall _ Ha Hg) as (? & ? & ?). split; [done|done|done|]. cbn -[reach]. intros ? [= <-].
    rewrite reach_app, Hreach, Hre, Hs'. split_and!; [done|done|]. apply Forall_app. split.
    + eapply Forall_impl; [exact Hdup|]. intros m Hm n Hsn. specialize (Hm n Hsn). lia.
    + rewrite Forall_forall. intros m Hin%duplicates_elem n Hsn. rewrite <- Hre. by eapply reach_bounds.
Qed.

Lemma flush_link_ends s ok_until a l : to_server (flush_link s ok_until a l) = to_server l.
Proof. unfold flush_link. by destruct (flush s a), ok_until. Qed.

Lemma live_end_Some i sys l a : live_end i sys = Some (l, a) ->
  links sys !! i = Some l /\ server_end l = Some a.
Proof.
  unfold live_end. destruct (links sys !! i) as [l'|]; [|done].
  destruct (server_end l') eqn:E; [|done]. by intros [= -> ->].
Qed.

Lemma flush_inv sys i ok_until l a : out_inv sys -> live_end i sys = Some (l, a) ->
  out_inv (with_session (session sys) (registered sys)
    (<[i := flush_link (session sys) ok_until a l]> (links sys)) sys).
Proof.
  intros Hinv [Hi Hend]%live_end_Some. pose proof Hinv as [(acked & Ht & Ha) _ _ Hlast _ _ _ Hacks _].
  apply server_update; [done|by exists acked| |].
  - apply update_acks; [done|]. rewrite flush_link_ends. by eapply Hacks.
  - intros j k Hp. apply (update_current _ _ _ _ l); [done|]. intros Ho.
    unfold cap, cap_of in Ha. rewrite Hp in Ha.
    eapply link_out_flush; [apply Ht|apply Ht|exact Ha|lia|done|done].
Qed.

Section ServerSteps.
Context `{TransportLib} `{WireLib} `{HttpLib}.

Lemma reacted_inv sys i rest l a (r : Reaction) : out_inv sys -> live_end i sys = Some (l, a) ->
  Forall (ack_le (cap sys)) rest ->
  (exists acked, task_inv (hist sys) acked (r_session r) (task sys) /\ acked <= cap sys) ->
  sent_up_to (r_attach r) = sent_up_to a ->
  out_inv (reacted i rest l r sys).
Proof.
  intros Hinv [Hi Hend]%live_end_Some Hrest Ht Hs. apply server_update; [done|done| |].
  - apply update_acks; [apply Hinv|]. done.
  - intros j k Hp. apply (update_current _ _ _ _ l); [done|]. intros Ho.
    destruct (r_result r); [by apply link_out_dies|by eapply link_out_reacts].
Qed.

Lemma on_message_session s a m :
  let r := Attach.on_message s a m in
  r_attach r = a /\
  r_session r = match m with
                | Ack n => with_log (OutboundLog.trim n (log s)) s
                | m => (send_input (Message m) s).1
                end.
Proof.
  destruct m; try done. cbv zeta. unfold Attach.on_message. destruct (exit_seq a) as [e|]; [|done].
  by destruct (_ <=? _).
Qed.

Lemma lost_session s a r : r_attach (lost s a r) = a /\
  r_session (lost s a r) = if resumable s then s else (send_input Abort s).1.
Proof. unfold lost. by destruct (resumable s). Qed.

Lemma server_frame_inv sys i l a m rest : out_inv sys -> live_end i sys = Some (l, a) ->
  to_server l = m :: rest ->
  out_inv (reacted i rest l (Attach.on_message (session sys) a m) sys).
Proof.
  intros Hinv Hl Hq. pose proof Hinv as [(acked & Ht & Ha) _ _ _ _ _ _ Hacks _].
  pose proof (Hacks i l (proj1 (live_end_Some _ _ _ _ Hl))) as Hc. rewrite Hq in Hc.
  inversion Hc as [|? ? Hm Hrest]; subst.
  destruct (on_message_session (session sys) a m) as [Hra Hrs].
  eapply reacted_inv; [done|done|done| |by rewrite Hra]. rewrite Hrs.
  assert (Hsend : exists acked, task_inv (hist sys) acked (send_input (Message m) (session sys)).1 (task sys)
            /\ acked <= cap sys).
  { exists acked. split; [by apply send_input_inv|done]. }
  destruct m as [| | | | | | |n| | |]; try exact Hsend.
  eexists. split; [by apply trim_inv|]. cbn in Hm. lia.
Qed.

Lemma server_datagram_inv sys i l a m : out_inv sys -> live_end i sys = Some (l, a) ->
  out_inv (reacted i (to_server l) l (on_datagram (session sys) a m) sys).
Proof.
  intros Hinv Hl. pose proof Hinv as [(acked & Ht & Ha) _ _ _ _ _ _ Hacks _].
  eapply reacted_inv; [done|done| | |done].
  - eapply Hacks. by apply (live_end_Some _ _ _ _ Hl).
  - exists acked. split; [by apply send_input_inv|done].
Qed.

Lemma server_lost_inv sys i l a : out_inv sys -> live_end i sys = Some (l, a) ->
  out_inv (reacted i (to_server l) l (lost (session sys) a (Ok tt)) sys).
Proof.
  intros Hinv Hl. pose proof Hinv as [(acked & Ht & Ha) _ _ _ _ _ _ Hacks _].
  destruct (lost_session (session sys) a (Ok tt)) as [Hra Hrs].
  eapply reacted_inv; [done|done| | |by rewrite Hra].
  - eapply Hacks. by apply (live_end_Some _ _ _ _ Hl).
  - exists acked. rewrite Hrs. split; [|done]. destruct (resumable _); [done|by apply send_input_inv].
Qed.

End ServerSteps.

Lemma send_input_server sys input reg : out_inv sys ->
  out_inv (with_session (send_input input (session sys)).1 reg (links sys) sys).
Proof.
  intros Hinv. pose proof Hinv as [(acked & Ht & Ha) _ _ _ _ _ _ Hacks _].
  apply server_update; [done| |done|].
  - exists acked. split; [by apply send_input_inv|done].
  - intros i l _ Hi Ho. by exists l.
Qed.

(** ** The session task and the restart *)

Lemma replied_app xs ys : replied (xs ++ ys) = match replied xs with Some h => Some h | None => replied ys end.
Proof. induction xs as [|[] xs IH]; cbn; by rewrite ?IH. Qed.

Lemma replied_abort t : replied (abort_session t) = None.
Proof. unfold abort_session. by destruct (0 <? pgid t), (child t). Qed.

Lemma finish_replied s t s' t' effs st : finish s t = (s', t', effs, st) -> replied effs = None.
Proof.
  unfold finish. destruct (exit_code t); [|by intros [= <- <- <- <-]].
  destruct (negb _ && negb _); by intros [= <- <- <- <-].
Qed.

(** The task answers a handover request with its final state, and returns. *)
Lemma task_step_replied s t ev s' t' effs st h : task_step s t ev = Some (s', t', effs, st) ->
  replied effs = Some h ->
  st = Returned /\ logged effs = [] /\ exists reclaim, h = handover_reply reclaim s' t'.
Proof.
  unfold task_step.
  assert (Hdone : forall s1 t1 effs1, replied effs1 = None ->
    (let '(s, t, effs', status) := finish s1 t1 in Some (s, t, effs1 ++ effs', status)) =
      Some (s', t', effs, st) -> replied effs = Some h -> False).
  { intros s1 t1 effs1 Hn. destruct (finish s1 t1) as [[[s2 t2] effs2] st2] eqn:Hf.
    intros [= <- <- <- <-]. rewrite replied_app, Hn. apply finish_replied in Hf as ->. done. }
  destruct ev as [r|r|r|w reclaim|]; cbn [select].
  - destruct (stdout_open t); [|done]. destruct r as [[|b r]|]; cbn [pump]; intros H1 H2;
      exfalso; (eapply Hdone; [|exact H1|exact H2]); done.
  - destruct (stderr_open t); [|done]. destruct r as [[|b r]|]; cbn [pump]; intros H1 H2;
      exfalso; (eapply Hdone; [|exact H1|exact H2]); done.
  - case_bool_decide; [|done]. destruct (read_exit t r) as [t1 effs1] eqn:Hr. intros H1 H2. exfalso.
    eapply Hdone; [|exact H1|exact H2]. revert Hr. unfold read_exit.
    destruct (bool_decide _ && _); by intros [= _ <-].
  - destruct (inbound s) as [|input rest]; [done|].
    destruct input as [[]|[]| |]; cbn [handle_input];
      try (intros H1 H2; exfalso; by apply (Hdone _ _ [] eq_refl H1 H2)).
    + destruct (_ <? _); cbn; intros H1 H2; exfalso; by apply (Hdone _ _ [] eq_refl H1 H2).
    + destruct (_ <? _); cbn; intros H1 H2; exfalso; by apply (Hdone _ _ [] eq_refl H1 H2).
    + destruct (_ =? _); cbn; intros H1 H2; exfalso; by apply (Hdone _ _ [] eq_refl H1 H2).
    + intros [= <- <- <- <-]. rewrite replied_abort. done.
    + intros [= <- <- <- <-]. cbn [replied]. intros [= <-]. split_and!; [done|done|]. by exists reclaim.
  - destruct (inbound s); [|done]. intros [= <- <- <- <-]. rewrite replied_abort. done.
Qed.

Lemma task_runs_inv sys ev sys' : out_inv sys -> len (hist sys) + 1 < u64_modulus ->
  task_runs ev sys = Some sys' -> out_inv sys'.
Proof.
  intros [(acked & Ht & Ha) Hh _ Hlast Hok Hseen Hsent Hacks Hcur] Hroom. unfold task_runs.
  destruct (status sys) eqn:Hst; [|done].
  destruct (task_step _ _ ev) as [[[[s t] effs] st]|] eqn:Hstep; [|done]. intros [= <-].
  assert (Hstdio : Forall is_stdio (hist sys)).
  { destruct Hh as [?|(Hc & _)]; [done|congruence]. }
  pose proof (fun h => task_step_replied _ _ _ _ _ _ _ h Hstep) as Hrep.
  apply (task_step_log (hist sys) acked) in Hstep as [Ht' Hlog]; [|done|lia].
  apply step_log_facts in Hlog as (_ & _ & _ & Hend & _).
  split; cbn.
  - by exists acked.
  - destruct Hend as [Hs|(-> & out' & code & Hout & Hs & _)].
    + left. by apply Forall_app.
    + right. cbn. split_and!; [done| |].
      * destruct (replied effs) as [h|] eqn:Hr; [|done]. destruct (Hrep h eq_refl) as (_ & Hl & _).
        rewrite Hl in Hout. by destruct out'.
      * exists (hist sys ++ out'), code. rewrite Hout, app_assoc. split; [done|by apply Forall_app].
  - intros h Hr. destruct (Hrep h Hr) as (-> & Hl & reclaim & ->).
    rewrite Hl, app_nil_r in *. split_and!; [done|done|]. by exists s, acked, reclaim.
  - len_lia.
  - apply client_ok_grows; [done| |done]. intros code Hp. rewrite Hp in Hok.
    destruct Hok as ((h' & Hh' & _) & _). rewrite Hh' in Hstdio. by apply is_stdio_exit in Hstdio.
  - rewrite take_app_le by (unfold len in Hlast; lia). done.
  - done.
  - done.
  - intros i Hp. destruct (Hcur i Hp) as (l & Hl & Ho). exists l. split; [done|by apply link_out_grows].
Qed.

(** Restoring what a task answered gives the same history, position and
    counters back, whatever descriptors survived. *)
Lemma restore_one_keeps is_pipe hub now accepted b reclaim s0 t h acked roles s t2 :
  task_inv h acked s0 t ->
  restore_one is_pipe hub now accepted (set_forward_agent b (state (handover_reply reclaim s0 t))) roles
    = Ok (s, t2) ->
  task_inv h acked s t2 /\ inbound s = [] /\ inbound_closed s = false /\ resumable s = true /\
  last_client_seq t2 = last_client_seq t /\ child_stdin t2 = accepted /\
  stdin t2 = sender is_pipe (roles !! "stdin"%string) /\ exit_code t2 = exit_code t.
Proof.
  intros [Hl Hs Hn Ha]. unfold restore_one.
  destruct (receiver _ _) as [o|]; [|done]. cbn [result_bind].
  destruct (receiver _ _) as [e|]; [|done]. cbn [result_bind].
  destruct (receiver _ _) as [x|]; [|done]. cbn [result_bind].
  destruct (_ && negb hub); [done|]. intros [= <- <-].
  pose proof (OutboundLog.handover_represents _ _ _ Hl) as Hrep.
  split; [|by split_and!]. split; [exact Hrep|apply (OutboundLog.rep_latest _ _ _ Hrep)|done|done].
Qed.

Lemma restarts_inv sys is_pipe hub now sys' : out_inv sys ->
  restarts is_pipe hub now sys = Some sys' -> out_inv sys'.
Proof.
  intros [_ _ Hho Hlast Hok Hseen Hsent Hacks Hcur]. unfold restarts.
  destruct (handed sys) as [h|]; [|done]. destruct (registered sys); [done|].
  destruct (Hho h eq_refl) as (_ & Hstdio & s0 & acked & reclaim & -> & Ht & Ha).
  destruct (restore_one _ _ _ _ _ _) as [[s t]|] eqn:Hr; [|done]. intros [= <-].
  apply (restore_one_keeps _ _ _ _ _ _ _ _ (hist sys) acked) in Hr as [Ht' _]; [|done].
  split; cbn; try done.
  - by exists acked.
  - by left.
  - intros i l. change (map kill (links sys)) with (kill <$> links sys). rewrite list_lookup_fmap. destruct (links sys !! i) as [l0|] eqn:Hi; [|done].
    intros [= <-]. exact (Hacks i l0 Hi).
  - intros i Hp. destruct (Hcur i Hp) as (l & Hi & Ho). exists (kill l). split.
    + change (map kill (links sys)) with (kill <$> links sys). by rewrite list_lookup_fmap, Hi.
    + by apply link_out_dies.
Qed.

Lemma hands_over_inv sys sys' : out_inv sys -> hands_over sys = Some sys' -> out_inv sys'.
Proof. intros Hinv. unfold hands_over. destruct (handed sys) eqn:Hh; [|done]. intros [= <-]. by destruct Hinv. Qed.

Lemma daemon_lost_inv sys : out_inv sys -> out_inv (daemon_lost sys).
Proof.
  intros [(acked & Ht & Ha) Hh _ Hlast Hok Hseen Hsent Hacks Hcur]. split; cbn; try done.
  - exists acked. split; [by apply with_closed_inv|done].
  - destruct Hh as [?|(_ & _ & ?)]; [by left|by right].
  - intros i l. change (map kill (links sys)) with (kill <$> links sys). rewrite list_lookup_fmap.
    destruct (links sys !! i) as [l0|] eqn:Hi; [|done]. intros [= <-]. exact (Hacks i l0 Hi).
  - intros i Hp. destruct (Hcur i Hp) as (l & Hi & Ho). exists (kill l). split.
    + change (map kill (links sys)) with (kill <$> links sys). by rewrite list_lookup_fmap, Hi.
    + by apply link_out_dies.
Qed.

(** ** The client's steps *)

Lemma current_Some sys i l : current sys = Some (i, l) ->
  phase sys = AttachedTo i /\ links sys !! i = Some l.
Proof.
  unfold current. destruct (phase sys) as [|j|]; [done| |done].
  destruct (links sys !! j) eqn:Hj; [|done]. by intros [= <- <-].
Qed.

Lemma take_snoc {A} (h : list A) k m : h !! k = Some m -> take (S k) h = take k h ++ [m].
Proof. intros Hk. by apply take_S_r. Qed.

(** An authentic next message extends what the client has seen. *)
Lemma seen_next h last m : authentic h m -> msg_seq m = Some (last + 1) -> 0 <= last ->
  last + 1 <= len h /\
  take (Z.to_nat (last + 1)) h = take (Z.to_nat last) h ++ [m].
Proof.
  unfold authentic. intros Ha Hm Hl. rewrite Hm in Ha. destruct Ha as [_ Hi].
  replace (Z.to_nat (last + 1 - 1)) with (Z.to_nat last) in Hi by lia.
  split; [apply lookup_lt_Some in Hi; unfold len; lia|].
  replace (Z.to_nat (last + 1)) with (S (Z.to_nat last)) by lia. by apply take_snoc.
Qed.

Lemma is_next_exact n last reliable : 0 <= last -> last + 1 < u64_modulus ->
  (reliable = true -> n <= last + 1) -> is_next n last reliable = true -> n = last + 1.
Proof.
  intros H0 Hb Hn. unfold is_next. no_wrap.
  destruct (Z.eqb_spec n (last + 1)); [done|]. cbn.
  destruct reliable; [|done]. cbn. specialize (Hn eq_refl). lia.
Qed.

Lemma is_next_above n last : is_next n last true = false -> n <= last.
Proof. unfold is_next. cbn. intros [_ H]%orb_false_iff. lia. Qed.

(** What writing the next output message leaves. *)
Lemma write_out_ok h stream n data w c i : let a := write_out stream n data w c in
  0 <= last_server_seq c -> n = last_server_seq c + 1 -> n <= len h < u64_modulus ->
  (if stream then authentic h (Stdout n data) else authentic h (Stderr n data)) ->
  out c = stdout_bytes (take (Z.to_nat (last_server_seq c)) h) ->
  err c = stderr_bytes (take (Z.to_nat (last_server_seq c)) h) ->
  last_server_seq (a_client a) = n /\ client_ok h (a_client a) (phase_after i a) /\
  sent_stdin (a_client a) = sent_stdin c /\ resume_token (a_client a) = resume_token c /\
  Forall (ack_le (cap_of (a_client a) (phase_after i a))) (a_sent a).
Proof.
  intros a H0 -> Hn Ha Ho He.
  assert (Ht : exists m, take (Z.to_nat (last_server_seq c + 1)) h =
      take (Z.to_nat (last_server_seq c)) h ++ [m] /\
      m = if stream then Stdout (last_server_seq c + 1) data else Stderr (last_server_seq c + 1) data).
  { destruct stream; (eexists; split; [apply (seen_next h); [exact Ha|done|lia]|done]). }
  destruct Ht as (m & Ht & ->). subst a. unfold write_out.
  destruct stream, w as [|k]; split_and!; try done; cbn -[Z.to_nat];
    rewrite ?Ht, ?stdout_bytes_app, ?stderr_bytes_app, ?Ho, ?He;
    cbn [stdout_bytes stderr_bytes map concat stdout_data stderr_data]; rewrite ?app_nil_r;
    try done; try (split; [done|done]);
    try (constructor; [cbn; lia|constructor]);
    try (split; [apply prefix_app, prefix_take|done]);
    (split; [done|apply prefix_app, prefix_take]).
Qed.

(** A message the client may receive: an authentic one it is not too early
    for, or a datagram copy of a stdio message. *)
Definition receivable (h : list ChannelMessage) (last : Z) (reliable : bool) (m : ChannelMessage) : Prop :=
  authentic h m /\
  if reliable then forall n, msg_seq m = Some n -> n <= last + 1 else is_stdio m.

(** A finished history: its Exit is its last message. *)
Definition history_shape (h : list ChannelMessage) : Prop :=
  Forall is_stdio h \/ exists h' code, h = h' ++ [Exit (len h' + 1) code] /\ Forall is_stdio h'.

Lemma exit_last h n code : history_shape h -> authentic h (Exit n code) ->
  exists h', h = h' ++ [Exit (len h' + 1) code] /\ Forall is_stdio h' /\ n = len h' + 1.
Proof.
  intros Hs [Hn Hi]. cbn in Hi.
  assert (Hnot : forall h0, Forall is_stdio h0 -> forall k, h0 !! k = Some (Exit n code) -> False).
  { intros h0 Hall k Hk. rewrite Forall_lookup in Hall. by specialize (Hall _ _ Hk). }
  destruct Hs as [Hs|(h' & code' & -> & Hs)]; [by eapply Hnot in Hs|].
  apply lookup_app_Some in Hi as [Hi|[Hge Hi]]; [by eapply Hnot in Hs|].
  apply list_lookup_singleton_Some in Hi as [Hk [= <- <-]].
  exists h'. split_and!; [done|done|]. unfold len in *. lia.
Qed.

Lemma exit_seen h' n code k : (length h' <= k)%nat ->
  stdout_bytes (take k (h' ++ [Exit n code])) = stdout_bytes (h' ++ [Exit n code]) /\
  stderr_bytes (take k (h' ++ [Exit n code])) = stderr_bytes (h' ++ [Exit n code]).
Proof.
  intros Hk. rewrite take_app_ge by done. rewrite !stdout_bytes_app, !stderr_bytes_app.
  destruct (k - length h')%nat; cbn; by rewrite ?take_nil, ?app_nil_r.
Qed.

Record client_took (h : list ChannelMessage) (c : Client) (m : ChannelMessage) (reliable : bool)
    (i : nat) (a : Attached) : Prop := {
  ct_last : last_server_seq (a_client a) = last_server_seq c \/
            msg_seq m = Some (last_server_seq c + 1) /\ authentic h m /\ is_stdio m /\
            last_server_seq (a_client a) = last_server_seq c + 1 /\ last_server_seq c + 1 <= len h;
  ct_advance : a_result a = None -> reliable = true ->
               last_server_seq (a_client a) = advance msg_seq (last_server_seq c) m;
  ct_client : client_ok h (a_client a) (phase_after i a);
  ct_sent : Forall not_ack (sent_stdin (a_client a));
  ct_acks : Forall (ack_le (cap_of (a_client a) (phase_after i a))) (a_sent a);
  ct_cap : last_server_seq c <= cap_of (a_client a) (phase_after i a);
}.

Lemma on_message_took h c m reliable w i :
  history_shape h -> receivable h (last_server_seq c) reliable m ->
  0 <= last_server_seq c <= len h -> len h + 1 < u64_modulus ->
  client_ok h c (AttachedTo i) -> Forall not_ack (sent_stdin c) ->
  client_took h c m reliable i (on_message c m reliable w).
Proof.
  intros Hshape [Ha Hr] Hl Hb [Ho He] Hsent.
  assert (Hstay : forall a, a = go_on c [] ->
    (reliable = true -> last_server_seq c = advance msg_seq (last_server_seq c) m) ->
    client_took h c m reliable i a).
  { intros a -> Hadv. split; cbn; [by left|by intros _|done|done|done|done]. }
  assert (Hwrite : forall (stream : bool) n data, m = (if stream then Stdout n data else Stderr n data) ->
    client_took h c m reliable i
      (if is_next n (last_server_seq c) reliable then write_out stream n data w c else go_on c [])).
  { intros stream n data Hm. assert (Hseq : msg_seq m = Some n) by (by rewrite Hm; destruct stream).
    destruct (is_next n _ _) eqn:Hnext.
    - apply is_next_exact in Hnext; [|lia|lia|intros ->; by apply Hr].
      assert (Hn : n <= len h) 
        by (destruct (seen_next h (last_server_seq c) m Ha) as [? _]; [congruence|lia|lia]).
      destruct (write_out_ok h stream n data w c i) as (H1 & H2 & H3 & _ & H4);
        [lia|done|lia|by destruct stream; rewrite <- Hm|done|done|].
      split; [right; rewrite H1, <- Hnext; split_and!; [by rewrite Hseq|done|by rewrite Hm; destruct stream|done|lia]
        | | |by rewrite H3|done|].
      + intros _ _. rewrite H1. unfold advance. rewrite Hseq. lia.
      + done.
      + unfold cap_of. destruct (phase_after _ _) as [| |[]]; lia.
    - apply Hstay; [done|]. intros ->. apply is_next_above in Hnext. unfold advance. rewrite Hseq. lia. }
  destruct m as [| | | |n data|n data|n code|n| | |]; try (by destruct Ha).
  - by apply (Hwrite true).
  - by apply (Hwrite false).
  - destruct reliable; [|done]. destruct (exit_last h n code Hshape Ha) as (h' & Hh & Hs & Hn).
    assert (Hpast : (length h' <= Z.to_nat (last_server_seq c))%nat).
    { specialize (Hr n eq_refl). unfold len in Hn. lia. }
    assert (Hn' : n <= u64_modulus) by (rewrite Hh, len_app in Hb; change (len [_]) with 1 in Hb; lia).
    split; cbn; [by left|done| |done|by constructor|lia].
    rewrite Ho, He, Hh. destruct (exit_seen h' (len h' + 1) code _ Hpast) as [-> ->].
    split; [by exists h'|done].
  - split; cbn; [by left|by intros ? ?|done| |constructor|lia].
    rewrite Forall_forall in Hsent |- *. intros m [_ Hin]%list_elem_of_filter. by apply Hsent.
Qed.

Lemma phase_after_attached i a j : phase_after i a = AttachedTo j -> a_result a = None /\ j = i.
Proof.
  unfold phase_after. destruct (a_result a) as [r|]; [|by intros [= ->]].
  by destruct (after_attached _ r).
Qed.

Lemma history_ok_shape sys : out_inv sys -> history_shape (hist sys).
Proof. intros []. destruct oi_hist0 as [?|(_ & _ & ?)]; [by left|by right]. Qed.

(** [link_out] depends on what flows to the client and on the server's loop. *)
Lemma link_out_same h last l l' : server_end l' = server_end l -> to_client l' = to_client l ->
  dup_to_client l' = dup_to_client l -> link_out h last l -> link_out h last l'.
Proof. intros H1 H2 H3 []. split; [by rewrite H2|by rewrite H3|by rewrite H2|by rewrite H1, H2, H3]. Qed.

Lemma client_did_inv sys i l l1 a : out_inv sys -> current sys = Some (i, l) ->
  to_server l1 = to_server l ->
  last_server_seq (client sys) <= last_server_seq (a_client a) <= len (hist sys) ->
  client_ok (hist sys) (a_client a) (phase_after i a) ->
  Forall is_stdio (take (Z.to_nat (last_server_seq (a_client a))) (hist sys)) ->
  Forall not_ack (sent_stdin (a_client a)) ->
  Forall (ack_le (cap_of (a_client a) (phase_after i a))) (a_sent a) ->
  last_server_seq (client sys) <= cap_of (a_client a) (phase_after i a) ->
  (a_result a = None -> link_out (hist sys) (last_server_seq (a_client a)) l1) ->
  out_inv (client_did i l1 a sys).
Proof.
  intros Hinv [Hp Hi]%current_Some Hs Hl Hok Hseen Hsent Hacks Hcap Hlink.
  pose proof Hinv as [_ _ _ Hl0 _ _ _ Hacks0 _].
  assert (Hcap0 : cap sys = last_server_seq (client sys)) by (unfold cap, cap_of; by rewrite Hp).
  apply client_update; [done|by rewrite Hcap0|lia|lia|done|done|done| |].
  - apply update_acks.
    + intros j k Hk. eapply ack_le_mono; [|by eapply Hacks0]. by rewrite Hcap0.
    + cbn. apply Forall_app. split; [|done]. rewrite Hs.
      eapply ack_le_mono; [|by eapply Hacks0]. by rewrite Hcap0.
  - intros j [Hr ->]%phase_after_attached. eexists. split.
    + apply list_lookup_insert_eq. by eapply lookup_lt_Some.
    + eapply link_out_same; [..|exact (Hlink Hr)]; done.
Qed.

Lemma client_took_inv sys i l l1 m reliable a : out_inv sys -> current sys = Some (i, l) ->
  to_server l1 = to_server l -> client_took (hist sys) (client sys) m reliable i a ->
  (a_result a = None -> link_out (hist sys) (last_server_seq (a_client a)) l1) ->
  out_inv (client_did i l1 a sys).
Proof.
  intros Hinv Hcur Hs [] Hlink. pose proof (oi_last _ Hinv).
  pose proof (oi_seen _ Hinv) as Hseen.
  apply (client_did_inv _ _ l); try done; destruct ct_last0 as [->|(Hn & Ha & Hm & -> & ?)]; try lia; [done|].
  destruct (seen_next _ _ _ Ha Hn) as [_ ->]; [lia|]. apply Forall_app. split; [done|by constructor].
Qed.

Lemma client_frame_inv sys i l m rest w : out_inv sys -> current sys = Some (i, l) ->
  to_client l = m :: rest -> len (hist sys) + 1 < u64_modulus ->
  out_inv (client_did i (pop_to_client rest l) (on_message (client sys) m true w) sys).
Proof.
  intros Hinv Hcur Hq Hb. pose proof (current_Some _ _ _ Hcur) as [Hp Hi].
  pose proof Hinv as [_ _ _ Hl Hok _ Hsent _ Hc]. destruct (Hc i Hp) as (l' & Hi' & [H1 H2 H3 H4]).
  rewrite Hi in Hi'. injection Hi' as <-. rewrite Hq in H1, H3, H4. inversion H1 as [|? ? Hm Hrest]; subst.
  rewrite Hp in Hok. destruct H3 as [Hm1 Hg].
  assert (Ht : client_took (hist sys) (client sys) m true i (on_message (client sys) m true w)).
  { apply on_message_took; [by apply history_ok_shape| |done|done|done|done].
    split; [done|]. intros n Hn. by rewrite Hn in Hm1. }
  eapply client_took_inv; [done|done|done|done|].
  intros Hr. pose proof (ct_advance _ _ _ _ _ _ Ht Hr eq_refl) as Hadv. rewrite Hadv.
  split; [done|done|done|]. cbn. intros a Ha. by apply H4.
Qed.

Lemma link_out_ahead h last l : 0 <= last -> link_out h last l ->
  (forall a, server_end l = Some a -> last + 1 <= sent_up_to a) -> link_out h (last + 1) l.
Proof.
  intros H0 [H1 H2 H3 H4] Hs. split; [done|done|eapply gapless_mono; [|exact H3]; lia|].
  intros a Ha. destruct (H4 a Ha) as (Hr & Hle & Hd). split_and!; [|done|done].
  specialize (Hs a Ha).
  assert (Hgen : forall q p, p <= reach msg_seq p q -> reach msg_seq p q >= p + 1 ->
    reach msg_seq (p + 1) q = reach msg_seq p q).
  { induction q as [|m q IH]; intros p Hp Hq; [change (reach msg_seq p []) with p in Hq; lia|].
    cbn in *. fold (reach msg_seq (advance msg_seq (p + 1) m) q).
    fold (reach msg_seq (advance msg_seq p m) q) in Hq |- *.
    unfold advance in *. destruct (msg_seq m) as [n|].
    - destruct (Z.le_gt_cases n p).
      + replace (p `max` n) with p in * by lia. replace ((p + 1) `max` n) with (p + 1) by lia.
        apply IH; [apply reach_ge|done].
      + by replace ((p + 1) `max` n) with (p `max` n) by lia.
    - apply IH; [apply reach_ge|done]. }
  rewrite Hgen; [done|apply reach_ge|]. rewrite Hr. lia.
Qed.

Lemma client_datagram_inv sys i l j m w : out_inv sys -> current sys = Some (i, l) ->
  dup_to_client l !! j = Some m -> len (hist sys) + 1 < u64_modulus ->
  out_inv (client_did i l (on_message (client sys) m false w) sys).
Proof.
  intros Hinv Hcur Hq Hb. pose proof (current_Some _ _ _ Hcur) as [Hp Hi].
  pose proof Hinv as [_ _ _ Hl Hok _ Hsent _ Hc]. destruct (Hc i Hp) as (l' & Hi' & Ho).
  rewrite Hi in Hi'. injection Hi' as <-. pose proof Ho as [_ H2 _ H4].
  rewrite Forall_lookup in H2. destruct (H2 _ _ Hq) as [Hauth Hstdio]. rewrite Hp in Hok.
  assert (Ht : client_took (hist sys) (client sys) m false i (on_message (client sys) m false w)).
  { by apply on_message_took; [apply history_ok_shape| |..]. }
  eapply client_took_inv; [done|done|done|done|]. intros Hr.
  destruct (ct_last _ _ _ _ _ _ Ht) as [->|(Hn & _ & _ & -> & _)]; [done|].
  apply link_out_ahead; [lia|done|]. intros a Ha. destruct (H4 a Ha) as (_ & _ & Hd).
  rewrite Forall_lookup in Hd. by apply (Hd _ _ Hq).
Qed.

Lemma client_idle_inv sys i l a : out_inv sys -> current sys = Some (i, l) ->
  last_server_seq (a_client a) = last_server_seq (client sys) ->
  out (a_client a) = out (client sys) -> err (a_client a) = err (client sys) ->
  Forall not_ack (sent_stdin (a_client a)) -> Forall not_ack (a_sent a) ->
  a_result a <> Some (Ok None) /\ (forall code, a_result a <> Some (Ok (Some code))) \/
    a_result a = Some (Ok None) ->
  out_inv (client_did i l a sys).
Proof.
  intros Hinv Hcur Hl Ho He Hs Ha Hr. pose proof (current_Some _ _ _ Hcur) as [Hp Hi].
  pose proof Hinv as [_ _ _ Hl0 Hok Hseen _ _ Hc]. rewrite Hp in Hok. destruct Hok as [Ho0 He0].
  eapply (client_did_inv _ _ l); try done; rewrite ?Hl; try lia.
  - unfold phase_after, client_ok. rewrite Hl, Ho, He, Ho0, He0.
    destruct (a_result a) as [[[code|]|e]|]; cbn; try done.
    + destruct Hr as [[_ Hr]|Hr]; [by destruct (Hr code)|done].
    + case_bool_decide; done.
  - exact Hseen.
  - by apply not_ack_le.
  - unfold cap_of. destruct (phase_after _ _) as [| |[]]; [lia|lia| |lia]. destruct (oi_task _ Hinv) as (acked & Ht & _). pose proof (OutboundLog.rep_u64 _ _ _ (ti_log _ _ _ _ Ht)). lia.
  - intros _. destruct (Hc i Hp) as (l' & Hi' & Hlink). rewrite Hi in Hi'. by injection Hi' as <-.
Qed.

Lemma with_typed_inv r sys : out_inv sys -> out_inv (with_typed r sys).
Proof. by intros []. Qed.

Lemma client_reads_inv sys i l r send_ok : out_inv sys -> current sys = Some (i, l) ->
  out_inv (client_did i l (on_stdin (client sys) r send_ok) (with_typed r sys)).
Proof.
  intros Hinv%(with_typed_inv r) Hcur. pose proof (oi_sent _ Hinv) as Hs. cbn in Hs.
  apply client_idle_inv; [done|done|..]; destruct r as [[|b data]|], send_ok; cbn;
    try done; try (apply Forall_app; split; [done|]); try (by repeat constructor);
    try (by right); by left.
Qed.

Section ClientSteps.
Context `{TransportLib} `{WireLib} `{HttpLib}.
Context (target : Target) (command token : string).

Lemma on_connect_keeps c r c' :
  on_connect target c r = AttachNow c' \/ (exists d, on_connect target c r = SleepThenRetry d c') \/
  (exists n cfg, on_connect target c r = LoginThenRetry c' n cfg) ->
  last_server_seq c' = last_server_seq c /\ out c' = out c /\ err c' = err c /\
  sent_stdin c' = sent_stdin c /\ client_seq c' = client_seq c /\ stdin_open c' = stdin_open c /\
  (is_Some (resume_token c) -> resume_token c' = resume_token c).
Proof.
  unfold on_connect. intros Hc.
  destruct r as [tok|[]]; repeat case_bool_decide; cbn in Hc;
    destruct (Target.token target);
    destruct Hc as [Hc|[(d & Hc)|(n & cfg & Hc)]]; try done; injection Hc; intros; subst; split_and!; try done.
  all: cbn; by intros [? ->].
Qed.

Lemma connecting_update sys c p ls : out_inv sys -> phase sys = Connecting ->
  last_server_seq c = last_server_seq (client sys) -> out c = out (client sys) -> err c = err (client sys) ->
  sent_stdin c = sent_stdin (client sys) ->
  (forall code, p <> Finished (Ok code)) ->
  (forall i l, ls !! i = Some l -> Forall (ack_le (cap sys)) (to_server l)) ->
  (forall i, p = AttachedTo i -> exists l, ls !! i = Some l /\ link_out (hist sys) (last_server_seq c) l) ->
  out_inv (with_client c p ls sys).
Proof.
  intros Hinv Hp Hl Ho He Hs Hdone Hacks Hcur. pose proof Hinv as [(acked & Ht & _) _ _ Hl0 Hok Hseen Hsent _ _].
  assert (Hcap : cap sys <= cap_of c p).
  { unfold cap, cap_of. rewrite Hp, Hl. destruct p as [| |[]]; [lia|lia| |lia].
    pose proof (OutboundLog.rep_u64 _ _ _ (ti_log _ _ _ _ Ht)). lia. }
  apply client_update; [done|done|lia|lia| |by rewrite Hl|by rewrite Hs| |done].
  - rewrite Hp in Hok. destruct Hok as [Ho0 He0]. unfold client_ok. rewrite Hl, Ho, He, Ho0, He0.
    destruct p as [|i|[code|e]]; try done. by destruct (Hdone code).
  - intros i l Hi. eapply ack_le_mono; [exact Hcap|by eapply Hacks].
Qed.

Lemma connects_inv sys now quic resend_ok sys' : out_inv sys ->
  connects target command token now quic resend_ok sys = Some sys' -> out_inv sys'.
Proof.
  intros Hinv. unfold connects. destruct (phase sys) eqn:Hp; [|done|done].
  destruct (request target command (client sys)) as [|tok n|] eqn:Hreq; [done| |done].
  destruct (registered sys && _); [|done].
  destruct (on_connect _ _ _) as [c| | |] eqn:Hon; try done.
  destruct (on_connect_keeps (client sys) _ c (or_introl Hon)) as (Hl & Ho & He & Hs & _).
  destruct (resend c resend_ok) as [resent all_sent] eqn:Hres. intros [= <-].
  assert (Hn : n = last_server_seq (client sys)).
  { unfold request in Hreq. destruct (resume_token _); [|done]. by injection Hreq. }
  apply connecting_update; try done.
  - destruct all_sent; done.
  - intros i l [Hi|[_ Hi]]%lookup_app_Some; [by eapply (oi_acks _ Hinv)|].
    apply list_lookup_singleton_Some in Hi as [_ <-]. cbn. apply not_ack_le.
    unfold resend in Hres. injection Hres as <- _. apply Forall_take. rewrite Hs. apply Hinv.
  - intros i Hi. destruct all_sent; [|done]. injection Hi as <-. eexists. split.
    { rewrite lookup_app_r by done. by rewrite Nat.sub_diag. }
    pose proof (oi_last _ Hinv). split; try done. cbn. intros a [= <-]. cbn.
    rewrite Hl, Hn. split_and!; [done|lia|constructor].
Qed.

Lemma connect_fails_inv sys e login sys' : out_inv sys ->
  connect_fails target e login sys = Some sys' -> out_inv sys'.
Proof.
  intros Hinv. unfold connect_fails. destruct (phase sys) eqn:Hp; [|done|done].
  destruct (registered sys && _); [done|].
  assert (Hgo : forall c p, last_server_seq c = last_server_seq (client sys) -> out c = out (client sys) ->
    err c = err (client sys) -> sent_stdin c = sent_stdin (client sys) ->
    (forall code, p <> Finished (Ok code)) -> (forall i, p <> AttachedTo i) ->
    out_inv (with_client c p (links sys) sys)).
  { intros c p Hl Ho He Hs Hf Hat. apply connecting_update; try done; [apply Hinv|].
    intros i Hi. by destruct (Hat i). }
  destruct (on_connect _ _ _) as [c|c n cfg|d c|e'] eqn:Hon; [done|..]; intros [= <-].
  - destruct (on_connect_keeps (client sys) (Err e) c) as (? & ? & ? & ? & _); [right; right; by eexists _, _|].
    apply Hgo; try done; by destruct login.
  - destruct (on_connect_keeps (client sys) (Err e) c) as (? & ? & ? & ? & _); [right; left; by eexists|].
    by apply Hgo.
  - by apply Hgo.
Qed.

(** ** Every step, every run *)

Lemma sys_step_out_inv sys ev sys' : out_inv sys -> len (hist sys) + 1 < u64_modulus ->
  sys_step target command token sys ev = Some sys' -> out_inv sys'.
Proof.
  intros Hinv Hb. destruct ev; cbn [sys_step].
  - by apply task_runs_inv.
  - destruct (live_end i sys) as [[l a]|] eqn:Hl; [|done]. intros [= <-]. by apply flush_inv.
  - destruct (live_end i sys) as [[l a]|] eqn:Hl; [|done].
    destruct (to_server l) as [|m rest] eqn:Hq; [done|]. intros [= <-]. by apply server_frame_inv.
  - destruct (live_end i sys) as [[l a]|] eqn:Hl; [|done].
    destruct (dup_to_server l !! j) as [m|]; [|done]. intros [= <-]. by apply server_datagram_inv.
  - destruct (live_end i sys) as [[l a]|] eqn:Hl; [|done]. intros [= <-]. by apply server_lost_inv.
  - intros [= <-]. by apply send_input_server.
  - intros [= <-]. by apply send_input_server.
  - by apply hands_over_inv.
  - by apply restarts_inv.
  - intros [= <-]. by apply daemon_lost_inv.
  - destruct (current sys) as [[i l]|] eqn:Hc; [|done]. destruct (stdin_open _); [|done].
    intros [= <-]. by apply client_reads_inv.
  - destruct (current sys) as [[i l]|] eqn:Hc; [|done].
    destruct (to_client l) as [|m rest] eqn:Hq; [done|]. intros [= <-]. by apply client_frame_inv.
  - destruct (current sys) as [[i l]|] eqn:Hc; [|done].
    destruct (dup_to_client l !! j) as [m|] eqn:Hq; [|done]. intros [= <-]. by eapply client_datagram_inv.
  - destruct (current sys) as [[i l]|] eqn:Hc; [|done]. intros [= <-].
    apply client_idle_inv; try done; [apply Hinv|by right].
  - by apply connects_inv.
  - by apply connect_fails_inv.
Qed.

Lemma task_runs_hist sys ev sys' : out_inv sys -> len (hist sys) + 1 < u64_modulus ->
  task_runs ev sys = Some sys' -> len (hist sys') <= len (hist sys) + 1.
Proof.
  intros [(acked & Ht & _) _ _ _ _ _ _ _ _] Hb. unfold task_runs. destruct (status sys); [|done].
  destruct (task_step _ _ ev) as [[[[s t] effs] st]|] eqn:Hstep; [|done]. intros [= <-].
  apply (task_step_log (hist sys) acked) in Hstep as [_ Hlog]; [|done|done].
  apply step_log_facts in Hlog as (_ & _ & Hlen & _). cbn. rewrite len_app. lia.
Qed.

Lemma sys_step_hist sys ev sys' : out_inv sys -> len (hist sys) + 1 < u64_modulus ->
  sys_step target command token sys ev = Some sys' -> len (hist sys') <= len (hist sys) + 1.
Proof.
  intros Hinv Hb. destruct ev; cbn [sys_step]; try by apply task_runs_hist.
  all: unfold hands_over, restarts, connects, connect_fails;
    repeat match goal with
      | |- context [match ?x with _ => _ end] => destruct x
      end; try done; intros [= <-]; cbn; lia.
Qed.

Lemma sys_run_out_inv evs : forall sys sys', out_inv sys -> len (hist sys) + len evs < u64_modulus ->
  sys_run target command token sys evs = Some sys' -> out_inv sys'.
Proof.
  induction evs as [|ev evs IH]; intros sys sys' Hinv Hb; cbn [sys_run]; [by intros [= <-]|].
  rewrite len_cons in Hb. pose proof (len_nonneg evs).
  destruct (sys_step _ _ _ sys ev) as [sys1|] eqn:Hstep; [|done].
  pose proof (sys_step_hist _ _ _ Hinv ltac:(lia) Hstep).
  apply IH; [eapply sys_step_out_inv; [done|lia|done]|lia].
Qed.

Lemma sys_run_hist evs : forall sys sys', out_inv sys -> len (hist sys) + len evs < u64_modulus ->
  sys_run target command token sys evs = Some sys' -> len (hist sys') <= len (hist sys) + len evs.
Proof.
  induction evs as [|ev evs IH]; intros sys sys' Hinv Hb; cbn [sys_run]; [intros [= <-]; change (len []) with 0; lia|].
  rewrite len_cons in *. pose proof (len_nonneg evs).
  destruct (sys_step _ _ _ sys ev) as [sys1|] eqn:Hstep; [|done]. intros Hrun.
  pose proof (sys_step_hist _ _ _ Hinv ltac:(lia) Hstep).
  apply IH in Hrun; [lia|eapply sys_step_out_inv; [done|lia|done]|lia].
Qed.

End ClientSteps.

Lemma sys_start_out_inv token s t now quic : task_inv [] 0 s t ->
  out_inv (sys_start token s t now quic).
Proof.
  intros Ht. split; cbn; try done.
  - by exists 0.
  - by left.
  - intros i l Hi. apply list_lookup_singleton_Some in Hi as [_ <-]. constructor.
  - intros i [= <-]. eexists. split; [done|]. split; try done. cbn. intros a [= <-]. by split_and!.
Qed.
