(* ===== verification/SystemIn.v ===== *)
(** * Input is delivered exactly ([System], client to server)

    The invariant behind the stdin direction: everything the client read is
    either applied by the session task, or still held by the client for
    resending, and what is in flight on any connection never lets the session
    task skip a message. *)

From S2P Require Import Prelude Proto Auth OutboundLog Session Exec Channel Registry Attach Handover.
From S2P Require Import Target RunExec Gapless System SystemOut.

(** ** Data *)

(** The message for the [n]-th read; end of file reads nothing. *)
Definition stdin_msg (n : Z) (data : bytes) : ChannelMessage :=
  match data with [] => StdinEof n | _ => Stdin n data end.

Definition sent_as (ty : list bytes) : list ChannelMessage :=
  imap (fun i data => stdin_msg (Z.of_nat i + 1) data) ty.

Definition in_seq (m : ChannelMessage) : option Z :=
  match m with Stdin n _ | StdinEof n => Some n | _ => None end.

Definition input_key (x : SessionInput) : option Z :=
  match x with Message m => in_seq m | _ => None end.

(** A message of the input stream is the one for the read its number names, or
    an acknowledgement. *)
Definition typed_as (ty : list bytes) (m : ChannelMessage) : Prop :=
  match in_seq m with
  | Some n => 1 <= n /\ exists data, ty !! Z.to_nat (n - 1) = Some data /\ m = stdin_msg n data
  | None => exists n, m = Ack n
  end.

Definition input_ok (ty : list bytes) (x : SessionInput) : Prop :=
  match x with Message m | Datagram m => typed_as ty m | _ => True end.

(** The session task's side. *)
Record task_in (ty : list bytes) (s : Session) (t : Task) : Prop := {
  tn_applied : 0 <= last_client_seq t <= len ty;
  tn_inbound : Forall (input_ok ty) (inbound s);
  tn_gapless : inbound_closed s = false -> gapless input_key (last_client_seq t) (inbound s);
  tn_child : child_stdin t `prefix_of` concat (take (Z.to_nat (last_client_seq t)) ty);
  tn_open : is_Some (stdin t) -> child_stdin t = concat (take (Z.to_nat (last_client_seq t)) ty);
}.

(** How far the task will be once it has handled its queue. *)
Definition pending_pos (s : Session) (t : Task) : Z := reach input_key (last_client_seq t) (inbound s).

(** ** Lemmas on the data *)

Lemma typed_as_grows ty more m : typed_as ty m -> typed_as (ty ++ more) m.
Proof.
  unfold typed_as. destruct (in_seq m); [|done]. intros (H1 & data & Hd & Hm). split; [done|].
  exists data. split; [by apply lookup_app_l_Some|done].
Qed.

Lemma in_seq_stdin_msg n data : in_seq (stdin_msg n data) = Some n.
Proof. by destruct data. Qed.

Lemma sent_as_lookup ty i m : sent_as ty !! i = Some m ->
  exists data, ty !! i = Some data /\ m = stdin_msg (Z.of_nat i + 1) data.
Proof.
  unfold sent_as. rewrite list_lookup_imap. destruct (ty !! i) as [data|]; [|done].
  intros [= <-]. by exists data.
Qed.

Lemma sent_as_length ty : length (sent_as ty) = length ty.
Proof. apply length_imap. Qed.

Lemma sent_as_typed ty m : m ∈ sent_as ty -> typed_as ty m.
Proof.
  intros [i Hi]%list_elem_of_lookup. destruct (sent_as_lookup ty i m Hi) as (data & Hd & ->).
  unfold typed_as. rewrite in_seq_stdin_msg. split; [lia|]. exists data.
  by replace (Z.to_nat (Z.of_nat i + 1 - 1)) with i by lia.
Qed.

Lemma sent_as_consecutive ty : consecutive in_seq 0 (sent_as ty).
Proof.
  intros i m Hi. destruct (sent_as_lookup ty i m Hi) as (data & _ & ->).
  rewrite in_seq_stdin_msg. f_equal; lia.
Qed.

Lemma sent_as_snoc ty data : sent_as (ty ++ [data]) = sent_as ty ++ [stdin_msg (len ty + 1) data].
Proof. unfold sent_as. rewrite imap_app. cbn. unfold len. by rewrite Nat.add_0_r. Qed.

(** Acknowledged messages are a prefix of what was sent. *)
Lemma filter_acked n q : forall p, consecutive in_seq p q ->
  filter (fun m => acked_by n m = false) q = drop (Z.to_nat (Z.min (n - p) (len q))) q.
Proof.
  induction q as [|m q IH]; intros p; [intros _; by destruct (Z.to_nat _)|].
  intros [Hm Hq]%consecutive_cons. rewrite filter_cons.
  assert (Ha : acked_by n m = (p + 1 <=? n)) by (destruct m; cbn in Hm; try discriminate; injection Hm as ->; done).
  rewrite Ha, (IH (p + 1) Hq), len_cons. pose proof (len_nonneg q).
  destruct (decide ((p + 1 <=? n) = false)) as [Hd|Hd]; [apply Z.leb_gt in Hd|apply not_false_iff_true, Z.leb_le in Hd].
  - replace (Z.to_nat (Z.min (n - (p + 1)) (len q))) with 0%nat by lia.
    replace (Z.to_nat (Z.min (n - p) (len q + 1))) with 0%nat by lia. done.
  - replace (Z.to_nat (Z.min (n - p) (len q + 1))) with (S (Z.to_nat (Z.min (n - (p + 1)) (len q)))) by lia.
    done.
Qed.

Lemma take_typed (ty : list bytes) k data : ty !! k = Some data ->
  concat (take (S k) ty) = concat (take k ty) ++ data.
Proof. intros Hk. rewrite (take_S_r _ _ _ Hk), concat_app. cbn. by rewrite app_nil_r. Qed.

Lemma take_typed_prefix (ty : list bytes) k j : (k <= j)%nat -> concat (take k ty) `prefix_of` concat (take j ty).
Proof.
  intros Hk. replace j with (k + (j - k))%nat by lia. rewrite <- take_take_drop, concat_app.
  by apply prefix_app_r.
Qed.

(** ** The session task *)

(** Nothing about stdin changed, except that the task may be gone. *)
Definition same_stdin (s : Session) (t : Task) (s' : Session) (t' : Task) : Prop :=
  last_client_seq t' = last_client_seq t /\ child_stdin t' = child_stdin t /\ stdin t' = stdin t /\
  inbound s' = inbound s /\ (inbound_closed s' = false -> inbound_closed s = false).

Lemma same_stdin_trans s t s1 t1 s2 t2 :
  same_stdin s t s1 t1 -> same_stdin s1 t1 s2 t2 -> same_stdin s t s2 t2.
Proof.
  intros (H1 & H2 & H3 & H4 & H5) (K1 & K2 & K3 & K4 & K5).
  split_and!; [congruence|congruence|congruence|congruence|auto].
Qed.

Lemma same_stdin_task_in ty s t s' t' : same_stdin s t s' t' -> task_in ty s t ->
  task_in ty s' t' /\ pending_pos s' t' = pending_pos s t.
Proof.
  intros (H1 & H2 & H3 & H4 & H5) []. unfold pending_pos. rewrite H1, H4. split; [|done].
  split; rewrite ?H1, ?H2, ?H3, ?H4; auto.
Qed.

Lemma finish_same s t s' t' effs st : finish s t = (s', t', effs, st) -> same_stdin s t s' t'.
Proof.
  unfold finish. destruct (exit_code t); [|by intros [= <- <- <- <-]].
  destruct (negb _ && negb _); by intros [= <- <- <- <-].
Qed.

Lemma pump_same mk o e s t r s' t' effs : pump mk (with_open o e t) s t r = (s', t', effs) ->
  same_stdin s t s' t'.
Proof. destruct r as [[|b r]|]; cbn [pump]; by intros [= <- <- <-]. Qed.

Lemma read_exit_same s t r : same_stdin s t s (read_exit t r).1.
Proof.
  unfold read_exit. cbn [fst]. destruct r as [[|b r]|]; [done| |done].
  by destruct (existsb _ _).
Qed.

(** Applying the next read. *)
Lemma apply_read ty s t rest n data w : task_in ty s t -> gapless input_key n rest ->
  Forall (input_ok ty) rest -> n = last_client_seq t + 1 -> typed_as ty (Stdin n data) ->
  task_in ty (with_stdin_applied n (with_inbound rest s)) (with_client_seq n (write_stdin data w t)).
Proof.
  intros [Ha _ _ Hp Ho] Hg Hr -> Hty. unfold typed_as in Hty. cbn in Hty.
  destruct Hty as (_ & d & Hd & Hm).
  replace (Z.to_nat (last_client_seq t + 1 - 1)) with (Z.to_nat (last_client_seq t)) in Hd by lia.
  assert (d = data) as -> by (by destruct d; [|injection Hm]).
  pose proof (lookup_lt_Some _ _ _ Hd) as Hlt.
  pose proof (take_typed _ _ _ Hd) as Ht.
  replace (S (Z.to_nat (last_client_seq t))) with (Z.to_nat (last_client_seq t + 1)) in Ht by lia.
  split; cbn -[Z.to_nat]; [unfold len; lia|done|done| |]; rewrite Ht; unfold write_stdin.
  - destruct (stdin t) eqn:Hs; [destruct w|]; cbn.
    + rewrite Ho by done. done.
    + rewrite Ho by done. apply prefix_app, prefix_take.
    + etrans; [exact Hp|]. by apply prefix_app_r.
  - destruct (stdin t) eqn:Hs; [destruct w|]; cbn; [|by intros [? ?]|rewrite Hs; by intros [? ?]].
    rewrite Ho by done. done.
Qed.

Lemma apply_eof ty s t rest n : task_in ty s t -> gapless input_key n rest ->
  Forall (input_ok ty) rest -> n = last_client_seq t + 1 -> typed_as ty (StdinEof n) ->
  task_in ty (with_stdin_applied n (with_inbound rest s))
    (with_client_seq n (with_stdin None (child_stdin t) t)).
Proof.
  intros [Ha _ _ Hp Ho] Hg Hr -> (_ & d & Hd & _).
  replace (Z.to_nat (last_client_seq t + 1 - 1)) with (Z.to_nat (last_client_seq t)) in Hd by lia.
  pose proof (lookup_lt_Some _ _ _ Hd) as Hlt.
  split; cbn -[Z.to_nat]; [unfold len; lia|done|done| |by intros [? ?]].
  etrans; [exact Hp|]. apply take_typed_prefix. lia.
Qed.

Lemma task_in_pop ty s t x rest : task_in ty s t -> inbound s = x :: rest ->
  (forall n, input_key x = Some n -> n <= last_client_seq t) ->
  task_in ty (with_inbound rest s) t /\ pending_pos (with_inbound rest s) t = pending_pos s t.
Proof.
  intros [Ha Hi Hg Hp Ho] Hq Hx. rewrite Hq in Hi, Hg.
  assert (Hadv : advance input_key (last_client_seq t) x = last_client_seq t).
  { unfold advance. destruct (input_key x) as [n|]; [|done]. specialize (Hx n eq_refl). lia. }
  split; [|unfold pending_pos; rewrite Hq; cbn; by rewrite Hadv].
  inversion Hi; subst. split; [done|done| |done|done].
  intros Hc. destruct (Hg Hc) as [_ Hr]. by rewrite Hadv in Hr.
Qed.

(** The task keeps exactly what it was sent, and never moves back. *)
Record task_moves (ty : list bytes) (s : Session) (t : Task) (s' : Session) (t' : Task) : Prop := {
  tm_in : task_in ty s' t';
  tm_last : last_client_seq t <= last_client_seq t';
  tm_pos : pending_pos s t <= pending_pos s' t';
}.

Lemma moves_applied ty s t rest n s1 t1 x : inbound s = x :: rest -> input_key x = Some n \/ input_key x = None ->
  last_client_seq t < n -> task_in ty s1 t1 -> inbound s1 = rest -> last_client_seq t1 = n ->
  task_moves ty s t s1 t1.
Proof.
  intros Hq Hx Hn H1 Hi Hl. split; [done|lia|]. unfold pending_pos. rewrite Hq, Hi, Hl. cbn.
  apply (reach_mono input_key). unfold advance. destruct Hx as [->| ->]; lia.
Qed.

Lemma moves_skipped ty s t x rest s1 : task_in ty s t -> inbound s = x :: rest ->
  (forall n, input_key x = Some n -> n <= last_client_seq t) -> s1 = with_inbound rest s ->
  task_moves ty s t s1 t.
Proof.
  intros Hin Hq Hx ->. destruct (task_in_pop ty s t x rest Hin Hq Hx) as [H1 H2].
  split; [done|lia|]. by rewrite H2.
Qed.

Lemma handle_input_in ty s t x rest w reclaim s' t' effs st :
  task_in ty s t -> inbound_closed s = false -> len ty + 1 < u64_modulus -> inbound s = x :: rest ->
  handle_input x w reclaim (with_inbound rest s) t = (s', t', effs, st) ->
  task_moves ty s t s' t' /\ inbound_closed s' = inbound_closed s.
Proof.
  intros Hin Hc Hb Hq Hh. pose proof Hin as [Ha Hi Hg _ _]. specialize (Hg Hc). rewrite Hq in Hi, Hg.
  inversion Hi as [|? ? Hx Hrest]; subst.
  assert (Hskip : (forall n, input_key x = Some n -> n <= last_client_seq t) ->
    forall e r, (with_inbound rest s, t, e, r) = (s', t', effs, st) ->
    task_moves ty s t s' t' /\ inbound_closed s' = inbound_closed s).
  { intros Hk e r [= <- <- _ _]. split; [|done]. by eapply moves_skipped. }
  destruct x as [m|m| |]; [| |by apply (Hskip (fun n (H : None = Some n) => ltac:(discriminate H)) _ _ Hh)..].
  - destruct Hg as [Hm Hg]. unfold advance in Hg.
    destruct m as [| |n data|n| | | | | | |]; cbn [handle_input input_key in_seq] in *;
      try (eapply Hskip; [|exact Hh]; by intros ?).
    + destruct (Z.ltb_spec (last_client_seq t) n); cbn in Hh;
        [|eapply Hskip; [|exact Hh]; intros ? [= <-]; lia].
      injection Hh as <- <- _ _. split; [|done].
      eapply (moves_applied _ _ _ rest n); [done|by left|lia| |done|done].
      apply apply_read; [done| |done|lia|done]. by replace (last_client_seq t `max` n) with n in Hg by lia.
    + destruct (Z.ltb_spec (last_client_seq t) n); cbn in Hh;
        [|eapply Hskip; [|exact Hh]; intros ? [= <-]; lia].
      injection Hh as <- <- _ _. split; [|done].
      eapply (moves_applied _ _ _ rest n); [done|by left|lia| |done|done].
      apply apply_eof; [done| |done|lia|done]. by replace (last_client_seq t `max` n) with n in Hg by lia.
  - destruct Hg as [_ Hg]. change (gapless input_key (last_client_seq t) rest) in Hg.
    destruct m as [| |n data|n| | | | | | |]; cbn [handle_input] in Hh;
      try (eapply Hskip; [|exact Hh]; by intros ?).
    destruct (Z.eqb_spec n (add_u64 (last_client_seq t) 1)) as [Hn|]; cbn in Hh;
      [|eapply Hskip; [|exact Hh]; by intros ?].
    rewrite add_u64_small in Hn by (unfold is_u64; lia).
    injection Hh as <- <- _ _. split; [|done].
    eapply (moves_applied _ _ _ rest n); [done|by right|lia| |done|done].
    apply apply_read; [done| |done|lia|done]. eapply gapless_mono; [|exact Hg]. lia.
Qed.

Lemma task_step_in ty s t ev s' t' effs st : task_in ty s t -> inbound_closed s = false ->
  len ty + 1 < u64_modulus -> task_step s t ev = Some (s', t', effs, st) ->
  task_moves ty s t s' t' /\ (st = Running -> inbound_closed s' = false).
Proof.
  intros Hin Hc Hb. unfold task_step.
  assert (Hfin : forall s1 t1 effs1, task_moves ty s t s1 t1 -> inbound_closed s1 = false ->
    (let '(s, t, effs', status) := finish s1 t1 in Some (s, t, effs1 ++ effs', status)) =
      Some (s', t', effs, st) ->
    task_moves ty s t s' t' /\ (st = Running -> inbound_closed s' = false)).
  { intros s1 t1 effs1 [H1 H2 H3] Hc1. destruct (finish s1 t1) as [[[s2 t2] effs2] st2] eqn:Hf.
    intros [= <- <- _ <-]. pose proof (finish_same _ _ _ _ _ _ Hf) as Hsame.
    destruct (same_stdin_task_in ty _ _ _ _ Hsame H1) as [H4 H5].
    split; [split; [done|destruct Hsame as (-> & _); lia|lia]|].
    intros ->. revert Hf. unfold finish. destruct (exit_code t1); [|by intros [= <- <- <-]].
    destruct (negb _ && negb _); by intros [= <- <- <-]. }
  assert (Hsame : forall s1 t1 effs1, same_stdin s t s1 t1 -> inbound_closed s1 = inbound_closed s ->
    (let '(s, t, effs', status) := finish s1 t1 in Some (s, t, effs1 ++ effs', status)) =
      Some (s', t', effs, st) ->
    task_moves ty s t s' t' /\ (st = Running -> inbound_closed s' = false)).
  { intros s1 t1 effs1 Hs Hc1. apply Hfin; [|congruence].
    destruct (same_stdin_task_in ty _ _ _ _ Hs Hin) as [H4 H5].
    split; [done|destruct Hs as (-> & _); lia|lia]. }
  destruct ev as [r|r|r|w reclaim|]; cbn [select].
  - destruct (stdout_open t); [|done]. destruct (pump _ _ s t r) as [[s1 t1] effs1] eqn:Hp.
    apply Hsame; [by eapply pump_same|]. revert Hp. destruct r as [[|b r]|]; by intros [= <- _ _].
  - destruct (stderr_open t); [|done]. destruct (pump _ _ s t r) as [[s1 t1] effs1] eqn:Hp.
    apply Hsame; [by eapply pump_same|]. revert Hp. destruct r as [[|b r]|]; by intros [= <- _ _].
  - case_bool_decide; [|done]. pose proof (read_exit_same s t r) as Hr.
    destruct (read_exit t r) as [t1 effs1]. by apply Hsame.
  - destruct (inbound s) as [|x rest] eqn:Hq; [done|].
    destruct (handle_input _ _ _ _ _) as [[[s1 t1] effs1] st1] eqn:Hh.
    destruct (handle_input_in ty s t x rest w reclaim _ _ _ _ Hin Hc Hb Hq Hh) as [Hm Hc1].
    destruct st1; [by apply Hfin; [|congruence]|]. intros [= <- <- _ <-]. split; [|done].
    destruct Hm as [[] ? ?]. split; [by split|done|done].
  - destruct (inbound s) eqn:Hq; [|done]. intros [= <- <- _ <-]. split; [|done].
    split; [|done|done]. destruct Hin. by split.
Qed.

(** ** The invariant *)

(** A connection, seen by a session task that will reach [pos]. *)
Record link_in (ty : list bytes) (s : Session) (pos : Z) (l : Link) : Prop := {
  ln_typed : Forall (typed_as ty) (to_server l);
  ln_dup : Forall (typed_as ty) (dup_to_server l);
  ln_gapless : inbound_closed s = false -> is_Some (server_end l) -> gapless in_seq pos (to_server l);
}.

(** On the current connection everything read so far is on its way, and only
    applied reads are acknowledged. *)
Record link_cur (ty : list bytes) (s : Session) (t : Task) (l : Link) : Prop := {
  lc_reach : inbound_closed s = false -> is_Some (server_end l) ->
    len ty <= reach in_seq (pending_pos s t) (to_server l);
  lc_acks : Forall (ack_le (last_client_seq t)) (to_client l);
}.

Record in_inv (sys : System) : Prop := {
  ii_task : task_in (typed sys) (session sys) (task sys);
  ii_running : status sys = Running -> inbound_closed (session sys) = false;
  ii_seq : client_seq (client sys) = len (typed sys);
  ii_sent : exists a, 0 <= a <= last_client_seq (task sys) /\
    sent_stdin (client sys) = drop (Z.to_nat a) (sent_as (typed sys));
  ii_links : forall i l, links sys !! i = Some l ->
    link_in (typed sys) (session sys) (pending_pos (session sys) (task sys)) l;
  ii_current : forall i l, phase sys = AttachedTo i -> links sys !! i = Some l ->
    link_cur (typed sys) (session sys) (task sys) l;
}.

(** A later state of the session: further on, or closed. *)
Record later (s : Session) (t : Task) (s' : Session) (t' : Task) : Prop := {
  lt_last : last_client_seq t <= last_client_seq t';
  lt_open : inbound_closed s' = false -> inbound_closed s = false /\ pending_pos s t <= pending_pos s' t';
}.

Lemma link_in_later ty s t s' t' l : later s t s' t' -> link_in ty s (pending_pos s t) l ->
  link_in ty s' (pending_pos s' t') l.
Proof.
  intros [_ Ho] [H1 H2 H3]. split; [done|done|]. intros Hc He. destruct (Ho Hc) as [Hc' Hp].
  eapply gapless_mono; [exact Hp|auto].
Qed.

Lemma link_cur_later ty s t s' t' l : later s t s' t' -> link_cur ty s t l -> link_cur ty s' t' l.
Proof.
  intros [Hl Ho] [H1 H2]. split; [|by eapply ack_le_mono].
  intros Hc He. destruct (Ho Hc) as [Hc' Hp]. etrans; [by apply H1|by apply reach_mono].
Qed.

(** ** The server's steps *)

(** The session moved on and connection [i] was replaced. *)
Lemma server_update_in sys s t ls sys' : in_inv sys -> later (session sys) (task sys) s t ->
  task_in (typed sys) s t -> (status sys' = Running -> inbound_closed s = false) ->
  session sys' = s -> task sys' = t -> links sys' = ls -> typed sys' = typed sys ->
  client sys' = client sys -> phase sys' = phase sys ->
  (forall i l', ls !! i = Some l' -> exists l, links sys !! i = Some l /\
     (link_in (typed sys) s (pending_pos s t) l -> link_in (typed sys) s (pending_pos s t) l') /\
     (link_cur (typed sys) s t l -> link_cur (typed sys) s t l')) ->
  in_inv sys'.
Proof.
  intros [H1 H2 H3 (a & Ha & Hs) H5 H6] Hlater Hin Hrun Es Et El Ety Ec Ep Hls.
  split; rewrite ?Es, ?Et, ?El, ?Ety, ?Ec, ?Ep; try done.
  - exists a. split; [|done]. destruct Hlater. lia.
  - intros i l' Hi. destruct (Hls i l' Hi) as (l & Hl & Hk & _). apply Hk.
    eapply link_in_later; [done|by eapply H5].
  - intros i l' Hp Hi. destruct (Hls i l' Hi) as (l & Hl & _ & Hk). apply Hk.
    eapply link_cur_later; [done|by eapply H6].
Qed.

Lemma update_links (ls : list Link) i l l' (P : Link -> Link -> Prop) :
  ls !! i = Some l -> P l l' -> (forall k, P k k) ->
  forall j k', <[i := l']> ls !! j = Some k' -> exists k, ls !! j = Some k /\ P k k'.
Proof.
  intros Hi Hl Hrefl j k' Hj. apply list_lookup_insert_Some in Hj as [(<- & <- & _)|[_ Hj]].
  - by exists l.
  - exists k'. split; [done|apply Hrefl].
Qed.

Lemma later_refl s t : later s t s t.
Proof. by split. Qed.

Lemma later_same s t s' : inbound s' = inbound s -> inbound_closed s' = inbound_closed s -> later s t s' t.
Proof. intros Hi Hc. split; [lia|]. unfold pending_pos. rewrite Hi, Hc. split; [done|lia]. Qed.

Lemma task_in_same ty s t s' : inbound s' = inbound s -> inbound_closed s' = inbound_closed s ->
  task_in ty s t -> task_in ty s' t.
Proof. intros Hi Hc []. split; rewrite ?Hi, ?Hc; done. Qed.

(** Queueing an input at the task. *)
Lemma send_input_in ty s t x : task_in ty s t -> input_ok ty x ->
  (inbound_closed s = false -> forall n, input_key x = Some n -> n <= pending_pos s t + 1) ->
  let s' := (send_input x s).1 in
  task_in ty s' t /\ later s t s' t /\ inbound_closed s' = inbound_closed s /\
  (inbound_closed s = false -> pending_pos s' t = advance input_key (pending_pos s t) x).
Proof.
  intros Hin Hx Hn. unfold send_input. destruct (inbound_closed s) eqn:Hc; cbn [fst].
  { split_and!; [done|apply later_refl|by rewrite Hc|done]. }
  assert (Hp : pending_pos (with_inbound (inbound s ++ [x]) s) t = advance input_key (pending_pos s t) x).
  { unfold pending_pos. cbn [inbound with_inbound]. by rewrite reach_app. }
  split_and!; [| |done|done].
  - destruct Hin as [Ha Hi Hg Hch Ho]. split; [done|apply Forall_app; split; [done|by constructor]| |done|done].
    intros _. cbn -[gapless]. apply gapless_app. split; [by apply Hg|]. split; [|done].
    destruct (input_key x) as [n|] eqn:Hk; [|done]. by apply Hn.
  - split; [lia|]. intros _. split; [done|]. rewrite Hp. apply advance_ge.
Qed.

Lemma flush_in sys i ok_until l a : out_inv sys -> in_inv sys -> live_end i sys = Some (l, a) ->
  in_inv (with_session (session sys) (registered sys)
    (<[i := flush_link (session sys) ok_until a l]> (links sys)) sys).
Proof.
  intros Hout Hinv [Hi Hend]%live_end_Some.
  assert (Happ : stdin_applied (session sys) = last_client_seq (task sys)).
  { destruct (oi_task _ Hout) as (? & Ht & _). apply Ht. }
  assert (Hist : Forall (ack_le (last_client_seq (task sys))) (OutboundLog.after (log (session sys)) (sent_up_to a))).
  { destruct (oi_task _ Hout) as (acked & [Hr _ Hn _] & _).
    assert (Hall : Forall (ack_le (last_client_seq (task sys))) (OutboundLog.buffer (OutboundLog.entries (log (session sys))))).
    { rewrite (OutboundLog.rep_buffer _ _ _ Hr). apply Forall_drop, Forall_lookup. intros k m Hk.
      specialize (Hn k m Hk). by destruct m. }
    unfold OutboundLog.after. by apply Forall_drop. }
  pose proof Hinv as [H1 H2 _ _ _ _].
  eapply server_update_in; [done|apply later_refl|done|done|done..|].
  apply (update_links _ _ l); [done| |by auto]. unfold flush_link.
  destruct (flush (session sys) a) as [ms a'] eqn:Hf.
  assert (Hms : Forall (ack_le (last_client_seq (task sys))) ms).
  { unfold flush in Hf. destruct (_ <? _); injection Hf as <- _; [|done].
    apply Forall_app. split; [done|]. constructor; [cbn; lia|constructor]. }
  split; intros [L1 L2]; destruct ok_until as [k|]; cbn; split; cbn; try done;
    try (by intros _ [? ?]); try (intros Hc _; by eauto);
    apply Forall_app; split; try done; by apply Forall_take.
Qed.

Section ServerSteps.
Context `{TL : TransportLib} `{WL : WireLib} `{HL : HttpLib}.

(** The reaction to an acknowledgement, or to an event that sends [x] on. *)
Lemma reacted_in sys i l a rest (r : Reaction) : in_inv sys -> live_end i sys = Some (l, a) ->
  task_in (typed sys) (r_session r) (task sys) ->
  later (session sys) (task sys) (r_session r) (task sys) ->
  inbound_closed (r_session r) = inbound_closed (session sys) ->
  (Forall (typed_as (typed sys)) (to_server l) -> Forall (typed_as (typed sys)) rest) ->
  (inbound_closed (session sys) = false ->
   let pos := pending_pos (session sys) (task sys) in
   let pos' := pending_pos (r_session r) (task sys) in
   gapless in_seq pos (to_server l) ->
   gapless in_seq pos' rest /\ reach in_seq pos (to_server l) <= reach in_seq pos' rest) ->
  in_inv (reacted i rest l r sys).
Proof.
  intros Hinv [Hi Hend]%live_end_Some Hin Hlater Hclosed Hty Hflow. destruct Hinv as [H1 H2 H3 H4 H5 H6].
  pose proof (H5 i l Hi) as [L1 L2 L3].
  split; cbn; try done.
  - intros Hr. rewrite Hclosed. by apply H2.
  - intros j l' Hj. apply list_lookup_insert_Some in Hj as [(<- & <- & _)|[_ Hj]].
    + split; cbn; [by apply Hty|done|]. intros Hc _. rewrite Hclosed in Hc.
      apply (Hflow Hc), L3; [done|by rewrite Hend].
    + eapply link_in_later; [done|by eapply H5].
  - intros j l' Hp Hj. apply list_lookup_insert_Some in Hj as [(<- & <- & _)|[_ Hj]].
    + destruct (H6 i l Hp Hi) as [C1 C2]. split; cbn; [|done]. intros Hc _. rewrite Hclosed in Hc.
      assert (He : is_Some (server_end l)) by (by rewrite Hend).
      etrans; [by apply C1|]. apply (Hflow Hc), L3; done.
    + eapply link_cur_later; [done|by eapply H6].
Qed.

Lemma gapless_pop_unkeyed pos (m : ChannelMessage) rest : in_seq m = None -> gapless in_seq pos (m :: rest) ->
  gapless in_seq pos rest /\ reach in_seq pos (m :: rest) <= reach in_seq pos rest.
Proof.
  intros Hm [_ Hg]. unfold advance in Hg. rewrite Hm in Hg. split; [done|].
  cbn. unfold advance at 2. rewrite Hm. reflexivity.
Qed.

Lemma server_frame_in sys i l a m rest : in_inv sys -> live_end i sys = Some (l, a) ->
  to_server l = m :: rest ->
  in_inv (reacted i rest l (Attach.on_message (session sys) a m) sys).
Proof.
  intros Hinv Hl Hq. pose proof Hinv as [Hin _ _ _ Hls _].
  pose proof (live_end_Some _ _ _ _ Hl) as [Hi Hend]. destruct (Hls i l Hi) as [L1 L2 L3].
  assert (Hm : typed_as (typed sys) m) by (rewrite Hq in L1; by inversion L1).
  assert (Hrest : Forall (typed_as (typed sys)) (to_server l) -> Forall (typed_as (typed sys)) rest).
  { rewrite Hq. by inversion 1. }
  destruct (on_message_session (session sys) a m) as [Hra Hrs].
  destruct (in_seq m) as [n|] eqn:Hseq.
  - assert (Hrs' : r_session (Attach.on_message (session sys) a m) = (send_input (Message m) (session sys)).1).
    { rewrite Hrs. by destruct m. }
    destruct (send_input_in (typed sys) (session sys) (task sys) (Message m) Hin Hm) as (H1 & H2 & H3 & H4).
    { intros Hc k Hk. cbn in Hk. specialize (L3 Hc ltac:(by rewrite Hend)). rewrite Hq in L3.
      destruct L3 as [L3 _]. rewrite Hk in L3. done. }
    apply (reacted_in _ _ _ a); rewrite ?Hrs'; try done.
    intros Hc pos pos'. subst pos pos'. rewrite (H4 Hc), Hq. intros [_ Hg]. by split.
  - unfold typed_as in Hm. rewrite Hseq in Hm. destruct Hm as [n ->]. cbn [r_session] in *.
    apply (reacted_in _ _ _ a); rewrite ?Hrs; try done.
    + by apply (task_in_same _ (session sys)).
    + intros Hc pos pos'. rewrite Hq. by apply gapless_pop_unkeyed.
Qed.

Lemma reacted_input sys i l a x (r : Reaction) : in_inv sys -> live_end i sys = Some (l, a) ->
  input_ok (typed sys) x -> input_key x = None ->
  r_session r = session sys \/ r_session r = (send_input x (session sys)).1 ->
  in_inv (reacted i (to_server l) l r sys).
Proof.
  intros Hinv Hl Hx Hk Hr. pose proof Hinv as [Hin _ _ _ _ _].
  assert (Hstay : forall pos pos', pos = pos' -> gapless in_seq pos (to_server l) ->
    gapless in_seq pos' (to_server l) /\ reach in_seq pos (to_server l) <= reach in_seq pos' (to_server l)).
  { intros pos pos' -> Hg. split; [done|lia]. }
  destruct Hr as [Hr|Hr].
  - apply (reacted_in _ _ _ a); rewrite ?Hr; done.
  - destruct (send_input_in (typed sys) (session sys) (task sys) x Hin Hx) as (H1 & H2 & H3 & H4).
    { intros _ n. by rewrite Hk. }
    apply (reacted_in _ _ _ a); rewrite ?Hr; try done.
    intros Hc pos pos'. apply Hstay. subst pos pos'. rewrite (H4 Hc). unfold advance. by rewrite Hk.
Qed.

Lemma server_datagram_in sys i l a j m : in_inv sys -> live_end i sys = Some (l, a) ->
  dup_to_server l !! j = Some m ->
  in_inv (reacted i (to_server l) l (on_datagram (session sys) a m) sys).
Proof.
  intros Hinv Hl Hj. eapply (reacted_input _ _ _ _ (Datagram m)); [done|done| |done|by right].
  destruct (ii_links _ Hinv i l (proj1 (live_end_Some _ _ _ _ Hl))) as [_ L2 _].
  rewrite Forall_lookup in L2. by apply (L2 j).
Qed.

Lemma server_lost_in sys i l a : in_inv sys -> live_end i sys = Some (l, a) ->
  in_inv (reacted i (to_server l) l (lost (session sys) a (Ok tt)) sys).
Proof.
  intros Hinv Hl. eapply (reacted_input _ _ _ _ Abort); [done|done|done|done|].
  destruct (lost_session (session sys) a (Ok tt)) as [_ ->]. destruct (resumable _); [by left|by right].
Qed.

End ServerSteps.

(** ** The task's steps and the restart *)

Lemma task_runs_in sys ev sys' : in_inv sys -> len (typed sys) + 1 < u64_modulus ->
  task_runs ev sys = Some sys' -> in_inv sys'.
Proof.
  intros Hinv Hb. pose proof Hinv as [Hin Hrun _ _ _ _]. unfold task_runs.
  destruct (status sys) eqn:Hst; [|done]. specialize (Hrun eq_refl).
  destruct (task_step _ _ ev) as [[[[s t] effs] st]|] eqn:Hstep; [|done]. intros [= <-].
  destruct (task_step_in _ _ _ _ _ _ _ _ Hin Hrun Hb Hstep) as [[H1 H2 H3] H4].
  eapply (server_update_in sys s t); [done|split; [done|by split]|done|done|done..|].
  intros i l' Hi. by exists l'.
Qed.

(** A stdin pipe is restored only if the old task still had one. *)
Lemma restored_stdin is_pipe reclaim s t :
  is_Some (sender is_pipe ((list_to_map (fds (handover_reply reclaim s t)) : gmap string Receiver)
             !! "stdin"%string)) -> is_Some (stdin t).
Proof.
  destruct (list_to_map _ !! _) as [r|] eqn:Hr; [|by intros [? ?]]. intros _.
  apply elem_of_list_to_map_2 in Hr. cbn in Hr. unfold reclaim_fds in Hr.
  destruct (stdin t) as [fd|]; [by eexists|exfalso]. cbn in Hr. revert Hr.
  destruct (stdout_open t && reclaim "stdout"%string), (stderr_open t && reclaim "stderr"%string),
    (bool_decide (exit_code t = None) && reclaim "exit"%string); cbn;
    rewrite ?elem_of_cons, ?elem_of_nil; naive_solver.
Qed.

Lemma restarts_in sys is_pipe hub now sys' : out_inv sys -> in_inv sys ->
  restarts is_pipe hub now sys = Some sys' -> in_inv sys'.
Proof.
  intros Hout [Hin _ H3 H4 H5 H6]. unfold restarts. destruct (handed sys) as [h|] eqn:Hh; [|done].
  destruct (registered sys); [done|]. destruct (oi_handed _ Hout h Hh) as (_ & _ & s0 & acked & reclaim & -> & Ht & _).
  destruct (restore_one _ _ _ _ _ _) as [[s t]|] eqn:Hr; [|done]. intros [= <-].
  destruct (restore_one_keeps _ _ _ _ _ _ _ _ (hist sys) acked _ _ _ Ht Hr)
    as (_ & Hi & Hc & _ & Hl & Hch & Hs & _).
  destruct Hin as [Ha _ _ Hp Ho].
  split; cbn; try done.
  - split; rewrite ?Hl, ?Hi, ?Hch, ?Hs; try done. intros Hsome%restored_stdin. by apply Ho.
  - by rewrite Hl.
  - intros i l. change (map kill (links sys)) with (kill <$> links sys). rewrite list_lookup_fmap.
    destruct (links sys !! i) as [l0|] eqn:Hl0; [|done]. intros [= <-].
    destruct (H5 i l0 Hl0) as [L1 L2 _]. split; [done|done|]. by intros _ [? ?].
  - intros i l Hph. change (map kill (links sys)) with (kill <$> links sys). rewrite list_lookup_fmap.
    destruct (links sys !! i) as [l0|] eqn:Hl0; [|done]. intros [= <-].
    destruct (H6 i l0 Hph Hl0) as [_ L2]. split; [by intros _ [? ?]|]. by rewrite Hl.
Qed.

Lemma hands_over_in sys sys' : in_inv sys -> hands_over sys = Some sys' -> in_inv sys'.
Proof. intros Hinv. unfold hands_over. destruct (handed sys) eqn:Hh; [|done]. intros [= <-]. by destruct Hinv. Qed.

Lemma daemon_lost_in sys : in_inv sys -> in_inv (daemon_lost sys).
Proof.
  intros [[Ha Hi _ Hp Ho] _ H3 H4 H5 H6]. split; cbn; try done.
  - intros i l. change (map kill (links sys)) with (kill <$> links sys). rewrite list_lookup_fmap.
    destruct (links sys !! i) as [l0|] eqn:Hl0; [|done]. intros [= <-].
    by destruct (H5 i l0 Hl0) as [L1 L2 _].
  - intros i l Hph. change (map kill (links sys)) with (kill <$> links sys). rewrite list_lookup_fmap.
    destruct (links sys !! i) as [l0|] eqn:Hl0; [|done]. intros [= <-].
    by destruct (H6 i l0 Hph Hl0) as [_ L2].
Qed.

(** ** The client's steps *)

Lemma gapless_snoc_unkeyed pos (q k : list ChannelMessage) : Forall (fun m => in_seq m = None) k ->
  gapless in_seq pos q -> gapless in_seq pos (q ++ k) /\ reach in_seq pos (q ++ k) = reach in_seq pos q.
Proof.
  intros Hk Hq. rewrite gapless_app, reach_app. rewrite (reach_unkeyed in_seq _ k Hk).
  split; [split; [done|by apply gapless_unkeyed]|done].
Qed.

(** The client only acknowledged, or forgot acknowledged reads. *)
Lemma client_did_in sys i l l1 a : in_inv sys -> current sys = Some (i, l) ->
  server_end l1 = server_end l -> to_server l1 = to_server l -> dup_to_server l1 = dup_to_server l ->
  (Forall (ack_le (last_client_seq (task sys))) (to_client l) ->
   Forall (ack_le (last_client_seq (task sys))) (to_client l1)) ->
  client_seq (a_client a) = client_seq (client sys) ->
  (forall k, 0 <= k <= last_client_seq (task sys) ->
     sent_stdin (client sys) = drop (Z.to_nat k) (sent_as (typed sys)) ->
     exists k', 0 <= k' <= last_client_seq (task sys) /\
       sent_stdin (a_client a) = drop (Z.to_nat k') (sent_as (typed sys))) ->
  Forall (fun m => exists n, m = Ack n) (a_sent a) -> a_dup a = [] ->
  in_inv (client_did i l1 a sys).
Proof.
  intros [H1 H2 H3 (k & Hk & Hs) H5 H6] [Hp Hi]%current_Some E1 E2 E3 Hcl Hcs Hsent Hacks Hdup.
  assert (Hun : Forall (fun m => in_seq m = None) (a_sent a)).
  { eapply Forall_impl; [exact Hacks|]. by intros m [n ->]. }
  assert (Hty : Forall (typed_as (typed sys)) (a_sent a)).
  { eapply Forall_impl; [exact Hacks|]. intros m [n ->]. by exists n. }
  destruct (H5 i l Hi) as [L1 L2 L3]. destruct (H6 i l Hp Hi) as [C1 C2].
  split; cbn; try done.
  - congruence.
  - by apply (Hsent k).
  - intros j l' Hj. apply list_lookup_insert_Some in Hj as [(<- & <- & _)|[_ Hj]]; [|by eapply H5].
    rewrite E1, E2, E3, Hdup. split; cbn; [by apply Forall_app| |].
    + unfold duplicates. destruct (over_quic l1); cbn; by rewrite app_nil_r.
    + intros Hc He. by apply gapless_snoc_unkeyed; [|apply L3].
  - intros j l' [_ ->]%phase_after_attached Hj.
    apply list_lookup_insert_Some in Hj as [(_ & <- & _)|[? _]]; [|done].
    rewrite E1, E2. split; cbn -[reach]; [|by apply Hcl]. intros Hc He.
    rewrite reach_app, (reach_unkeyed in_seq _ _ Hun). by apply C1.
Qed.

Lemma on_message_in c m reliable w : let a := on_message c m reliable w in
  client_seq (a_client a) = client_seq c /\ Forall (fun m => exists n, m = Ack n) (a_sent a) /\
  a_dup a = [] /\
  (sent_stdin (a_client a) = sent_stdin c \/
   exists n, m = Ack n /\ sent_stdin (a_client a) = filter (fun m => acked_by n m = false) (sent_stdin c)).
Proof.
  assert (Hw : forall stream n data, let a := (if is_next n (last_server_seq c) reliable
      then write_out stream n data w c else go_on c []) in
    client_seq (a_client a) = client_seq c /\ Forall (fun m => exists n, m = Ack n) (a_sent a) /\
    a_dup a = [] /\ sent_stdin (a_client a) = sent_stdin c).
  { intros stream n data. destruct (is_next _ _ _), w, stream; cbn; split_and!; try done;
      repeat constructor; by eexists. }
  destruct m as [| | | |n data|n data|n code|n| | |]; cbn [on_message]; cbv zeta.
  all: try (destruct (Hw true n data) as (? & ? & ? & ?); split_and!; try done; by left).
  all: try (destruct (Hw false n data) as (? & ? & ? & ?); split_and!; try done; by left).
  all: split_and!; try done; try (by left); try (repeat constructor; by eexists).
Qed.

Lemma client_message_in sys i l l1 m reliable w : in_inv sys -> current sys = Some (i, l) ->
  server_end l1 = server_end l -> to_server l1 = to_server l -> dup_to_server l1 = dup_to_server l ->
  (Forall (ack_le (last_client_seq (task sys))) (to_client l) ->
   Forall (ack_le (last_client_seq (task sys))) (to_client l1) /\ ack_le (last_client_seq (task sys)) m) ->
  in_inv (client_did i l1 (on_message (client sys) m reliable w) sys).
Proof.
  intros Hinv Hcur E1 E2 E3 Hcl. pose proof (current_Some _ _ _ Hcur) as [Hp Hi].
  pose proof (lc_acks _ _ _ _ (ii_current _ Hinv i l Hp Hi)) as Hacks.
  destruct (Hcl Hacks) as [_ Hm].
  destruct (on_message_in (client sys) m reliable w) as (H1 & H2 & H3 & H4).
  eapply client_did_in; try done; [by intros ?; apply Hcl|].
  intros k Hk Hs. destruct H4 as [->|(n & -> & ->)]; [by exists k|]. cbn in Hm. rewrite Hs.
  pose proof (tn_applied _ _ _ (ii_task _ Hinv)) as Happ.
  assert (Hc : consecutive in_seq k (drop (Z.to_nat k) (sent_as (typed sys)))).
  { pose proof (consecutive_drop in_seq 0 _ (Z.to_nat k) (sent_as_consecutive (typed sys))) as Hc.
    replace (0 + Z.of_nat (Z.to_nat k)) with k in Hc by lia. apply Hc. rewrite sent_as_length.
    unfold len in Happ. lia. }
  rewrite (filter_acked n _ k Hc), drop_drop.
  exists (k + Z.of_nat (Z.to_nat (Z.min (n - k) (len (drop (Z.to_nat k) (sent_as (typed sys))))))).
  split; [lia|]. f_equal. lia.
Qed.

(** A read extends what the session may be told. *)
Lemma grow_task_in ty data s t : task_in ty s t -> task_in (ty ++ [data]) s t.
Proof.
  intros [Ha Hi Hg Hp Ho].
  assert (Ht : take (Z.to_nat (last_client_seq t)) (ty ++ [data]) = take (Z.to_nat (last_client_seq t)) ty).
  { apply take_app_le. unfold len in Ha. lia. }
  split; rewrite ?Ht; try done.
  - len_lia.
  - eapply Forall_impl; [exact Hi|]. intros []; cbn; try done; apply typed_as_grows.
Qed.

Lemma grow_link_in ty data s pos l : link_in ty s pos l -> link_in (ty ++ [data]) s pos l.
Proof.
  intros [H1 H2 H3]. split; [| |done]; (eapply Forall_impl; [eassumption|]); intros m; apply typed_as_grows.
Qed.

Lemma on_stdin_ok (ty : list bytes) c data : client_seq c = len ty -> len ty + 1 < u64_modulus ->
  let a := on_stdin c (ReadOk data) true in
  let m := stdin_msg (len ty + 1) data in
  a_sent a = [m] /\ a_dup a = [m] /\ a_result a = None /\ client_seq (a_client a) = len ty + 1 /\
  sent_stdin (a_client a) = sent_stdin c ++ [m].
Proof.
  intros Hc Hb. pose proof (len_nonneg ty). unfold on_stdin. rewrite Hc, add_u64_small by (unfold is_u64; lia).
  by destruct data.
Qed.

Lemma client_reads_in sys i l r : in_inv sys -> current sys = Some (i, l) ->
  len (typed sys) + 1 < u64_modulus ->
  in_inv (client_did i l (on_stdin (client sys) r true) (with_typed r sys)).
Proof.
  intros Hinv Hcur Hb. destruct r as [data|].
  2: { assert (in_inv (with_typed ReadErr sys)) by (by destruct Hinv).
       eapply client_did_in; [done|exact Hcur|done|done|done|done|done| |constructor|done].
       intros k Hk Hs. by exists k. }
  destruct Hinv as [H1 H2 H3 (k & Hk & Hs) H5 H6].
  pose proof (current_Some _ _ _ Hcur) as [Hp Hi].
  destruct (on_stdin_ok (typed sys) (client sys) data H3 Hb) as (Ea & Ed & Er & Ec & Es).
  destruct (H5 i l Hi) as [L1 L2 L3]. destruct (H6 i l Hp Hi) as [C1 C2].
  assert (Hm : typed_as (typed sys ++ [data]) (stdin_msg (len (typed sys) + 1) data)).
  { apply sent_as_typed. rewrite sent_as_snoc. apply elem_of_app. right. by left. }
  pose proof (grow_link_in _ data _ _ _ (H5 i l Hi)) as [G1 G2 _].
  split; cbn [client_did with_typed with_client session task status client typed links phase];
    rewrite ?Ea, ?Ed, ?Ec, ?Es.
  - by apply grow_task_in.
  - done.
  - rewrite len_app. done.
  - exists k. split; [done|]. rewrite sent_as_snoc, Hs, drop_app_le; [done|]. rewrite sent_as_length.
    pose proof (tn_applied _ _ _ H1) as Happ. unfold len in Happ. lia.
  - intros j l' Hj. apply list_lookup_insert_Some in Hj as [(<- & <- & _)|[_ Hj]];
      [|by apply grow_link_in; eapply H5].
    split; cbn [to_server dup_to_server server_end].
    + apply Forall_app. split; [done|by constructor].
    + apply Forall_app. split; [done|]. rewrite Forall_forall. intros m Hin%duplicates_elem.
      by apply list_elem_of_singleton in Hin as ->.
    + intros Hc He. apply gapless_app. split; [by apply L3|]. cbn -[reach]. rewrite in_seq_stdin_msg.
      split; [|done]. specialize (C1 Hc He). lia.
  - intros j l' [_ ->]%phase_after_attached Hj.
    apply list_lookup_insert_Some in Hj as [(_ & <- & _)|[? _]]; [|done].
    split; cbn [to_server to_client server_end]; [|done]. intros Hc He.
    rewrite reach_app, len_app. change (len [data]) with 1.
    change (reach in_seq ?p [?m]) with (advance in_seq p m). unfold advance at 1.
    rewrite in_seq_stdin_msg. lia.
Qed.

Lemma input_update sys x reg : in_inv sys -> input_ok (typed sys) x -> input_key x = None ->
  in_inv (with_session (send_input x (session sys)).1 reg (links sys) sys).
Proof.
  intros Hinv Hx Hk. pose proof Hinv as [Hin Hr _ _ _ _].
  destruct (send_input_in (typed sys) (session sys) (task sys) x Hin Hx) as (H1 & H2 & H3 & _).
  { intros _ n. by rewrite Hk. }
  eapply server_update_in; [done|exact H2|done| |done..|].
  - cbn. intros Hrun. rewrite H3. by apply Hr.
  - intros i l' Hi. by exists l'.
Qed.

Section ClientSteps.
Context `{TL : TransportLib} `{WL : WireLib} `{HL : HttpLib}.
Context (target : Target) (command token : string).

Lemma connects_in sys now quic resend_ok sys' : in_inv sys ->
  connects target command token now quic resend_ok sys = Some sys' -> in_inv sys'.
Proof.
  intros [H1 H2 H3 (k & Hk & Hs) H5 H6]. unfold connects. destruct (phase sys) eqn:Hp; [|done|done].
  destruct (request target command (client sys)) as [|tok n|] eqn:Hreq; [done| |done].
  destruct (registered sys && _); [|done].
  destruct (on_connect _ _ _) as [c| | |] eqn:Hon; try done.
  destruct (on_connect_keeps target (client sys) _ c (or_introl Hon)) as (_ & _ & _ & Es & Ec & _).
  unfold resend. intros [= <-].
  assert (Happ : 0 <= k <= len (typed sys)) by (pose proof (tn_applied _ _ _ H1); lia).
  pose proof (consecutive_drop in_seq 0 _ (Z.to_nat k) (sent_as_consecutive (typed sys))) as Hc.
  replace (0 + Z.of_nat (Z.to_nat k)) with k in Hc by lia. rewrite sent_as_length in Hc.
  specialize (Hc ltac:(unfold len in Happ; lia)). rewrite <- Hs, <- Es in Hc.
  set (pos := pending_pos (session sys) (task sys)).
  assert (Hpos : k <= pos).
  { subst pos. unfold pending_pos.
    pose proof (reach_ge input_key (inbound (session sys)) (last_client_seq (task sys))). lia. }
  destruct (consecutive_gapless in_seq _ k pos Hpos Hc) as [Hg Hr].
  split; cbn [with_client session task status client typed links phase].
  - done.
  - done.
  - congruence.
  - exists k. split; [done|congruence].
  - intros i l [Hi|[_ Hi]]%lookup_app_Some; [by eapply H5|].
    apply list_lookup_singleton_Some in Hi as [_ <-]. split; cbn [to_server dup_to_server server_end].
    + apply Forall_take. rewrite Es, Hs, Forall_forall. intros m Hin. apply sent_as_typed.
      rewrite <- (take_drop (Z.to_nat k) (sent_as (typed sys))). apply elem_of_app. by right.
    + constructor.
    + intros _ _. rewrite <- (take_drop resend_ok (sent_stdin c)) in Hg. by apply gapless_app in Hg as [Hg _].
  - intros i l Hi Hl. case_bool_decide as Hall; [|done]. injection Hi as <-.
    rewrite lookup_app_r, Nat.sub_diag in Hl by done. injection Hl as <-.
    split; cbn [to_server to_client server_end]; [|constructor]. intros _ _.
    rewrite take_ge by done. fold pos. rewrite Hr, Es, Hs, len_drop. unfold len at 2.
    rewrite sent_as_length. fold (len (typed sys)). lia.
Qed.

Lemma connect_fails_in sys e login sys' : in_inv sys ->
  connect_fails target e login sys = Some sys' -> in_inv sys'.
Proof.
  intros [H1 H2 H3 H4 H5 H6]. unfold connect_fails. destruct (phase sys) eqn:Hp; [|done|done].
  destruct (registered sys && _); [done|].
  assert (Hgo : forall c p, client_seq c = client_seq (client sys) -> sent_stdin c = sent_stdin (client sys) ->
    (forall i, p <> AttachedTo i) -> in_inv (with_client c p (links sys) sys)).
  { intros c p Ec Es Hat. split; cbn; try done; [congruence|by rewrite Es|].
    intros i l Hi. by destruct (Hat i). }
  destruct (on_connect _ _ _) as [c|c n cfg|d c|e'] eqn:Hon; [done|..]; intros [= <-].
  - destruct (on_connect_keeps target (client sys) (Err e) c) as (_ & _ & _ & ? & ? & _);
      [right; right; by eexists _, _|]. apply Hgo; try done; by destruct login.
  - destruct (on_connect_keeps target (client sys) (Err e) c) as (_ & _ & _ & ? & ? & _);
      [right; left; by eexists|]. by apply Hgo.
  - by apply Hgo.
Qed.

(** ** Every step, every run *)

(** The client's send of freshly read stdin did not fail. *)
Definition send_succeeds (ev : SysEvent) : Prop :=
  match ev with ClientReads (ReadOk _) send_ok => send_ok = true | _ => True end.

Lemma sys_step_in_inv sys ev sys' : out_inv sys -> in_inv sys -> send_succeeds ev ->
  len (typed sys) + 1 < u64_modulus ->
  sys_step target command token sys ev = Some sys' -> in_inv sys'.
Proof.
  intros Hout Hinv Hsend Hb. destruct ev; cbn [sys_step].
  - by apply task_runs_in.
  - destruct (live_end i sys) as [[l a]|] eqn:Hl; [|done]. intros [= <-]. by apply flush_in.
  - destruct (live_end i sys) as [[l a]|] eqn:Hl; [|done].
    destruct (to_server l) as [|m rest] eqn:Hq; [done|]. intros [= <-]. by apply server_frame_in.
  - destruct (live_end i sys) as [[l a]|] eqn:Hl; [|done].
    destruct (dup_to_server l !! j) as [m|] eqn:Hj; [|done]. intros [= <-]. by eapply server_datagram_in.
  - destruct (live_end i sys) as [[l a]|] eqn:Hl; [|done]. intros [= <-]. by apply server_lost_in.
  - intros [= <-]. by apply input_update.
  - intros [= <-]. by apply input_update.
  - by apply hands_over_in.
  - by apply restarts_in.
  - intros [= <-]. by apply daemon_lost_in.
  - destruct (current sys) as [[i l]|] eqn:Hc; [|done]. destruct (stdin_open _); [|done].
    intros [= <-]. destruct r as [data|].
    + cbn in Hsend. subst send_ok. by apply client_reads_in.
    + exact (client_reads_in sys i l ReadErr Hinv Hc Hb).
  - destruct (current sys) as [[i l]|] eqn:Hc; [|done].
    destruct (to_client l) as [|m rest] eqn:Hq; [done|]. intros [= <-].
    eapply client_message_in; try done. rewrite Hq. by inversion 1.
  - destruct (current sys) as [[i l]|] eqn:Hc; [|done].
    destruct (dup_to_client l !! j) as [m|] eqn:Hq; [|done]. intros [= <-].
    eapply client_message_in; try done. intros Hacks. split; [done|].
    pose proof (current_Some _ _ _ Hc) as [Hp Hi].
    destruct (oi_current _ Hout i Hp) as (l' & Hi' & [_ Hd _ _]). rewrite Hi in Hi'. injection Hi' as <-.
    rewrite Forall_lookup in Hd. destruct (Hd _ _ Hq) as [_ Hs]. by destruct m.
  - destruct (current sys) as [[i l]|] eqn:Hc; [|done]. intros [= <-].
    eapply client_did_in; try done. intros k Hk Hs. by exists k.
  - by apply connects_in.
  - by apply connect_fails_in.
Qed.

Lemma sys_step_typed sys ev sys' : sys_step target command token sys ev = Some sys' ->
  len (typed sys') <= len (typed sys) + 1.
Proof.
  destruct ev; cbn [sys_step]; unfold task_runs, hands_over, restarts, connects, connect_fails, with_typed;
    repeat match goal with
      | |- context [match ?x with _ => _ end] => destruct x
      end; try done; intros [= <-]; cbn; rewrite ?len_app; try change (len [_]) with 1; lia.
Qed.

Lemma sys_run_in_inv evs : forall sys sys', out_inv sys -> in_inv sys -> Forall send_succeeds evs ->
  len (hist sys) + len evs < u64_modulus -> len (typed sys) + len evs < u64_modulus ->
  sys_run target command token sys evs = Some sys' -> in_inv sys'.
Proof.
  induction evs as [|ev evs IH]; intros sys sys' Hout Hinv Hs Hb Hb'; cbn [sys_run]; [by intros [= <-]|].
  inversion Hs as [|? ? Hev Hevs]; subst. rewrite len_cons in Hb, Hb'. pose proof (len_nonneg evs).
  destruct (sys_step _ _ _ sys ev) as [sys1|] eqn:Hstep; [|done].
  pose proof (sys_step_hist _ _ _ _ _ _ Hout ltac:(lia) Hstep).
  pose proof (sys_step_typed _ _ _ Hstep).
  apply IH; [eapply sys_step_out_inv; [done|lia|done]|
    eapply sys_step_in_inv; [exact Hout|done|done|lia|done]|done|lia|lia].
Qed.

End ClientSteps.

Lemma sys_start_in_inv token s t now quic : task_in [] s t -> inbound_closed s = false ->
  in_inv (sys_start token s t now quic).
Proof.
  intros Ht Hc. pose proof (tn_applied _ _ _ Ht) as Ha. change (len (@nil bytes)) with 0 in Ha.
  split; cbn; try done.
  - exists 0. split; [lia|done].
  - intros i l Hi. apply list_lookup_singleton_Some in Hi as [_ <-]. by split.
  - intros i l [= <-] [= <-]. split; cbn -[reach pending_pos]; [|constructor]. intros _ _. change (len []) with 0.
    unfold pending_pos. etrans; [|apply reach_ge]. etrans; [|apply reach_ge]. lia.
Qed.
