(* ===== verification/EndToEnd.v ===== *)
(** * End-to-end properties of a session

    What the invariants of [SystemOut] and [SystemIn] mean for the user of
    [run_exec]: whatever disconnects, reconnects, lost or duplicated datagrams,
    lingering old connections and daemon restarts happen, output and input
    arrive byte-exact, and a session that has ended can always be completed by
    one more connection. *)

From S2P Require Import Prelude Proto Auth OutboundLog Session Exec Channel Registry Attach Handover.
From S2P Require Import Target RunExec Gapless System SystemOut SystemIn.

(** ** Runs from the start *)

(** What a step reads from the child, and from the client's stdin. *)
Definition printed_out (ev : SysEvent) : bytes := match ev with TaskRuns ev => out_read ev | _ => [] end.
Definition printed_err (ev : SysEvent) : bytes := match ev with TaskRuns ev => err_read ev | _ => [] end.
Definition typed_in (ev : SysEvent) : bytes :=
  match ev with ClientReads (ReadOk data) _ => data | _ => [] end.

Section Runs.
Context `{TL : TransportLib} `{WL : WireLib} `{HL : HttpLib}.
Context (target : Target) (command token : string).

Notation step := (sys_step target command token).
Notation steps := (sys_run target command token).

Lemma sys_step_reads sys ev sys' : out_inv sys -> len (hist sys) + 1 < u64_modulus ->
  step sys ev = Some sys' ->
  stdout_bytes (hist sys') = stdout_bytes (hist sys) ++ printed_out ev /\
  stderr_bytes (hist sys') = stderr_bytes (hist sys) ++ printed_err ev.
Proof.
  intros Hinv Hb. destruct ev; cbn [sys_step printed_out printed_err]; rewrite ?app_nil_r.
  1: { destruct (oi_task _ Hinv) as (acked & Ht & _). unfold task_runs. destruct (status sys); [|done].
       destruct (task_step _ _ ev) as [[[[s t] effs] st]|] eqn:Hstep; [|done]. intros [= <-].
       apply (task_step_log (hist sys) acked) in Hstep as [_ Hlog]; [|done|done].
       apply step_log_facts in Hlog as (<- & <- & _). cbn [hist]. by rewrite stdout_bytes_app, stderr_bytes_app. }
  all: unfold hands_over, restarts, connects, connect_fails;
    repeat match goal with
      | |- context [match ?x with _ => _ end] => destruct x
      end; try done; by intros [= <-].
Qed.

Lemma sys_step_types sys ev sys' : step sys ev = Some sys' ->
  concat (typed sys') = concat (typed sys) ++ typed_in ev.
Proof.
  destruct ev; cbn [sys_step typed_in]; unfold task_runs, hands_over, restarts, connects, connect_fails, with_typed;
    rewrite ?app_nil_r;
    repeat match goal with
      | |- context [match ?x with _ => _ end] => destruct x
      end; try done; intros [= <-]; cbn; rewrite ?concat_app; cbn; rewrite ?app_nil_r; done.
Qed.

Lemma sys_run_reads evs : forall sys sys', out_inv sys -> len (hist sys) + len evs < u64_modulus ->
  steps sys evs = Some sys' ->
  stdout_bytes (hist sys') = stdout_bytes (hist sys) ++ concat (map printed_out evs) /\
  stderr_bytes (hist sys') = stderr_bytes (hist sys) ++ concat (map printed_err evs) /\
  concat (typed sys') = concat (typed sys) ++ concat (map typed_in evs).
Proof.
  induction evs as [|ev evs IH]; intros sys sys' Hinv Hb; cbn [sys_run map concat].
  { intros [= <-]. by rewrite !app_nil_r. }
  rewrite len_cons in Hb. pose proof (len_nonneg evs).
  destruct (step sys ev) as [sys1|] eqn:Hstep; [|done]. intros Hrun.
  pose proof (sys_step_hist _ _ _ _ _ _ Hinv ltac:(lia) Hstep).
  pose proof (sys_step_types _ _ _ Hstep) as Hty.
  destruct (sys_step_reads _ _ _ Hinv ltac:(lia) Hstep) as [Ho He].
  apply sys_step_out_inv in Hstep; [|done|lia].
  apply IH in Hrun as (-> & -> & ->); [|done|lia]. by rewrite Ho, He, Hty, !app_assoc.
Qed.

Lemma sys_run_app evs1 : forall evs2 sys, steps sys (evs1 ++ evs2) =
  match steps sys evs1 with Some sys' => steps sys' evs2 | None => None end.
Proof.
  induction evs1 as [|ev evs1 IH]; intros evs2 sys; [done|]. cbn [app sys_run].
  destruct (step sys ev); [apply IH|done].
Qed.

(** ** The client keeps its resume token *)

Lemma sys_step_token sys ev sys' : step sys ev = Some sys' ->
  resume_token (client sys) = Some token -> resume_token (client sys') = Some token.
Proof.
  assert (Hm : forall c m rel w, resume_token (a_client (on_message c m rel w)) = resume_token c).
  { intros c [] rel w; cbn [on_message]; try done;
      (destruct (is_next _ _ _); [by destruct w|done]). }
  destruct ev; cbn [sys_step]; unfold task_runs, hands_over, restarts, connects, connect_fails.
  1-10: repeat match goal with
      | |- context [match ?x with _ => _ end] => destruct x
      end; try done; by intros [= <-].
  - destruct (current sys) as [[i l]|]; [|done]. destruct (stdin_open _); [|done].
    intros [= <-]. by destruct r as [[|b r]|], send_ok.
  - destruct (current sys) as [[i l]|]; [|done]. destruct (to_client l); [done|]. intros [= <-].
    cbn. by rewrite Hm.
  - destruct (current sys) as [[i l]|]; [|done]. destruct (dup_to_client l !! j); [|done]. intros [= <-].
    cbn. by rewrite Hm.
  - destruct (current sys) as [[i l]|]; [|done]. by intros [= <-].
  - destruct (phase sys), (request target command (client sys)); try done. destruct (_ && _); [|done].
    destruct (on_connect target _ _) as [c| | |] eqn:Hon; try done. unfold resend. intros [= <-] Ht. cbn.
    rewrite <- Ht. apply (on_connect_keeps target (client sys) _ c (or_introl Hon)). by rewrite Ht.
  - destruct (phase sys); try done. destruct (_ && _); [done|].
    destruct (on_connect _ _ _) as [c|c n cfg|d c|] eqn:Hon; try done; intros [= <-] Ht; cbn; [| |done].
    + rewrite <- Ht. apply (on_connect_keeps target (client sys) (Err e) c); [right; right; by eexists _, _|by rewrite Ht].
    + rewrite <- Ht. apply (on_connect_keeps target (client sys) (Err e) c); [right; left; by eexists|by rewrite Ht].
Qed.

Lemma sys_run_token evs : forall sys sys', steps sys evs = Some sys' ->
  resume_token (client sys) = Some token -> resume_token (client sys') = Some token.
Proof.
  induction evs as [|ev evs IH]; intros sys sys'; cbn [sys_run]; [by intros [= <-]|].
  destruct (step sys ev) as [sys1|] eqn:Hs; [|done]. intros Hr Ht. eapply IH; [done|].
  by eapply sys_step_token.
Qed.

(** ** Completing a finished session *)

(** One reconnect: drop what is left of the old connection, resume, let the
    server flush once and read every frame it sent. *)
Definition resume_schedule (now : Z) (quic : bool) (sys : System) : list SysEvent :=
  (match phase sys with AttachedTo _ => [ClientLost] | _ => [] end) ++
  [Connects now quic (length (sent_stdin (client sys))); Flushes (length (links sys)) None] ++
  replicate (length (hist sys) - Z.to_nat (last_server_seq (client sys))) (ClientFrame WroteAll).

Lemma seen_before_exit sys h code : out_inv sys -> hist sys = h ++ [Exit (len h + 1) code] ->
  last_server_seq (client sys) <= len h.
Proof.
  intros Hinv Hh. pose proof (oi_seen _ Hinv) as Hs. pose proof (oi_last _ Hinv) as Hl.
  destruct (Z.le_gt_cases (last_server_seq (client sys)) (len h)) as [?|Hgt]; [done|exfalso].
  rewrite Hh in Hs, Hl. rewrite len_app in Hl. change (len [_]) with 1 in Hl.
  rewrite take_ge in Hs by (rewrite length_app; unfold len in *; cbn; lia).
  by apply is_stdio_exit in Hs.
Qed.

Lemma on_message_next c m : is_stdio m -> msg_seq m = Some (last_server_seq c + 1) ->
  0 <= last_server_seq c -> last_server_seq c + 1 < u64_modulus ->
  a_result (on_message c m true WroteAll) = None /\
  last_server_seq (a_client (on_message c m true WroteAll)) = last_server_seq c + 1.
Proof.
  intros Hs Hm H0 Hb. destruct m as [| | | |n data|n data| | | | |]; try done; injection Hm as ->; cbn [on_message];
    (assert (is_next (last_server_seq c + 1) (last_server_seq c) true = true) as ->
      by (unfold is_next; no_wrap; by rewrite Z.eqb_refl)); done.
Qed.

Lemma deliver_rest n : forall sys i l tail h code,
  out_inv sys -> phase sys = AttachedTo i -> links sys !! i = Some l ->
  to_client l = drop (Z.to_nat (last_server_seq (client sys))) (hist sys) ++ tail ->
  hist sys = h ++ [Exit (len h + 1) code] -> len (hist sys) + 1 < u64_modulus ->
  n = (length (hist sys) - Z.to_nat (last_server_seq (client sys)))%nat ->
  exists sys', steps sys (replicate n (ClientFrame WroteAll)) = Some sys' /\
    phase sys' = Finished (Ok code) /\ hist sys' = hist sys /\ out_inv sys'.
Proof.
  induction n as [|n IH]; intros sys i l tail h code Hinv Hp Hi Hq Hh Hb Hn.
  { pose proof (seen_before_exit sys h code Hinv Hh). pose proof (oi_last _ Hinv).
    rewrite Hh in Hn. rewrite length_app in Hn. unfold len in *. cbn in Hn. lia. }
  pose proof (seen_before_exit sys h code Hinv Hh) as Hlast. pose proof (oi_last _ Hinv) as H0.
  set (c := client sys) in *. set (k := Z.to_nat (last_server_seq c)) in *.
  assert (Hk : (k <= length h)%nat) by (unfold len in Hlast; lia).
  destruct (lookup_lt_is_Some_2 (hist sys) k) as [m Hm]; [lia|].
  rewrite (drop_S _ _ _ Hm) in Hq. cbn [app] in Hq.
  assert (Hcur : current sys = Some (i, l)) by (unfold current; by rewrite Hp, Hi).
  cbn [replicate sys_run sys_step]. rewrite Hcur, Hq. fold c.
  pose proof (client_frame_inv sys i l m _ WroteAll Hinv Hcur Hq Hb) as Hinv'. fold c in Hinv'.
  destruct (oi_task _ Hinv) as (acked & Ht & _).
  pose proof (ti_numbered _ _ _ _ Ht _ _ Hm) as Hseq.
  replace (Z.of_nat k + 1) with (last_server_seq c + 1) in Hseq by lia.
  destruct (decide (k = length h)) as [Heq|Hne].
  - assert (m = Exit (len h + 1) code) as ->.
    { rewrite Hh, lookup_app_r in Hm by lia. rewrite Heq, Nat.sub_diag in Hm. by injection Hm. }
    assert (n = 0%nat) as ->.
    { rewrite Hh, length_app in Hn. cbn in Hn. lia. }
    eexists. split_and!; [reflexivity|done|done|exact Hinv'].
  - assert (Hs : is_stdio m).
    { destruct (oi_hist _ Hinv) as [Hs|(_ & _ & h' & code' & Hh' & Hs)].
      - rewrite Hh in Hs. by apply is_stdio_exit in Hs.
      - rewrite Hh in Hh'. apply app_inj_tail in Hh' as [-> _].
        rewrite Hh, lookup_app_l in Hm by lia. rewrite Forall_lookup in Hs. by eapply Hs. }
    destruct (on_message_next c m Hs Hseq) as [Hr Hl]; [lia|lia|].
    assert (Hpa : phase_after i (on_message c m true WroteAll) = AttachedTo i) by (unfold phase_after; by rewrite Hr).
    eapply (IH _ i _ tail h code Hinv').
    + cbn. exact Hpa.
    + cbn. apply list_lookup_insert_eq. by eapply lookup_lt_Some.
    + cbn -[Z.to_nat]. rewrite Hl. by replace (Z.to_nat (last_server_seq c + 1)) with (S k) by lia.
    + exact Hh.
    + exact Hb.
    + cbn -[Z.to_nat]. rewrite Hl. lia.
Qed.

Lemma reconnect_delivers sys now quic h code : out_inv sys -> phase sys = Connecting ->
  resume_token (client sys) = Some token -> registered sys = true ->
  hist sys = h ++ [Exit (len h + 1) code] -> len (hist sys) + 4 < u64_modulus ->
  exists sys', steps sys (resume_schedule now quic sys) = Some sys' /\
    phase sys' = Finished (Ok code) /\ hist sys' = hist sys /\ out_inv sys'.
Proof.
  intros Hinv Hp Htok Hreg Hh Hb. unfold resume_schedule. rewrite Hp. cbn [app sys_run].
  destruct (step sys _) as [sys1|] eqn:Hstep1.
  2: { exfalso. revert Hstep1. cbn [sys_step]. unfold connects, request. rewrite Hp, Htok, Hreg.
       rewrite bool_decide_eq_true_2 by done. cbn [andb on_connect]. unfold resend.
       intros Hx. lazy zeta iota beta in Hx. discriminate Hx. }
  pose proof (sys_step_out_inv _ _ _ _ _ _ Hinv ltac:(lia) Hstep1) as Hinv1.
  revert Hstep1. cbn [sys_step]. unfold connects, request. rewrite Hp, Htok, Hreg.
  rewrite bool_decide_eq_true_2 by done. cbn [andb on_connect]. rewrite Htok. unfold resend.
  cbn [sent_stdin with_retry with_token].
  rewrite (bool_decide_eq_true_2 (length (sent_stdin (client sys)) <= length (sent_stdin (client sys)))%nat) by done.
  set (l := {| server_end := _; to_client := _; to_server := _; dup_to_client := _;
               dup_to_server := _; over_quic := _ |}).
  set (c := with_retry _ _). intros [= <-].
  assert (Hl : (links sys ++ [l]) !! length (links sys) = Some l).
  { rewrite lookup_app_r by done. by rewrite Nat.sub_diag. }
  cbn [sys_step]. unfold live_end. cbn [with_client links]. rewrite Hl. cbn [l server_end].
  set (a := attach_start (last_server_seq (client sys)) now).
  pose proof (flush_inv _ (length (links sys)) None l a Hinv1) as Hinv2.
  cbn [with_client links session registered] in Hinv2. unfold live_end in Hinv2.
  cbn [with_client links] in Hinv2. rewrite Hl in Hinv2. specialize (Hinv2 eq_refl).
  destruct (oi_task _ Hinv) as (acked & Ht & Ha). unfold cap, cap_of in Ha. rewrite Hp in Ha.
  pose proof (oi_last _ Hinv) as Hlast.
  pose proof (flush_sent (session sys) a (hist sys) acked (ti_log _ _ _ _ Ht)) as Hf.
  specialize (Hf ltac:(cbn; lia)).
  destruct (flush (session sys) a) as [ms a'] eqn:Hfl. destruct Hf as [Hs' Hms].
  eapply (deliver_rest _ _ (length (links sys)) _ _ h code Hinv2); [done| | |exact Hh|cbn; lia|done].
  - cbn [with_session links]. apply list_lookup_insert_eq. rewrite length_app. cbn. lia.
  - unfold flush_link. rewrite Hfl. cbn [to_client l app]. rewrite Hms. reflexivity.
Qed.

End Runs.

(** A session started by [run_exec], which always asks for a resumable one. *)
Definition sys_begin (token : string) (a b c d : Z) (pid : option Z) (agent : bool) (now : Z)
    (quic : bool) : System :=
  let '(s, t) := start_session a b c d pid true agent now in sys_start token s t now quic.

Lemma sys_begin_inv token a b c d pid agent now quic :
  let sys := sys_begin token a b c d pid agent now quic in
  out_inv sys /\ in_inv sys /\ hist sys = [] /\ typed sys = [] /\
  resume_token (client sys) = Some token /\ len (hist sys) = 0 /\ len (typed sys) = 0.
Proof.
  unfold sys_begin. pose proof (fresh_inv a b c d pid true agent now) as Hinv.
  destruct (start_session a b c d pid true agent now) as [s t] eqn:Hs. cbv zeta.
  split_and!; [by apply sys_start_out_inv| |done..].
  unfold start_session in Hs. injection Hs as <- <-.
  apply sys_start_in_inv; [|done]. split; cbn; done.
Qed.

(** ** Properties *)

Section EndToEndProperties.
Context `{TL : TransportLib} `{WL : WireLib} `{HL : HttpLib}.

(** A run from the start: the invariant, and the histories as what was read. *)
Lemma run_begin target command token a b c d pid agent now quic evs sys :
  len evs < u64_modulus ->
  sys_run target command token (sys_begin token a b c d pid agent now quic) evs = Some sys ->
  out_inv sys /\ len (hist sys) <= len evs /\ resume_token (client sys) = Some token /\
  stdout_bytes (hist sys) = concat (map printed_out evs) /\
  stderr_bytes (hist sys) = concat (map printed_err evs) /\
  concat (typed sys) = concat (map typed_in evs).
Proof.
  intros Hlen Hrun.
  destruct (sys_begin_inv token a b c d pid agent now quic) as (Hout & _ & Hh & Ht & Htok & Hz & _).
  destruct (sys_run_reads target command token evs _ _ Hout ltac:(lia) Hrun) as (-> & -> & ->).
  rewrite Hh, Ht. split_and!; [exact (sys_run_out_inv target command token evs _ _ Hout ltac:(lia) Hrun)| | |done..].
  - pose proof (sys_run_hist target command token evs _ _ Hout ltac:(lia) Hrun). lia.
  - by eapply sys_run_token.
Qed.

(** C1: the output a user of [run_exec] gets is exact.  In every run of the
    whole system (any interleaving of the session task, any number of attach
    loops and the client; connections lost at any point, also in the middle of
    a flush or a resend; datagrams delivered early, repeatedly or never; old
    connections still served; daemon restarts; expiry), what the client has
    written to stdout and stderr is a prefix of what the command printed, and
    if [run_exec] returns an exit code, then it wrote everything the command
    ever printed and the code is the one of the Exit message that ends the
    session's log.  (Fewer than 2^64 steps, so that no counter wraps.) *)
Theorem client_output_exact (target : Target) (command token : string) (a b c d : Z) (pid : option Z)
    (agent : bool) (now : Z) (quic : bool) (evs : list SysEvent) (sys : System) :
  len evs < u64_modulus ->
  sys_run target command token (sys_begin token a b c d pid agent now quic) evs = Some sys ->
  out (client sys) `prefix_of` concat (map printed_out evs) /\
  err (client sys) `prefix_of` concat (map printed_err evs) /\
  (forall code, phase sys = Finished (Ok code) ->
     out (client sys) = concat (map printed_out evs) /\
     err (client sys) = concat (map printed_err evs) /\
     exists h, hist sys = h ++ [Exit (len h + 1) code] /\ Forall is_stdio h).
Proof.
  intros Hlen Hrun. destruct (run_begin _ _ _ _ _ _ _ _ _ _ _ _ _ Hlen Hrun) as (Hinv & _ & _ & Ho & He & _).
  pose proof (oi_client _ Hinv) as Hok. unfold client_ok in Hok. rewrite <- Ho, <- He.
  assert (Hpre : forall k, stdout_bytes (take k (hist sys)) `prefix_of` stdout_bytes (hist sys) /\
                           stderr_bytes (take k (hist sys)) `prefix_of` stderr_bytes (hist sys)).
  { intros k. rewrite <- (take_drop k (hist sys)) at 2 4. rewrite stdout_bytes_app, stderr_bytes_app.
    split; by apply prefix_app_r. }
  destruct (phase sys) as [|i|[code|e]].
  - destruct Hok as [-> ->]. split_and!; [apply Hpre|apply Hpre|done].
  - destruct Hok as [-> ->]. split_and!; [apply Hpre|apply Hpre|done].
  - destruct Hok as (Hex & -> & ->). split_and!; [done|done|]. intros code' [= <-]. done.
  - destruct Hok as [H1 H2]. split_and!; [|by etrans; [exact H2|apply Hpre]|done].
    etrans; [exact H1|apply Hpre].
Qed.

(** C2: stdin arrives exactly.  In every run in which no send of freshly read
    stdin fails (resends and every other send may), what the child's stdin
    accepted is a prefix of what the client read, the child gets exactly the
    applied reads while its pipe is open, and every read is either applied or
    still held by the client, in order, for the next resend. *)
Theorem stdin_exact (target : Target) (command token : string) (a b c d : Z) (pid : option Z)
    (agent : bool) (now : Z) (quic : bool) (evs : list SysEvent) (sys : System) :
  len evs < u64_modulus -> Forall send_succeeds evs ->
  sys_run target command token (sys_begin token a b c d pid agent now quic) evs = Some sys ->
  concat (typed sys) = concat (map typed_in evs) /\
  child_stdin (task sys) `prefix_of` concat (typed sys) /\
  (is_Some (stdin (task sys)) ->
   child_stdin (task sys) = concat (take (Z.to_nat (last_client_seq (task sys))) (typed sys))) /\
  exists k, 0 <= k <= last_client_seq (task sys) /\
    sent_stdin (client sys) = drop (Z.to_nat k) (sent_as (typed sys)).
Proof.
  intros Hlen Hsend Hrun.
  destruct (sys_begin_inv token a b c d pid agent now quic) as (Hout & Hin & _ & _ & _ & Hz & Hz').
  destruct (run_begin _ _ _ _ _ _ _ _ _ _ _ _ _ Hlen Hrun) as (_ & _ & _ & _ & _ & Hty).
  apply sys_run_in_inv in Hrun; [|done|done|done|lia|lia].
  pose proof (ii_task _ Hrun) as [Ha _ _ Hp Ho]. split_and!; [done| |done|apply Hrun].
  etrans; [exact Hp|]. rewrite <- (take_drop (Z.to_nat (last_client_seq (task sys))) (typed sys)) at 2.
  rewrite concat_app. by apply prefix_app_r.
Qed.

(** C3: a finished session that the server still has can be completed.  Whatever
    happened before (including any number of failed attempts and restarts), from
    every reachable state in which the session is registered (it has not
    expired, and no daemon was lost with it or is handing it over), its task has
    logged the Exit and [run_exec] has not returned, one reconnect that stays up
    long enough delivers the rest: the given schedule of steps is enabled, and
    [run_exec] returns the exit code with all output written. *)
Theorem resume_completes (target : Target) (command token : string) (a b c d : Z) (pid : option Z)
    (agent : bool) (now now' : Z) (quic quic' : bool) (evs : list SysEvent) (sys : System)
    (h : list ChannelMessage) (code : Z) :
  len evs + 5 < u64_modulus ->
  sys_run target command token (sys_begin token a b c d pid agent now quic) evs = Some sys ->
  registered sys = true -> (forall r, phase sys <> Finished r) ->
  hist sys = h ++ [Exit (len h + 1) code] ->
  exists sys', sys_run target command token sys (resume_schedule now' quic' sys) = Some sys' /\
    phase sys' = Finished (Ok code) /\
    out (client sys') = concat (map printed_out evs) /\ err (client sys') = concat (map printed_err evs).
Proof.
  intros Hlen Hrun Hreg Hnf Hex.
  assert (Hlen' : len evs < u64_modulus) by lia.
  destruct (run_begin _ _ _ _ _ _ _ _ _ _ _ _ _ Hlen' Hrun) as (Hinv & Hb & Htok & Ho & He & _).
  assert (Hgo : exists sys', sys_run target command token sys (resume_schedule now' quic' sys) = Some sys' /\
      phase sys' = Finished (Ok code) /\ hist sys' = hist sys /\ out_inv sys').
  { destruct (phase sys) as [|i|r] eqn:Hp; [| |by destruct (Hnf r)].
    - apply (reconnect_delivers target command token sys now' quic' h code); [done|done|done|done|done|lia].
    - destruct (oi_current _ Hinv i Hp) as (l & Hi & _).
      assert (Hcur : current sys = Some (i, l)) by (unfold current; by rewrite Hp, Hi).
      set (sys1 := client_did i l (stop (client sys) [] (Ok None)) sys).
      assert (Hstep : sys_step target command token sys ClientLost = Some sys1) by (cbn [sys_step]; by rewrite Hcur).
      assert (Hp1 : phase sys1 = Connecting).
      { cbn. unfold phase_after. cbn. by rewrite Htok. }
      pose proof (sys_step_out_inv _ _ _ _ _ _ Hinv ltac:(lia) Hstep) as Hinv1.
      destruct (reconnect_delivers target command token sys1 now' quic' h code) as (sys' & Hr & Hf & Hh' & Hinv');
        [done|done|done|done|done|cbn; lia|].
      assert (Hlk : length (links sys1) = length (links sys)) by (cbn; by rewrite length_insert).
      exists sys'. split_and!; [|done|done|done].
      unfold resume_schedule in Hr |- *. rewrite Hp1 in Hr. rewrite Hp. cbn [app] in Hr |- *.
      cbn [sys_run]. rewrite Hstep. rewrite Hlk in Hr. exact Hr. }
  destruct Hgo as (sys' & Hr & Hf & Hh' & Hinv'). exists sys'. split_and!; [done|done|..];
    pose proof (oi_client _ Hinv') as Hok; unfold client_ok in Hok; rewrite Hf, Hh' in Hok;
    destruct Hok as (_ & ? & ?); congruence.
Qed.

End EndToEndProperties.

(** ** Concrete runs *)

Definition example_lib : TransportLib := Build_TransportLib unit unit.
Definition example_target : Target := target_new "ws://127.0.0.1:8422" "secret".
Definition example_begin : System := sys_begin "100-5-0" 4 5 6 7 (Some 100) false 0 true.

Definition example_run (evs : list SysEvent) : option System :=
  @sys_run example_lib toy_wire Auth.toy_jwt Auth.toy_http example_target "cat" "100-5-0" example_begin evs.

(** The final state, for stating facts about it. *)
Definition example_end (evs : list SysEvent) : System :=
  match example_run evs with Some sys => sys | None => example_begin end.

(** Input and output around a lost connection and a daemon restart, up to the
    logged Exit. *)
Definition example_story : list SysEvent :=
  [TaskRuns (StdoutRead (ReadOk [104; 105])); Flushes 0 None; ClientFrame WroteAll;
   ClientReads (ReadOk [65]) true; ServerFrame 0; ServerFrame 0;
   TaskRuns (InboundRecv WroteAll (fun _ => true)); ClientReads (ReadOk [66; 67]) true; ClientLost;
   AsksHandover; TaskRuns (InboundRecv WroteAll (fun _ => true)); HandsOver; Restarts (fun _ => true) true 50;
   TaskRuns (StderrRead (ReadOk [33])); ConnectFails ConnectTimeout (Ok tt);
   Connects 60 true 2; ServerFrame 1; ServerFrame 1;
   TaskRuns (InboundRecv WroteAll (fun _ => true)); TaskRuns (InboundRecv WroteAll (fun _ => true));
   Flushes 1 None; ClientDatagram 0 WroteAll; ClientFrame WroteAll; ClientFrame WroteAll;
   TaskRuns (ExitRead (ReadOk [51; 10])); TaskRuns (StdoutRead (ReadOk []));
   TaskRuns (StderrRead ReadErr)].

Lemma client_output_exact_witness :
  let evs := example_story ++ [Flushes 1 None; ClientFrame WroteAll] in
  phase (example_end evs) = Finished (Ok 3) /\
  out (client (example_end evs)) = [104; 105] /\ [104; 105] = concat (map printed_out evs).
Proof.
  intros evs. assert (Hp : phase (example_end evs) = Finished (Ok 3)) by (vm_compute; reflexivity).
  split; [exact Hp|]. split; [vm_compute; reflexivity|].
  change [104; 105] with (out (client (example_end evs))).
  refine (proj1 (proj2 (proj2 (@client_output_exact example_lib toy_wire Auth.toy_jwt Auth.toy_http
    example_target "cat" "100-5-0" 4 5 6 7 (Some 100) false 0 true evs (example_end evs) _ _)) 3 Hp)).
  - vm_compute. reflexivity.
  - vm_compute. reflexivity.
Defined.

Lemma stdin_exact_witness :
  child_stdin (task (example_end example_story)) = [65; 66; 67] /\
  concat (typed (example_end example_story)) = concat (map typed_in example_story).
Proof.
  split; [vm_compute; reflexivity|].
  refine (proj1 (@stdin_exact example_lib toy_wire Auth.toy_jwt Auth.toy_http
    example_target "cat" "100-5-0" 4 5 6 7 (Some 100) false 0 true example_story
    (example_end example_story) _ _ _)).
  - vm_compute. reflexivity.
  - unfold example_story. repeat constructor.
  - vm_compute. reflexivity.
Defined.

Lemma resume_completes_witness :
  exists sys', @sys_run example_lib toy_wire Auth.toy_jwt Auth.toy_http example_target "cat" "100-5-0"
    (example_end example_story) (resume_schedule 70 false (example_end example_story)) = Some sys' /\
    phase sys' = Finished (Ok 3) /\ out (client sys') = [104; 105] /\ err (client sys') = [33].
Proof.
  refine (@resume_completes example_lib toy_wire Auth.toy_jwt Auth.toy_http
    example_target "cat" "100-5-0" 4 5 6 7 (Some 100) false 0 70 true false example_story
    (example_end example_story) [Stdout 1 [104; 105]; Stderr 2 [33]] 3 _ _ _ _ _).
  - vm_compute. reflexivity.
  - vm_compute. reflexivity.
  - vm_compute. reflexivity.
  - intros r. vm_compute. discriminate.
  - vm_compute. reflexivity.
Defined.
