(* ===== verification/LostInput.v ===== *)
(** * What a failed send of stdin costs ([System], client to server)

    The run of [SystemIn] in which a send of freshly read stdin fails, which
    its invariant excludes.  The weaker invariant here holds in every run: the
    child's stdin is made of whole reads in order, and a read whose send failed
    is not among them, because no copy of its message exists anywhere. *)

From Stdlib Require Import Sorted.
From S2P Require Import Prelude Proto Auth OutboundLog Session Exec Channel Registry Attach Handover.
From S2P Require Import Target RunExec Gapless System SystemOut SystemIn EndToEnd.

(** ** The invariant *)

(** A message of the input stream that is not the [n]-th read. *)
Definition kept (n : Z) (ty : list bytes) (m : ChannelMessage) : Prop :=
  typed_as ty m /\ in_seq m <> Some n.

Definition input_kept (n : Z) (ty : list bytes) (x : SessionInput) : Prop :=
  match x with Message m | Datagram m => kept n ty m | _ => True end.

Definition link_kept (n : Z) (ty : list bytes) (l : Link) : Prop :=
  Forall (kept n ty) (to_server l) /\ Forall (kept n ty) (dup_to_server l).

(** The reads with the numbers [ks], one after the other. *)
Definition reads (ty : list bytes) (ks : list Z) : bytes :=
  concat (map (fun k => ty !!! Z.to_nat (k - 1)) ks).

(** The reads [ks], each at most once and in order, make up what the child
    took: all of it while the pipe is open, else they may end early. *)
Record made_of (ty : list bytes) (t : Task) (ks : list Z) : Prop := {
  mo_sorted : StronglySorted Z.lt ks;
  mo_range : Forall (fun k => 1 <= k <= last_client_seq t) ks;
  mo_child : child_stdin t `prefix_of` reads ty ks;
  mo_open : is_Some (stdin t) -> child_stdin t = reads ty ks;
}.

Record task_lossy (n : Z) (ty : list bytes) (t : Task) : Prop := {
  tl_last : 0 <= last_client_seq t <= len ty;
  tl_child : exists ks, made_of ty t ks /\ n ∉ ks;
}.

Record lossy (n : Z) (sys : System) : Prop := {
  ly_lost : 0 <= n <= len (typed sys);
  ly_seq : client_seq (client sys) = len (typed sys);
  ly_sent : Forall (kept n (typed sys)) (sent_stdin (client sys));
  ly_links : Forall (link_kept n (typed sys)) (links sys);
  ly_inbound : Forall (input_kept n (typed sys)) (inbound (session sys));
  ly_task : task_lossy n (typed sys) (task sys);
}.

(** ** Lemmas on the data *)

Lemma typed_as_seq ty m k : typed_as ty m -> in_seq m = Some k -> 1 <= k <= len ty.
Proof.
  unfold typed_as. intros Hm Hk. rewrite Hk in Hm. destruct Hm as (H1 & data & Hd & _).
  apply lookup_lt_Some in Hd. unfold len. lia.
Qed.

Lemma kept_grows n ty data m : kept n ty m -> kept n (ty ++ [data]) m.
Proof. intros [Hm Hn]. split; [by apply typed_as_grows|done]. Qed.

Lemma link_kept_grows n ty data l : link_kept n ty l -> link_kept n (ty ++ [data]) l.
Proof. intros [H1 H2]. split; (eapply Forall_impl; [eassumption|]); intros m; apply kept_grows. Qed.

Lemma input_kept_grows n ty data x : input_kept n ty x -> input_kept n (ty ++ [data]) x.
Proof. destruct x; cbn; try done; apply kept_grows. Qed.

(** A read that does not exist yet has left no trace. *)
Lemma kept_fresh n k ty m : len ty < n -> kept k ty m -> kept n ty m.
Proof. intros Hn [Hm _]. split; [done|]. intros Hk. pose proof (typed_as_seq _ _ _ Hm Hk). lia. Qed.

Lemma reads_grows ty data ks : Forall (fun k => 1 <= k <= len ty) ks -> reads (ty ++ [data]) ks = reads ty ks.
Proof.
  intros Hks. unfold reads. f_equal. apply map_ext_in. intros k Hk.
  rewrite List.Forall_forall in Hks. specialize (Hks k Hk). rewrite lookup_total_app_l; [done|].
  unfold len in Hks. lia.
Qed.

Lemma reads_snoc ty ks k data : ty !! Z.to_nat (k - 1) = Some data -> reads ty (ks ++ [k]) = reads ty ks ++ data.
Proof.
  intros Hk. unfold reads. rewrite map_app, concat_app. cbn.
  by rewrite (list_lookup_total_correct _ _ _ Hk), app_nil_r.
Qed.

Lemma sorted_snoc ks b k : StronglySorted Z.lt ks -> Forall (fun j => 1 <= j <= b) ks -> b < k ->
  StronglySorted Z.lt (ks ++ [k]).
Proof.
  induction ks as [|j ks IH]; cbn; intros Hs Hb Hk; [repeat constructor|].
  inversion Hs as [|? ? Hs' Hj]; subst. inversion Hb as [|? ? Hjb Hb']; subst.
  constructor; [by apply IH|]. apply Forall_app. split; [done|]. constructor; [lia|constructor].
Qed.

Lemma made_of_grows ty data t ks : last_client_seq t <= len ty -> made_of ty t ks -> made_of (ty ++ [data]) t ks.
Proof.
  intros Hl [H1 H2 H3 H4].
  assert (Hr : reads (ty ++ [data]) ks = reads ty ks).
  { apply reads_grows. eapply Forall_impl; [exact H2|]. cbn. lia. }
  split; rewrite ?Hr; done.
Qed.

(** ** The session task *)

Lemma made_of_same ty s t s' t' ks : same_stdin s t s' t' -> made_of ty t ks -> made_of ty t' ks.
Proof. intros (H1 & H2 & H3 & _) []. split; rewrite ?H1, ?H2, ?H3; done. Qed.

(** A message with a higher number is applied. *)
Lemma write_stdin_made_of ty t ks k data w : made_of ty t ks -> last_client_seq t < k -> 1 <= k ->
  ty !! Z.to_nat (k - 1) = Some data -> made_of ty (with_client_seq k (write_stdin data w t)) (ks ++ [k]).
Proof.
  intros [H1 H2 H3 H4] Hk H1k Hd. split.
  - eapply sorted_snoc; [done|exact H2|done].
  - apply Forall_app. split; [|constructor; [cbn; lia|constructor]].
    eapply Forall_impl; [exact H2|]. cbn. lia.
  - rewrite (reads_snoc _ _ _ _ Hd). unfold write_stdin. destruct (stdin t) eqn:Hs; [destruct w|]; cbn.
    + by rewrite H4.
    + rewrite H4 by done. apply prefix_app, prefix_take.
    + etrans; [exact H3|]. by apply prefix_app_r.
  - rewrite (reads_snoc _ _ _ _ Hd). unfold write_stdin.
    destruct (stdin t) eqn:Hs; [destruct w|]; cbn; [|by intros [? ?]|rewrite Hs; by intros [? ?]].
    intros _. by rewrite H4.
Qed.

Lemma close_stdin_made_of ty t ks k : made_of ty t ks -> last_client_seq t < k ->
  made_of ty (with_client_seq k (with_stdin None (child_stdin t) t)) ks.
Proof.
  intros [H1 H2 H3 H4] Hk. split; [done| |done|by intros [? ?]].
  eapply Forall_impl; [exact H2|]. cbn. lia.
Qed.

Lemma applied_lossy n ty s t k m w : task_lossy n ty t -> kept n ty m -> in_seq m = Some k ->
  last_client_seq t < k ->
  task_lossy n ty (apply_client_seq k s
    (match m with Stdin _ data => write_stdin data w t | _ => with_stdin None (child_stdin t) t end)).2.
Proof.
  intros [Hl (ks & Hm & Hn)] [Hty Hne] Hk Hlt. pose proof (typed_as_seq _ _ _ Hty Hk) as Hr.
  assert (Hne' : k <> n) by congruence.
  destruct m as [| |k' data|k'| | | | | | |]; try done; injection Hk as ->;
    (split; [cbn -[Z.to_nat]; lia|]).
  - exists (ks ++ [k]). destruct Hty as (_ & d & Hd & Hdm).
    assert (d = data) as -> by (by destruct d; [|injection Hdm]). split.
    + by apply write_stdin_made_of; [|..|lia|].
    + rewrite elem_of_app, list_elem_of_singleton. by intros [?| ->].
  - exists ks. split; [by apply close_stdin_made_of|done].
Qed.

Lemma handle_input_lossy n ty x w reclaim s t s' t' effs st : task_lossy n ty t -> input_kept n ty x ->
  len ty + 1 < u64_modulus -> handle_input x w reclaim s t = (s', t', effs, st) ->
  task_lossy n ty t' /\ inbound s' = inbound s.
Proof.
  intros Ht Hx Hb. pose proof (tl_last _ _ _ Ht) as Hl.
  destruct x as [m|m| |]; [| |by intros [= <- <- _ _]..]; cbn [input_kept] in Hx.
  - destruct m as [| |k data|k| | | | | | |]; cbn [handle_input]; try (by intros [= <- <- _ _]);
      (destruct (Z.ltb_spec (last_client_seq t) k) as [Hk|]; [|by intros [= <- <- _ _]]);
      intros [= <- <- _ _]; (split; [|done]); exact (applied_lossy n ty s t k _ w Ht Hx eq_refl Hk).
  - destruct m as [| |k data|k| | | | | | |]; cbn [handle_input]; try (by intros [= <- <- _ _]).
    destruct (Z.eqb_spec k (add_u64 (last_client_seq t) 1)) as [Hk|]; [|by intros [= <- <- _ _]].
    rewrite add_u64_small in Hk by (unfold is_u64; lia).
    intros [= <- <- _ _]. split; [|done]. exact (applied_lossy n ty s t k _ w Ht Hx eq_refl ltac:(lia)).
Qed.

Lemma task_step_lossy n ty s t ev s' t' effs st : task_lossy n ty t -> Forall (input_kept n ty) (inbound s) ->
  len ty + 1 < u64_modulus -> task_step s t ev = Some (s', t', effs, st) ->
  task_lossy n ty t' /\ Forall (input_kept n ty) (inbound s').
Proof.
  intros Ht Hi Hb. unfold task_step.
  assert (Hfin : forall s1 t1 effs1, task_lossy n ty t1 -> Forall (input_kept n ty) (inbound s1) ->
    (let '(s, t, effs', status) := finish s1 t1 in Some (s, t, effs1 ++ effs', status)) =
      Some (s', t', effs, st) -> task_lossy n ty t' /\ Forall (input_kept n ty) (inbound s')).
  { intros s1 t1 effs1 [Hl (ks & Hm & Hn)] Hi1. destruct (finish s1 t1) as [[[s2 t2] effs2] st2] eqn:Hf.
    intros [= <- <- _ <-]. pose proof (finish_same _ _ _ _ _ _ Hf) as Hs.
    split; [|by destruct Hs as (_ & _ & _ & -> & _)]. split; [by destruct Hs as (-> & _)|].
    exists ks. split; [by eapply made_of_same|done]. }
  assert (Hsame : forall s1 t1 effs1, same_stdin s t s1 t1 ->
    (let '(s, t, effs', status) := finish s1 t1 in Some (s, t, effs1 ++ effs', status)) =
      Some (s', t', effs, st) -> task_lossy n ty t' /\ Forall (input_kept n ty) (inbound s')).
  { intros s1 t1 effs1 Hs. destruct Ht as [Hl (ks & Hm & Hn)]. apply Hfin.
    - split; [by destruct Hs as (-> & _)|]. exists ks. split; [by eapply made_of_same|done].
    - by destruct Hs as (_ & _ & _ & -> & _). }
  destruct ev as [r|r|r|w reclaim|]; cbn [select].
  - destruct (stdout_open t); [|done]. destruct (pump _ _ s t r) as [[s1 t1] effs1] eqn:Hp.
    apply Hsame. by eapply pump_same.
  - destruct (stderr_open t); [|done]. destruct (pump _ _ s t r) as [[s1 t1] effs1] eqn:Hp.
    apply Hsame. by eapply pump_same.
  - case_bool_decide; [|done]. pose proof (read_exit_same s t r) as Hr.
    destruct (read_exit t r) as [t1 effs1]. by apply Hsame.
  - destruct (inbound s) as [|x rest]; [done|]. inversion Hi as [|? ? Hx Hrest]; subst.
    destruct (handle_input _ _ _ _ _) as [[[s1 t1] effs1] st1] eqn:Hh.
    destruct (handle_input_lossy _ _ _ _ _ _ _ _ _ _ _ Ht Hx Hb Hh) as [Ht1 Hi1].
    destruct st1; [apply Hfin; [done|by rewrite Hi1]|]. intros [= <- <- _ _]. split; [done|]. cbn. by rewrite Hi1.
  - destruct (inbound s) eqn:Hq; [|done]. intros [= <- <- _ _]. split; [done|]. cbn. rewrite Hq. constructor.
Qed.

(** ** The server's steps *)

Section LossySteps.
Context `{TL : TransportLib} `{WL : WireLib} `{HL : HttpLib}.
Context (target : Target) (command token : string).

Lemma send_input_kept n ty x s : Forall (input_kept n ty) (inbound s) -> input_kept n ty x ->
  Forall (input_kept n ty) (inbound (send_input x s).1).
Proof.
  intros Hi Hx. unfold send_input. destruct (inbound_closed s); [done|]. cbn.
  apply Forall_app. split; [done|by constructor].
Qed.

(** The server's side moved on; the client did not. *)
Lemma server_lossy n sys s t st h reg ls hi : lossy n sys ->
  Forall (input_kept n (typed sys)) (inbound s) -> task_lossy n (typed sys) t ->
  Forall (link_kept n (typed sys)) ls ->
  lossy n {| session := s; task := t; status := st; handed := h; registered := reg; links := ls;
             client := client sys; phase := phase sys; hist := hi; typed := typed sys |}.
Proof. intros [] ???. by split. Qed.

Lemma reacted_lossy n sys i l rest (r : Reaction) : lossy n sys -> links sys !! i = Some l ->
  Forall (kept n (typed sys)) rest -> Forall (input_kept n (typed sys)) (inbound (r_session r)) ->
  lossy n (reacted i rest l r sys).
Proof.
  intros Hinv Hi Hrest Hin. pose proof (ly_links _ _ Hinv) as Hls.
  apply server_lossy; [done|done|apply Hinv|]. apply Forall_insert; [done|].
  rewrite Forall_lookup in Hls. destruct (Hls i l Hi). by split.
Qed.

Lemma kill_lossy n ty ls : Forall (link_kept n ty) ls -> Forall (link_kept n ty) (map kill ls).
Proof. intros Hls. change (map kill ls) with (kill <$> ls). by apply Forall_fmap. Qed.

Lemma restarts_lossy n is_pipe hub now sys sys' : out_inv sys -> lossy n sys ->
  restarts is_pipe hub now sys = Some sys' -> lossy n sys'.
Proof.
  intros Hout Hinv. unfold restarts. destruct (handed sys) as [h|] eqn:Hh; [|done].
  destruct (registered sys); [done|].
  destruct (oi_handed _ Hout h Hh) as (_ & _ & s0 & acked & reclaim & -> & Ht & _).
  destruct (restore_one _ _ _ _ _ _) as [[s t]|] eqn:Hr; [|done]. intros [= <-].
  destruct (restore_one_keeps _ _ _ _ _ _ _ _ (hist sys) acked _ _ _ Ht Hr)
    as (_ & Hi & _ & _ & Hl & Hch & Hs & _).
  apply server_lossy; [done|by rewrite Hi| |by apply kill_lossy, Hinv].
  destruct (ly_task _ _ Hinv) as [Hlast (ks & [M1 M2 M3 M4] & Hn)].
  split; [by rewrite Hl|]. exists ks. split; [|done]. split; rewrite ?Hl, ?Hch, ?Hs; try done.
  intros Hsome%restored_stdin. by apply M4.
Qed.

(** ** The client's steps *)

Lemma client_lossy n sys c p ls : lossy n sys -> client_seq c = client_seq (client sys) ->
  Forall (kept n (typed sys)) (sent_stdin c) -> Forall (link_kept n (typed sys)) ls ->
  lossy n (with_client c p ls sys).
Proof. intros [] Hc Hs Hl. split; try done. cbn. congruence. Qed.

Lemma duplicates_kept n ty quic ms : Forall (kept n ty) ms -> Forall (kept n ty) (duplicates quic ms).
Proof. rewrite !Forall_forall. intros Hms m Hin%duplicates_elem. by apply Hms. Qed.

Lemma link_sent n ty l l1 (a : Attached) : link_kept n ty l ->
  to_server l1 = to_server l -> dup_to_server l1 = dup_to_server l ->
  Forall (kept n ty) (a_sent a) -> Forall (kept n ty) (a_dup a) ->
  link_kept n ty {| server_end := server_end l1; to_client := to_client l1;
    to_server := to_server l1 ++ a_sent a; dup_to_client := dup_to_client l1;
    dup_to_server := dup_to_server l1 ++ duplicates (over_quic l1) (a_dup a); over_quic := over_quic l1 |}.
Proof.
  intros [H1 H2] E1 E2 Hs Hd. split; cbn; rewrite ?E1, ?E2; apply Forall_app; (split; [done|]); [done|].
  by apply duplicates_kept.
Qed.

Lemma client_did_lossy n sys i l l1 a : lossy n sys -> current sys = Some (i, l) ->
  to_server l1 = to_server l -> dup_to_server l1 = dup_to_server l ->
  client_seq (a_client a) = client_seq (client sys) ->
  Forall (kept n (typed sys)) (sent_stdin (a_client a)) ->
  Forall (kept n (typed sys)) (a_sent a) -> a_dup a = [] ->
  lossy n (client_did i l1 a sys).
Proof.
  intros Hinv [_ Hi]%current_Some E1 E2 Hc Hk Hs Hd. pose proof (ly_links _ _ Hinv) as Hls.
  apply client_lossy; [done|done|done|]. apply Forall_insert; [done|].
  rewrite Forall_lookup in Hls. apply (link_sent _ _ l); try done; [by eapply Hls|by rewrite Hd].
Qed.

Lemma client_message_lossy n sys i l l1 m reliable w : lossy n sys -> current sys = Some (i, l) ->
  to_server l1 = to_server l -> dup_to_server l1 = dup_to_server l ->
  lossy n (client_did i l1 (on_message (client sys) m reliable w) sys).
Proof.
  intros Hinv Hcur E1 E2. destruct (on_message_in (client sys) m reliable w) as (H1 & H2 & H3 & H4).
  eapply client_did_lossy; try done.
  - destruct H4 as [->|(k & _ & ->)]; [apply Hinv|].
    pose proof (ly_sent _ _ Hinv) as Hs. rewrite Forall_forall in Hs |- *.
    intros m' [_ Hin]%list_elem_of_filter. by apply Hs.
  - eapply Forall_impl; [exact H2|]. intros m' [k ->]. split; [by exists k|done].
Qed.

(** A read extends what may be in flight; its message is sent and kept for
    resending, or the send fails. *)
Lemma with_typed_lossy n sys data : lossy n sys ->
  let sys1 := with_typed (ReadOk data) sys in
  Forall (kept n (typed sys1)) (sent_stdin (client sys1)) /\ Forall (link_kept n (typed sys1)) (links sys1) /\
  Forall (input_kept n (typed sys1)) (inbound (session sys1)) /\ task_lossy n (typed sys1) (task sys1).
Proof.
  intros [H1 H2 H3 H4 H5 [H6 (ks & H7 & H8)]]. split_and!.
  - eapply Forall_impl; [exact H3|]. intros m. apply kept_grows.
  - eapply Forall_impl; [exact H4|]. intros l. apply link_kept_grows.
  - eapply Forall_impl; [exact H5|]. intros x. apply input_kept_grows.
  - split; [cbn; rewrite len_app; change (len [data]) with 1; lia|]. exists ks.
    split; [|done]. apply made_of_grows; [apply H6|done].
Qed.

Lemma fresh_read_kept n ty data : n <= len ty -> kept n (ty ++ [data]) (stdin_msg (len ty + 1) data).
Proof.
  intros Hn. split.
  - apply sent_as_typed. rewrite sent_as_snoc. apply elem_of_app. right. by left.
  - rewrite in_seq_stdin_msg. intros [= ?]. lia.
Qed.

Lemma failed_read (ty : list bytes) c data : client_seq c = len ty -> len ty + 1 < u64_modulus ->
  let a := on_stdin c (ReadOk data) false in
  a_sent a = [] /\ a_dup a = [] /\ a_result a = Some (Ok None) /\
  client_seq (a_client a) = len ty + 1 /\ sent_stdin (a_client a) = sent_stdin c /\
  resume_token (a_client a) = resume_token c.
Proof.
  intros Hc Hb. pose proof (len_nonneg ty). unfold on_stdin. rewrite Hc, add_u64_small by (unfold is_u64; lia).
  by destruct data.
Qed.

(** The client forgets about the read [n] when its send fails. *)
Lemma failed_send_lossy n n' sys i l data : lossy n sys -> current sys = Some (i, l) ->
  len (typed sys) + 1 < u64_modulus -> n' = n \/ n' = len (typed sys) + 1 ->
  lossy n' (client_did i l (on_stdin (client sys) (ReadOk data) false) (with_typed (ReadOk data) sys)).
Proof.
  intros Hinv [_ Hi]%current_Some Hb Hn'.
  destruct (failed_read (typed sys) (client sys) data (ly_seq _ _ Hinv) Hb) as (Es & Ed & _ & Ec & Ek & _).
  assert (Hinv' : lossy n' sys \/ n' = len (typed sys) + 1) by (destruct Hn' as [->|?]; auto).
  pose proof (ly_lost _ _ Hinv) as Hlost. pose proof (len_nonneg (typed sys)) as Hlen.
  assert (Hall : let sys1 := with_typed (ReadOk data) sys in
    Forall (kept n' (typed sys1)) (sent_stdin (client sys1)) /\ Forall (link_kept n' (typed sys1)) (links sys1) /\
    Forall (input_kept n' (typed sys1)) (inbound (session sys1)) /\ task_lossy n' (typed sys1) (task sys1)).
  { destruct Hn' as [->| ->]; [by apply with_typed_lossy|].
    assert (Hfresh : forall m, kept n (typed sys) m -> kept (len (typed sys) + 1) (typed sys ++ [data]) m).
    { intros m Hm. apply kept_grows. eapply kept_fresh; [|exact Hm]. lia. }
    destruct Hinv as [H1 H2 H3 H4 H5 [H6 (ks & H7 & H8)]]. split_and!.
    - eapply Forall_impl; [exact H3|]. exact Hfresh.
    - eapply Forall_impl; [exact H4|]. intros l' [K1 K2].
      split; (eapply Forall_impl; [eassumption|]); exact Hfresh.
    - eapply Forall_impl; [exact H5|]. intros []; cbn; try done; apply Hfresh.
    - split; [cbn; rewrite len_app; change (len [data]) with 1; lia|]. exists ks.
      split; [apply made_of_grows; [apply H6|done]|]. intros Hin. pose proof (mo_range _ _ _ H7) as Hr.
      rewrite Forall_forall in Hr. specialize (Hr _ Hin). lia. }
  destruct Hall as (A1 & A2 & A3 & A4). split.
  - cbn. rewrite len_app. change (len [data]) with 1. lia.
  - cbn -[on_stdin]. rewrite Ec, len_app. done.
  - cbn -[on_stdin]. by rewrite Ek.
  - cbn -[on_stdin]. apply Forall_insert; [done|]. rewrite Forall_lookup in A2.
    apply (link_sent _ _ l); try done; [by eapply A2|by rewrite Es|by rewrite Ed].
  - done.
  - done.
Qed.

Lemma client_reads_lossy n sys i l data send_ok : lossy n sys -> current sys = Some (i, l) ->
  len (typed sys) + 1 < u64_modulus ->
  lossy n (client_did i l (on_stdin (client sys) (ReadOk data) send_ok) (with_typed (ReadOk data) sys)).
Proof.
  intros Hinv Hcur Hb. destruct send_ok; [|eapply failed_send_lossy; eauto].
  destruct (current_Some _ _ _ Hcur) as [_ Hi].
  destruct (on_stdin_ok (typed sys) (client sys) data (ly_seq _ _ Hinv) Hb) as (Es & Ed & _ & Ec & Ek).
  destruct (with_typed_lossy n sys data Hinv) as (A1 & A2 & A3 & A4).
  pose proof (ly_lost _ _ Hinv) as Hlost.
  pose proof (fresh_read_kept n (typed sys) data ltac:(lia)) as Hm. split.
  - cbn. rewrite len_app. change (len [data]) with 1. lia.
  - cbn -[on_stdin]. rewrite Ec, len_app. done.
  - cbn -[on_stdin]. rewrite Ek. apply Forall_app. split; [done|by constructor].
  - cbn -[on_stdin]. apply Forall_insert; [done|]. rewrite Forall_lookup in A2.
    apply (link_sent _ _ l); try done; [by eapply A2|rewrite Es; by constructor|rewrite Ed; by constructor].
  - done.
  - done.
Qed.

Lemma connects_lossy n now quic resend_ok sys sys' : lossy n sys ->
  connects target command token now quic resend_ok sys = Some sys' -> lossy n sys'.
Proof.
  intros Hinv. unfold connects. destruct (phase sys); [|done|done].
  destruct (request _ _ _); [done| |done]. destruct (_ && _); [|done].
  destruct (on_connect _ _ _) as [c| | |] eqn:Hon; try done.
  destruct (on_connect_keeps target (client sys) _ c (or_introl Hon)) as (_ & _ & _ & Es & Ec & _).
  unfold resend. intros [= <-]. apply client_lossy; [done|done|rewrite Es; apply Hinv|].
  apply Forall_app. split; [apply Hinv|]. constructor; [|constructor].
  split; cbn; [|constructor]. rewrite Es. apply Forall_take, Hinv.
Qed.

Lemma connect_fails_lossy n e login sys sys' : lossy n sys ->
  connect_fails target e login sys = Some sys' -> lossy n sys'.
Proof.
  intros Hinv. unfold connect_fails. destruct (phase sys); [|done|done]. destruct (_ && _); [done|].
  destruct (on_connect _ _ _) as [c|c k cfg|d c|e'] eqn:Hon; [done|..]; intros [= <-].
  - destruct (on_connect_keeps target (client sys) (Err e) c) as (_ & _ & _ & Es & Ec & _);
      [right; right; by eexists _, _|]. apply client_lossy; [done|done|rewrite Es|]; apply Hinv.
  - destruct (on_connect_keeps target (client sys) (Err e) c) as (_ & _ & _ & Es & Ec & _);
      [right; left; by eexists|]. apply client_lossy; [done|done|rewrite Es|]; apply Hinv.
  - apply client_lossy; [done|done|..]; apply Hinv.
Qed.

Lemma sys_step_lossy n sys ev sys' : out_inv sys -> lossy n sys -> len (typed sys) + 1 < u64_modulus ->
  sys_step target command token sys ev = Some sys' -> lossy n sys'.
Proof.
  intros Hout Hinv Hb. pose proof (ly_links _ _ Hinv) as Hls. pose proof (ly_inbound _ _ Hinv) as Hin.
  destruct ev; cbn [sys_step].
  - unfold task_runs. destruct (System.status sys); [|done].
    destruct (task_step _ _ ev) as [[[[s t] effs] st]|] eqn:Hstep; [|done]. intros [= <-].
    destruct (task_step_lossy _ _ _ _ _ _ _ _ _ (ly_task _ _ Hinv) Hin Hb Hstep). by apply server_lossy.
  - destruct (live_end i sys) as [[l a]|] eqn:Hl; [|done]. intros [= <-].
    apply live_end_Some in Hl as [Hi _]. apply server_lossy; [done|done|apply Hinv|].
    apply Forall_insert; [done|]. rewrite Forall_lookup in Hls. destruct (Hls i l Hi) as [L1 L2].
    unfold flush_link. destruct (flush _ a), ok_until; by split.
  - destruct (live_end i sys) as [[l a]|] eqn:Hl; [|done]. destruct (to_server l) as [|m rest] eqn:Hq; [done|].
    intros [= <-]. apply live_end_Some in Hl as [Hi _]. rewrite Forall_lookup in Hls.
    destruct (Hls i l Hi) as [L1 L2]. rewrite Hq in L1. inversion L1 as [|? ? Hm Hrest]; subst.
    apply reacted_lossy; [done|done|done|]. destruct (on_message_session (session sys) a m) as [_ ->].
    destruct m; try done; by apply send_input_kept.
  - destruct (live_end i sys) as [[l a]|] eqn:Hl; [|done]. destruct (dup_to_server l !! j) as [m|] eqn:Hj; [|done].
    intros [= <-]. apply live_end_Some in Hl as [Hi _]. rewrite Forall_lookup in Hls.
    destruct (Hls i l Hi) as [L1 L2]. rewrite Forall_lookup in L2. pose proof (L2 j m Hj) as Hm.
    apply reacted_lossy; [done|done|done|]. by apply send_input_kept.
  - destruct (live_end i sys) as [[l a]|] eqn:Hl; [|done]. intros [= <-].
    apply live_end_Some in Hl as [Hi _]. rewrite Forall_lookup in Hls. destruct (Hls i l Hi) as [L1 L2].
    apply reacted_lossy; [done|done|done|]. destruct (lost_session (session sys) a (Ok tt)) as [_ ->].
    destruct (resumable _); [done|by apply send_input_kept].
  - intros [= <-]. apply server_lossy; [done|by apply send_input_kept|apply Hinv|done].
  - intros [= <-]. apply server_lossy; [done|by apply send_input_kept|apply Hinv|done].
  - unfold hands_over. destruct (handed sys); [|done]. intros [= <-]. by apply server_lossy; [| |apply Hinv|].
  - by apply restarts_lossy.
  - intros [= <-]. apply server_lossy; [done|done|apply Hinv|by apply kill_lossy].
  - destruct (current sys) as [[i l]|] eqn:Hc; [|done]. destruct (stdin_open _); [|done].
    intros [= <-]. destruct r as [data|]; [by apply client_reads_lossy|].
    assert (lossy n (with_typed ReadErr sys)) by (by destruct Hinv).
    eapply client_did_lossy; [done|exact Hc|done|done|done|apply Hinv|constructor|done].
  - destruct (current sys) as [[i l]|] eqn:Hc; [|done]. destruct (to_client l); [done|].
    intros [= <-]. by eapply client_message_lossy.
  - destruct (current sys) as [[i l]|] eqn:Hc; [|done]. destruct (dup_to_client l !! j) as [m|]; [|done].
    intros [= <-]. by eapply client_message_lossy.
  - destruct (current sys) as [[i l]|] eqn:Hc; [|done]. intros [= <-].
    eapply client_did_lossy; [done|exact Hc|done|done|done|apply Hinv|constructor|done].
  - by apply connects_lossy.
  - by apply connect_fails_lossy.
Qed.

Lemma sys_step_typed_prefix sys ev sys' : sys_step target command token sys ev = Some sys' ->
  typed sys `prefix_of` typed sys'.
Proof.
  destruct ev; cbn [sys_step]; unfold task_runs, hands_over, restarts, connects, connect_fails, with_typed;
    repeat match goal with
      | |- context [match ?x with _ => _ end] => destruct x
      end; try done; intros [= <-]; cbn; try done; by apply prefix_app_r.
Qed.

Lemma sys_run_lossy n evs : forall sys sys', out_inv sys -> lossy n sys ->
  len (hist sys) + len evs < u64_modulus -> len (typed sys) + len evs < u64_modulus ->
  sys_run target command token sys evs = Some sys' ->
  lossy n sys' /\ len (typed sys') <= len (typed sys) + len evs /\ typed sys `prefix_of` typed sys'.
Proof.
  induction evs as [|ev evs IH]; intros sys sys' Hout Hinv Hb Hb'; cbn [sys_run].
  { intros [= <-]. rewrite len_nil. split_and!; [done|lia|done]. }
  rewrite len_cons in *. pose proof (len_nonneg evs).
  destruct (sys_step _ _ _ sys ev) as [sys1|] eqn:Hstep; [|done]. intros Hrun.
  pose proof (sys_step_hist _ _ _ _ _ _ Hout ltac:(lia) Hstep).
  pose proof (sys_step_typed _ _ _ _ _ _ Hstep).
  pose proof (sys_step_typed_prefix _ _ _ Hstep) as Hp.
  destruct (IH sys1 sys') as (K1 & K2 & K3);
    [eapply sys_step_out_inv; [done|lia|done]|eapply sys_step_lossy; [exact Hout|done|lia|done]|lia|lia|done|].
  split_and!; [done|lia|by etrans].
Qed.

End LossySteps.

(** ** Properties *)

(** No copy of the [n]-th read is in flight, queued or kept for resending. *)
Record no_copy_of (n : Z) (sys : System) : Prop := {
  nc_sent : forall m, m ∈ sent_stdin (client sys) -> in_seq m <> Some n;
  nc_links : forall i l m, links sys !! i = Some l -> m ∈ to_server l ++ dup_to_server l -> in_seq m <> Some n;
  nc_inbound : forall m, Message m ∈ inbound (session sys) \/ Datagram m ∈ inbound (session sys) ->
    in_seq m <> Some n;
}.

Lemma lossy_no_copy n sys : lossy n sys -> no_copy_of n sys.
Proof.
  intros [_ _ H3 H4 H5 _]. rewrite Forall_forall in H3. rewrite Forall_forall in H5. rewrite Forall_lookup in H4. split.
  - intros m Hm. by apply H3.
  - intros i l m Hi [Hm|Hm]%elem_of_app; destruct (H4 i l Hi) as [L1 L2]; rewrite Forall_forall in L1, L2;
      [by apply L1|by apply L2].
  - intros m [Hm|Hm]; by apply (H5 _ Hm).
Qed.

(** C38: a failed send loses stdin for good.  Take any run of the system, and
    then a piece of stdin that the client reads and fails to send.  The client
    reconnects; but the piece, the [n]-th that was read, has a number and is
    kept nowhere, and in every continuation (any reconnects, resends, later
    reads, restarts) no copy of it exists on any connection, in the session's
    queue or in the client's resend buffer, and what the child's stdin took is
    made of other reads, each at most once and in order, with the [n]-th left
    out. *)
Theorem failed_send_loses_stdin `{TL : TransportLib} `{WL : WireLib} `{HL : HttpLib}
    (target : Target) (command token : string) (a b c d : Z) (pid : option Z) (agent : bool) (now : Z)
    (quic : bool) (before after : list SysEvent) (sys sys1 sys2 : System) (data : bytes) :
  len before + len after + 1 < u64_modulus ->
  sys_run target command token (sys_begin token a b c d pid agent now quic) before = Some sys ->
  sys_step target command token sys (ClientReads (ReadOk data) false) = Some sys1 ->
  sys_run target command token sys1 after = Some sys2 ->
  let n := len (typed sys) + 1 in
  phase sys1 = Connecting /\ typed sys2 !! Z.to_nat (n - 1) = Some data /\ no_copy_of n sys2 /\
  exists ks, StronglySorted Z.lt ks /\ n ∉ ks /\ Forall (fun k => 1 <= k <= len (typed sys2)) ks /\
    child_stdin (task sys2) `prefix_of` reads (typed sys2) ks /\
    (is_Some (stdin (task sys2)) -> child_stdin (task sys2) = reads (typed sys2) ks).
Proof.
  intros Hlen Hrun Hstep Hrun' n.
  destruct (sys_begin_inv token a b c d pid agent now quic) as (Hout0 & Hin0 & Hh0 & Ht0 & _ & Hz & Hz').
  assert (Hinv0 : lossy 0 (sys_begin token a b c d pid agent now quic)).
  { unfold sys_begin in *. destruct (start_session a b c d pid true agent now) as [s t] eqn:Hs.
    unfold start_session in Hs. injection Hs as <- <-.
    split; cbn; [change (len (@nil bytes)) with 0; lia|done|constructor|by repeat constructor|constructor|].
    split; [cbn; change (len (@nil bytes)) with 0; lia|]. exists []. split; [|by intros ?%elem_of_nil].
    by split; [constructor|constructor|..]. }
  pose proof (len_nonneg after). pose proof (len_nonneg before).
  destruct (run_begin target command token a b c d pid agent now quic before sys ltac:(lia) Hrun)
    as (Hout & Hlh & Htok & _).
  destruct (sys_run_lossy target command token 0 before _ _ Hout0 Hinv0 ltac:(lia) ltac:(lia) Hrun)
    as (Hinv & Hlt & _).
  pose proof (sys_step_hist _ _ _ _ _ _ Hout ltac:(lia) Hstep) as Hlh1.
  pose proof (sys_step_typed _ _ _ _ _ _ Hstep) as Hlt1.
  pose proof (sys_step_out_inv _ _ _ _ _ _ Hout ltac:(lia) Hstep) as Hout1.
  cbn [sys_step] in Hstep. destruct (current sys) as [[i l]|] eqn:Hc; [|done].
  destruct (stdin_open _); [|done]. 
  assert (Hs1 : client_did i l (on_stdin (client sys) (ReadOk data) false) (with_typed (ReadOk data) sys) = sys1)
    by congruence.
  pose proof (failed_send_lossy 0 n sys i l data Hinv Hc ltac:(lia) (or_intror eq_refl)) as Hinv1.
  rewrite Hs1 in Hinv1.
  assert (Hp1 : phase sys1 = Connecting).
  { rewrite <- Hs1. cbn -[on_stdin]. unfold phase_after.
    destruct (failed_read (typed sys) (client sys) data (ly_seq _ _ Hinv) ltac:(lia)) as (_ & _ & -> & _ & _ & Hr).
    unfold after_attached. by rewrite Hr, Htok. }
  assert (Hty1 : typed sys1 = typed sys ++ [data]) by by rewrite <- Hs1.
  destruct (sys_run_lossy target command token n after _ _ Hout1 Hinv1 ltac:(lia) ltac:(lia) Hrun')
    as (Hinv2 & _ & [more Hmore]).
  split_and!; [done| |by apply lossy_no_copy|].
  - rewrite Hmore, Hty1. apply lookup_app_l_Some. subst n. unfold len.
    rewrite lookup_app_r by lia. by replace (Z.to_nat _ - _)%nat with 0%nat by lia.
  - destruct (ly_task _ _ Hinv2) as [Hl (ks & [M1 M2 M3 M4] & Hn)]. exists ks.
    split_and!; try done. eapply Forall_impl; [exact M2|]. cbn. lia.
Qed.

(** The send of the first byte fails, the second one arrives, and both sides
    agree that all of stdin is applied. *)
Definition lost_input : list SysEvent :=
  [Connects 10 false 0; ClientReads (ReadOk [66]) true; ServerFrame 1;
   TaskRuns (InboundRecv WroteAll (fun _ => true)); Flushes 1 None; ClientFrame WroteAll].

Example lost_input_unnoticed :
  let sys := example_end (ClientReads (ReadOk [65]) false :: lost_input) in
  typed sys = [[65]; [66]] /\ child_stdin (task sys) = [66] /\ sent_stdin (client sys) = [] /\
  client_seq (client sys) = 2 /\ last_client_seq (task sys) = 2.
Proof. vm_compute. by split_and!. Qed.

Lemma failed_send_loses_stdin_witness :
  let sys := example_end (ClientReads (ReadOk [65]) false :: lost_input) in
  child_stdin (task sys) = [66] /\ no_copy_of 1 sys.
Proof.
  intros sys. split; [vm_compute; reflexivity|].
  refine (proj1 (proj2 (proj2 (@failed_send_loses_stdin example_lib toy_wire Auth.toy_jwt Auth.toy_http
    example_target "cat" "100-5-0" 4 5 6 7 (Some 100) false 0 true [] lost_input
    example_begin (example_end [ClientReads (ReadOk [65]) false]) sys [65] _ _ _ _)))).
  all: vm_compute; reflexivity.
Defined.
