(* ===== verification/Refinement.v ===== *)
(** * Remote execution refines local execution

    The abstract specification of [run_exec]: a command connected to the user's
    terminal by pipes, as if it ran on the user's own machine.  The composed
    program of [System] refines it: every step, seen through [view], is a few
    actions of the local command, each by the party that took the step. *)

From S2P Require Import Prelude Proto Auth OutboundLog Session Exec Channel Registry Attach Handover.
From S2P Require Import Target RunExec Gapless System SystemOut SystemIn EndToEnd.

(** ** The specification *)

(** What the command wrote, what of it the user sees, what the user typed, what
    of it the command has read, and how the two ended. *)
Record Local := {
  printed : bytes * bytes;
  shown : bytes * bytes;
  entered : bytes;
  consumed : bytes;
  ended : option Z;
  returned : option (result Z ClientError);
}.

Inductive Action : Type :=
| Prints (o e : bytes)
| Consumes (data : bytes)
| Ends (code : Z)
| Enters (data : bytes)
| Shows (o e : bytes)
| Returns (r : result Z ClientError).

Definition local_start : Local :=
  {| printed := ([], []); shown := ([], []); entered := []; consumed := []; ended := None; returned := None |}.

Definition is_none {A} (o : option A) : bool := match o with None => true | Some _ => false end.

(** The command acts until it ends, the terminal until it is told the exit code
    or fails.  Nothing is invented, reordered or repeated in either direction,
    and the exit code is the command's, reported after its last byte. *)
Definition allowed (x : Local) (act : Action) : bool :=
  match act with
  | Prints _ _ | Ends _ => is_none (ended x)
  | Consumes data => is_none (ended x) && bool_decide (consumed x ++ data `prefix_of` entered x)
  | Enters _ => is_none (returned x)
  | Shows o e => is_none (returned x) &&
      bool_decide ((shown x).1 ++ o `prefix_of` (printed x).1 /\ (shown x).2 ++ e `prefix_of` (printed x).2)
  | Returns (Ok code) => is_none (returned x) && bool_decide (ended x = Some code /\ shown x = printed x)
  | Returns (Err _) => is_none (returned x)
  end.

Definition perform (x : Local) (act : Action) : Local :=
  let '(Build_Local pr sh en co ed re) := x in
  match act with
  | Prints o e => Build_Local (pr.1 ++ o, pr.2 ++ e) sh en co ed re
  | Shows o e => Build_Local pr (sh.1 ++ o, sh.2 ++ e) en co ed re
  | Enters data => Build_Local pr sh (en ++ data) co ed re
  | Consumes data => Build_Local pr sh en (co ++ data) ed re
  | Ends code => Build_Local pr sh en co (Some code) re
  | Returns r => Build_Local pr sh en co ed (Some r)
  end.

Definition local_step (x : Local) (act : Action) : option Local :=
  if allowed x act then Some (perform x act) else None.

Fixpoint local_run (x : Local) (acts : list Action) : option Local :=
  match acts with
  | [] => Some x
  | act :: acts => match local_step x act with Some x => local_run x acts | None => None end
  end.

(** ** The view of the composed program *)

(** The exit code, once the log ends with it. *)
Definition ended_with (h : list ChannelMessage) : option Z :=
  match list.last h with Some (Exit _ code) => Some code | _ => None end.

Definition view (sys : System) : Local :=
  {| printed := (stdout_bytes (hist sys), stderr_bytes (hist sys));
     shown := (out (client sys), err (client sys));
     entered := concat (typed sys);
     consumed := child_stdin (task sys);
     ended := ended_with (hist sys);
     returned := match phase sys with Finished r => Some r | _ => None end |}.

(** Who acts in a step: the command through the session task, the user through
    the client's stdin, the client on its terminal, or nobody. *)
Definition causes (ev : SysEvent) (act : Action) : Prop :=
  match ev, act with
  | TaskRuns _, (Prints _ _ | Consumes _ | Ends _) => True
  | ClientReads _ _, Enters _ => True
  | (ClientFrame _ | ClientDatagram _ _), (Shows _ _ | Returns _) => True
  | (ClientReads _ _ | ClientLost | ConnectFails _ _), Returns (Err _) => True
  | _, _ => False
  end.

(** ** Lemmas *)

Lemma local_run_app acts1 : forall x acts2, local_run x (acts1 ++ acts2) =
  match local_run x acts1 with Some y => local_run y acts2 | None => None end.
Proof.
  induction acts1 as [|act acts1 IH]; intros x acts2; [done|]. cbn. by destruct (local_step x act).
Qed.

Lemma local_step_ok x act : allowed x act = true -> local_step x act = Some (perform x act).
Proof. unfold local_step. by intros ->. Qed.

Lemma ended_stdio h : Forall is_stdio h -> ended_with h = None.
Proof.
  unfold ended_with. destruct (list.last h) as [m|] eqn:Hm; [|done]. intros Hall.
  rewrite Forall_lookup in Hall. rewrite last_lookup in Hm. specialize (Hall _ _ Hm). by destruct m.
Qed.

Lemma ended_exit h n code : ended_with (h ++ [Exit n code]) = Some code.
Proof. unfold ended_with. by rewrite last_snoc. Qed.

(** The child's stdin only grows. *)
Lemma write_stdin_grows data w t : exists d, child_stdin (write_stdin data w t) = child_stdin t ++ d.
Proof.
  unfold write_stdin. destruct (stdin t), w; cbn; eauto using app_nil_r.
  all: exists []; by rewrite app_nil_r.
Qed.

Lemma same_stdin_grows s t s' t' : same_stdin s t s' t' -> exists d, child_stdin t' = child_stdin t ++ d.
Proof. intros (_ & -> & _). exists []. by rewrite app_nil_r. Qed.

Lemma handle_input_grows x w reclaim s t s' t' effs st : handle_input x w reclaim s t = (s', t', effs, st) ->
  exists d, child_stdin t' = child_stdin t ++ d.
Proof.
  assert (Hno : exists d, child_stdin t = child_stdin t ++ d) by (exists []; by rewrite app_nil_r).
  destruct x as [m|m| |]; [destruct m as [| |n data|n| | | | | | |]..| |]; cbn [handle_input];
    try (by intros [= _ <- _ _]); destruct (_ : bool); intros [= _ <- _ _]; try done.
  all: apply write_stdin_grows.
Qed.

Lemma task_step_grows s t ev s' t' effs st : task_step s t ev = Some (s', t', effs, st) ->
  exists d, child_stdin t' = child_stdin t ++ d.
Proof.
  unfold task_step.
  assert (Hfin : forall s1 t1 effs1, (exists d, child_stdin t1 = child_stdin t ++ d) ->
    (let '(s, t, effs', status) := finish s1 t1 in Some (s, t, effs1 ++ effs', status)) =
      Some (s', t', effs, st) -> exists d, child_stdin t' = child_stdin t ++ d).
  { intros s1 t1 effs1 [d Hd]. destruct (finish s1 t1) as [[[s2 t2] effs2] st2] eqn:Hf.
    intros [= _ <- _ _]. apply finish_same in Hf as (_ & -> & _). by exists d. }
  destruct ev as [r|r|r|w reclaim|]; cbn [select].
  - destruct (stdout_open t); [|done]. destruct (pump _ _ s t r) as [[s1 t1] effs1] eqn:Hp.
    apply Hfin. by eapply same_stdin_grows, pump_same.
  - destruct (stderr_open t); [|done]. destruct (pump _ _ s t r) as [[s1 t1] effs1] eqn:Hp.
    apply Hfin. by eapply same_stdin_grows, pump_same.
  - case_bool_decide; [|done]. pose proof (read_exit_same s t r) as Hr.
    destruct (read_exit t r) as [t1 effs1]. apply Hfin. by eapply same_stdin_grows.
  - destruct (inbound s) as [|x rest]; [done|].
    destruct (handle_input _ _ _ _ _) as [[[s1 t1] effs1] st1] eqn:Hh. apply handle_input_grows in Hh.
    destruct st1; [by apply Hfin|]. by intros [= _ <- _ _].
  - destruct (inbound s); [|done]. intros [= _ <- _ _]. exists []. by rewrite app_nil_r.
Qed.

(** ** The command's steps *)

Definition ends_acts (o : option Z) : list Action := match o with Some code => [Ends code] | None => [] end.

Lemma command_acts (x : Local) d o e en : ended x = None -> consumed x ++ d `prefix_of` entered x ->
  local_run x ([Consumes d; Prints o e] ++ ends_acts en) =
    Some {| printed := ((printed x).1 ++ o, (printed x).2 ++ e); shown := shown x; entered := entered x;
            consumed := consumed x ++ d; ended := en; returned := returned x |}.
Proof.
  destruct x as [pr sh ty co ed re]. cbn [ended consumed entered printed shown returned fst snd].
  intros -> Hp. cbn [app local_run].
  rewrite local_step_ok by (cbn; by apply bool_decide_eq_true). cbn [perform local_run].
  rewrite local_step_ok by done. by destruct en.
Qed.

Lemma task_runs_refines sys ev sys' : out_inv sys -> in_inv sys' -> task_runs ev sys = Some sys' ->
  exists acts, Forall (causes (TaskRuns ev)) acts /\ local_run (view sys) acts = Some (view sys').
Proof.
  intros Hout Hin. unfold task_runs. destruct (status sys) eqn:Hst; [|done].
  destruct (task_step _ _ ev) as [[[[s t] effs] st]|] eqn:Hstep; [|done].
  apply task_step_grows in Hstep as [d Hd]. intros [= <-].
  pose proof (tn_child _ _ _ (ii_task _ Hin)) as Hc. cbn -[Z.to_nat] in Hc. rewrite Hd in Hc.
  assert (Hs : Forall is_stdio (hist sys)) by (destruct (oi_hist _ Hout) as [?|(? & _)]; congruence).
  exists ([Consumes d; Prints (stdout_bytes (logged effs)) (stderr_bytes (logged effs))]
            ++ ends_acts (ended_with (hist sys ++ logged effs))). split.
  - apply Forall_app. split; [by repeat constructor|]. destruct (ended_with _); by repeat constructor.
  - rewrite command_acts.
    + unfold view. cbn -[stdout_bytes stderr_bytes ended_with]. by rewrite stdout_bytes_app, stderr_bytes_app, Hd.
    + by apply ended_stdio.
    + cbn. etrans; [exact Hc|]. rewrite <- (take_drop (Z.to_nat (last_client_seq t)) (typed sys)) at 2.
      rewrite concat_app. by apply prefix_app_r.
Qed.

(** ** The client's steps *)

Definition shows_acts (o e : bytes) : list Action :=
  match o, e with [], [] => [] | _, _ => [Shows o e] end.
Definition returns_acts (p : Phase) : list Action := match p with Finished r => [Returns r] | _ => [] end.

Lemma client_acts (x : Local) o e p : returned x = None ->
  (shown x).1 ++ o `prefix_of` (printed x).1 -> (shown x).2 ++ e `prefix_of` (printed x).2 ->
  (forall code, p = Finished (Ok code) ->
     ended x = Some code /\ ((shown x).1 ++ o, (shown x).2 ++ e) = printed x) ->
  local_run x (shows_acts o e ++ returns_acts p) =
    Some {| printed := printed x; shown := ((shown x).1 ++ o, (shown x).2 ++ e); entered := entered x;
            consumed := consumed x; ended := ended x;
            returned := match p with Finished r => Some r | _ => None end |}.
Proof.
  destruct x as [pr [so se] ty co ed re]. cbn [ended consumed entered printed shown returned fst snd].
  intros -> Ho He Hret.
  assert (Hs : local_run (Build_Local pr (so, se) ty co ed None) (shows_acts o e) =
               Some (Build_Local pr (so ++ o, se ++ e) ty co ed None)).
  { unfold shows_acts. destruct o, e; [by rewrite !app_nil_r|..]; cbn [local_run];
      by rewrite local_step_ok by (cbn; by apply bool_decide_eq_true). }
  rewrite local_run_app, Hs. destruct p as [| |[code|err]]; try done.
  destruct (Hret code eq_refl) as [-> Hall]. cbn [returns_acts local_run].
  by rewrite local_step_ok by (cbn; by apply bool_decide_eq_true).
Qed.

(** Showing more of what was printed, as the invariant allows. *)
Lemma client_refines sys sys' o e : out_inv sys' -> (forall r, phase sys <> Finished r) ->
  hist sys' = hist sys -> concat (typed sys') = concat (typed sys) ->
  child_stdin (task sys') = child_stdin (task sys) ->
  out (client sys') = out (client sys) ++ o -> err (client sys') = err (client sys) ++ e ->
  local_run (view sys) (shows_acts o e ++ returns_acts (phase sys')) = Some (view sys').
Proof.
  intros Hinv Hp Hh Hty Hc Ho He. pose proof (oi_client _ Hinv) as Hok. rewrite Hh in Hok.
  assert (Hpre : forall k, stdout_bytes (take k (hist sys)) `prefix_of` stdout_bytes (hist sys) /\
                           stderr_bytes (take k (hist sys)) `prefix_of` stderr_bytes (hist sys)).
  { intros k. rewrite <- (take_drop k (hist sys)) at 2 4. rewrite stdout_bytes_app, stderr_bytes_app.
    split; by apply prefix_app_r. }
  set (k := Z.to_nat (last_server_seq (client sys'))) in *.
  assert (Hle : out (client sys') `prefix_of` stdout_bytes (hist sys) /\
                err (client sys') `prefix_of` stderr_bytes (hist sys)).
  { unfold client_ok in Hok. destruct (Hpre k) as [P1 P2].
    destruct (phase sys') as [| |[]]; [destruct Hok as [-> ->]|destruct Hok as [-> ->]| |]; [done|done| |].
    - by destruct Hok as (_ & -> & ->).
    - destruct Hok. split; by etrans. }
  rewrite client_acts; cbn.
  - unfold view. by rewrite Hh, Hty, Hc, Ho, He.
  - destruct (phase sys); [done|done|by destruct (Hp r)].
  - rewrite <- Ho. apply Hle.
  - rewrite <- He. apply Hle.
  - intros code Hcode. rewrite Hcode in Hok. destruct Hok as ((h' & -> & _) & H1 & H2).
    rewrite <- Ho, <- He. by rewrite ended_exit, H1, H2.
Qed.

Lemma on_message_grows c m reliable w : exists o e,
  out (a_client (on_message c m reliable w)) = out c ++ o /\
  err (a_client (on_message c m reliable w)) = err c ++ e.
Proof.
  assert (Hno : exists o e, out c = out c ++ o /\ err c = err c ++ e).
  { exists [], []. by rewrite !app_nil_r. }
  assert (Hw : forall stream n data, exists o e, out (a_client (write_out stream n data w c)) = out c ++ o /\
    err (a_client (write_out stream n data w c)) = err c ++ e).
  { intros stream n data. unfold write_out.
    destruct stream, w as [|k]; cbn.
    - exists data, []. by rewrite app_nil_r.
    - exists (take k data), []. by rewrite app_nil_r.
    - exists [], data. by rewrite app_nil_r.
    - exists [], (take k data). by rewrite app_nil_r. }
  destruct m; cbn [on_message]; try done; destruct (is_next _ _ _); done || apply Hw.
Qed.

Section Simulation.
Context `{TL : TransportLib} `{WL : WireLib} `{HL : HttpLib}.
Context (target : Target) (command token : string).

Notation step := (sys_step target command token).

(** What the client wrote and did in one of its own steps. *)
Lemma client_did_refines sys i l a o e : out_inv (client_did i l a sys) ->
  (forall r, phase sys <> Finished r) ->
  out (a_client a) = out (client sys) ++ o -> err (a_client a) = err (client sys) ++ e ->
  local_run (view sys) (shows_acts o e ++ returns_acts (phase_after i a)) = Some (view (client_did i l a sys)).
Proof. intros Hinv Hp Ho He. exact (client_refines sys _ o e Hinv Hp eq_refl eq_refl eq_refl Ho He). Qed.

Lemma shows_causes ev o e p : (forall act, act ∈ [Shows o e] ++ returns_acts p -> causes ev act) ->
  Forall (causes ev) (shows_acts o e ++ returns_acts p).
Proof.
  intros Hall. apply Forall_forall. intros act Hact. apply Hall. revert Hact. rewrite !elem_of_app.
  unfold shows_acts. destruct o, e; rewrite ?elem_of_nil; tauto.
Qed.

Lemma message_refines sys i l l1 m reliable w ev : current sys = Some (i, l) ->
  (exists w, ev = ClientFrame w) \/ (exists j w, ev = ClientDatagram j w) ->
  out_inv (client_did i l1 (on_message (client sys) m reliable w) sys) ->
  exists acts, Forall (causes ev) acts /\
    local_run (view sys) acts = Some (view (client_did i l1 (on_message (client sys) m reliable w) sys)).
Proof.
  intros [Hp _]%current_Some Hev Hinv. destruct (on_message_grows (client sys) m reliable w) as (o & e & Ho & He).
  eexists. split; [|apply client_did_refines; [done|by rewrite Hp|exact Ho|exact He]].
  apply shows_causes. intros act Hact.
  assert (causes (ClientFrame w) act) as Hc.
  { apply elem_of_cons in Hact as [->|Hact]; [done|]. unfold returns_acts in Hact.
    destruct (phase_after _ _); [by apply elem_of_nil in Hact..|]. by apply list_elem_of_singleton in Hact as ->. }
  destruct Hev as [[w' ->]|(j & w' & ->)]; exact Hc.
Qed.

(** Steps that leave the client's output alone: at most it gives up. *)
Lemma silent_refines sys sys' ev : out_inv sys' -> (forall r, phase sys <> Finished r) ->
  hist sys' = hist sys -> concat (typed sys') = concat (typed sys) ->
  child_stdin (task sys') = child_stdin (task sys) ->
  out (client sys') = out (client sys) -> err (client sys') = err (client sys) ->
  (forall r, phase sys' = Finished r -> causes ev (Returns r)) ->
  exists acts, Forall (causes ev) acts /\ local_run (view sys) acts = Some (view sys').
Proof.
  intros Hinv Hp Hh Hty Hc Ho He Hr. exists (shows_acts [] [] ++ returns_acts (phase sys')). split.
  - cbn [shows_acts app]. unfold returns_acts. destruct (phase sys'); [constructor..|].
    constructor; [by apply Hr|constructor].
  - apply client_refines; rewrite ?app_nil_r; done.
Qed.

Lemma stutter_refines sys sys' ev : view sys' = view sys ->
  exists acts, Forall (causes ev) acts /\ local_run (view sys) acts = Some (view sys').
Proof. intros ->. by exists []. Qed.

Lemma step_refines sys ev sys' : out_inv sys -> in_inv sys' -> out_inv sys' -> step sys ev = Some sys' ->
  exists acts, Forall (causes ev) acts /\ local_run (view sys) acts = Some (view sys').
Proof.
  intros Hout Hin Hout'. destruct ev; cbn [sys_step].
  - by apply task_runs_refines.
  - destruct (live_end i sys) as [[l a]|]; [|done]. intros [= <-]. by apply stutter_refines.
  - destruct (live_end i sys) as [[l a]|]; [|done]. destruct (to_server l); [done|].
    intros [= <-]. by apply stutter_refines.
  - destruct (live_end i sys) as [[l a]|]; [|done]. destruct (dup_to_server l !! j); [|done].
    intros [= <-]. by apply stutter_refines.
  - destruct (live_end i sys) as [[l a]|]; [|done]. intros [= <-]. by apply stutter_refines.
  - intros [= <-]. by apply stutter_refines.
  - intros [= <-]. by apply stutter_refines.
  - unfold hands_over. destruct (handed sys); [|done]. intros [= <-]. by apply stutter_refines.
  - unfold restarts. destruct (handed sys) as [h|] eqn:Hh; [|done].
    destruct (registered sys); [done|]. destruct (oi_handed _ Hout h Hh) as (_ & _ & s0 & acked & reclaim & -> & Ht & _).
    destruct (restore_one _ _ _ _ _ _) as [[s t]|] eqn:Hr; [|done]. intros [= <-].
    destruct (restore_one_keeps _ _ _ _ _ _ _ _ (hist sys) acked _ _ _ Ht Hr) as (_ & _ & _ & _ & _ & Hch & _).
    apply stutter_refines. unfold view. cbn. by rewrite Hch.
  - intros [= <-]. by apply stutter_refines.
  - destruct (current sys) as [[i l]|] eqn:Hc; [|done]. destruct (stdin_open _); [|done].
    apply current_Some in Hc as [Hp _]. intros [= <-].
    destruct (silent_refines (with_typed r sys) (client_did i l (on_stdin (client sys) r send_ok) (with_typed r sys))
      (ClientReads r send_ok)) as (acts & Hacts & Hrun); try done; [cbn; by rewrite Hp| | | |].
    1-2: by destruct r as [[|b r]|], send_ok.
    { intros res. cbn [phase client_did with_client]. unfold phase_after.
      destruct r as [[|b r]|], send_ok; cbn; try done; try (by intros [= <-]);
        case_bool_decide; by intros [= <-]. }
    destruct r as [data|]; [|by exists acts].
    exists (Enters data :: acts). split; [by constructor|]. cbn [local_run].
    rewrite local_step_ok by (cbn; by rewrite Hp). rewrite <- Hrun. f_equal.
    unfold view. cbn -[concat]. rewrite concat_app, Hp. cbn. by rewrite app_nil_r.
  - destruct (current sys) as [[i l]|] eqn:Hc; [|done].
    destruct (to_client l) as [|m rest]; [done|]. intros [= <-].
    eapply message_refines; [done|left; by eexists|done].
  - destruct (current sys) as [[i l]|] eqn:Hc; [|done].
    destruct (dup_to_client l !! j) as [m|]; [|done]. intros [= <-].
    eapply message_refines; [done|right; by eexists _, _|done].
  - destruct (current sys) as [[i l]|] eqn:Hc; [|done]. apply current_Some in Hc as [Hp _].
    intros [= <-]. apply silent_refines; try done; [by rewrite Hp|].
    intros res. cbn. unfold phase_after. cbn. case_bool_decide; by intros [= <-].
  - unfold connects. destruct (phase sys) eqn:Hp; [|done..].
    destruct (request _ _ _); [done| |done]. destruct (_ && _); [|done].
    destruct (on_connect _ _ _) as [c| | |] eqn:Hon; try done.
    destruct (on_connect_keeps target (client sys) _ c (or_introl Hon)) as (_ & Ho & He & _).
    destruct (resend c resend_ok) as [resent all_sent]. intros [= <-].
    apply silent_refines; try done; [by rewrite Hp|]. cbn. by destruct all_sent.
  - unfold connect_fails. destruct (phase sys) eqn:Hp; [|done..]. destruct (_ && _); [done|].
    destruct (on_connect _ _ _) as [c|c n cfg|d c|e'] eqn:Hon; [done|..]; intros [= <-].
    + destruct (on_connect_keeps target (client sys) (Err e) c) as (_ & Ho & He & _); [right; right; by eexists _, _|].
      apply silent_refines; try done; [by rewrite Hp|]. cbn. destruct login; [done|]. by intros r [= <-].
    + destruct (on_connect_keeps target (client sys) (Err e) c) as (_ & Ho & He & _); [right; left; by eexists|].
      apply silent_refines; try done; by rewrite Hp.
    + apply silent_refines; try done; [by rewrite Hp|]. by intros r [= <-].
Qed.

End Simulation.

(** ** What the specification promises *)

Definition faithful (x : Local) : Prop :=
  (shown x).1 `prefix_of` (printed x).1 /\ (shown x).2 `prefix_of` (printed x).2 /\
  consumed x `prefix_of` entered x /\
  (forall code, returned x = Some (Ok code) -> ended x = Some code /\ shown x = printed x).

Lemma local_step_faithful x act y : local_step x act = Some y -> faithful x -> faithful y.
Proof.
  unfold local_step. destruct (allowed x act) eqn:Ha; [|done]. intros [= <-] (Ho & He & Hc & Hr).
  destruct x as [pr sh en co ed re], act as [o e|data|code|data|o e|r]; cbn in *.
  - destruct ed; [done|]. split_and!; [by apply prefix_app_r..|done|]. intros code Hcode.
    by destruct (Hr code Hcode).
  - apply andb_true_iff in Ha as [_ Hp%bool_decide_eq_true]. by split_and!.
  - destruct ed; [done|]. split_and!; [done..|]. intros code' Hcode. by destruct (Hr code' Hcode).
  - split_and!; [done|done|by apply prefix_app_r|done].
  - apply andb_true_iff in Ha as [Hre [Ho' He']%bool_decide_eq_true]. destruct re; [done|]. by split_and!.
  - split_and!; [done..|]. intros code [= ->].
    by apply andb_true_iff in Ha as [_ Hp%bool_decide_eq_true].
Qed.

Lemma local_run_faithful acts : forall x y, local_run x acts = Some y -> faithful x -> faithful y.
Proof.
  induction acts as [|act acts IH]; intros x y; cbn; [by intros [= <-]|].
  destruct (local_step x act) as [x1|] eqn:Hs; [|done]. intros Hrun Hx.
  eapply IH; [done|]. by eapply local_step_faithful.
Qed.

Lemma local_faithful acts x : local_run local_start acts = Some x -> faithful x.
Proof. intros Hrun. eapply local_run_faithful; [done|]. by split_and!. Qed.

(** ** Properties *)

Section RefinementProperties.
Context `{TL : TransportLib} `{WL : WireLib} `{HL : HttpLib}.

Lemma run_refines target command token evs : forall sys sys', out_inv sys -> in_inv sys ->
  Forall send_succeeds evs -> len (hist sys) + len evs < u64_modulus -> len (typed sys) + len evs < u64_modulus ->
  sys_run target command token sys evs = Some sys' ->
  (exists acts, local_run (view sys) acts = Some (view sys')) /\
  out_inv sys' /\ in_inv sys' /\ len (hist sys') <= len (hist sys) + len evs /\
  len (typed sys') <= len (typed sys) + len evs.
Proof.
  induction evs as [|ev evs IH]; intros sys sys' Hout Hin Hs Hb Hb'; cbn [sys_run].
  { intros [= <-]. rewrite len_nil. split_and!; [by exists []|done..|lia|lia]. }
  inversion Hs as [|? ? Hev Hevs]; subst. rewrite len_cons in Hb, Hb'. pose proof (len_nonneg evs).
  destruct (sys_step _ _ _ sys ev) as [sys1|] eqn:Hstep; [|done]. intros Hrun.
  pose proof (sys_step_hist _ _ _ _ _ _ Hout ltac:(lia) Hstep).
  pose proof (sys_step_typed _ _ _ _ _ _ Hstep).
  pose proof (sys_step_out_inv _ _ _ _ _ _ Hout ltac:(lia) Hstep) as Hout1.
  pose proof (sys_step_in_inv _ _ _ _ _ _ Hout Hin Hev ltac:(lia) Hstep) as Hin1.
  destruct (step_refines _ _ _ _ _ _ Hout Hin1 Hout1 Hstep) as (acts & _ & Hacts).
  destruct (IH sys1 sys' Hout1 Hin1 Hevs ltac:(lia) ltac:(lia) Hrun) as ([more Hmore] & ? & ? & ? & ?).
  rewrite len_cons. split_and!; [|done..|lia|lia]. exists (acts ++ more). by rewrite local_run_app, Hacts.
Qed.

(** C4: remote execution refines local execution.  In every run in which no
    send of freshly read stdin fails, the system is in a state of a command
    connected to the terminal by pipes ([local_start], [local_step]), and
    whatever happens next is, seen through [view], a few actions of that local
    command, each by the party that took the step: turns of the session task
    are the command printing, reading and ending, turns of the client show
    output and return, and flushes, connections lost in any other way, resumes,
    expiry, handovers, restarts and the loss of the daemon are invisible.  (The
    assumption is needed: a send of freshly read stdin that fails is a lost
    connection that shows, since the command never reads those bytes, see
    [failed_send_loses_stdin].) *)
Theorem remote_refines_local (target : Target) (command token : string) (a b c d : Z) (pid : option Z)
    (agent : bool) (now : Z) (quic : bool) (evs : list SysEvent) (sys : System) :
  len evs + 1 < u64_modulus -> Forall send_succeeds evs ->
  sys_run target command token (sys_begin token a b c d pid agent now quic) evs = Some sys ->
  (exists acts, local_run local_start acts = Some (view sys)) /\
  (forall ev sys', send_succeeds ev -> sys_step target command token sys ev = Some sys' ->
    exists acts, Forall (causes ev) acts /\ local_run (view sys) acts = Some (view sys')).
Proof.
  intros Hlen Hsend Hrun.
  destruct (sys_begin_inv token a b c d pid agent now quic) as (Hout0 & Hin0 & Hh & Ht & _ & Hz & Hz').
  destruct (run_refines target command token evs _ _ Hout0 Hin0 Hsend ltac:(lia) ltac:(lia) Hrun)
    as (Hacts & Hout & Hin & Hlh & Hlt). split; [exact Hacts|].
  intros ev sys' Hev Hstep.
  eapply step_refines; [exact Hout|eapply sys_step_in_inv; [exact Hout|done|done|lia|done]|
    eapply sys_step_out_inv; [done|lia|done]|done].
Qed.

End RefinementProperties.

(** The Exit frame that ends [example_story]: the local command returns. *)
Lemma remote_refines_local_witness :
  let evs := example_story ++ [Flushes 1 None] in
  phase (example_end (evs ++ [ClientFrame WroteAll])) = Finished (Ok 3) /\
  exists acts, Forall (causes (ClientFrame WroteAll)) acts /\
    local_run (view (example_end evs)) acts = Some (view (example_end (evs ++ [ClientFrame WroteAll]))).
Proof.
  intros evs. split; [vm_compute; reflexivity|].
  refine (proj2 (@remote_refines_local example_lib toy_wire Auth.toy_jwt Auth.toy_http
    example_target "cat" "100-5-0" 4 5 6 7 (Some 100) false 0 true evs (example_end evs) _ _ _)
    (ClientFrame WroteAll) _ I _).
  - vm_compute. reflexivity.
  - unfold evs, example_story. repeat constructor.
  - vm_compute. reflexivity.
  - vm_compute. reflexivity.
Defined.

(** The specification refuses output that was not printed, a second delivery,
    and an exit code before the end. *)
Example local_refusals :
  local_run local_start [Shows [7] []] = None /\
  local_run local_start [Prints [7] []; Shows [7] []; Shows [7] []] = None /\
  local_run local_start [Prints [7] []; Ends 0; Returns (Ok 0)] = None /\
  local_run local_start [Prints [7] []; Ends 0; Shows [7] []; Returns (Ok 1)] = None /\
  local_run local_start [Enters [7]; Consumes [7]; Consumes [7]] = None.
Proof. vm_compute. by split_and!. Qed.
