(* ===== verification/SystemLife.v ===== *)
(** * A session lives until its output is delivered ([System], the registry)

    The attach loop unregisters a session when its client acknowledges the
    Exit, and [handover_sessions] when the task has handed it over.  The
    invariant here says that no acknowledgement can do that before the client
    has returned the exit code, on the current connection or on an older one
    that is still being served, and that what was handed over can be restored. *)

From S2P Require Import Prelude Proto Auth OutboundLog Session Exec Channel Registry Attach Handover.
From S2P Require Import Target RunExec Gapless System SystemOut SystemIn EndToEnd.

(** ** The invariant *)

(** The Exit a loop waits for is the one of the history. *)
Definition exit_known (h : list ChannelMessage) (l : Link) : Prop :=
  forall a e, server_end l = Some a -> exit_seq a = Some e -> exists code, authentic h (Exit e code).

Record life_inv (sys : System) : Prop := {
  li_resumable : resumable (session sys) = true;
  li_exit : forall i l, links sys !! i = Some l -> exit_known (hist sys) l;
  li_registered : registered sys = false ->
    is_Some (handed sys) \/ exists code, phase sys = Finished (Ok code);
}.

(** The session is on its way to the successor: the task has returned with the
    answer to the handover request, and a successor that finds pipes in the
    descriptor store (and has its agent hub) restores and registers it. *)
Definition in_handover (sys : System) : Prop :=
  System.status sys = Returned /\
  forall is_pipe now, (forall fd, is_pipe fd = true) ->
    exists sys', restarts is_pipe true now sys = Some sys' /\ registered sys' = true /\ System.status sys' = Running.

(** No expiry, and no successor without the session's record. *)
Definition keeps_session (ev : SysEvent) : Prop :=
  match ev with Expires | DaemonLost => False | _ => True end.

(** ** Lemmas *)

Lemma task_step_resumable s t ev s' t' effs st : task_step s t ev = Some (s', t', effs, st) ->
  resumable s' = resumable s.
Proof.
  unfold task_step.
  assert (Hfin : forall s1 t1 effs1, resumable s1 = resumable s ->
    (let '(s, t, effs', status) := finish s1 t1 in Some (s, t, effs1 ++ effs', status)) =
      Some (s', t', effs, st) -> resumable s' = resumable s).
  { intros s1 t1 effs1 Hr. unfold finish. destruct (exit_code t1); [|by intros [= <- _ _ _]].
    destruct (negb _ && negb _); by intros [= <- _ _ _]. }
  destruct ev as [r|r|r|w reclaim|]; cbn [select].
  - destruct (stdout_open t); [|done]. destruct r as [[|b r]|]; by apply Hfin.
  - destruct (stderr_open t); [|done]. destruct r as [[|b r]|]; by apply Hfin.
  - case_bool_decide; [|done]. destruct (read_exit t r). by apply Hfin.
  - destruct (inbound s) as [|[[]|[]| |] rest]; cbn [handle_input]; try done; try by apply (Hfin _ _ []).
    + destruct (_ <? _); by apply (Hfin _ _ []).
    + destruct (_ <? _); by apply (Hfin _ _ []).
    + destruct (_ =? _); by apply (Hfin _ _ []).
    + by intros [= <- _ _ _].
    + by intros [= <- _ _ _].
  - destruct (inbound s); [|done]. by intros [= <- _ _ _].
Qed.

Lemma send_input_resumable x s : resumable (send_input x s).1 = resumable s.
Proof. unfold send_input. by destruct (inbound_closed s). Qed.

Lemma exit_known_grows h k l : exit_known h l -> exit_known (h ++ k) l.
Proof. intros Hk a e Ha He. destruct (Hk a e Ha He) as [code Hc]. exists code. by apply authentic_grows. Qed.

Lemma exit_known_dead h l rest : exit_known h (with_ends None rest l).
Proof. by intros a e [=]. Qed.

Lemma fold_exit_seq ms : forall a e, exit_seq (fold_left sent_one ms a) = Some e ->
  exit_seq a = Some e \/ exists code, Exit e code ∈ ms.
Proof.
  induction ms as [|m ms IH]; intros a e; cbn [fold_left]; [by left|].
  intros [He|[code Hin]]%IH; [|right; exists code; by right].
  destruct m; cbn in He; try (by left). injection He as <-. right. eexists. by left.
Qed.

Lemma flush_exit s a h acked e : OutboundLog.Represents (log s) h acked -> numbered h ->
  exit_seq (flush s a).2 = Some e ->
  exit_seq a = Some e \/ exists code, authentic h (Exit e code).
Proof.
  intros Hr Hn He.
  assert (Hf : exit_seq (fold_left sent_one (OutboundLog.after (log s) (sent_up_to a)) a) = Some e).
  { revert He. unfold flush. by destruct (_ <? _). }
  apply fold_exit_seq in Hf as [?|[code Hin]]; [by left|right]. exists code.
  assert (Hin' : Exit e code ∈ h).
  { unfold OutboundLog.after in Hin. rewrite (OutboundLog.rep_buffer _ _ _ Hr), drop_drop in Hin.
    apply list_elem_of_lookup in Hin as [i Hi]. rewrite lookup_drop in Hi.
    by eapply list_elem_of_lookup_2. }
  apply list_elem_of_lookup in Hin' as [i Hi]. by eapply history_authentic.
Qed.

Lemma flush_link_exit s ok_until a l h acked : OutboundLog.Represents (log s) h acked -> numbered h ->
  server_end l = Some a -> exit_known h l -> exit_known h (flush_link s ok_until a l).
Proof.
  intros Hr Hn Hend Hk. intros a1 e. unfold flush_link. destruct (flush s a) as [ms a'] eqn:Hf.
  destruct ok_until; cbn; [done|]. intros [= <-] He.
  pose proof (flush_exit s a h acked e Hr Hn) as Hx. rewrite Hf in Hx.
  destruct (Hx He) as [?|?]; [by eapply Hk|done].
Qed.

(** Nothing a still running client has acknowledged reaches the Exit. *)
Lemma ack_before_exit sys e code n : out_inv sys -> authentic (hist sys) (Exit e code) ->
  n <= cap sys -> e <= n -> exists code, phase sys = Finished (Ok code).
Proof.
  intros Hinv [H1 Hi] Hn He. cbn in Hi. unfold cap, cap_of in Hn.
  destruct (phase sys) as [|i|[c|er]]; [exfalso|exfalso|by eexists|exfalso];
    (pose proof (oi_seen _ Hinv) as Hs; rewrite Forall_lookup in Hs;
     apply (Hs (Z.to_nat (e - 1)) (Exit e code)); rewrite lookup_take_lt by lia; exact Hi).
Qed.

Lemma receiver_ok is_pipe fd : (forall fd, is_pipe fd = true) -> exists r, receiver is_pipe fd = Ok r.
Proof. intros Hp. destruct fd as [fd|]; cbn; rewrite ?Hp; by eexists. Qed.

Lemma handed_in_handover sys : out_inv sys -> is_Some (handed sys) -> registered sys = false -> in_handover sys.
Proof.
  intros Hout [h Hh] Hreg. destruct (oi_handed _ Hout h Hh) as [Hst _]. split; [done|].
  intros is_pipe now Hp. unfold restarts, restore_one. rewrite Hh, Hreg.
  destruct (receiver_ok is_pipe (list_to_map (M := gmap string Receiver) (fds h) !! "stdout"%string) Hp) as [o ->].
  destruct (receiver_ok is_pipe (list_to_map (M := gmap string Receiver) (fds h) !! "stderr"%string) Hp) as [e ->].
  destruct (receiver_ok is_pipe (list_to_map (M := gmap string Receiver) (fds h) !! "exit"%string) Hp) as [x ->].
  cbn [result_bind negb]. rewrite andb_false_r. by eexists.
Qed.

(** ** Every step *)

Section LifeSteps.
Context `{TL : TransportLib} `{WL : WireLib} `{HL : HttpLib}.
Context (target : Target) (command token : string).

Lemma reacted_life sys i l rest (r : Reaction) a : life_inv sys -> live_end i sys = Some (l, a) ->
  resumable (r_session r) = true -> exit_seq (r_attach r) = exit_seq a ->
  (r_remove r = true -> exists code, phase sys = Finished (Ok code)) ->
  life_inv (reacted i rest l r sys).
Proof.
  intros [H1 H2 H3] [Hi Hend]%live_end_Some Hr He Hrem. split; cbn; [done| |].
  - intros j l' Hj. apply list_lookup_insert_Some in Hj as [(_ & <- & _)|[_ Hj]]; [|by eapply H2].
    destruct (r_result r); [apply exit_known_dead|].
    intros a1 e [= <-] He'. rewrite He in He'. by eapply H2.
  - intros Hreg. destruct (registered sys) eqn:Hr'; [|by apply H3].
    right. apply Hrem. by destruct (r_remove r).
Qed.

Lemma on_message_life sys i l a m rest : out_inv sys -> life_inv sys -> live_end i sys = Some (l, a) ->
  to_server l = m :: rest ->
  life_inv (reacted i rest l (Attach.on_message (session sys) a m) sys).
Proof.
  intros Hout Hinv Hl Hq. pose proof (live_end_Some _ _ _ _ Hl) as [Hi Hend].
  pose proof (oi_acks _ Hout i l Hi) as Hacks. rewrite Hq in Hacks. inversion Hacks as [|? ? Hm _]; subst.
  destruct (on_message_session (session sys) a m) as [Hra Hrs].
  eapply reacted_life; [done|done| |by rewrite Hra|].
  - rewrite Hrs. destruct m; rewrite ?send_input_resumable; apply Hinv.
  - destruct m as [| | | | | | |n| | |]; try done. cbn [Attach.on_message].
    destruct (exit_seq a) as [e|] eqn:He; [|done].
    destruct (Z.leb_spec e n); [|done]. intros _.
    destruct (li_exit _ Hinv i l Hi a e Hend He) as [code Hc]. by eapply ack_before_exit.
Qed.

Lemma client_did_life sys i l l1 a : life_inv sys -> current sys = Some (i, l) ->
  server_end l1 = server_end l -> life_inv (client_did i l1 a sys).
Proof.
  intros [H1 H2 H3] [Hp Hi]%current_Some He.
  split; cbn; [done| |intros Hr; destruct (H3 Hr) as [?|[? ?]]; [by left|congruence]].
  intros j l' Hj. apply list_lookup_insert_Some in Hj as [(_ & <- & _)|[_ Hj]]; [|by eapply H2].
  intros a1 e Ha. cbn in Ha. rewrite He in Ha. by apply (H2 i l Hi).
Qed.

Lemma restarts_life is_pipe hub now sys sys' : out_inv sys -> life_inv sys ->
  restarts is_pipe hub now sys = Some sys' -> life_inv sys'.
Proof.
  intros Hout [H1 H2 H3]. unfold restarts. destruct (handed sys) as [h|] eqn:Hh; [|done].
  destruct (oi_handed _ Hout h Hh) as (_ & _ & s0 & acked & reclaim & -> & Ht & _).
  destruct (registered sys); [done|]. destruct (restore_one _ _ _ _ _ _) as [[s t]|] eqn:Hr; [|done]. intros [= <-].
  apply (restore_one_keeps _ _ _ _ _ _ _ _ (hist sys) acked) in Hr as (_ & _ & _ & Hres & _); [|done].
  split; cbn; [done| |done]. intros i l. change (map kill (links sys)) with (kill <$> links sys).
  rewrite list_lookup_fmap. destruct (links sys !! i); [|done]. intros [= <-]. apply exit_known_dead.
Qed.

Lemma connects_life now quic resend_ok sys sys' : life_inv sys ->
  connects target command token now quic resend_ok sys = Some sys' -> life_inv sys'.
Proof.
  intros [H1 H2 H3]. unfold connects. destruct (phase sys) eqn:Hp; try done.
  destruct (request target command (client sys)); try done.
  destruct (registered sys) eqn:Hreg; [|done]. cbn [andb]. destruct (bool_decide _); [|done].
  destruct (on_connect _ _ _); try done. destruct (resend _ _) as [resent all_sent]. intros [= <-].
  split; cbn; [done| |congruence].
  intros i l [Hi|[_ Hi]]%lookup_app_Some; [by eapply H2|].
  apply list_lookup_singleton_Some in Hi as [_ <-]. by intros a e [= <-].
Qed.

Lemma sys_step_life_inv sys ev sys' : out_inv sys -> life_inv sys -> keeps_session ev ->
  sys_step target command token sys ev = Some sys' -> life_inv sys'.
Proof.
  intros Hout Hinv Hkeep. pose proof Hinv as [H1 H2 H3]. destruct ev; cbn [sys_step].
  - unfold task_runs. destruct (System.status sys) eqn:Hst; [|done].
    destruct (task_step _ _ ev) as [[[[s t] effs] st]|] eqn:Hstep; [|done]. intros [= <-].
    split; cbn; [by rewrite (task_step_resumable _ _ _ _ _ _ _ Hstep)| |].
    + intros i l Hi. by apply exit_known_grows, (H2 i).
    + intros [[h Hh]|?]%H3; [|by right]. destruct (oi_handed _ Hout h Hh) as [Hst' _]. congruence.
  - destruct (live_end i sys) as [[l a]|] eqn:Hl; [|done]. intros [= <-].
    apply live_end_Some in Hl as [Hi Hend]. destruct (oi_task _ Hout) as (acked & Ht & _).
    split; cbn; [done| |done]. intros j l' Hj.
    apply list_lookup_insert_Some in Hj as [(_ & <- & _)|[_ Hj]]; [|by eapply H2].
    eapply flush_link_exit; [apply Ht|apply Ht|done|by eapply H2].
  - destruct (live_end i sys) as [[l a]|] eqn:Hl; [|done].
    destruct (to_server l) as [|m rest] eqn:Hq; [done|]. intros [= <-]. by apply (on_message_life _ _ _ a).
  - destruct (live_end i sys) as [[l a]|] eqn:Hl; [|done].
    destruct (dup_to_server l !! j) as [m|]; [|done]. intros [= <-].
    eapply reacted_life; [done|done| |done|done]. cbn. by rewrite send_input_resumable.
  - destruct (live_end i sys) as [[l a]|] eqn:Hl; [|done]. intros [= <-].
    unfold lost. rewrite H1. by eapply reacted_life.
  - done.
  - intros [= <-]. split; cbn; [by rewrite send_input_resumable|done|done].
  - unfold hands_over. destruct (handed sys) eqn:Hh; [|done]. intros [= <-].
    split; cbn; [done|done|]. intros _. left. by rewrite Hh.
  - by apply restarts_life.
  - done.
  - destruct (current sys) as [[i l]|] eqn:Hc; [|done]. destruct (stdin_open _); [|done].
    intros [= <-]. eapply client_did_life; [by destruct Hinv|exact Hc|done].
  - destruct (current sys) as [[i l]|] eqn:Hc; [|done]. destruct (to_client l); [done|].
    intros [= <-]. by eapply client_did_life.
  - destruct (current sys) as [[i l]|] eqn:Hc; [|done]. destruct (dup_to_client l !! j) as [m|]; [|done].
    intros [= <-]. by eapply client_did_life.
  - destruct (current sys) as [[i l]|] eqn:Hc; [|done]. intros [= <-]. by eapply client_did_life.
  - by apply connects_life.
  - unfold connect_fails. destruct (phase sys) eqn:Hp; try done.
    destruct (_ && _); [done|].
    destruct (on_connect _ _ _); try done; intros [= <-]; (split; cbn; [done|done|]);
      (intros Hr; destruct (H3 Hr) as [?|[? ?]]; [by left|congruence]).
Qed.

Lemma sys_run_life_inv evs : forall sys sys', out_inv sys -> life_inv sys -> Forall keeps_session evs ->
  len (hist sys) + len evs < u64_modulus ->
  sys_run target command token sys evs = Some sys' -> life_inv sys'.
Proof.
  induction evs as [|ev evs IH]; intros sys sys' Hout Hinv Hk Hb; cbn [sys_run]; [by intros [= <-]|].
  inversion Hk; subst. rewrite len_cons in Hb. pose proof (len_nonneg evs).
  destruct (sys_step _ _ _ sys ev) as [sys1|] eqn:Hstep; [|done].
  pose proof (sys_step_hist _ _ _ _ _ _ Hout ltac:(lia) Hstep).
  apply IH; [eapply sys_step_out_inv; [done|lia|done]|by eapply sys_step_life_inv|done|lia].
Qed.

End LifeSteps.

(** ** Properties *)

(** C5: no session is dropped before its output is delivered.  In every run in
    which the session does not expire and no daemon is lost without having
    handed it over, the daemon that serves now knows the session, or [run_exec]
    has returned its exit code, or the session is in a handover: the old daemon
    has its state and has removed it, and the successor that starts next
    restores and registers it.  So whatever acknowledgements and older
    connections arrive, a reconnecting client that still needs the session can
    be denied only by an old daemon that is already handing it over. *)
Theorem session_kept_until_delivered `{TL : TransportLib} `{WL : WireLib} `{HL : HttpLib}
    (target : Target) (command token : string) (a b c d : Z) (pid : option Z) (agent : bool) (now : Z)
    (quic : bool) (evs : list SysEvent) (sys : System) :
  len evs < u64_modulus -> Forall keeps_session evs ->
  sys_run target command token (sys_begin token a b c d pid agent now quic) evs = Some sys ->
  registered sys = true \/ in_handover sys \/ exists code, phase sys = Finished (Ok code).
Proof.
  intros Hlen Hk Hrun.
  destruct (sys_begin_inv token a b c d pid agent now quic) as (Hout & _ & _ & _ & _ & Hz & _).
  pose proof (sys_run_out_inv target command token evs _ _ Hout ltac:(lia) Hrun) as Hout'.
  apply sys_run_life_inv in Hrun; [|done| |done|lia].
  - destruct (registered sys) eqn:Hreg; [by left|right].
    destruct (li_registered _ Hrun Hreg); [left; by apply handed_in_handover|by right].
  - unfold sys_begin. destruct (start_session a b c d pid true agent now) as [s t] eqn:Hs.
    unfold start_session in Hs. injection Hs as <- <-. split; cbn; [done| |done].
    intros i l Hi. apply list_lookup_singleton_Some in Hi as [_ <-]. by intros a1 e [= <-].
Qed.

(** The acknowledgement of the Exit removes the session, the code is there. *)
Lemma session_kept_until_delivered_witness :
  let evs := example_story ++ [Flushes 1 None; ClientFrame WroteAll; ServerFrame 1; ServerFrame 1] in
  registered (example_end evs) = false /\
  (registered (example_end evs) = true \/ in_handover (example_end evs) \/
   exists code, phase (example_end evs) = Finished (Ok code)).
Proof.
  intros evs. split; [vm_compute; reflexivity|].
  refine (@session_kept_until_delivered example_lib toy_wire Auth.toy_jwt Auth.toy_http
    example_target "cat" "100-5-0" 4 5 6 7 (Some 100) false 0 true evs (example_end evs) _ _ _).
  - vm_compute. reflexivity.
  - unfold evs, example_story. repeat constructor.
  - vm_compute. reflexivity.
Defined.

(** The window: the client reconnects over a connection that the old daemon
    had already accepted and is denied for good, although the successor
    restores the session, which then runs without a client. *)
Example resume_denied_in_handover :
  let evs := [AsksHandover; TaskRuns (InboundRecv WroteAll (fun _ => true)); HandsOver; ClientLost;
    ConnectFails (Denied "unknown resume token") (Ok tt); Restarts (fun _ => true) true 50] in
  phase (example_end evs) = Finished (Err (Denied "unknown resume token")) /\
  registered (example_end evs) = true /\ System.status (example_end evs) = Running.
Proof. vm_compute. by split_and!. Qed.
