(* ===== verification/SshArgs.v ===== *)
(** * The client's command line ([client/src/main.rs])

    [herdr-eternal-ssh] is started with the command line of ssh(1): its parser,
    the decision [main] takes, and the exit status.  Arguments are byte
    strings: every option letter is ASCII, and the first byte of any other
    character is neither kind of option letter, so stepping through bytes stops
    where stepping through characters does. *)

From S2P Require Import Prelude Proto OutboundLog Session Target.

Local Open Scope rust_scope.

(** ** The parser *)

Record SshArgs := {
  target : bytes;
  command : option bytes;
}.

Definition WITH_ARG : bytes := as_bytes "BbcDEeFIiJLlmOoPpQRSWw".
Definition NO_ARG : bytes := as_bytes "46AaCfGgKkMNnqsTtVvXxYy".

Definition contains (set : bytes) (c : Z) : bool := existsb (Z.eqb c) set.

(** The loop over the letters of one argument: whether it takes the next
    argument as a value. *)
Fixpoint takes_next (flags : bytes) : bool :=
  match flags with
  | [] => false
  | c :: rest =>
      if contains WITH_ARG c then bool_decide (rest = [])
      else if contains NO_ARG c then takes_next rest
      else false
  end.

(** [parts.join(" ")]. *)
Fixpoint join_words (parts : list bytes) : bytes :=
  match parts with
  | [] => []
  | [part] => part
  | part :: rest => part ++ [32] ++ join_words rest
  end.

(** The loop over the arguments, until the target is known; everything after it
    is the command. *)
Fixpoint find_target (args : list bytes) : option (bytes * list bytes) :=
  match args with
  | [] => None
  | arg :: rest =>
      if bool_decide (arg = as_bytes "--") then
        match rest with
        | [] => None
        | target :: rest => Some (target, rest)
        end
      else
        match arg with
        | 45 :: ((_ :: _) as flags) =>
            if takes_next flags then
              match rest with
              | [] => None
              | _ :: rest => find_target rest
              end
            else find_target rest
        | _ => Some (arg, rest)
        end
  end.

Definition parse_ssh_args (args : list bytes) : option SshArgs :=
  match find_target args with
  | None => None
  | Some (target, parts) =>
      Some {| target := target;
              command := match parts with [] => None | _ => Some (join_words parts) end |}
  end.

(** ** [main] *)

Inductive Action : Type :=
| Login (name : bytes)
| LoginUsage
| Usage
| NoShell
| RunCommand (name command : bytes).

(** What [main] does with the arguments after the program's name. *)
Definition client_main (args : list bytes) : Action :=
  match args with
  | first :: rest =>
      if bool_decide (first = as_bytes "login") then
        match rest with
        | name :: _ => Login name
        | [] => LoginUsage
        end
      else
        match parse_ssh_args args with
        | None => Usage
        | Some {| target := name; command := Some command |} => RunCommand name command
        | Some {| command := None |} => NoShell
        end
  | [] => Usage
  end.

(** The exit status: [code.clamp(0, 255) as u8], or [ExitCode::FAILURE]. *)
Definition clamp (lo hi n : Z) : Z := if n <? lo then lo else if hi <? n then hi else n.

Definition exit_status (r : result Z ClientError) : Z :=
  match r with
  | Ok code => clamp 0 255 code
  | Err _ => 1
  end.

(** [run]: load the target, start the runtime, resolve the target, logging in
    once if there is no login, then execute; [resolve] is tried again after a
    successful login. *)
Definition run_client (load : result TargetConfig ClientError) (runtime : result unit ClientError)
    (resolve1 resolve2 : TargetConfig -> result Target ClientError)
    (login_on_tty : TargetConfig -> result unit ClientError) (run_exec : Target -> result Z ClientError)
    : result Z ClientError :=
  match (let? config := load in let? _ := runtime in Ok config) with
  | Err e => Err e
  | Ok config =>
      match resolve1 config with
      | Ok target => run_exec target
      | Err (NotLoggedIn _) =>
          let? _ := login_on_tty config in
          let? target := resolve2 config in
          run_exec target
      | Err e => Err e
      end
  end.

(** The function [login]; [device_login] is [oidc::login] on a new runtime. *)
Definition login (load : result TargetConfig ClientError) (runtime : result unit ClientError)
    (device_login : TargetConfig -> result unit ClientError) : result unit ClientError :=
  let? config := load in
  let? _ := runtime in
  device_login config.

(** The exit status of the process. *)
Definition main_status (args : list bytes) (login : bytes -> result unit ClientError)
    (run : bytes -> bytes -> result Z ClientError) : Z :=
  match client_main args with
  | Login name => match login name with Ok _ => 0 | Err _ => 1 end
  | LoginUsage | Usage | NoShell => 1
  | RunCommand name command => exit_status (run name command)
  end.

(** ** Command lines as ssh reads them *)

(** An option word and what it stands for: only flags, flags ending in an
    option with its value attached, or with the value in the next word. *)
Inductive Opt : Type :=
| Flags (fs : bytes)
| Attached (fs : bytes) (c : Z) (value : bytes)
| Separate (fs : bytes) (c : Z) (value : bytes).

Definition render (o : Opt) : list bytes :=
  match o with
  | Flags fs => [45 :: fs]
  | Attached fs c value => [45 :: fs ++ c :: value]
  | Separate fs c value => [45 :: fs ++ [c]; value]
  end.

Definition flag_letters (fs : bytes) : Prop := Forall (fun c => contains NO_ARG c = true) fs.

Definition opt_ok (o : Opt) : Prop :=
  match o with
  | Flags fs => fs <> [] /\ flag_letters fs
  | Attached fs c value => flag_letters fs /\ contains WITH_ARG c = true /\ value <> []
  | Separate fs c _ => flag_letters fs /\ contains WITH_ARG c = true
  end.

(** A word that is not an option: no leading dash, or a lone dash. *)
Definition plain_word (w : bytes) : Prop :=
  match w with 45 :: _ :: _ => False | _ => True end.

(** ** Facts *)

Lemma letters_disjoint c : contains NO_ARG c = true -> contains WITH_ARG c = false.
Proof.
  unfold contains. intros Hc. apply existsb_exists in Hc as (x & Hin & ->%Z.eqb_eq).
  assert (Hall : forallb (fun x => negb (existsb (Z.eqb x) WITH_ARG)) NO_ARG = true) by (vm_compute; reflexivity).
  rewrite forallb_forall in Hall. by apply negb_true_iff, Hall.
Qed.

Lemma takes_next_flags fs tail : flag_letters fs -> takes_next (fs ++ tail) = takes_next tail.
Proof.
  induction 1 as [|c fs Hc _ IH]; [done|]. cbn [app takes_next].
  by rewrite (letters_disjoint c Hc), Hc.
Qed.

Lemma takes_next_value c value : contains WITH_ARG c = true ->
  takes_next (c :: value) = bool_decide (value = []).
Proof. intros Hc. cbn [takes_next]. by rewrite Hc. Qed.

Lemma not_dashdash x xs : contains NO_ARG x = true \/ contains WITH_ARG x = true ->
  bool_decide (45 :: x :: xs = as_bytes "--") = false.
Proof.
  intros Hx. apply bool_decide_eq_false_2. intros [= -> _]. by destruct Hx as [Hx|Hx]; vm_compute in Hx.
Qed.

Lemma find_target_dashed x xs rest : contains NO_ARG x = true \/ contains WITH_ARG x = true ->
  find_target ((45 :: x :: xs) :: rest) =
    if takes_next (x :: xs) then match rest with [] => None | _ :: rest => find_target rest end
    else find_target rest.
Proof. intros Hx. cbn [find_target]. by rewrite (not_dashdash x xs Hx). Qed.

(** A well-formed option is skipped whole. *)
Lemma find_target_opt o args : opt_ok o -> find_target (render o ++ args) = find_target args.
Proof.
  destruct o as [fs|fs c value|fs c value]; cbn [opt_ok render app].
  - intros [Hne Hfs]. destruct fs as [|x xs]; [done|]. inversion Hfs; subst.
    assert (Ht : takes_next ((x :: xs) ++ []) = false) by (by rewrite takes_next_flags).
    rewrite app_nil_r in Ht. rewrite find_target_dashed by (by left). by rewrite Ht.
  - intros (Hfs & Hc & Hv).
    assert (Ht : takes_next (fs ++ c :: value) = false).
    { rewrite takes_next_flags, takes_next_value by done. by apply bool_decide_eq_false_2. }
    destruct fs as [|x xs]; cbn [app] in *.
    + rewrite find_target_dashed by (by right). by rewrite Ht.
    + inversion Hfs; subst. rewrite find_target_dashed by (by left). by rewrite Ht.
  - intros (Hfs & Hc).
    assert (Ht : takes_next (fs ++ [c]) = true).
    { rewrite takes_next_flags, takes_next_value by done. by apply bool_decide_eq_true_2. }
    destruct fs as [|x xs]; cbn [app] in *.
    + rewrite find_target_dashed by (by right). by rewrite Ht.
    + inversion Hfs; subst. rewrite find_target_dashed by (by left). by rewrite Ht.
Qed.

Lemma find_target_opts opts args : Forall opt_ok opts ->
  find_target (concat (map render opts) ++ args) = find_target args.
Proof.
  induction 1 as [|o opts Ho _ IH]; [done|]. cbn [map concat]. rewrite <- app_assoc.
  by rewrite find_target_opt.
Qed.

Lemma find_target_plain w rest : plain_word w -> find_target (w :: rest) = Some (w, rest).
Proof.
  intros Hw. cbn [find_target]. rewrite bool_decide_eq_false_2.
  - destruct w as [|x [|y w]]; [done| |].
    + destruct x as [|p|p]; try done. by do 6 (destruct p; try done).
    + destruct x as [|p|p]; try done. by do 6 (destruct p; try done).
  - intros ->. done.
Qed.

(** ** Properties *)

(** C30: the client reads ssh's command lines as ssh does.  Options in any
    number and order (combined flags, values attached to their letter or given
    as the next word, even a value that looks like an option) never shadow the
    target; what follows the target, and only that, is the command, joined by
    single spaces; a double dash ends the options, so that any word can be the
    target; and with options only there is no target. *)
Theorem parse_ssh_command_line (opts : list Opt) (name : bytes) (words : list bytes) :
  Forall opt_ok opts ->
  let parsed := Some {| target := name; command := match words with [] => None | _ => Some (join_words words) end |} in
  (plain_word name -> parse_ssh_args (concat (map render opts) ++ name :: words) = parsed) /\
  parse_ssh_args (concat (map render opts) ++ as_bytes "--" :: name :: words) = parsed /\
  parse_ssh_args (concat (map render opts)) = None.
Proof.
  intros Hopts parsed. unfold parse_ssh_args. rewrite !find_target_opts by done. split_and!.
  - intros Hn. by rewrite find_target_plain.
  - done.
  - rewrite <- (app_nil_r (concat (map render opts))). by rewrite find_target_opts.
Qed.

(** [ssh -F cfg -o Batch=yes -TC -p22 host uname -a]. *)
Lemma parse_ssh_command_line_witness :
  let opts := [Separate [] 70 (as_bytes "cfg"); Separate [] 111 (as_bytes "Batch=yes");
               Flags (as_bytes "TC"); Attached [] 112 (as_bytes "22")] in
  concat (map render opts) ++ as_bytes "host" :: [as_bytes "uname"; as_bytes "-a"] =
    map as_bytes ["-F"; "cfg"; "-o"; "Batch=yes"; "-TC"; "-p22"; "host"; "uname"; "-a"]%string /\
  parse_ssh_args (concat (map render opts) ++ as_bytes "host" :: [as_bytes "uname"; as_bytes "-a"]) =
    Some {| target := as_bytes "host"; command := Some (as_bytes "uname -a") |}.
Proof.
  intros opts. split; [vm_compute; reflexivity|].
  refine (proj1 (parse_ssh_command_line opts (as_bytes "host") [as_bytes "uname"; as_bytes "-a"] _) _).
  - repeat constructor; discriminate.
  - exact I.
Defined.

(** Success is reported only if the login or the command succeeded (or the
    command's code is below 0, which no process can report). *)
Lemma main_status_success args login run : main_status args login run = 0 ->
  (exists name, client_main args = Login name /\ login name = Ok tt) \/
  (exists name command code, client_main args = RunCommand name command /\ run name command = Ok code /\ code <= 0).
Proof.
  unfold main_status. destruct (client_main args) as [name| | | |name command]; try done.
  - destruct (login name) as [[]|] eqn:Hl; [|done]. left. by exists name.
  - unfold exit_status, clamp. destruct (run name command) as [code|] eqn:Hr; [|done].
    destruct (Z.ltb_spec code 0); [intros _|destruct (Z.ltb_spec 255 code); [done|intros ->]];
      right; exists name, command; eexists; (split_and!; [done|exact Hr|lia]).
Qed.

(** The exit status.  The status of [herdr-eternal-ssh] is always a byte;
    it is the command's own exit code whenever that is one, and 1 for every
    error of the client; [login] is only entered for a first argument [login],
    and a command line without a command never runs anything. *)
Theorem exit_status_faithful (r : result Z ClientError) (args : list bytes) :
  0 <= exit_status r < 256 /\
  (forall code, r = Ok code -> 0 <= code < 256 -> exit_status r = code) /\
  (forall e, r = Err e -> exit_status r = 1) /\
  (forall name, client_main args = Login name -> exists rest, args = as_bytes "login" :: name :: rest) /\
  (forall name cmd, client_main args = RunCommand name cmd ->
     parse_ssh_args args = Some {| target := name; command := Some cmd |}).
Proof.
  split; [|split_and!].
  - unfold exit_status, clamp. destruct r as [code|e]; [|lia].
    destruct (Z.ltb_spec code 0); [lia|]. destruct (Z.ltb_spec 255 code); lia.
  - intros code -> Hc. unfold exit_status, clamp.
    destruct (Z.ltb_spec code 0); [lia|]. destruct (Z.ltb_spec 255 code); lia.
  - by intros e ->.
  - intros name. destruct args as [|first rest]; [done|]. cbn [client_main].
    case_bool_decide as Hf.
    + subst first. destruct rest as [|n rest]; [done|]. intros [= ->]. by exists rest.
    + by destruct (parse_ssh_args (first :: rest)) as [[t [c|]]|].
  - intros name cmd. destruct args as [|first rest]; [done|]. unfold client_main.
    case_bool_decide; [by destruct rest|].
    destruct (parse_ssh_args (first :: rest)) as [[t [c|]]|]; [|done|done]. by intros [= -> ->].
Qed.
