(* ===== verification/ServerMain.v ===== *)
(** * Starting the server ([server/src/main.rs])

    The decisions [main] takes before it serves: its options, the descriptors
    systemd passed in, and whether the configuration is usable.  The
    [unreachable!] branches are kept as the outcome [Panics]. *)

From S2P Require Import Prelude Proto Auth OutboundLog Session Exec Channel Registry Attach Handover.

Local Open Scope rust_scope.

(** ** Options *)

Record Options := {
  listen : option string;
  quic_listen : option string;
  quic_cert : option string;
  quic_key : option string;
  token_file : option string;
  oidc_issuer : option string;
  oidc_client_id : option string;
  oidc_allowed_sub : option string;
  session_timeout_secs : option string;
}.

Definition no_options : Options :=
  {| listen := None; quic_listen := None; quic_cert := None; quic_key := None; token_file := None;
     oidc_issuer := None; oidc_client_id := None; oidc_allowed_sub := None; session_timeout_secs := None |}.

(** The [match arg.as_str()]: the variable the option assigns to. *)
Definition assign (arg : string) (v : option string) (o : Options) : option Options :=
  let '{| listen := l; quic_listen := ql; quic_cert := qc; quic_key := qk; token_file := tf;
          oidc_issuer := oi; oidc_client_id := oc; oidc_allowed_sub := os; session_timeout_secs := st |} := o in
  let make l ql qc qk tf oi oc os st :=
    Some {| listen := l; quic_listen := ql; quic_cert := qc; quic_key := qk; token_file := tf;
            oidc_issuer := oi; oidc_client_id := oc; oidc_allowed_sub := os; session_timeout_secs := st |} in
  if bool_decide (arg = "--listen"%string) then make v ql qc qk tf oi oc os st
  else if bool_decide (arg = "--quic-listen"%string) then make l v qc qk tf oi oc os st
  else if bool_decide (arg = "--quic-cert"%string) then make l ql v qk tf oi oc os st
  else if bool_decide (arg = "--quic-key"%string) then make l ql qc v tf oi oc os st
  else if bool_decide (arg = "--token-file"%string) then make l ql qc qk v oi oc os st
  else if bool_decide (arg = "--oidc-issuer"%string) then make l ql qc qk tf v oc os st
  else if bool_decide (arg = "--oidc-client-id"%string) then make l ql qc qk tf oi v os st
  else if bool_decide (arg = "--oidc-allowed-sub"%string) then make l ql qc qk tf oi oc v st
  else if bool_decide (arg = "--session-timeout-secs"%string) then make l ql qc qk tf oi oc os v
  else None.

(** The loop over the arguments: an option takes the next argument; [None] is
    the usage message. *)
Fixpoint parse_options (args : list string) (o : Options) : option Options :=
  match args with
  | [] => Some o
  | [arg] => assign arg None o
  | arg :: value :: rest =>
      match assign arg (Some value) o with
      | Some o => parse_options rest o
      | None => None
      end
  end.

(** ** Descriptors from systemd *)

Record PassedFd := {
  fd : Z;
  name : string;
  is_datagram : bool;
}.

Definition SESSION_ROLES : list string := [".stdin"; ".stdout"; ".stderr"; ".exit"]%string.

Definition ends_with (s suffix : string) : bool :=
  bool_decide (drop (length (as_bytes s) - length (as_bytes suffix)) (as_bytes s) = as_bytes suffix).

Definition is_session_fd (f : PassedFd) : bool := existsb (ends_with (name f)) SESSION_ROLES.

(** One turn of the loop: session descriptors, then the first datagram socket,
    then the first other one. *)
Definition classify (acc : option Z * option Z * list (string * Z)) (f : PassedFd)
    : option Z * option Z * list (string * Z) :=
  let '(listener, quic_socket, sessions) := acc in
  if is_session_fd f then (listener, quic_socket, sessions ++ [(name f, fd f)])
  else if is_datagram f then
    (listener, match quic_socket with None => Some (fd f) | Some q => Some q end, sessions)
  else
    match listener with
    | None => (Some (fd f), quic_socket, sessions)
    | Some _ => (listener, quic_socket, sessions)
    end.

(** [listen_fds_with_names]: [None] when there are none to claim. *)
Definition activation_fds (passed : option (list PassedFd)) : option Z * option Z * list (string * Z) :=
  match passed with
  | None => (None, None, [])
  | Some fds => fold_left classify fds (None, None, [])
  end.

(** The user's shell in the passwd database, if that has one. *)
Definition login_shell (user : option string) : string :=
  match user with
  | Some shell => if bool_decide (shell = ""%string) then "/bin/sh" else shell
  | None => "/bin/sh"
  end.

(** ** The configuration *)

Inductive Source : Type :=
| Inherited (fd : Z)
| Address (addr : string).

Record Config := {
  listener : Source;
  static_token : option string;
  oidc : option OidcConfig;
  session_timeout : option Z;
  quic : option (string * string * Source);
  session_fds : list (string * Z);
}.

(** Why the server does not start. *)
Inductive Startup : Type :=
| Usage
| TokenFileError (path : string)
| Panics.

(** The two [match]es with an [unreachable!] branch. *)
Definition choose (inherited : option Z) (addr : option string) : option Source :=
  match inherited, addr with
  | Some f, _ => Some (Inherited f)
  | None, Some a => Some (Address a)
  | None, None => None
  end.

(** All or none of the options that belong together. *)
Definition quic_files (o : Options) : result (option (string * string)) Startup :=
  match quic_listen o, quic_cert o, quic_key o with
  | _, Some cert, Some key => Ok (Some (cert, key))
  | None, None, None => Ok None
  | _, _, _ => Err Usage
  end.

Definition oidc_options (o : Options) : result (option OidcConfig) Startup :=
  match oidc_issuer o, oidc_client_id o, oidc_allowed_sub o with
  | Some i, Some c, Some s => Ok (Some {| issuer := i; client_id := c; allowed_sub := s |})
  | None, None, None => Ok None
  | _, _, _ => Err Usage
  end.

(** [read] is [read_to_string]. *)
Definition read_token (o : Options) (read : string -> option bytes) : result (option string) Startup :=
  match token_file o with
  | Some path =>
      match read path with
      | Some contents => Ok (Some (of_bytes (trim contents)))
      | None => Err (TokenFileError path)
      end
  | None => Ok None
  end.

Definition parse_timeout (o : Options) : result (option Z) Startup :=
  match session_timeout_secs o with
  | Some secs => match parse_u64 (as_bytes secs) with Some secs => Ok (Some secs) | None => Err Usage end
  | None => Ok None
  end.

Definition usage_if (b : bool) : result unit Startup := if b then Err Usage else Ok tt.
Definition absent {A} (o : option A) : bool := match o with None => true | Some _ => false end.

(** [main] after the option loop, in its order of checks. *)
Definition configure (o : Options) (passed : option (list PassedFd)) (read : string -> option bytes)
    : result Config Startup :=
  let? quic := quic_files o in
  let '(activation, quic_socket, session_fds) := activation_fds passed in
  let? _ := usage_if (absent (listen o) && absent activation) in
  let? _ := usage_if (negb (absent quic) && absent (quic_listen o) && absent quic_socket) in
  let? static_token := read_token o read in
  let? oidc := oidc_options o in
  let? _ := usage_if (absent static_token && absent oidc) in
  let? session_timeout := parse_timeout o in
  let? listener := ok_or (choose activation (listen o)) Panics in
  let? quic :=
    match quic with
    | None => Ok None
    | Some (cert, key) =>
        let? source := ok_or (choose quic_socket (quic_listen o)) Panics in
        Ok (Some (cert, key, source))
    end in
  Ok {| listener := listener; static_token := static_token; oidc := oidc;
        session_timeout := session_timeout; quic := quic; session_fds := session_fds |}.

Definition server_main (args : list string) (passed : option (list PassedFd))
    (read : string -> option bytes) : result Config Startup :=
  match parse_options args no_options with
  | None => Err Usage
  | Some o => configure o passed read
  end.

(** ** Facts *)

Lemma as_bytes_length (s : string) : length (as_bytes s) = String.length s.
Proof. unfold as_bytes. rewrite length_map. by induction s as [|c s IH]; [|cbn; rewrite IH]. Qed.

Lemma ends_with_app a suffix : ends_with (a +:+ suffix) suffix = true.
Proof.
  apply bool_decide_eq_true_2. rewrite as_bytes_app, length_app.
  replace (length (as_bytes a) + length (as_bytes suffix) - length (as_bytes suffix))%nat
    with (length (as_bytes a)) by lia.
  by rewrite drop_app_length.
Qed.

Lemma handed_fd_is_session token role rfd dg : In role ["stdin"; "stdout"; "stderr"; "exit"]%string ->
  is_session_fd {| fd := rfd; name := fd_name token role; is_datagram := dg |} = true.
Proof.
  intros Hin. unfold is_session_fd. cbn [name]. apply existsb_exists.
  exists ("." +:+ role). split; [by destruct Hin as [<-|[<-|[<-|[<-|[]]]]]; cbn; tauto|].
  unfold fd_name. apply ends_with_app.
Qed.

Lemma fold_classify fds : forall l q ss,
  fold_left classify fds (l, q, ss) =
    (match l with
     | Some f => Some f
     | None => fd <$> List.find (fun f => negb (is_session_fd f) && negb (is_datagram f)) fds
     end,
     match q with
     | Some f => Some f
     | None => fd <$> List.find (fun f => negb (is_session_fd f) && is_datagram f) fds
     end,
     ss ++ map (fun f => (name f, fd f)) (List.filter is_session_fd fds)).
Proof.
  induction fds as [|f fds IH]; intros l q ss.
  { cbn. rewrite app_nil_r. by destruct l, q. }
  cbn [fold_left]. unfold classify at 2. cbn [List.find List.filter].
  destruct (is_session_fd f), (is_datagram f); cbn [negb andb]; try destruct l; try destruct q;
    rewrite IH; cbn; try done; by rewrite <- app_assoc.
Qed.

(** ** Properties *)

(** C31: the server only starts with a usable configuration, and no
    [unreachable!] is ever reached.  A started server authenticates somebody
    (a static token or a complete OIDC configuration), listens on the inherited
    socket if there is one and on [--listen] otherwise, and speaks QUIC exactly
    when certificate and key are both given, on the inherited datagram socket
    first; it refuses every partial group of options. *)
Theorem server_startup_sound (args : list string) (passed : option (list PassedFd))
    (read : string -> option bytes) :
  match server_main args passed read with
  | Err Panics => False
  | Err Usage => True
  | Err (TokenFileError path) => read path = None
  | Ok c =>
      exists o, parse_options args no_options = Some o /\
      (static_token c <> None \/ oidc c <> None) /\
      let '(activation, quic_socket, sessions) := activation_fds passed in
      Some (listener c) = choose activation (listen o) /\
      session_fds c = sessions /\
      (oidc c <> None <-> oidc_issuer o <> None) /\
      (oidc_issuer o <> None <-> oidc_client_id o <> None) /\
      (oidc_issuer o <> None <-> oidc_allowed_sub o <> None) /\
      (quic_cert o <> None <-> quic_key o <> None) /\
      match quic c with
      | Some (cert, key, source) =>
          quic_cert o = Some cert /\ quic_key o = Some key /\ Some source = choose quic_socket (quic_listen o)
      | None => quic_cert o = None /\ quic_listen o = None
      end
  end.
Proof.
  unfold server_main. destruct (parse_options args no_options) as [o|]; [|done]. unfold configure.
  destruct (activation_fds passed) as [[activation quic_socket] sessions].
  destruct o as [l ql qc qk tf oi oc os st].
  unfold quic_files, read_token, oidc_options, parse_timeout; cbn [listen quic_listen quic_cert quic_key
    token_file oidc_issuer oidc_client_id oidc_allowed_sub session_timeout_secs].
  destruct qc as [cert|], qk as [key|]; try (destruct ql; exact I);
    try (destruct ql as [qa|]; [exact I|]);
    (destruct l as [la|], activation as [ac|]; cbn [usage_if absent andb negb result_bind]; try exact I);
    try (destruct ql as [qa|], quic_socket as [qs|]; cbn [usage_if absent andb negb result_bind]; try exact I);
    (destruct tf as [path|]; [destruct (read path) eqn:Hread; [|cbn [result_bind]; done]|]; cbn [result_bind]);
    (destruct oi as [i|], oc as [c|], os as [s|]; cbn [usage_if absent andb negb result_bind]; try exact I);
    (destruct st as [secs|]; [destruct (parse_u64 (as_bytes secs)); [|exact I]|]);
    cbn; eexists; (split; [reflexivity|]); cbn; split_and!; try done; try (by left); by right.
Qed.

(** Passed descriptors are told apart.  Whatever systemd passes and in
    whatever order, the listener is the first stream socket and the QUIC socket
    the first datagram socket that is not a session's, and the session
    descriptors are all of the others with a role suffix, in order; every name
    under which the previous daemon stored a session's pipe (whatever its token)
    is recognised as one. *)
Theorem activation_fds_classified (fds : list PassedFd) :
  activation_fds (Some fds) =
    (fd <$> List.find (fun f => negb (is_session_fd f) && negb (is_datagram f)) fds,
     fd <$> List.find (fun f => negb (is_session_fd f) && is_datagram f) fds,
     map (fun f => (name f, fd f)) (List.filter is_session_fd fds)) /\
  forall f token role, f ∈ fds -> In role ["stdin"; "stdout"; "stderr"; "exit"]%string ->
    name f = fd_name token role ->
    let '(_, _, sessions) := activation_fds (Some fds) in (name f, fd f) ∈ sessions.
Proof.
  assert (Heq : activation_fds (Some fds) =
    (fd <$> List.find (fun f => negb (is_session_fd f) && negb (is_datagram f)) fds,
     fd <$> List.find (fun f => negb (is_session_fd f) && is_datagram f) fds,
     map (fun f => (name f, fd f)) (List.filter is_session_fd fds))) by (cbn; apply fold_classify).
  split; [exact Heq|]. intros f token role Hin Hrole Hname. rewrite Heq.
  apply list_elem_of_In, in_map_iff. exists f. split; [done|].
  apply filter_In. split; [by apply list_elem_of_In|].
  destruct f as [x n dg]. cbn in Hname. subst n. by apply handed_fd_is_session.
Qed.
