(* ===== verification/Oidc.v ===== *)
(** * OIDC tokens of the client ([client/src/oidc.rs])

    The device-code login, the token cache and its refresh.  The HTTP client
    and the JSON library are third-party: [OidcLib] says what a request
    answers, and how bodies and the cache file are read; times are seconds. *)

From S2P Require Import Prelude Auth Session Target.

Local Open Scope rust_scope.

(** ** Data *)

Definition EXPIRY_MARGIN_SECS : Z := 60.

Record Discovery := {
  device_authorization_endpoint : string;
  token_endpoint : string;
}.

Record DeviceAuthorization := {
  device_code : string;
  user_code : string;
  verification_uri : string;
  verification_uri_complete : option string;
  interval : option Z;
  expires_in : Z;
}.

Record TokenResponse := {
  access : string;
  refresh : option string;
  token_expires_in : Z;
}.

Record CachedTokens := {
  cached_access : string;
  cached_refresh : option string;
  expires_at : Z;
}.

(** The cache file as reading it answers. *)
Inductive CacheFile : Type :=
| NotFound
| ReadFailed
| Contents (bs : bytes).

(** A response: its status, its Retry-After header and its body. *)
Record HttpResponse := {
  status : Z;
  retry_after_header : option bytes;
  body : bytes;
}.

(** Requests ([None] when sending fails) and JSON. *)
Class OidcLib := {
  Net : Type;
  http_get : string -> Net -> option HttpResponse * Net;
  http_post : string -> list (string * string) -> Net -> option HttpResponse * Net;
  json_discovery : bytes -> option Discovery;
  json_device : bytes -> option DeviceAuthorization;
  json_token : bytes -> option TokenResponse;
  json_error : bytes -> option string;
  json_cache : bytes -> option CachedTokens;
  to_json_cache : CachedTokens -> bytes;
}.

(** serde_json reads back what it wrote. *)
Class OidcLibOk `{OidcLib} : Prop :=
  json_cache_roundtrip : forall c, json_cache (to_json_cache c) = Some c.

(** [oidc_target]. *)
Definition oidc_target (cfg : TargetConfig) : result (string * string) ClientError :=
  match cfg_issuer cfg, cfg_client_id cfg with
  | Some issuer, Some client_id => Ok (issuer, client_id)
  | _, _ => Err NoAuthConfigured
  end.

(** ** Requests *)

Definition is_client_error (s : Z) : bool := (400 <=? s) && (s <? 500).
Definition is_error_status (s : Z) : bool := (400 <=? s) && (s <? 600).

(** [HeaderValue::to_str]: visible ASCII, space and tab only. *)
Definition visible (b : Z) : bool := ((32 <=? b) && (b <? 127)) || (b =? 9).

Definition FALLBACK_SECS : Z := 30.

Definition retry_after (header : option bytes) : Z :=
  unwrap_or
    (match header with
     | Some value => if forallb visible value then parse_u64 (trim value) else None
     | None => None
     end) FALLBACK_SECS.

Section Requests.
Context `{OidcLib}.

(** [discover]. *)
Definition discover (issuer : string) (n : Net) : result Discovery ClientError * Net :=
  let url := trim_end_slashes issuer +:+ "/.well-known/openid-configuration" in
  let '(response, n) := http_get url n in
  (match response with
   | None => Err (Http url)
   | Some r =>
       if is_error_status (status r) then Err (Http url)
       else ok_or (json_discovery (body r)) (Http url)
   end, n).

(** [token_request]: an OAuth error is a value, not an error. *)
Definition token_request {T} (parse : bytes -> option T) (url : string) (form : list (string * string))
    (n : Net) : result (result T string) ClientError * Net :=
  let '(response, n) := http_post url form n in
  (match response with
   | None => Err (Http url)
   | Some r =>
       if status r =? 429 then Err (RateLimited url (retry_after (retry_after_header r)))
       else if is_client_error (status r) then
         let? error := ok_or (json_error (body r)) (Http url) in Ok (Err error)
       else if is_error_status (status r) then Err (Http url)
       else let? t := ok_or (parse (body r)) (Http url) in Ok (Ok t)
   end, n).

(** ** The cache *)

(** [load_tokens]: a malformed file counts as no tokens. *)
Definition load_tokens (f : CacheFile) : result (option CachedTokens) ClientError :=
  match f with
  | NotFound => Ok None
  | ReadFailed => Err Io
  | Contents bs => Ok (json_cache bs)
  end.

Definition load_cached_tokens (name : string) (f : CacheFile) : result CachedTokens ClientError :=
  let? tokens := load_tokens f in ok_or tokens (NotLoggedIn name).

(** [store_tokens]: written next to the cache and renamed over it, so that a
    reader sees the old file or the new one. *)
Definition store_tokens (now : Z) (tokens : TokenResponse) (writable : bool) (f : CacheFile)
    : result unit ClientError * CacheFile :=
  if writable then
    (Ok tt, Contents (to_json_cache
       {| cached_access := access tokens; cached_refresh := refresh tokens;
          expires_at := add_u64 now (token_expires_in tokens) |}))
  else (Err Io, f).

(** ** [access_token] *)

(** The check before and after taking the lock. *)
Definition fresh_token (now : Z) (c : CachedTokens) : option string :=
  if add_u64 now EXPIRY_MARGIN_SECS <? expires_at c then Some (cached_access c) else None.

(** Without the lock: the cached token, or the need to refresh. *)
Definition fast_path (name : string) (cfg : TargetConfig) (now : Z) (f : CacheFile)
    : result (option string) ClientError :=
  let? _ := oidc_target cfg in
  let? cached := load_cached_tokens name f in
  Ok (fresh_token now cached).

(** Providers that do not rotate refresh tokens omit the field. *)
Definition keep_refresh (old : string) (t : TokenResponse) : TokenResponse :=
  {| access := access t; refresh := match refresh t with None => Some old | Some r => Some r end;
     token_expires_in := token_expires_in t |}.

Definition refresh_form (refresh_token client_id : string) : list (string * string) :=
  [("grant_type", "refresh_token"); ("refresh_token", refresh_token); ("client_id", client_id)]%string.

(** Under the lock: the cache is read again before anything is refreshed.
    [now'] is the time at which the new tokens are stored. *)
Definition refresh_locked (name : string) (cfg : TargetConfig) (now now' : Z) (client_ok writable : bool)
    (f : CacheFile) (n : Net) : result string ClientError * CacheFile * Net :=
  match (let? p := oidc_target cfg in let? cached := load_cached_tokens name f in Ok (p, cached)) with
  | Err e => (Err e, f, n)
  | Ok ((issuer, client_id), cached) =>
      match fresh_token now cached with
      | Some t => (Ok t, f, n)
      | None =>
          match cached_refresh cached with
          | None => (Err (NotLoggedIn name), f, n)
          | Some refresh_token =>
              if negb client_ok then (Err Io, f, n)
              else
                match discover issuer n with
                | (Err e, n) => (Err e, f, n)
                | (Ok discovery, n) =>
                    match token_request json_token (token_endpoint discovery)
                            (refresh_form refresh_token client_id) n with
                    | (Err e, n) => (Err e, f, n)
                    | (Ok (Err _), n) => (Err (NotLoggedIn name), f, n)
                    | (Ok (Ok tokens), n) =>
                        let tokens := keep_refresh refresh_token tokens in
                        match store_tokens now' tokens writable f with
                        | (Err e, f) => (Err e, f, n)
                        | (Ok _, f) => (Ok (access tokens), f, n)
                        end
                    end
                end
          end
      end
  end.

(** [access_token] of a process that is alone; [lock] is the lock file. *)
Definition access_token (name : string) (cfg : TargetConfig) (now now' now'' : Z)
    (lock : result unit ClientError) (client_ok writable : bool) (f : CacheFile) (n : Net)
    : result string ClientError * CacheFile * Net :=
  match fast_path name cfg now f with
  | Err e => (Err e, f, n)
  | Ok (Some t) => (Ok t, f, n)
  | Ok None =>
      match lock with
      | Err e => (Err e, f, n)
      | Ok _ => refresh_locked name cfg now' now'' client_ok writable f n
      end
  end.

(** [TargetConfig::resolve] and [Target::access_token] of [lib.rs]. *)
Definition resolve (name : string) (cfg : TargetConfig) (token : result string ClientError)
    (ssh_auth_sock : option string) : result Target ClientError :=
  match cfg_token cfg with
  | Some static => Ok (resolved cfg (Static static) ssh_auth_sock)
  | None => let? _ := token in Ok (resolved cfg (FromOidc name cfg) ssh_auth_sock)
  end.

Definition target_access_token (t : Target) (oidc : string -> TargetConfig -> result string ClientError)
    : result string ClientError :=
  match token t with
  | Static token => Ok token
  | FromOidc name config => oidc name config
  end.

(** ** The device-code login *)

(** What a poll of the token endpoint means. *)
Inductive Poll : Type :=
| GotTokens (t : TokenResponse)
| WaitFor (wait interval : Z)
| PollFailed (e : ClientError).

Definition poll_answer (interval : Z) (response : result (result TokenResponse string) ClientError) : Poll :=
  match response with
  | Ok (Ok tokens) => GotTokens tokens
  | Ok (Err error) =>
      if bool_decide (error = "authorization_pending"%string) then WaitFor interval interval
      else if bool_decide (error = "slow_down"%string) then WaitFor (interval + 5) (interval + 5)
      else PollFailed (OidcError ("login failed: " +:+ error))
  | Err (RateLimited _ secs) => WaitFor (Z.max secs interval) interval
  | Err e => PollFailed e
  end.

(** The polling loop: [answer k] is what the [k]-th poll answers and the time
    at which its answer is handled; also the waits it slept.  [None] when the
    fuel is used up.  (Instants are unbounded here: the panic of [Instant +
    Duration] on a sum out of range is not modelled.) *)
Fixpoint poll_loop (fuel : nat) (answer : nat -> result (result TokenResponse string) ClientError * Z)
    (k : nat) (interval deadline : Z) : option (result TokenResponse ClientError * list (Z * Z)) :=
  match fuel with
  | O => None
  | S fuel =>
      let '(response, now) := answer k in
      match poll_answer interval response with
      | GotTokens tokens => Some (Ok tokens, [])
      | PollFailed e => Some (Err e, [])
      | WaitFor wait interval =>
          if deadline <? now + wait then Some (Err (OidcError "device code expired"), [])
          else
            match poll_loop fuel answer (S k) interval deadline with
            | Some (r, sleeps) => Some (r, (now, wait) :: sleeps)
            | None => None
            end
      end
  end.

Definition device_form (client_id : string) : list (string * string) :=
  [("client_id", client_id); ("scope", "openid offline_access")]%string.

(** [login_with_prompt] up to the polling loop: the device code, the first
    interval and the time the code expires. *)
Definition start_login (cfg : TargetConfig) (client_ok : bool) (now : Z) (n : Net)
    : result (DeviceAuthorization * string * Z * Z) ClientError * Net :=
  match oidc_target cfg with
  | Err e => (Err e, n)
  | Ok (issuer, client_id) =>
      if negb client_ok then (Err Io, n)
      else
        match discover issuer n with
        | (Err e, n) => (Err e, n)
        | (Ok discovery, n) =>
            match token_request json_device (device_authorization_endpoint discovery)
                    (device_form client_id) n with
            | (Err e, n) => (Err e, n)
            | (Ok (Err error), n) => (Err (OidcError ("device authorization failed: " +:+ error)), n)
            | (Ok (Ok device), n) =>
                (Ok (device, token_endpoint discovery, unwrap_or (interval device) 5,
                     now + expires_in device), n)
            end
        end
  end.

(** The form of a poll. *)
Definition poll_form (device_code client_id : string) : list (string * string) :=
  [("grant_type", "urn:ietf:params:oauth:grant-type:device_code"); ("device_code", device_code);
   ("client_id", client_id)]%string.

(** [login_with_prompt].  [prompted] and [confirmed] say whether the two
    lines could be written to the prompt; [answer k] is what the [k]-th
    [token_request] with [poll_form] answers and when; [stored_at] is the time
    at which the tokens are stored.  [None] when the fuel is used up. *)
Definition login_with_prompt (fuel : nat) (cfg : TargetConfig) (client_ok prompted confirmed writable : bool)
    (now stored_at : Z) (answer : nat -> result (result TokenResponse string) ClientError * Z)
    (f : CacheFile) (n : Net) : option (result unit ClientError * CacheFile) :=
  match start_login cfg client_ok now n with
  | (Err e, _) => Some (Err e, f)
  | (Ok (device, endpoint, interval, deadline), _) =>
      if negb prompted then Some (Err Io, f)
      else
        match poll_loop fuel answer 0 interval deadline with
        | None => None
        | Some (Err e, _) => Some (Err e, f)
        | Some (Ok tokens, _) =>
            match store_tokens stored_at tokens writable f with
            | (Err e, f) => Some (Err e, f)
            | (Ok _, f) => Some (if confirmed then Ok tt else Err Io, f)
            end
        end
  end.

(** [login]: the prompt is stderr, no browser is opened. *)
Definition login (fuel : nat) (cfg : TargetConfig) (client_ok stderr_ok : bool) (now stored_at : Z)
    (answer : nat -> result (result TokenResponse string) ClientError * Z) (writable : bool)
    (f : CacheFile) (n : Net) : option (result unit ClientError * CacheFile) :=
  login_with_prompt fuel cfg client_ok stderr_ok stderr_ok writable now stored_at answer f n.

(** [open_in_browser]: the first opener that can be started. *)
Definition open_in_browser (spawned : string -> bool) : option string :=
  if spawned "xdg-open"%string then Some "xdg-open"%string
  else if spawned "open"%string then Some "open"%string else None.

(** [login_on_tty]: without a terminal the caller is told to log in. *)
Definition login_on_tty (name : string) (tty : bool)
    (login : option (result unit ClientError * CacheFile)) (f : CacheFile) : option (result unit ClientError * CacheFile) :=
  if tty then login else Some (Err (NotLoggedIn name), f).

(** [token_cache_path]. *)
Definition token_cache_path (env : string -> option bytes) (name : string) : bytes :=
  let base :=
    match env "XDG_STATE_HOME"%string with
    | Some dir => dir
    | None => path_join (path_join (unwrap_or (env "HOME"%string) []) (as_bytes ".local")) (as_bytes "state")
    end in
  path_join (path_join (path_join base (as_bytes "herdr-eternal")) (as_bytes "tokens"))
    (as_bytes (name +:+ ".json")).

(** [Path::with_extension]: what follows the last dot of the file name is
    replaced, unless that dot begins the name. *)
Definition file_name_split (path : bytes) : bytes * bytes :=
  match rsplit_once 47 path with
  | Some (dir, name) => (dir ++ [47], name)
  | None => ([], path)
  end.

Definition with_extension (path ext : bytes) : bytes :=
  let '(dir, name) := file_name_split path in
  let stem := match rsplit_once 46 name with
              | Some ([], _) | None => name
              | Some (stem, _) => stem
              end in
  dir ++ stem ++ [46] ++ ext.

(** The lock file, and the file the cache is written to before it is renamed. *)
Definition lock_path (env : string -> option bytes) (name : string) : bytes :=
  with_extension (token_cache_path env name) (as_bytes "lock").
Definition tmp_path (env : string -> option bytes) (name : string) : bytes :=
  with_extension (token_cache_path env name) (as_bytes "json.tmp").

(** [lock_token_cache]: the directory, the file and the blocking lock, in a
    task of its own. *)
Definition lock_token_cache (join_error : option string) (dir_ok opened locked : bool) : result unit ClientError :=
  match join_error with
  | Some err => Err (OidcError ("token cache lock task failed: " +:+ err))
  | None => if dir_ok && opened && locked then Ok tt else Err Io
  end.

(** [now_unix]: a clock before the epoch counts as the epoch. *)
Definition now_unix (since_epoch : option Z) : Z := unwrap_or since_epoch 0.

End Requests.

(** ** Properties *)

(** No lock and no temporary file is any target's cache, so a target is never
    locked or half-written under the name of another. *)
Lemma with_extension_suffix path ext : exists pre, with_extension path ext = pre ++ [46] ++ ext.
Proof.
  unfold with_extension. destruct (file_name_split path) as [dir name].
  eexists (dir ++ _). by rewrite <- app_assoc.
Qed.

Lemma path_join_suffix base comp suffix : (exists pre, comp = pre ++ suffix) ->
  exists pre, path_join base comp = pre ++ suffix.
Proof.
  intros [pre ->]. unfold path_join.
  assert (Hb : forall b, exists pre', b ++ pre ++ suffix = pre' ++ suffix)
    by (intros b; exists (b ++ pre); by rewrite app_assoc).
  repeat first [by exists pre | case_match]; try apply Hb; rewrite app_assoc; apply Hb.
Qed.

Lemma cache_suffix env name : exists pre, token_cache_path env name = pre ++ as_bytes ".json".
Proof.
  unfold token_cache_path. apply path_join_suffix. exists (as_bytes name). by rewrite as_bytes_app.
Qed.

Lemma cache_file_apart env env' name name' :
  token_cache_path env name <> lock_path env' name' /\ token_cache_path env name <> tmp_path env' name' /\
  lock_path env name <> tmp_path env' name'.
Proof.
  destruct (cache_suffix env name) as [pre Hc].
  destruct (with_extension_suffix (token_cache_path env' name') (as_bytes "lock")) as [p1 H1].
  destruct (with_extension_suffix (token_cache_path env' name') (as_bytes "json.tmp")) as [p2 H2].
  destruct (with_extension_suffix (token_cache_path env name) (as_bytes "lock")) as [p3 H3].
  unfold lock_path, tmp_path. rewrite Hc in *. rewrite H1, H2, H3.
  split_and!; intros Heq; apply (f_equal reverse) in Heq; rewrite !reverse_app in Heq; vm_compute in Heq; done.
Qed.


Lemma poll_answer_wait interval response wait interval' :
  poll_answer interval response = WaitFor wait interval' -> interval <= interval' <= wait.
Proof.
  destruct response as [[t|error]|e]; cbn; [done| |].
  - case_bool_decide; [intros [= <- <-]; lia|]. case_bool_decide; [intros [= <- <-]; lia|done].
  - destruct e; try done. intros [= <- <-]. lia.
Qed.

Local Ltac no_sleep := eexists _, []; split_and!; [done|constructor|len_lia].

Lemma poll_loop_bounded answer interval deadline : 1 <= interval ->
  (forall k, (answer k).2 + interval <= (answer (S k)).2) ->
  forall fuel k i, interval <= i -> deadline - (answer k).2 <= Z.of_nat fuel ->
  exists r sleeps, poll_loop (S fuel) answer k i deadline = Some (r, sleeps) /\
    Forall (fun '(now, wait) => interval <= wait /\ now + wait <= deadline) sleeps /\
    len sleeps * interval <= Z.max 0 (deadline - (answer k).2).
Proof.
  intros H1 Hclock. induction fuel as [|fuel IH]; intros k i Hi Hfuel;
    cbn [poll_loop]; destruct (answer k) as [response now] eqn:Hk; cbn [snd] in *;
    (destruct (poll_answer i response) as [t|wait i'|e] eqn:Ha;
      [no_sleep| |no_sleep]);
    apply poll_answer_wait in Ha; destruct (Z.ltb_spec deadline (now + wait));
    try no_sleep.
  - lia.
  - specialize (Hclock k). rewrite Hk in Hclock. cbn [snd] in Hclock.
    destruct (IH (S k) i') as (r & sleeps & Hr & Hs & Hl); [lia|lia|].
    cbn [poll_loop] in Hr. rewrite Hr. eexists _, _. split_and!; [done|constructor; [lia|done]|].
    rewrite len_cons. pose proof (len_nonneg sleeps). nia.
Qed.

(** C29: the device login ends.  However the issuer answers (pending, slow down,
    rate limits, errors), with a poll interval of at least one second and a
    clock that advances by at least that between polls, the login returns after
    at most one poll per second until the code expires; it never sleeps past
    the expiry, never polls faster than the interval it was given, and sleeps
    at most (time left) / interval times. *)
Theorem device_login_terminates (answer : nat -> result (result TokenResponse string) ClientError * Z)
    (interval deadline : Z) :
  1 <= interval -> (forall k, (answer k).2 + interval <= (answer (S k)).2) ->
  exists r sleeps,
    poll_loop (S (Z.to_nat (deadline - (answer 0%nat).2))) answer 0 interval deadline = Some (r, sleeps) /\
    Forall (fun '(now, wait) => interval <= wait /\ now + wait <= deadline) sleeps /\
    len sleeps * interval <= Z.max 0 (deadline - (answer 0%nat).2).
Proof. intros H1 Hclock. apply poll_loop_bounded; [done|done|lia|lia]. Qed.

(** Pending twice, then told to slow down for ever. *)
Definition example_answer (k : nat) : result (result TokenResponse string) ClientError * Z :=
  (Ok (Err (if bool_decide (k < 2)%nat then "authorization_pending" else "slow_down")%string), 20 * Z.of_nat k).

Lemma device_login_terminates_witness :
  poll_loop (S (Z.to_nat (60 - 0))) example_answer 0 5 60 =
    Some (Err (OidcError "device code expired"), [(0, 5); (20, 5); (40, 10)]) /\
  exists r sleeps, poll_loop (S (Z.to_nat (60 - 0))) example_answer 0 5 60 = Some (r, sleeps) /\
    Forall (fun '(now, wait) => 5 <= wait /\ now + wait <= 60) sleeps /\ len sleeps * 5 <= Z.max 0 (60 - 0).
Proof.
  split; [vm_compute; reflexivity|].
  apply (device_login_terminates example_answer 5 60); [lia|].
  intros k. cbn [example_answer snd]. lia.
Defined.

Section OidcProperties.
Context `{OidcLibOk}.

(** C28: a refresh never loses a login by accident.  If a locked refresh fails,
    the cache file is unchanged; it reports the login as gone only if there
    never was one (no cache, or no refresh token in it) or the issuer itself
    refused the refresh token with an OAuth error, and in particular not when
    the issuer limits the rate (429), is unreachable, fails (5xx) or answers
    garbage.  If it succeeds, the returned token is what the next
    [access_token] finds in the cache until its expiry margin, together with a
    refresh token, also when the provider did not send a new one. *)
Theorem refresh_preserves_login (name : string) (cfg : TargetConfig) (now now' : Z)
    (client_ok writable : bool) (f f' : CacheFile) (n n' : Net) (r : result string ClientError) :
  refresh_locked name cfg now now' client_ok writable f n = (r, f', n') ->
  match r with
  | Err e =>
      f' = f /\
      (e = NotLoggedIn name ->
       load_tokens f = Ok None \/
       (exists c, load_tokens f = Ok (Some c) /\ cached_refresh c = None) \/
       (exists c old issuer client_id d n1 resp,
          load_tokens f = Ok (Some c) /\ cached_refresh c = Some old /\
          oidc_target cfg = Ok (issuer, client_id) /\ discover issuer n = (Ok d, n1) /\
          http_post (token_endpoint d) (refresh_form old client_id) n1 = (Some resp, n') /\
          is_client_error (status resp) = true /\ status resp <> 429 /\ is_Some (json_error (body resp))))
  | Ok t =>
      exists c, load_tokens f' = Ok (Some c) /\ cached_access c = t /\
        (f' = f \/ is_Some (cached_refresh c)) /\
        forall now2, add_u64 now2 EXPIRY_MARGIN_SECS < expires_at c -> fast_path name cfg now2 f' = Ok (Some t)
  end.
Proof.
  unfold refresh_locked, fast_path. destruct (oidc_target cfg) as [[issuer client_id]|e] eqn:Ht; cbn [result_bind].
  2: { intros [= <- <- <-]. split; [done|]. unfold oidc_target in Ht.
       destruct (cfg_issuer cfg), (cfg_client_id cfg); try discriminate; injection Ht as <-; discriminate. }
  unfold load_cached_tokens. destruct (load_tokens f) as [[cached|]|e] eqn:Hl; cbn [ok_or result_bind].
  2: { intros [= <- <- <-]. split; [done|]. by left. }
  2: { intros [= <- <- <-]. split; [done|]. destruct f; try discriminate. cbn in Hl. injection Hl as <-. done. }
  destruct (fresh_token now cached) as [t|] eqn:Hf.
  { intros [= <- <- <-]. unfold fresh_token in Hf. destruct (_ <? _); [|done]. injection Hf as <-.
    exists cached. split_and!; [done|done|by left|]. intros now2 Hnow. rewrite Hl. cbn. unfold fresh_token.
    by rewrite (proj2 (Z.ltb_lt _ _) Hnow). }
  destruct (cached_refresh cached) as [old|] eqn:Hold.
  2: { intros [= <- <- <-]. split; [done|]. intros _. right; left. by exists cached. }
  destruct client_ok; cbn [negb]; [|by intros [= <- <- <-]].
  destruct (discover issuer n) as [[d|e] n1] eqn:Hd.
  2: { intros [= <- <- <-]. split; [done|]. intros ->. unfold discover in Hd.
       destruct (http_get _ n) as [[resp|] n2]; [|done]. destruct (is_error_status _); [done|].
       by destruct (json_discovery _). }
  unfold token_request. destruct (http_post _ _ n1) as [[resp2|] n2] eqn:Hpost.
  2: { by intros [= <- <- <-]. }
  destruct (Z.eqb_spec (status resp2) 429); [by intros [= <- <- <-]|].
  destruct (is_client_error (status resp2)) eqn:Hce.
  { destruct (json_error (body resp2)) as [error|] eqn:Hj; cbn [ok_or result_bind]; intros [= <- <- <-].
    - split; [done|]. intros _. right; right. exists cached, old, issuer, client_id, d, n1, resp2.
      split_and!; [done..|by eexists].
    - done. }
  destruct (is_error_status (status resp2)); [by intros [= <- <- <-]|].
  destruct (json_token (body resp2)) as [tokens|]; cbn [ok_or result_bind]; [|by intros [= <- <- <-]].
  unfold store_tokens. destruct writable; [|by intros [= <- <- <-]]. intros [= <- <- <-].
  cbn [load_tokens]. rewrite json_cache_roundtrip. eexists. split_and!; [done|done|right|].
  - cbn. by destruct (refresh tokens).
  - intros now2 Hnow. cbn [ok_or result_bind]. unfold fresh_token. by rewrite (proj2 (Z.ltb_lt _ _) Hnow).
Qed.

(** The answers after which a login polls again. *)
Definition polls_again (response : result (result TokenResponse string) ClientError) : Prop :=
  response = Ok (Err "authorization_pending"%string) \/ response = Ok (Err "slow_down"%string) \/
  exists url secs, response = Err (RateLimited url secs).

Lemma poll_answer_again interval response wait interval' :
  poll_answer interval response = WaitFor wait interval' -> polls_again response.
Proof.
  unfold polls_again. destruct response as [[t|error]|e]; cbn; [done| |].
  - case_bool_decide; [subst; auto|]. case_bool_decide; [subst; auto|done].
  - destruct e; try done. eauto.
Qed.

Lemma poll_loop_tokens answer deadline : forall fuel k interval tokens sleeps,
  poll_loop fuel answer k interval deadline = Some (Ok tokens, sleeps) ->
  exists m, (answer (k + m)%nat).1 = Ok (Ok tokens) /\
    forall j, (j < m)%nat -> polls_again (answer (k + j)%nat).1.
Proof.
  induction fuel as [|fuel IH]; intros k interval tokens sleeps; [done|]. cbn [poll_loop].
  destruct (answer k) as [response now] eqn:Hk.
  destruct (poll_answer interval response) as [t|wait i'|e] eqn:Ha; [| |done].
  - intros [= -> <-]. exists 0%nat. rewrite Nat.add_0_r, Hk. split; [|lia].
    destruct response as [[t|error]|e]; cbn in Ha; [by injection Ha as ->| |by destruct e].
    repeat case_bool_decide; done.
  - destruct (_ <? _); [done|]. destruct (poll_loop fuel _ _ _ _) as [[r sl]|] eqn:Hr; [|done].
    intros [= -> <-]. apply IH in Hr as (m & Hm & Hbefore). exists (S m).
    replace (k + S m)%nat with (S k + m)%nat by lia. split; [done|].
    intros [|j] Hj; [rewrite Nat.add_0_r, Hk; by eapply poll_answer_again|].
    replace (k + S j)%nat with (S k + j)%nat by lia. apply Hbefore. lia.
Qed.

(** What a login leaves in the cache.  A login either changes nothing and
    fails, or the issuer granted tokens after answers that all meant to poll
    again, and the cache holds exactly those tokens, to be refreshed when their
    lifetime, counted from the time they were stored, runs out.  A login that
    reports success has stored tokens. *)
Theorem login_stores_granted_tokens (fuel : nat) (cfg : TargetConfig)
    (client_ok prompted confirmed writable : bool) (now stored_at : Z)
    (answer : nat -> result (result TokenResponse string) ClientError * Z)
    (f f' : CacheFile) (n : Net) (r : result unit ClientError) :
  login_with_prompt fuel cfg client_ok prompted confirmed writable now stored_at answer f n = Some (r, f') ->
  (f' = f /\ r <> Ok tt) \/
  exists k tokens,
    (answer k).1 = Ok (Ok tokens) /\ (forall j, (j < k)%nat -> polls_again (answer j).1) /\
    load_tokens f' = Ok (Some {| cached_access := access tokens; cached_refresh := refresh tokens;
                                 expires_at := add_u64 stored_at (token_expires_in tokens) |}) /\
    r = (if confirmed then Ok tt else Err Io).
Proof.
  unfold login_with_prompt. destruct (start_login cfg client_ok now n) as [[[[[device endpoint] interval] deadline]|e] n1].
  2: { intros [= <- <-]. by left. }
  destruct prompted; cbn [negb]; [|intros [= <- <-]; by left].
  destruct (poll_loop fuel answer 0 interval deadline) as [[[tokens|e] sleeps]|] eqn:Hp; [|intros [= <- <-]; by left|done].
  unfold store_tokens. destruct writable; intros [= <- <-]; [right|by left].
  apply poll_loop_tokens in Hp as (k & Hk & Hbefore). exists k, tokens.
  split_and!; [done|done| |done]. cbn [load_tokens]. by rewrite json_cache_roundtrip.
Qed.

End OidcProperties.

(** ** A concrete library *)

(** A number, a string and an optional string in a byte list. *)
Definition pack (n : Z) (a : string) (r : option string) : bytes :=
  n :: (match r with Some _ => 1 | None => 0 end) :: len (as_bytes a) ::
    as_bytes a ++ as_bytes (unwrap_or r ""%string).

Definition unpack (bs : bytes) : option (Z * string * option string) :=
  match bs with
  | n :: flag :: l :: rest =>
      Some (n, of_bytes (take (Z.to_nat l) rest),
            if flag =? 1 then Some (of_bytes (drop (Z.to_nat l) rest)) else None)
  | _ => None
  end.

Lemma unpack_pack n a r : unpack (pack n a r) = Some (n, a, r).
Proof.
  unfold pack, unpack. unfold len. rewrite Nat2Z.id, take_app_length, drop_app_length, of_as_bytes.
  destruct r; cbn [unwrap_or]; by rewrite ?of_as_bytes.
Qed.

(** A fixed discovery document, and a network that answers posts by a
    function. *)
Definition toy_oidc (N : Type) (post : list (string * string) -> N -> option HttpResponse * N) : OidcLib :=
  {| Net := N;
     http_get := fun _ n => (Some {| status := 200; retry_after_header := None; body := [] |}, n);
     http_post := fun _ form n => post form n;
     json_discovery := fun _ => Some {| device_authorization_endpoint := "device"; token_endpoint := "token" |};
     json_device := fun _ =>
       Some {| device_code := "d"; user_code := "u"; verification_uri := "v"; verification_uri_complete := None;
               interval := None; expires_in := 300 |};
     json_token := fun bs => (fun '(n, a, r) => {| access := a; refresh := r; token_expires_in := n |}) <$> unpack bs;
     json_error := fun bs => Some (of_bytes bs);
     json_cache := fun bs => (fun '(n, a, r) => {| cached_access := a; cached_refresh := r; expires_at := n |}) <$> unpack bs;
     to_json_cache := fun c => pack (expires_at c) (cached_access c) (cached_refresh c) |}.

Lemma toy_oidc_ok N post : @OidcLibOk (toy_oidc N post).
Proof.
  intros c.
  change ((fun '(n, a, r) => {| cached_access := a; cached_refresh := r; expires_at := n |}) <$>
            unpack (pack (expires_at c) (cached_access c) (cached_refresh c)) = Some c).
  rewrite unpack_pack. by destruct c.
Qed.

Definition example_config : TargetConfig :=
  {| cfg_url := "ws://h"; cfg_token := None; cfg_issuer := Some "http://issuer/"%string;
     cfg_client_id := Some "herdr"%string; cfg_forward_agent := false; cfg_quic_addr := None;
     cfg_quic_ca := None |}.

(** A provider that answers once without a new refresh token, then limits the
    rate. *)
Definition example_post (form : list (string * string)) (n : nat) : option HttpResponse * nat :=
  (Some match n with
        | O => {| status := 200; retry_after_header := None; body := pack 3600 "new" None |}
        | _ => {| status := 429; retry_after_header := Some (as_bytes " 7 "); body := [] |}
        end, S n).

Definition example_cache : CacheFile := Contents (pack 100 "old" (Some "r0"%string)).

Lemma refresh_preserves_login_witness :
  let lib := toy_oidc nat example_post in
  @refresh_locked lib "box" example_config 1000 1001 true true example_cache 0%nat =
    (Ok "new"%string, Contents (pack 4601 "new" (Some "r0"%string)), 1%nat) /\
  @refresh_locked lib "box" example_config 1000 1001 true true example_cache 1%nat =
    (Err (RateLimited "token" 7), example_cache, 2%nat) /\
  exists c, @load_tokens lib (Contents (pack 4601 "new" (Some "r0"%string))) = Ok (Some c) /\
    cached_access c = "new"%string /\
    (Contents (pack 4601 "new" (Some "r0"%string)) = example_cache \/ is_Some (cached_refresh c)) /\
    forall now2, add_u64 now2 EXPIRY_MARGIN_SECS < expires_at c ->
      @fast_path lib "box" example_config now2 (Contents (pack 4601 "new" (Some "r0"%string))) = Ok (Some "new"%string).
Proof.
  intros lib. split; [vm_compute; reflexivity|]. split; [vm_compute; reflexivity|].
  apply (@refresh_preserves_login lib (toy_oidc_ok nat example_post) "box" example_config 1000 1001 true true
    example_cache (Contents (pack 4601 "new" (Some "r0"%string))) 0%nat 1%nat (Ok "new"%string)).
  vm_compute. reflexivity.
Defined.

(** Pending once, then granted. *)
Definition granted_answer (k : nat) : result (result TokenResponse string) ClientError * Z :=
  (match k with
   | O => Ok (Err "authorization_pending"%string)
   | _ => Ok (Ok {| access := "new"; refresh := Some "r1"%string; token_expires_in := 3600 |})
   end, 1000 + 5 * Z.of_nat k).

Lemma login_stores_granted_tokens_witness :
  let lib := toy_oidc nat example_post in
  let run := @login_with_prompt lib 5 example_config true true true true 1000 1010 granted_answer NotFound 0%nat in
  let f' := Contents (pack 4610 "new" (Some "r1"%string)) in
  run = Some (Ok tt, f') /\
  ((f' = NotFound /\ @Ok unit ClientError tt <> Ok tt) \/
   exists k tokens, (granted_answer k).1 = Ok (Ok tokens) /\
     (forall j, (j < k)%nat -> polls_again (granted_answer j).1) /\
     @load_tokens lib f' = Ok (Some {| cached_access := access tokens; cached_refresh := refresh tokens;
                                 expires_at := add_u64 1010 (token_expires_in tokens) |}) /\
     @Ok unit ClientError tt = Ok tt).
Proof.
  intros lib run f'. split; [vm_compute; reflexivity|].
  apply (@login_stores_granted_tokens lib (toy_oidc_ok nat example_post) 5 example_config true true true true
    1000 1010 granted_answer NotFound f' 0%nat (Ok tt)).
  vm_compute. reflexivity.
Defined.
