(* ===== verification/Json.v ===== *)
(** * JSON documents of the OIDC exchange

    What serde's derived [Deserialize] makes of the documents that the client
    ([client/src/oidc.rs]), the server ([server/src/auth.rs]) and the fake
    issuer ([server/src/test_oidc.rs]) exchange.  serde_json's text format is
    third-party: [JsonLib] writes and reads it, and [JsonLibOk] says that a
    document that was written is read back. *)

From S2P Require Import Prelude Auth Session Target Oidc.

Local Open Scope rust_scope.

(** The variants of [serde_json::Value] that occur; a number is a [u64]. *)
Inductive Value : Type :=
| Null
| Number (n : Z)
| Str (s : string)
| Array (vs : list Value)
| Object (fields : list (string * Value)).

Class JsonLib := {
  to_vec : Value -> bytes;
  from_slice : bytes -> option Value;
}.

Class JsonLibOk `{JsonLib} : Prop :=
  from_slice_to_vec : forall v, from_slice (to_vec v) = Some v.

(** ** Derived deserialization *)

Definition as_str (v : Value) : option string := match v with Str s => Some s | _ => None end.
Definition as_u64 (v : Value) : option Z := match v with Number n => Some n | _ => None end.

(** The value of a key; unknown keys are ignored.  (serde would also take a
    struct from an array of its fields, which no party here writes.) *)
Definition get_field (key : string) (v : Value) : option Value :=
  match v with
  | Object fields => snd <$> List.find (fun p => bool_decide (p.1 = key)) fields
  | _ => None
  end.

(** A field of type [T], and one of type [Option<T>]: missing or null is [None]. *)
Definition field {T} (parse : Value -> option T) (key : string) (v : Value) : option T :=
  get_field key v ≫= parse.

Definition opt_field {T} (parse : Value -> option T) (key : string) (v : Value) : option (option T) :=
  match v with
  | Object _ =>
      match get_field key v with
      | None | Some Null => Some None
      | Some x => Some <$> parse x
      end
  | _ => None
  end.

Definition discovery_of (v : Value) : option Discovery :=
  d ← field as_str "device_authorization_endpoint" v;
  t ← field as_str "token_endpoint" v;
  Some {| device_authorization_endpoint := d; token_endpoint := t |}.

Definition jwks_uri_of (v : Value) : option string := field as_str "jwks_uri" v.

Definition device_of (v : Value) : option DeviceAuthorization :=
  c ← field as_str "device_code" v;
  u ← field as_str "user_code" v;
  l ← field as_str "verification_uri" v;
  lc ← opt_field as_str "verification_uri_complete" v;
  i ← opt_field as_u64 "interval" v;
  e ← field as_u64 "expires_in" v;
  Some {| device_code := c; user_code := u; verification_uri := l; verification_uri_complete := lc;
          interval := i; expires_in := e |}.

Definition token_of (v : Value) : option TokenResponse :=
  a ← field as_str "access_token" v;
  r ← opt_field as_str "refresh_token" v;
  e ← field as_u64 "expires_in" v;
  Some {| access := a; refresh := r; token_expires_in := e |}.

Definition error_of (v : Value) : option string := field as_str "error" v.

Definition cache_of (v : Value) : option CachedTokens :=
  a ← field as_str "access_token" v;
  r ← opt_field as_str "refresh_token" v;
  e ← field as_u64 "expires_at" v;
  Some {| cached_access := a; cached_refresh := r; expires_at := e |}.

(** Derived [Serialize]. *)
Definition cache_value (c : CachedTokens) : Value :=
  Object [("access_token", Str (cached_access c));
          ("refresh_token", match cached_refresh c with Some r => Str r | None => Null end);
          ("expires_at", Number (expires_at c))]%string.

Lemma cache_value_roundtrip c : cache_of (cache_value c) = Some c.
Proof. by destruct c as [a [r|] e]. Qed.

(** [Response::json] and [serde_json::from_slice]: not JSON, or not of the
    expected shape, is the same failure. *)
Definition from_json `{JsonLib} {T} (parse : Value -> option T) (bs : bytes) : option T :=
  from_slice bs ≫= parse.

Lemma from_json_to_vec `{JsonLibOk} {T} (parse : Value -> option T) v : from_json parse (to_vec v) = parse v.
Proof. unfold from_json. by rewrite from_slice_to_vec. Qed.

(** ** A concrete format *)

Fixpoint to_tree (v : Value) : gen_tree (string + Z) :=
  match v with
  | Null => GenNode 0 []
  | Number n => GenLeaf (inr n)
  | Str s => GenLeaf (inl s)
  | Array vs => GenNode 1 (map to_tree vs)
  | Object fields => GenNode 2 (map (fun p => GenNode 3 [GenLeaf (inl p.1); to_tree p.2]) fields)
  end.

Fixpoint of_tree (t : gen_tree (string + Z)) : Value :=
  match t with
  | GenLeaf (inr n) => Number n
  | GenLeaf (inl s) => Str s
  | GenNode 1 ts => Array (map of_tree ts)
  | GenNode 2 ts =>
      Object (map (fun t => match t with
                            | GenNode _ [GenLeaf (inl k); t] => (k, of_tree t)
                            | _ => (""%string, Null)
                            end) ts)
  | _ => Null
  end.

Fixpoint of_to_tree (v : Value) : of_tree (to_tree v) = v.
Proof.
  destruct v as [| | |vs|fields]; try reflexivity; cbn [to_tree of_tree]; rewrite map_map; f_equal.
  - induction vs as [|v vs IH]; [reflexivity|]. exact (f_equal2 cons (of_to_tree v) IH).
  - induction fields as [|[k v] fields IH]; [reflexivity|].
    exact (f_equal2 cons (f_equal (pair k) (of_to_tree v)) IH).
Qed.

Definition toy_json : JsonLib := {|
  to_vec := fun v => [Zpos (encode (to_tree v))];
  from_slice := fun bs => match bs with [Zpos p] => of_tree <$> decode p | _ => None end;
|}.

Lemma toy_json_ok : @JsonLibOk toy_json.
Proof.
  intros v. unfold from_slice, to_vec, toy_json. rewrite decode_encode. exact (f_equal Some (of_to_tree v)).
Qed.
