(* ===== verification/FakeIssuer.v ===== *)
(** * The fake OIDC issuer ([server/src/test_oidc.rs])

    The issuer the integration tests log in at: its documents and routes, the
    device grant and the refresh grant with single-use tokens, and the tokens it
    mints.  jsonwebtoken and rsa are third-party: [RsaLib] signs, [RsaLibOk]
    says which signed tokens verify at a given time.  Composed with the client's
    login ([Oidc]) and the server's verification ([Auth]). *)

From Stdlib Require Import Ascii.
From S2P Require Import Prelude Auth Session Target Oidc Json.

Local Open Scope rust_scope.

Definition KID : string := "test-key".
Definition DEVICE_CODE : string := "test-device-code".
Definition REFRESH_TOKEN : string := "test-refresh-token".

(** ** State *)

Record Rotation := {
  enabled : bool;
  current : string;
  refreshes : Z;
}.

Record DeviceFlow := {
  grant_sub : option string;
  pending_polls : Z;
}.

(** The fields of [Inner] behind mutexes; those that never change are in
    [Inner] below. *)
Record Issuer := {
  rotation : Rotation;
  device_flow : DeviceFlow;
}.

Definition issuer_start : Issuer :=
  {| rotation := {| enabled := false; current := REFRESH_TOKEN; refreshes := 0 |};
     device_flow := {| grant_sub := None; pending_polls := 0 |} |}.

Definition grant_device_flow (sub : string) (polls : Z) (s : Issuer) : Issuer :=
  {| rotation := rotation s; device_flow := {| grant_sub := Some sub; pending_polls := polls |} |}.

Definition rotate_refresh_tokens (s : Issuer) : Issuer :=
  {| rotation := {| enabled := true; current := current (rotation s); refreshes := refreshes (rotation s) |};
     device_flow := device_flow s |}.

Definition refresh_count (s : Issuer) : Z := refreshes (rotation s).

(** ** Minting *)

(** The [Claims] of this file, as serialized into a token. *)
Record IssuedClaims := {
  iss : string;
  issued_sub : option string;
  issued_client_id : option string;
  issued_aud : option string;
  exp : Z;
  iat : Z;
}.

(** [u64::saturating_add_signed]. *)
Definition saturating_add_signed (a d : Z) : Z := Z.max 0 (Z.min (u64_modulus - 1) (a + d)).

(** RSA keys, and signing with a header of algorithm and key id; also how
    jsonwebtoken reads a key set out of JSON. *)
Class RsaLib `{JwtLib} := {
  PrivateKey : Type;
  modulus : PrivateKey -> string;
  exponent : PrivateKey -> string;
  verifying_key : PrivateKey -> DecodingKey;
  RS256 : Algorithm;
  jwt_encode : Algorithm * option string -> IssuedClaims -> PrivateKey -> string;
  jwk_set_of : Value -> option JwkSet;
}.

Section Inner.
Context `{RsaLib}.

Record Inner := {
  addr : string;
  encoding_key : PrivateKey;
  inner_jwks : Value;
}.

Definition jwks_value (n e : string) : Value :=
  Object [("keys", Array [Object [("kty", Str "RSA"); ("alg", Str "RS256"); ("use", Str "sig");
                                  ("kid", Str KID); ("n", Str n); ("e", Str e)]])]%string.

(** [FakeIssuer::start]: a fresh key, and the port the system chose. *)
Definition start (key : PrivateKey) (port : Z) : Inner * Issuer :=
  ({| addr := "127.0.0.1:" +:+ dec_string port; encoding_key := key;
      inner_jwks := jwks_value (modulus key) (exponent key) |},
   issuer_start).

Definition issuer_url (i : Inner) : string := "http://" +:+ addr i.

(** [Inner::token]. *)
Definition inner_token (i : Inner) (now : Z) (sub client_id audience : option string)
    (expires_in_secs : Z) : string :=
  let claims := {| iss := issuer_url i; issued_sub := sub; issued_client_id := client_id;
                   issued_aud := audience; exp := saturating_add_signed now expires_in_secs; iat := now |} in
  jwt_encode (RS256, Some KID) claims (encoding_key i).

(** The three public ways to mint. *)
Definition issuer_token (i : Inner) (now : Z) (sub audience : string) (expires_in_secs : Z) : string :=
  inner_token i now (Some sub) None (Some audience) expires_in_secs.
Definition client_credentials_token (i : Inner) (now : Z) (client_id : string) : string :=
  inner_token i now None (Some client_id) (Some client_id) 300.
Definition device_token (i : Inner) (now : Z) (sub client_id : string) : string :=
  inner_token i now (Some sub) (Some client_id) None 3600.

End Inner.

(** ** Documents and routes *)

Section Routes.
Context `{JsonLib}.

Definition ok_json (v : Value) : HttpResponse :=
  {| status := 200; retry_after_header := None; body := to_vec v |}.

Definition oauth_error (error : string) : HttpResponse :=
  {| status := 400; retry_after_header := None; body := to_vec (Object [("error", Str error)])%string |}.

(** axum's answer to a request without a body. *)
Definition bare (code : Z) : HttpResponse := {| status := code; retry_after_header := None; body := [] |}.

Definition discovery (issuer : string) : Value :=
  Object [("issuer", Str issuer); ("jwks_uri", Str (issuer +:+ "/jwks"));
          ("device_authorization_endpoint", Str (issuer +:+ "/device"));
          ("token_endpoint", Str (issuer +:+ "/token"))]%string.

Definition device_authorization (issuer : string) : Value :=
  Object [("device_code", Str DEVICE_CODE); ("user_code", Str "TEST-CODE");
          ("verification_uri", Str (issuer +:+ "/verify"));
          ("verification_uri_complete", Str (issuer +:+ "/verify?user_code=TEST-CODE"));
          ("interval", Number 0); ("expires_in", Number 300)]%string.

(** A form as the map the handler gets: the last value of a key counts. *)
Definition form_get (key : string) (form : list (string * string)) : option string :=
  fold_left (fun acc '(k, v) => if bool_decide (k = key) then Some v else acc) form None.

(** [token_grant], past the lock on the rotation; [mint sub client_id] is the
    token that [Inner::token] signs at this moment. *)
Definition token_grant (mint : string -> string -> string) (form : list (string * string)) (s : Issuer)
    : HttpResponse * Issuer :=
  let client_id := unwrap_or (form_get "client_id" form) ""%string in
  let grant_type := form_get "grant_type" form in
  let rot := rotation s in
  let is_device := bool_decide (grant_type = Some "urn:ietf:params:oauth:grant-type:device_code"%string) &&
                   bool_decide (form_get "device_code" form = Some DEVICE_CODE) in
  let is_refresh := bool_decide (grant_type = Some "refresh_token"%string) in
  if is_device && (0 <? pending_polls (device_flow s)) then
    (oauth_error "authorization_pending",
     {| rotation := rot;
        device_flow := {| grant_sub := grant_sub (device_flow s);
                          pending_polls := pending_polls (device_flow s) - 1 |} |})
  else
    let '(sub, rot) :=
      if is_device then (grant_sub (device_flow s), rot)
      else if is_refresh && bool_decide (form_get "refresh_token" form = Some (current rot)) then
        (grant_sub (device_flow s),
         {| enabled := enabled rot; current := current rot; refreshes := refreshes rot + 1 |})
      else (None, rot) in
    match sub with
    | None => (oauth_error "invalid_grant", {| rotation := rot; device_flow := device_flow s |})
    | Some sub =>
        let '(refresh, rot) :=
          if negb is_refresh then ([("refresh_token"%string, Str (current rot))], rot)
          else if enabled rot then
            let next := "rotated-refresh-token-" +:+ dec_string (refreshes rot) in
            ([("refresh_token"%string, Str next)],
             {| enabled := true; current := next; refreshes := refreshes rot |})
          else ([], rot) in
        (ok_json (Object ([("access_token", Str (mint sub client_id)); ("token_type", Str "Bearer");
                           ("expires_in", Number 3600)]%string ++ refresh)),
         {| rotation := rot; device_flow := device_flow s |})
    end.

(** The router: two documents to get, two endpoints to post to. *)
Definition serve_get (issuer : string) (jwks : Value) (path : string) : HttpResponse :=
  if bool_decide (path = "/.well-known/openid-configuration"%string) then ok_json (discovery issuer)
  else if bool_decide (path = "/jwks"%string) then ok_json jwks
  else if bool_decide (path = "/device"%string) || bool_decide (path = "/token"%string) then bare 405
  else bare 404.

Definition serve_post (issuer : string) (mint : string -> string -> string) (path : string)
    (form : list (string * string)) (s : Issuer) : HttpResponse * Issuer :=
  if bool_decide (path = "/device"%string) then (ok_json (device_authorization issuer), s)
  else if bool_decide (path = "/token"%string) then token_grant mint form s
  else if bool_decide (path = "/.well-known/openid-configuration"%string) || bool_decide (path = "/jwks"%string)
  then (bare 405, s)
  else (bare 404, s).

(** The path of a URL of this host; no other host can be reached. *)
Fixpoint strip_prefix (prefix s : string) : option string :=
  match prefix, s with
  | EmptyString, _ => Some s
  | String.String c prefix, String.String d s => if Ascii.eqb c d then strip_prefix prefix s else None
  | String.String _ _, EmptyString => None
  end.

(** The issuer as the network of a client, and as that of a server. *)
Definition issuer_oidc (issuer : string) (jwks : Value) (mint : string -> string -> string) : OidcLib := {|
  Net := Issuer;
  http_get := fun url s => (serve_get issuer jwks <$> strip_prefix issuer url, s);
  http_post := fun url form s =>
    match strip_prefix issuer url with
    | Some path => let '(r, s) := serve_post issuer mint path form s in (Some r, s)
    | None => (None, s)
    end;
  json_discovery := from_json discovery_of;
  json_device := from_json device_of;
  json_token := from_json token_of;
  json_error := from_json error_of;
  json_cache := from_json cache_of;
  to_json_cache := fun c => to_vec (cache_value c);
|}.

(** [get_json] of [auth.rs]. *)
Definition get_json {T} (parse : Value -> option T) (response : option HttpResponse) : result T unit :=
  match response with
  | None => Err tt
  | Some r => if is_error_status (status r) then Err tt else ok_or (from_json parse (body r)) tt
  end.

Definition issuer_http `{RsaLib} (issuer : string) (jwks : Value) : HttpLib := {|
  World := unit;
  HttpError := unit;
  get_jwks_uri := fun url w => (get_json jwks_uri_of (serve_get issuer jwks <$> strip_prefix issuer url), w);
  get_jwks := fun url w => (get_json jwk_set_of (serve_get issuer jwks <$> strip_prefix issuer url), w);
|}.

End Routes.

(** ** What jsonwebtoken promises at time [now] *)

(** What [Auth.Claims] reads out of the issued claims. *)
Definition read_claims (c : IssuedClaims) : Claims :=
  {| sub := issued_sub c; claim_client_id := issued_client_id c;
     aud := match issued_aud c with Some a => One a | None => Missing end |}.

(** jsonwebtoken's default leeway on [exp], in seconds. *)
Definition LEEWAY : Z := 60.

Class RsaLibOk `{RsaLib} (now : Z) : Prop := {
  decode_header_encode alg kid c k : decode_header (jwt_encode (alg, kid) c k) = Ok (alg, kid);
  jwk_set_found k : exists set jwk,
    jwk_set_of (jwks_value (modulus k) (exponent k)) = Some set /\
    jwkset_find KID set = Some jwk /\ from_jwk jwk = Ok (verifying_key k);
  jwt_decode_encode kid c k key i cl :
    jwt_decode (jwt_encode (RS256, kid) c k) key (RS256, [i], false) = Ok cl <->
    key = verifying_key k /\ i = iss c /\ now - LEEWAY <= exp c /\ cl = read_claims c;
}.

(** ** URLs *)

Lemma strip_prefix_app (a b : string) : strip_prefix a (a +:+ b) = Some b.
Proof.
  induction a as [|c a IH]; [done|]. change (String.String c a +:+ b) with (String.String c (a +:+ b)).
  cbn [strip_prefix]. by rewrite (proj2 (Ascii.eqb_eq c c) eq_refl).
Qed.

Lemma trim_end_slashes_id (s : string) (cs : list Ascii.ascii) (c : Ascii.ascii) :
  String.list_ascii_of_string s = cs ++ [c] -> c <> "/"%char -> trim_end_slashes s = s.
Proof.
  intros Hs Hc. unfold trim_end_slashes. rewrite Hs, reverse_app, reverse_singleton. cbn [app].
  rewrite (proj2 (Ascii.eqb_neq c "/"%char)) by done.
  rewrite reverse_cons, reverse_involutive, <- Hs. apply String.string_of_list_ascii_of_string.
Qed.

Lemma list_ascii_app (a b : string) : String.list_ascii_of_string (a +:+ b) =
  String.list_ascii_of_string a ++ String.list_ascii_of_string b.
Proof.
  induction a as [|c a IH]; [done|].
  change (c :: String.list_ascii_of_string (a +:+ b) = c :: (String.list_ascii_of_string a ++ String.list_ascii_of_string b)).
  by rewrite IH.
Qed.

(** A number's last character is a digit. *)
Lemma dec_string_last (n : Z) : 0 <= n ->
  exists cs c, String.list_ascii_of_string (dec_string n) = cs ++ [c] /\ c <> "/"%char.
Proof.
  intros Hn. destruct (dec_bytes_spec n Hn) as (Hne & Hds & _).
  destruct (exists_last Hne) as (ds & d & Hd). unfold dec_string, of_bytes.
  rewrite String.list_ascii_of_string_of_list_ascii, Hd, map_app. eexists _, _. split; [reflexivity|].
  rewrite Hd in Hds. apply Forall_app in Hds as [_ Hds]. inversion_clear Hds as [|? ? Hdig _].
  unfold is_digit_byte in Hdig. intros Heq. apply (f_equal Ascii.N_of_ascii) in Heq.
  rewrite Ascii.N_ascii_embedding in Heq by lia. change (Ascii.N_of_ascii "/") with 47%N in Heq. lia.
Qed.

(** The issuer's URL is not changed by the trimming of its users. *)
Lemma issuer_url_trimmed `{RsaLib} key port : 0 <= port ->
  trim_end_slashes (issuer_url (start key port).1) = issuer_url (start key port).1.
Proof.
  intros Hp. destruct (dec_string_last port Hp) as (cs & c & Hcs & Hc).
  apply (trim_end_slashes_id _ (String.list_ascii_of_string "http://127.0.0.1:" ++ cs) c); [|done].
  rewrite <- app_assoc, <- Hcs. unfold issuer_url. cbn [start fst addr]. by rewrite !list_ascii_app.
Qed.

(** ** Requests to the issuer *)

Section Requests.
Context `{JL : JsonLib, !JsonLibOk} (url : string) (jwks : Value) (mint : string -> string -> string).

Notation lib := (issuer_oidc url jwks mint).

Lemma discover_issuer (issuer : string) (s : Issuer) : trim_end_slashes issuer = url ->
  @discover lib issuer s =
    (Ok {| device_authorization_endpoint := url +:+ "/device"; token_endpoint := url +:+ "/token" |}, s).
Proof.
  intros Hurl. unfold discover. cbn [http_get issuer_oidc]. rewrite Hurl, strip_prefix_app.
  unfold serve_get. cbn [fmap option_fmap option_map]. rewrite bool_decide_eq_true_2 by done.
  cbn [ok_json status body json_discovery issuer_oidc]. by rewrite !from_json_to_vec.
Qed.

(** What a post to the token endpoint comes back as. *)
Lemma token_request_issuer (form : list (string * string)) (s : Issuer) :
  @token_request lib _ (from_json token_of) (url +:+ "/token") form s =
    let '(r, s') := token_grant mint form s in
    (if is_client_error (status r)
     then let? error := ok_or (from_json error_of (body r)) (Http (url +:+ "/token")) in Ok (Err error)
     else let? t := ok_or (from_json token_of (body r)) (Http (url +:+ "/token")) in Ok (Ok t), s').
Proof.
  unfold token_request. cbn [http_post issuer_oidc]. rewrite strip_prefix_app. unfold serve_post.
  rewrite bool_decide_eq_false_2, bool_decide_eq_true_2 by done.
  destruct (token_grant mint form s) as [r s'] eqn:Hg.
  assert (Hst : status r = 400 \/ status r = 200).
  { revert Hg. unfold token_grant. cbv zeta.
    repeat match goal with |- context [match ?x with _ => _ end] => destruct x; cbn [fst snd] end;
    intros [= <- _]; (by left) || by right. }
  cbn [json_error issuer_oidc]. by destruct Hst as [-> | ->].
Qed.

Notation post_token := (@token_request lib TokenResponse (from_json token_of) (url +:+ "/token")).

(** One poll fewer to wait for. *)
Definition one_less (s : Issuer) : Issuer :=
  {| rotation := rotation s;
     device_flow := {| grant_sub := grant_sub (device_flow s); pending_polls := pending_polls (device_flow s) - 1 |} |}.

Lemma post_pending client_id s : 0 < pending_polls (device_flow s) ->
  post_token (poll_form DEVICE_CODE client_id) s = (Ok (Err "authorization_pending"%string), one_less s).
Proof.
  intros Hp. rewrite token_request_issuer. unfold token_grant. cbv zeta.
  rewrite (proj2 (Z.ltb_lt _ _) Hp).
  change (form_get "device_code" (poll_form DEVICE_CODE client_id)) with (Some DEVICE_CODE).
  change (form_get "grant_type" (poll_form DEVICE_CODE client_id))
    with (Some "urn:ietf:params:oauth:grant-type:device_code"%string).
  rewrite !(bool_decide_eq_true_2 (Some _ = Some _)) by done. cbn [andb oauth_error status body].
  by rewrite !from_json_to_vec.
Qed.

Lemma post_granted client_id sub s : pending_polls (device_flow s) <= 0 -> grant_sub (device_flow s) = Some sub ->
  post_token (poll_form DEVICE_CODE client_id) s =
    (Ok (Ok {| access := mint sub client_id; refresh := Some (current (rotation s)); token_expires_in := 3600 |}), s).
Proof.
  intros Hp Hs. rewrite token_request_issuer. unfold token_grant. cbv zeta.
  rewrite (proj2 (Z.ltb_ge _ _) Hp).
  change (form_get "device_code" (poll_form DEVICE_CODE client_id)) with (Some DEVICE_CODE).
  change (form_get "client_id" (poll_form DEVICE_CODE client_id)) with (Some client_id).
  change (form_get "grant_type" (poll_form DEVICE_CODE client_id))
    with (Some "urn:ietf:params:oauth:grant-type:device_code"%string).
  rewrite !(bool_decide_eq_true_2 (Some _ = Some _)) by done.
  rewrite (bool_decide_eq_false_2 (Some "urn:ietf:params:oauth:grant-type:device_code"%string =
    Some "refresh_token"%string)) by done.
  cbn [andb negb unwrap_or]. rewrite Hs. cbn [ok_json status body app]. rewrite !from_json_to_vec.
  destruct s as [r d]. reflexivity.
Qed.

(** The state a refresh leaves, and the tokens it grants. *)
Definition next_refresh (s : Issuer) : string :=
  "rotated-refresh-token-" +:+ dec_string (refreshes (rotation s) + 1).

Definition refreshed (s : Issuer) : Issuer :=
  {| rotation := {| enabled := enabled (rotation s);
                    current := if enabled (rotation s) then next_refresh s else current (rotation s);
                    refreshes := refreshes (rotation s) + 1 |};
     device_flow := device_flow s |}.

Lemma post_refreshed client_id sub s : grant_sub (device_flow s) = Some sub ->
  post_token (refresh_form (current (rotation s)) client_id) s =
    (Ok (Ok {| access := mint sub client_id;
               refresh := if enabled (rotation s) then Some (next_refresh s) else None;
               token_expires_in := 3600 |}), refreshed s).
Proof.
  intros Hs. rewrite token_request_issuer. unfold token_grant. cbv zeta.
  set (r := current (rotation s)).
  change (form_get "grant_type" (refresh_form r client_id)) with (Some "refresh_token"%string).
  change (form_get "refresh_token" (refresh_form r client_id)) with (Some r).
  change (form_get "client_id" (refresh_form r client_id)) with (Some client_id).
  change (form_get "device_code" (refresh_form r client_id)) with (@None string).
  rewrite (bool_decide_eq_false_2 (None = Some DEVICE_CODE)) by done. rewrite andb_false_r.
  rewrite !(bool_decide_eq_true_2 (Some _ = Some _)) by done.
  cbn [andb negb unwrap_or enabled refreshes current]. rewrite Hs.
  unfold refreshed. destruct (enabled (rotation s)) eqn:He; cbn [ok_json status body app];
    rewrite !from_json_to_vec; [|subst r; destruct s as [[e c n] d]; cbn in *; by subst e]. reflexivity.
Qed.

(** A refresh token that is not the current one is refused. *)
Lemma post_spent client_id old s : old <> current (rotation s) ->
  post_token (refresh_form old client_id) s = (Ok (Err "invalid_grant"%string), s).
Proof.
  intros Hne. rewrite token_request_issuer. unfold token_grant. cbv zeta.
  change (form_get "grant_type" (refresh_form old client_id)) with (Some "refresh_token"%string).
  change (form_get "refresh_token" (refresh_form old client_id)) with (Some old).
  change (form_get "device_code" (refresh_form old client_id)) with (@None string).
  rewrite (bool_decide_eq_false_2 (None = Some DEVICE_CODE)) by done. rewrite andb_false_r.
  rewrite (bool_decide_eq_false_2 (Some old = Some (current (rotation s)))) by congruence.
  rewrite andb_false_r. cbn [andb oauth_error status body]. rewrite !from_json_to_vec. by destruct s.
Qed.

End Requests.

(** ** A server that trusts the issuer *)

Section Server.
Context `{JL : JsonLib, !JsonLibOk} {JW : JwtLib} {RL : RsaLib}.

(** What a server with only OIDC configured says to a token; nothing is cached
    yet. *)
Definition server_verdict (i : Inner) (cid allowed token : string) :=
  let lib := issuer_http (issuer_url i) (inner_jwks i) in
  (@verify JW lib (auth_new None (Some {| issuer := issuer_url i; client_id := cid; allowed_sub := allowed |}))
     token tt).1.1.

Context (now : Z) {Hrsa : RsaLibOk now}.

(** The server finds the issuer's key. *)
Lemma fetch_issuer_keys key port cid allowed : 0 <= port ->
  let i := (start key port).1 in
  let lib := issuer_http (issuer_url i) (inner_jwks i) in
  let cfg := {| issuer := issuer_url i; client_id := cid; allowed_sub := allowed |} in
  exists set, @decoding_key JW lib {| config := cfg; jwks := None; warned_missing_aud := false |} (Some KID) tt =
    (Ok (verifying_key key), {| config := cfg; jwks := Some set; warned_missing_aud := false |}, tt).
Proof.
  intros Hport i lib cfg.
  destruct (jwk_set_found (now := now) key) as (set & jwk & Hset & Hjwk & Hkey). exists set.
  assert (Hfetch : @fetch_jwks JW lib cfg tt = (Ok set, tt)).
  { unfold fetch_jwks. cbn [get_jwks_uri get_jwks lib issuer_http issuer cfg].
    subst i. rewrite (issuer_url_trimmed key port Hport), strip_prefix_app.
    unfold serve_get, get_json. cbn [fmap option_fmap option_map].
    rewrite (bool_decide_eq_true_2 (_ = "/.well-known/openid-configuration"%string)) by done.
    cbn [ok_json status body]. rewrite from_json_to_vec.
    change (jwks_uri_of (discovery (issuer_url (start key port).1)))
      with (Some (issuer_url (start key port).1 +:+ "/jwks")).
    change (is_error_status 200) with false. cbn [ok_or]. rewrite strip_prefix_app. cbn [fmap option_fmap option_map].
    rewrite (bool_decide_eq_false_2 (_ = "/.well-known/openid-configuration"%string)) by done.
    rewrite (bool_decide_eq_true_2 (_ = "/jwks"%string)) by done. cbn [ok_json status body].
    rewrite from_json_to_vec. cbn [start fst inner_jwks]. by rewrite Hset. }
  unfold decoding_key. cbn [config jwks decoding_key_loop warned_missing_aud]. rewrite Hfetch. cbn [find_key].
  by rewrite Hjwk, Hkey.
Qed.

(** A token minted by one issuer, shown to a server that trusts another (or the
    same). *)
Lemma verdict_ok_iff key port i' t sub cl aud d cid allowed : 0 <= port ->
  let i := (start key port).1 in
  let expires := saturating_add_signed t d in
  server_verdict i cid allowed (inner_token i' t sub cl aud d) = Ok tt <->
  (verifying_key (encoding_key i') = verifying_key key /\ issuer_url i' = issuer_url i /\ now - LEEWAY <= expires) /\
  authorized {| issuer := issuer_url i; client_id := cid; allowed_sub := allowed |}
    (read_claims {| iss := issuer_url i'; issued_sub := sub; issued_client_id := cl; issued_aud := aud;
                    exp := expires; iat := t |}).
Proof.
  intros Hport i expires. destruct (fetch_issuer_keys key port cid allowed Hport) as [set Hfetch].
  fold i in Hfetch. unfold server_verdict, verify, inner_token. fold expires.
  set (lib := issuer_http (issuer_url i) (inner_jwks i)) in *.
  set (cfg := {| issuer := issuer_url i; client_id := cid; allowed_sub := allowed |}) in *.
  set (claims := {| iss := issuer_url i'; issued_sub := sub; issued_client_id := cl; issued_aud := aud;
                    exp := expires; iat := t |}).
  cbn [auth_new static_token oidc fmap option_fmap option_map]. unfold oidc_verify.
  rewrite decode_header_encode, Hfetch. cbn [config jwks warned_missing_aud issuer].
  destruct (jwt_decode _ _ _) as [cl'|e] eqn:Hd.
  - apply jwt_decode_encode in Hd as (Hk & Hu & Ht & ->).
    destruct (check_claims cfg false (read_claims claims)) as [r w] eqn:Hc. cbn [fst]. split.
    + intros ->. by apply check_claims_ok in Hc as [Ha _].
    + intros [_ Ha]. assert (Hc' := proj2 (check_claims_ok cfg false (read_claims claims) _) (conj Ha eq_refl)).
      rewrite Hc in Hc'. by injection Hc' as -> _.
  - split; [done|]. intros [(Hk & Hu & Ht) _]. exfalso.
    rewrite (proj2 (jwt_decode_encode _ _ _ _ _ (read_claims claims))) in Hd; [done|]. by split_and!.
Qed.

End Server.

(** ** The device login of a client *)

Section Login.
Context `{JL : JsonLib, !JsonLibOk} {JW : JwtLib} {RL : RsaLib}.

(** What [token_grant] mints at a time, and the issuer at that time as the
    client's network. *)
Definition mint_at (i : Inner) (t : Z) (sub client_id : string) : string :=
  inner_token i t (Some sub) (Some client_id) None 3600.

Definition lib_at (i : Inner) (t : Z) : OidcLib := issuer_oidc (issuer_url i) (inner_jwks i) (mint_at i t).

(** The [k]-th poll of a login at the given times: what it answers and when;
    every poll finds the state the polls before it left. *)
Definition poll_at (i : Inner) (form : list (string * string)) (t : Z) (s : Issuer) :=
  @token_request (lib_at i t) TokenResponse (from_json token_of) (issuer_url i +:+ "/token") form s.

Fixpoint polled (i : Inner) (form : list (string * string)) (clock : nat -> Z) (k : nat) (s : Issuer) : Issuer :=
  match k with
  | O => s
  | S k => (poll_at i form (clock k) (polled i form clock k s)).2
  end.

Definition poll_answers (i : Inner) (form : list (string * string)) (clock : nat -> Z) (s : Issuer) (k : nat) :=
  ((poll_at i form (clock k) (polled i form clock k s)).1, clock k).

(** Polling while the user has not approved yet. *)
Definition waiting (s : Issuer) (n : nat) : Issuer :=
  {| rotation := rotation s; device_flow := {| grant_sub := grant_sub (device_flow s); pending_polls := Z.of_nat n |} |}.

Lemma waiting_self s n : pending_polls (device_flow s) = Z.of_nat n -> waiting s n = s.
Proof. destruct s as [r [g p]]. cbn. by intros ->. Qed.

Lemma polled_waiting i client_id clock s n k : (k <= n)%nat ->
  polled i (poll_form DEVICE_CODE client_id) clock k (waiting s n) = waiting s (n - k).
Proof.
  induction k as [|k IH]; intros Hk; cbn [polled]; [by rewrite Nat.sub_0_r|].
  rewrite IH by lia. unfold poll_at, lib_at. rewrite post_pending by (cbn; lia). cbn [snd].
  unfold one_less, waiting. cbn [rotation device_flow grant_sub pending_polls]. do 2 f_equal. lia.
Qed.

Lemma poll_answer_pending i client_id clock s n k : (k < n)%nat ->
  poll_answers i (poll_form DEVICE_CODE client_id) clock (waiting s n) k =
    (Ok (Err "authorization_pending"%string), clock k).
Proof.
  intros Hk. unfold poll_answers. rewrite polled_waiting by lia. unfold poll_at, lib_at.
  by rewrite post_pending by (cbn; lia).
Qed.

Lemma poll_answer_granted i client_id clock s n sub : grant_sub (device_flow s) = Some sub ->
  poll_answers i (poll_form DEVICE_CODE client_id) clock (waiting s n) n =
    (Ok (Ok {| access := mint_at i (clock n) sub client_id; refresh := Some (current (rotation s));
               token_expires_in := 3600 |}), clock n).
Proof.
  intros Hs. unfold poll_answers. rewrite polled_waiting by lia. rewrite Nat.sub_diag. unfold poll_at, lib_at.
  by rewrite (post_granted _ _ _ client_id sub) by done.
Qed.

Lemma poll_loop_pending i client_id clock s n sub deadline : grant_sub (device_flow s) = Some sub ->
  (forall j, (j < n)%nat -> clock j <= deadline) ->
  forall m k, (k + m = n)%nat ->
  exists sleeps, poll_loop (S m) (poll_answers i (poll_form DEVICE_CODE client_id) clock (waiting s n)) k 0 deadline =
    Some (Ok {| access := mint_at i (clock n) sub client_id; refresh := Some (current (rotation s));
                token_expires_in := 3600 |}, sleeps).
Proof.
  intros Hs Hclock. induction m as [|m IH]; intros k Hk; cbn [poll_loop].
  - assert (k = n) as -> by lia. rewrite (poll_answer_granted _ _ _ _ _ sub) by done. by eexists.
  - rewrite poll_answer_pending by lia. cbn [poll_answer].
    rewrite bool_decide_eq_true_2 by done.
    rewrite (proj2 (Z.ltb_ge deadline (clock k + 0))) by (specialize (Hclock k); lia).
    destruct (IH (S k)) as [sleeps Hl]; [lia|]. cbn [poll_loop] in Hl. rewrite Hl. by eexists.
Qed.

Lemma start_login_issuer i cfg client_id started s t : trim_end_slashes (issuer_url i) = issuer_url i ->
  oidc_target cfg = Ok (issuer_url i, client_id) ->
  exists device, @start_login (lib_at i t) cfg true started s =
    (Ok (device, issuer_url i +:+ "/token", 0, started + 300), s) /\ device_code device = DEVICE_CODE.
Proof.
  intros Htrim Ht. unfold start_login, lib_at. rewrite Ht. cbn [negb].
  rewrite discover_issuer by done. cbn [device_authorization_endpoint Oidc.token_endpoint].
  unfold token_request. cbn [http_post issuer_oidc]. rewrite strip_prefix_app. unfold serve_post.
  rewrite bool_decide_eq_true_2 by done. cbn [ok_json status body json_device issuer_oidc].
  rewrite from_json_to_vec. eexists. split; reflexivity.
Qed.

End Login.

Lemma read_audience (audience : option string) (cid : string) :
  let a := match audience with Some a => One a | None => Missing end in
  (a = Missing \/ a = One cid \/ (exists auds, a = Many auds /\ (auds = [] \/ cid ∈ auds))) <->
  audience = None \/ audience = Some cid.
Proof.
  destruct audience as [a|]; cbn; split.
  - intros [[=]|[[= ->]|(? & [=] & _)]]. by right.
  - intros [[=]|[= ->]]. right. by left.
  - by left.
  - by left.
Qed.

(** A device token is good for its subject and for nobody else. *)
Lemma mint_at_accepted `{JL : JsonLib, !JsonLibOk} {JW : JwtLib} {RL : RsaLib} key port now t sub cid allowed :
  0 <= port -> RsaLibOk now -> 0 <= t -> t + 8000 < u64_modulus -> now <= t + 3660 ->
  let i := (start key port).1 in
  server_verdict i cid allowed (mint_at i t sub cid) = Ok tt <-> allowed = sub.
Proof.
  intros Hport Hrsa Ht Hmax Hnow i. etransitivity; [by apply (verdict_ok_iff now)|]. fold i. unfold authorized.
  cbn [read_claims Auth.client_id allowed_sub aud claim_client_id Auth.sub issued_sub issued_client_id issued_aud].
  unfold LEEWAY, saturating_add_signed. split.
  { by intros (_ & _ & _ & [[= ->]|[[=] _]]). }
  intros ->. split_and!; [done|done|lia|by left|by right|by left].
Qed.

(** ** A client over time *)

(** The library with another clock: only whether a token has expired depends on
    the time. *)
Section Clock.
Context {JW : JwtLib} {RL : RsaLib}.

Definition jwt_at (decode : string -> DecodingKey -> Algorithm * list string * bool -> result Claims JwtError)
    : JwtLib := {|
  JwtError := JwtError; Algorithm := Algorithm; JwkSet := JwkSet; Jwk := Jwk; DecodingKey := DecodingKey;
  decode_header := decode_header; jwkset_find := jwkset_find; jwkset_first := jwkset_first;
  from_jwk := from_jwk; jwt_decode := decode;
|}.

Definition rsa_at decode : @RsaLib (jwt_at decode) :=
  @Build_RsaLib (jwt_at decode) (@PrivateKey JW RL) (@modulus JW RL) (@exponent JW RL) (@verifying_key JW RL)
    (@RS256 JW RL) (@jwt_encode JW RL) (@jwk_set_of JW RL).

End Clock.

(** When [access_token] looks at the cache, again under the lock, when the
    issuer answers a refresh, and when the answer is written. *)
Record TokenRequest := {
  asked : Z;
  locked : Z;
  minted : Z;
  written : Z;
}.

(** In order, one request after the other, with a write within a minute. *)
Fixpoint well_timed (t : Z) (rs : list TokenRequest) : Prop :=
  match rs with
  | [] => True
  | r :: rs =>
      t <= asked r /\ asked r <= locked r /\ locked r <= minted r /\ minted r <= written r /\
      written r <= minted r + 60 /\ written r + 8000 < u64_modulus /\ well_timed (written r) rs
  end.

Section Requested.
Context `{JL : JsonLib, !JsonLibOk} {JW : JwtLib} {RL : RsaLib}.
Context (i : Inner) (name : string) (cfg : TargetConfig) (cid sub : string).

(** When the token of a request is there: at once if it was cached. *)
Definition ready (r : TokenRequest) (f : CacheFile) : Z :=
  match @fast_path (lib_at i (asked r)) name cfg (asked r) f with Ok (Some _) => asked r | _ => written r end.

(** The requests of a client, with what they return and when. *)
Fixpoint token_requests (rs : list TokenRequest) (f : CacheFile) (s : Issuer)
    : list (Z * result string ClientError) :=
  match rs with
  | [] => []
  | r :: rs =>
      let '(res, f', s') :=
        @access_token (lib_at i (minted r)) name cfg (asked r) (locked r) (written r) (Ok tt) true true f s in
      (ready r f, res) :: token_requests rs f' s'
  end.

(** The cache holds a token minted for the user and the issuer's current refresh
    token; it was written at [st], at most a minute later. *)
Definition logged_in (t : Z) (f : CacheFile) (s : Issuer) : Prop :=
  grant_sub (device_flow s) = Some sub /\
  exists m st, 0 <= m <= st /\ st <= m + 60 /\ st <= t /\
    f = Contents (to_vec (cache_value {| cached_access := mint_at i m sub cid;
      cached_refresh := Some (current (rotation s)); expires_at := st + 3600 |})).

Lemma load_written t c : @load_cached_tokens (lib_at i t) name (Contents (to_vec (cache_value c))) = Ok c.
Proof.
  unfold load_cached_tokens, load_tokens. cbn [json_cache lib_at issuer_oidc].
  by rewrite from_json_to_vec, cache_value_roundtrip.
Qed.

(** One request: a token that is still good for a minute, and a cache for the
    next one. *)
Lemma token_request_served t r f s : trim_end_slashes (issuer_url i) = issuer_url i ->
  oidc_target cfg = Ok (issuer_url i, cid) -> logged_in t f s -> well_timed t [r] ->
  exists m f' s', 0 <= m <= written r /\ ready r f + 60 <= m + 3660 /\
    @access_token (lib_at i (minted r)) name cfg (asked r) (locked r) (written r) (Ok tt) true true f s =
      (Ok (mint_at i m sub cid), f', s') /\ logged_in (written r) f' s'.
Proof.
  intros Htrim Ht (Hsub & m & st & Hm & Hdelay & Hst & ->) (H1 & H2 & H3 & H4 & H5 & H6 & _).
  set (c := {| cached_access := _; cached_refresh := _; expires_at := _ |}).
  assert (Hfast : forall u, @fast_path (lib_at i u) name cfg (asked r) (Contents (to_vec (cache_value c))) =
    Ok (fresh_token (asked r) c)).
  { intros u. unfold fast_path. by rewrite Ht, load_written. }
  unfold ready, access_token. rewrite !Hfast. unfold fresh_token at 1 2.
  rewrite add_u64_small by (unfold is_u64, EXPIRY_MARGIN_SECS; lia). unfold EXPIRY_MARGIN_SECS. cbn [expires_at c].
  destruct (Z.ltb_spec (asked r + 60) (st + 3600)) as [Hlt|Hge].
  - exists m, (Contents (to_vec (cache_value c))), s. split; [lia|]. split; [lia|]. split; [done|].
    split; [done|]. exists m, st. split_and!; lia || done.
  - unfold refresh_locked. rewrite Ht, load_written. cbn [result_bind]. unfold fresh_token.
    rewrite add_u64_small by (unfold is_u64, EXPIRY_MARGIN_SECS; lia).
    rewrite (proj2 (Z.ltb_ge _ _)) by (unfold EXPIRY_MARGIN_SECS; cbn; lia). cbn [cached_refresh c negb].
    unfold lib_at. rewrite discover_issuer by done. cbn [Oidc.token_endpoint json_token issuer_oidc].
    rewrite (post_refreshed _ _ _ cid sub) by done. unfold store_tokens. cbn [to_json_cache issuer_oidc].
    exists (minted r). eexists _, _. split; [lia|]. split; [lia|]. split; [reflexivity|].
    split; [done|]. exists (minted r), (written r). split; [lia|]. split; [lia|]. split; [lia|].
    cbn [keep_refresh access refresh token_expires_in rotation refreshed].
    rewrite add_u64_small by (unfold is_u64; lia). by destruct (enabled (rotation s)).
Qed.

Lemma token_requests_served rs : trim_end_slashes (issuer_url i) = issuer_url i ->
  oidc_target cfg = Ok (issuer_url i, cid) ->
  forall t f s, logged_in t f s -> well_timed t rs ->
  Forall (fun '(at_, res) => exists m, res = Ok (mint_at i m sub cid) /\ 0 <= m /\ m + 8000 < u64_modulus /\
    at_ + 60 <= m + 3660) (token_requests rs f s).
Proof.
  intros Htrim Ht. induction rs as [|r rs IH]; intros t f s Hlog Htimed; cbn [token_requests]; [constructor|].
  destruct Htimed as (H1 & H2 & H3 & H4 & H5 & H6 & Hrest).
  destruct (token_request_served t r f s Htrim Ht Hlog) as (m & f' & s' & Hm & Hready & -> & Hlog'); [by split_and!|].
  constructor; [|by eapply IH]. exists m. split_and!; [done|lia|lia|done].
Qed.

End Requested.

(** ** The integration test of the server *)

(** [server/tests/oidc.rs]: each token with whether the test expects the server
    (of client [CLIENT_ID] and subject [joerg]) to accept it. *)
Section IntegrationTest.
Context `{JL : JsonLib, !JsonLibOk} {JW : JwtLib} {RL : RsaLib}.

Definition CLIENT_ID : string := "herdr-eternal".
Definition ALLOWED_SUB : string := "joerg".

Definition bearer_tokens (i other : Inner) (now : Z) : list (string * string * bool) :=
  [(ALLOWED_SUB, issuer_token i now ALLOWED_SUB CLIENT_ID 300, true);
   (ALLOWED_SUB, issuer_token i now "mallory" CLIENT_ID 300, false);
   (ALLOWED_SUB, issuer_token i now ALLOWED_SUB "other-app" 300, false);
   (ALLOWED_SUB, device_token i now ALLOWED_SUB CLIENT_ID, true);
   (ALLOWED_SUB, device_token i now ALLOWED_SUB "other-app", false);
   (ALLOWED_SUB, issuer_token i now ALLOWED_SUB CLIENT_ID (-300), false);
   (ALLOWED_SUB, client_credentials_token i now CLIENT_ID, false);
   (CLIENT_ID, client_credentials_token i now CLIENT_ID, true);
   (ALLOWED_SUB, issuer_token other now ALLOWED_SUB CLIENT_ID 300, false)].

(** Whatever the keys and ports of the two issuers are, as long as the keys differ. *)
Lemma oidc_bearer_tokens_are_validated key port key' port' now :
  0 <= port -> 1000 <= now < u64_modulus - 1000 -> RsaLibOk now -> verifying_key key' <> verifying_key key ->
  let i := (start key port).1 in
  Forall (fun '(allowed, token, accepted) =>
      server_verdict i CLIENT_ID allowed token = Ok tt <-> accepted = true)
    (bearer_tokens i (start key' port').1 now).
Proof.
  intros Hport Hnow Hrsa Hkeys i.
  assert (Hiff : forall i' t sub cl aud d allowed, _) by
    exact (fun i' t sub cl aud d allowed => verdict_ok_iff now key port i' t sub cl aud d CLIENT_ID allowed Hport).
  fold i in Hiff. cbv zeta in Hiff. unfold authorized in Hiff.
  cbn [read_claims Auth.client_id allowed_sub aud claim_client_id Auth.sub issued_sub issued_client_id issued_aud] in Hiff.
  assert (Hexp : now - LEEWAY <= saturating_add_signed now 300 /\ now - LEEWAY <= saturating_add_signed now 3600 /\
    ~ now - LEEWAY <= saturating_add_signed now (-300)).
  { unfold LEEWAY, saturating_add_signed. lia. }
  destruct Hexp as (H300 & H3600 & Hneg).
  unfold bearer_tokens, issuer_token, device_token, client_credentials_token.
  assert (Hk : verifying_key (encoding_key i) = verifying_key key) by done.
  assert (Hk' : verifying_key (encoding_key (start key' port').1) <> verifying_key key) by done.
  setoid_rewrite read_audience in Hiff.
  repeat (apply Forall_cons; split;
    [etransitivity; [apply Hiff|]; clear Hiff; unfold CLIENT_ID, ALLOWED_SUB; intuition congruence|]).
  by apply Forall_nil.
Qed.

End IntegrationTest.

(** ** Properties *)

Section IssuerProperties.
Context `{JL : JsonLib, !JsonLibOk} {JW : JwtLib} {RL : RsaLib}.

(** C24: a server accepts a token of the issuer exactly when it was signed by the
    key it finds at its configured issuer, names that issuer, has not expired
    for longer than the leeway, is addressed to nobody else, was granted to no
    other client, and stands for the allowed subject: by [sub], or without one
    by [client_id].  The way a token was minted (for a user and an audience,
    for client credentials, by the device flow) does not matter otherwise, and
    neither does which issuer minted it.  (A token without an audience passes,
    as those of the device flow must, against the documentation of the server's
    client id, which asks for it in [aud].) *)
Theorem minted_token_accepted_iff (key : PrivateKey) (port now : Z) (i' : Inner) (t d : Z)
    (sub client_id audience : option string) (cid allowed : string) :
  0 <= port -> RsaLibOk now ->
  let i := (start key port).1 in
  server_verdict i cid allowed (inner_token i' t sub client_id audience d) = Ok tt <->
  verifying_key (encoding_key i') = verifying_key key /\ issuer_url i' = issuer_url i /\
  now - LEEWAY <= saturating_add_signed t d /\
  (audience = None \/ audience = Some cid) /\ (client_id = None \/ client_id = Some cid) /\
  (sub = Some allowed \/ sub = None /\ client_id = Some allowed).
Proof.
  intros Hport Hrsa i. etransitivity; [by apply (verdict_ok_iff now)|]. fold i. unfold authorized.
  cbn [read_claims Auth.client_id allowed_sub aud claim_client_id Auth.sub issued_sub issued_client_id issued_aud].
  rewrite read_audience. tauto.
Qed.

(** C23: a user who logs in by the device flow can use the server from then on.
    Whatever number of polls the approval takes (before the device code
    expires), the login stores the tokens the issuer grants; and of any sequence
    of requests for an access token that the client makes afterwards, at any
    instants, each is answered with a token: from the cache until a minute
    before it expires, else by a refresh with the single-use refresh token that
    the login or the last refresh left.  For another minute after a token is
    there, a server that trusts the issuer accepts it for the granted subject
    and for nobody else.  (Tokens are written to the cache at most a minute
    after they were minted, and every request can lock and write the cache.) *)
Theorem device_login_accepted (key : PrivateKey) (port : Z) (name : string) (cfg : TargetConfig)
    (cid sub : string) (s : Issuer) (n : nat) (clock : nat -> Z) (started stored : Z) (f : CacheFile)
    (decode_at : Z -> string -> DecodingKey -> Algorithm * list string * bool -> result Claims JwtError)
    (requests : list TokenRequest) :
  0 <= port ->
  let i := (start key port).1 in
  oidc_target cfg = Ok (issuer_url i, cid) ->
  grant_sub (device_flow s) = Some sub -> pending_polls (device_flow s) = Z.of_nat n ->
  (forall j, (j < n)%nat -> clock j <= started + 300) ->
  0 <= clock n <= stored -> stored <= clock n + 60 -> stored + 8000 < u64_modulus ->
  (forall now, @RsaLibOk _ (rsa_at (decode_at now)) now) ->
  well_timed stored requests ->
  let answers := poll_answers i (poll_form DEVICE_CODE cid) clock s in
  let s' := polled i (poll_form DEVICE_CODE cid) clock n s in
  exists f',
    @login_with_prompt (lib_at i started) (S n) cfg true true true true started stored answers f s =
      Some (Ok tt, f') /\
    Forall (fun '(there, res) => exists token, res = Ok token /\
        forall now allowed, now <= there + 60 ->
          (@server_verdict JL (jwt_at (decode_at now)) (rsa_at (decode_at now))
             (@start _ (rsa_at (decode_at now)) key port).1 cid allowed token = Ok tt <-> allowed = sub))
      (token_requests i name cfg requests f' s').
Proof.
  intros Hport i Ht Hsub Hn Hclock Hminted Hstored Hmax Hrsa Htimed answers s'.
  pose proof (issuer_url_trimmed key port Hport) as Htrim. fold i in Htrim.
  pose proof (waiting_self s n Hn) as Hw.
  set (tokens := {| access := mint_at i (clock n) sub cid; refresh := Some (current (rotation s));
                    token_expires_in := 3600 |}).
  set (cache := {| cached_access := access tokens; cached_refresh := refresh tokens; expires_at := stored + 3600 |}).
  assert (Hrot : rotation s' = rotation s /\ grant_sub (device_flow s') = Some sub).
  { subst s'. rewrite <- Hw, (polled_waiting i cid clock s n n) by lia. by split. }
  exists (Contents (to_vec (cache_value cache))). split.
  - unfold login_with_prompt.
    destruct (start_login_issuer i cfg cid started s started Htrim Ht) as (device & -> & _). cbn [negb].
    destruct (poll_loop_pending i cid clock s n sub (started + 300) Hsub Hclock n 0 eq_refl) as [sleeps Hp].
    rewrite Hw in Hp. fold answers tokens in Hp. rewrite Hp. unfold store_tokens. cbn [to_json_cache lib_at issuer_oidc].
    rewrite add_u64_small by (unfold is_u64; cbn; lia). done.
  - assert (Hlog : logged_in i cid sub stored (Contents (to_vec (cache_value cache))) s').
    { destruct Hrot as [Hrot Hsub']. split; [done|]. exists (clock n), stored. rewrite Hrot. split_and!; lia || done. }
    eapply Forall_impl; [by eapply (token_requests_served i name cfg cid sub)|].
    intros [there res] (m & -> & Hm & Hm' & Hready). eexists. split; [reflexivity|]. intros now allowed Hnow.
    apply (@mint_at_accepted JL _ _ (rsa_at (decode_at now)) key port now m sub cid allowed Hport (Hrsa now));
      lia.
Qed.

End IssuerProperties.

(** ** A concrete library *)

(** Tokens that carry their key id, claims and key in the clear. *)
Definition Token : Type := option string * (string * option string * option string * option string * Z * Z) * string.

Fixpoint pos_string (p : positive) : string :=
  match p with
  | xH => EmptyString
  | xO p => String.String "0" (pos_string p)
  | xI p => String.String "1" (pos_string p)
  end.

Fixpoint string_pos (s : string) : positive :=
  match s with
  | EmptyString => xH
  | String.String c s => if Ascii.eqb c "0"%char then xO (string_pos s) else xI (string_pos s)
  end.

Lemma string_pos_string p : string_pos (pos_string p) = p.
Proof. induction p as [p IH|p IH|]; cbn; by rewrite ?IH. Qed.

Definition write_token (t : Token) : string := pos_string (encode t).
Definition parse_token (s : string) : option Token := decode (string_pos s).

Lemma parse_write_token t : parse_token (write_token t) = Some t.
Proof. unfold parse_token, write_token. by rewrite string_pos_string, decode_encode. Qed.

Definition clocked_jwt (now : Z) : JwtLib := {|
  JwtError := unit; Algorithm := unit; JwkSet := list (string * string); Jwk := string;
  DecodingKey := string;
  decode_header := fun t => match parse_token t with Some (kid, _, _) => Ok (tt, kid) | None => Err tt end;
  jwkset_find := fun kid set => snd <$> List.find (fun p => bool_decide (p.1 = kid)) set;
  jwkset_first := fun set => snd <$> head set;
  from_jwk := fun k => Ok k;
  jwt_decode := fun t key '(_, issuers, _) =>
    match parse_token t with
    | Some (_, (i, s, c, a, e, _), k) =>
        if bool_decide (key = k) && existsb (fun x => bool_decide (x = i)) issuers && (now - LEEWAY <=? e)
        then Ok {| sub := s; claim_client_id := c; aud := match a with Some a => One a | None => Missing end |}
        else Err tt
    | None => Err tt
    end;
|}.

Definition clocked_rsa (now : Z) : @RsaLib (clocked_jwt now) :=
  @Build_RsaLib (clocked_jwt now) string (fun k => k) (fun _ => "AQAB"%string) (fun k => k) tt
    (fun '(_, kid) c k => write_token
       (kid, (iss c, issued_sub c, issued_client_id c, issued_aud c, exp c, iat c), k))
    (fun v => match get_field "keys" v with
              | Some (Array ks) => mapM (fun k => kid ← field as_str "kid" k; n ← field as_str "n" k; Some (kid, n)) ks
              | _ => None
              end).

Lemma clocked_rsa_ok now : @RsaLibOk (clocked_jwt now) (clocked_rsa now) now.
Proof.
  split.
  - intros [] kid c k. cbn -[parse_token write_token]. by rewrite parse_write_token.
  - intros k. exists [(KID, k)], k. split_and!; reflexivity.
  - intros kid c k key i cl. cbn -[parse_token write_token LEEWAY]. rewrite parse_write_token.
    case_bool_decide as Hk; cbn [andb]; [|split; [done|intros [? _]; by destruct Hk]].
    case_bool_decide as Hi; cbn [orb andb]; [|split; [done|intros (_ & ? & _); by destruct Hi]].
    destruct (Z.leb_spec (now - LEEWAY) (exp c)) as [Ht|Ht]; [|split; [done|lia]].
    split; [by intros [= <-]|by intros (_ & _ & _ & ->)].
Qed.

Definition login_config (url : string) : TargetConfig :=
  {| cfg_url := "ws://h"; cfg_token := None; cfg_issuer := Some url; cfg_client_id := Some "herdr-eternal"%string;
     cfg_forward_agent := false; cfg_quic_addr := None; cfg_quic_ca := None |}.

(** A token for this audience, and one that expired five minutes ago. *)
Lemma minted_token_accepted_iff_witness :
  let RL := clocked_rsa 1000 in
  let JL := toy_json in
  let i := (@start _ RL "key" 8080).1 in
  server_verdict i "herdr-eternal" "joerg" (issuer_token i 1000 "joerg" "herdr-eternal" 300) = Ok tt /\
  server_verdict i "herdr-eternal" "joerg" (issuer_token i 1000 "joerg" "herdr-eternal" (-300)) <> Ok tt.
Proof.
  intros RL JL i.
  pose proof (@minted_token_accepted_iff JL toy_json_ok _ RL "key" 8080 1000 i 1000) as H.
  unfold issuer_token. split.
  - apply (H 300 (Some "joerg"%string) None (Some "herdr-eternal"%string) "herdr-eternal"%string "joerg"%string).
    + lia.
    + apply clocked_rsa_ok.
    + split_and!; [done|done|vm_compute; discriminate|by right|by left|by left].
  - intros Hv.
    apply (H (-300) (Some "joerg"%string) None (Some "herdr-eternal"%string) "herdr-eternal"%string "joerg"%string) in Hv;
      [|lia|apply clocked_rsa_ok].
    destruct Hv as (_ & _ & Hexp & _). vm_compute in Hexp. by apply Hexp.
Defined.

(** One poll before the approval; a request while the token is fresh, and two
    that refresh it, with single-use refresh tokens. *)
Lemma device_login_accepted_witness :
  let RL := clocked_rsa 0 in
  let JL := toy_json in
  let i := (@start _ RL "key" 8080).1 in
  let s := rotate_refresh_tokens (grant_device_flow "joerg" 1 (@start _ RL "key" 8080).2) in
  let cfg := login_config "http://127.0.0.1:8080" in
  let clock k := 1000 + Z.of_nat k in
  let answers := poll_answers i (poll_form DEVICE_CODE "herdr-eternal") clock s in
  let s' := polled i (poll_form DEVICE_CODE "herdr-eternal") clock 1 s in
  let requests := map (fun t => {| asked := t; locked := t; minted := t + 1; written := t + 2 |}) [2000; 6000; 10000] in
  exists f', @login_with_prompt (lib_at i 1000) 2 cfg true true true true 1000 1002 answers NotFound s = Some (Ok tt, f') /\
    Forall (fun '(there, res) => exists token, res = Ok token /\
        forall now allowed, now <= there + 60 ->
          (@server_verdict JL (clocked_jwt now) (clocked_rsa now) (@start _ (clocked_rsa now) "key" 8080).1
             "herdr-eternal" allowed token = Ok tt <-> allowed = "joerg"%string))
      (token_requests i "testbox" cfg requests f' s').
Proof.
  intros RL JL i s cfg clock answers s' requests.
  refine (@device_login_accepted JL toy_json_ok _ RL "key" 8080 "testbox" cfg "herdr-eternal" "joerg" s 1 clock
    1000 1002 NotFound (fun now => @jwt_decode (clocked_jwt now)) requests _ _ _ _ _ _ _ _ _ _).
  - lia.
  - reflexivity.
  - reflexivity.
  - reflexivity.
  - intros j Hj. unfold clock. lia.
  - unfold clock. lia.
  - unfold clock. lia.
  - rewrite u64_modulus_eq. lia.
  - intros now. exact (clocked_rsa_ok now).
  - cbn. rewrite u64_modulus_eq. lia.
Defined.

Example third_request_refreshed :
  let RL := clocked_rsa 0 in
  let JL := toy_json in
  let i := (@start _ RL "key" 8080).1 in
  let s := rotate_refresh_tokens (grant_device_flow "joerg" 0 (@start _ RL "key" 8080).2) in
  let f := Contents (to_vec (cache_value {| cached_access := ""; cached_refresh := Some REFRESH_TOKEN; expires_at := 4600 |})) in
  let requests := map (fun t => {| asked := t; locked := t; minted := t + 1; written := t + 2 |}) [2000; 6000; 10000] in
  map fst (token_requests i "testbox" (login_config "http://127.0.0.1:8080") requests f s) = [2000; 6002; 10002].
Proof. vm_compute. reflexivity. Qed.
