(* ===== verification/OidcRace.v ===== *)
(** * Concurrent token refreshes ([access_token] in [client/src/oidc.rs] against
    the single-use refresh tokens of [server/src/test_oidc.rs])

    Several clients share one token cache.  Each runs [access_token] as the
    sequence of its atomic operations (read the cache, take the lock, read it
    again, refresh, replace the cache), and the operations of different clients
    interleave in any order.  The provider is the repository's fake issuer,
    which can make refresh tokens single-use: a second refresh with the same
    token is refused and would log the user out. *)

From S2P Require Import Prelude Auth Session Target Oidc Json FakeIssuer.

(** ** Interleaved clients *)

Section Race.
Context `{OidcLib}.
Context (name : string) (cfg : TargetConfig) (issuer client_id : string).

(** Where a client is in [access_token]. *)
Inductive Pc : Type :=
| Begin
| WantsLock
| HasLock
| Refreshing (old : string)
| Storing (t : TokenResponse)
| Returned (r : result string ClientError).

Record Race := {
  procs : list Pc;
  lock : option nat;
  cache : CacheFile;
  net : Net;
}.

Definition move (i : nat) (pc : Pc) (l : option nat) (f : CacheFile) (n : Net) (st : Race) : option Race :=
  Some {| procs := <[i := pc]> (procs st); lock := l; cache := f; net := n |}.

(** Client [i] does its next operation at time [now]; returning drops the
    lock.  [None] while it waits for the lock, and when it has returned. *)
Definition race_step (st : Race) (i : nat) (now : Z) : option Race :=
  match procs st !! i with
  | Some Begin =>
      move i (match fast_path name cfg now (cache st) with
              | Err e => Returned (Err e)
              | Ok (Some t) => Returned (Ok t)
              | Ok None => WantsLock
              end) (lock st) (cache st) (net st) st
  | Some WantsLock =>
      match lock st with
      | None => move i HasLock (Some i) (cache st) (net st) st
      | Some _ => None
      end
  | Some HasLock =>
      match load_cached_tokens name (cache st) with
      | Err e => move i (Returned (Err e)) None (cache st) (net st) st
      | Ok cached =>
          match fresh_token now cached with
          | Some t => move i (Returned (Ok t)) None (cache st) (net st) st
          | None =>
              match cached_refresh cached with
              | None => move i (Returned (Err (NotLoggedIn name))) None (cache st) (net st) st
              | Some old => move i (Refreshing old) (lock st) (cache st) (net st) st
              end
          end
      end
  | Some (Refreshing old) =>
      match discover issuer (net st) with
      | (Err e, n) => move i (Returned (Err e)) None (cache st) n st
      | (Ok d, n) =>
          match token_request json_token (token_endpoint d) (refresh_form old client_id) n with
          | (Err e, n) => move i (Returned (Err e)) None (cache st) n st
          | (Ok (Err _), n) => move i (Returned (Err (NotLoggedIn name))) None (cache st) n st
          | (Ok (Ok tokens), n) => move i (Storing (keep_refresh old tokens)) (lock st) (cache st) n st
          end
      end
  | Some (Storing tokens) =>
      match store_tokens now tokens true (cache st) with
      | (Err e, f) => move i (Returned (Err e)) None f (net st) st
      | (Ok _, f) => move i (Returned (Ok (access tokens))) None f (net st) st
      end
  | Some (Returned _) | None => None
  end.

Fixpoint race_run (st : Race) (sched : list (nat * Z)) : option Race :=
  match sched with
  | [] => Some st
  | (i, now) :: sched => match race_step st i now with Some st => race_run st sched | None => None end
  end.

Definition race_start (n : nat) (f : CacheFile) (s : Net) : Race :=
  {| procs := replicate n Begin; lock := None; cache := f; net := s |}.

End Race.

(** ** The invariant *)

Section OneGrant.
Context `{JL : JsonLib, !JsonLibOk} (url : string) (jwks : Value).
Context (mint : string -> string -> string) (name : string) (cfg : TargetConfig).
Context (issuer client_id sub old_access r0 : string) (e0 t0 : Z) (s0 : Issuer).

Notation lib := (issuer_oidc url jwks mint).
Notation step := (@race_step lib name cfg issuer client_id).
Notation run := (@race_run lib name cfg issuer client_id).
Notation state := (@Race lib).

(** The setting: one login whose access token has expired, a provider that
    rotates, and a clock that stays within the new token's lifetime. *)
Definition in_window (now : Z) : Prop := t0 <= now < t0 + 3540.

Record setting : Prop := {
  se_target : oidc_target cfg = Ok (issuer, client_id);
  se_url : trim_end_slashes issuer = url;
  se_rotates : enabled (rotation s0) = true;
  se_current : current (rotation s0) = r0;
  se_sub : grant_sub (device_flow s0) = Some sub;
  se_expired : e0 <= t0 + 60;
  se_clock : 0 <= t0 /\ t0 + 8000 < u64_modulus;
}.

Notation rotated := (next_refresh s0).
Notation s1 := (refreshed s0).
Definition granted : TokenResponse :=
  {| access := mint sub client_id; refresh := Some rotated; token_expires_in := 3600 |}.
Definition cache_file (c : CachedTokens) : CacheFile := Contents (to_vec (cache_value c)).
Definition f0 : CacheFile :=
  cache_file {| cached_access := old_access; cached_refresh := Some r0; expires_at := e0 |}.
Definition f1 (ts : Z) : CacheFile :=
  cache_file {| cached_access := mint sub client_id; cached_refresh := Some rotated; expires_at := add_u64 ts 3600 |}.

Definition idle (pc : Pc) : Prop := pc = Begin \/ pc = WantsLock.

Inductive race_inv (st : state) : Prop :=
| BeforeGrant : cache st = f0 -> net st = s0 ->
    (forall j pc, procs st !! j = Some pc ->
       idle pc \/ (lock st = Some j /\ (pc = HasLock \/ pc = Refreshing r0))) ->
    (forall j, lock st = Some j -> exists pc, procs st !! j = Some pc /\ (pc = HasLock \/ pc = Refreshing r0)) ->
    race_inv st
| Granted j : cache st = f0 -> net st = s1 -> lock st = Some j -> procs st !! j = Some (Storing granted) ->
    (forall k pc, procs st !! k = Some pc -> k <> j -> idle pc) ->
    race_inv st
| Stored ts : in_window ts -> cache st = f1 ts -> net st = s1 ->
    (forall j pc, procs st !! j = Some pc ->
       idle pc \/ (lock st = Some j /\ pc = HasLock) \/ pc = Returned (Ok (mint sub client_id))) ->
    (forall j, lock st = Some j -> procs st !! j = Some HasLock) ->
    race_inv st.

Lemma load_cache_file c : @load_cached_tokens lib name (cache_file c) = Ok c.
Proof.
  unfold load_cached_tokens, load_tokens, cache_file. cbn [json_cache issuer_oidc].
  by rewrite from_json_to_vec, cache_value_roundtrip.
Qed.

Lemma load_f0 : @load_cached_tokens lib name f0 =
  Ok {| cached_access := old_access; cached_refresh := Some r0; expires_at := e0 |}.
Proof. apply load_cache_file. Qed.

Lemma load_f1 ts : @load_cached_tokens lib name (f1 ts) =
  Ok {| cached_access := mint sub client_id; cached_refresh := Some rotated; expires_at := add_u64 ts 3600 |}.
Proof. apply load_cache_file. Qed.

(** The two files differ, as long as the new tokens live longer. *)
Lemma f0_f1 ts : add_u64 ts 3600 <> e0 -> f0 <> f1 ts.
Proof.
  intros Hne Heq. pose proof load_f0 as H0. rewrite Heq, load_f1 in H0. by injection H0 as _ _ He.
Qed.

Context (Hset : setting).

Lemma window_now now : in_window now -> add_u64 now 60 = now + 60 /\ add_u64 now 3600 = now + 3600.
Proof.
  intros Hw. pose proof (se_clock Hset). unfold in_window in Hw.
  split; apply add_u64_small; auto with u64.
Qed.

Lemma f0_f1_window ts : in_window ts -> f0 <> f1 ts.
Proof.
  intros Hts. apply f0_f1. destruct (window_now ts Hts) as [_ ->]. pose proof (se_expired Hset).
  unfold in_window in Hts. lia.
Qed.

Lemma stale now a r : in_window now ->
  fresh_token now {| cached_access := a; cached_refresh := r; expires_at := e0 |} = None.
Proof.
  intros Hw. destruct (window_now now Hw) as [H60 _]. pose proof (se_expired Hset). unfold in_window in Hw.
  unfold fresh_token, EXPIRY_MARGIN_SECS. cbn [expires_at]. rewrite H60.
  by rewrite (proj2 (Z.ltb_ge _ _)) by lia.
Qed.

Lemma fresh now ts a r : in_window now -> in_window ts ->
  fresh_token now {| cached_access := a; cached_refresh := r; expires_at := add_u64 ts 3600 |} = Some a.
Proof.
  intros Hw Hts. destruct (window_now now Hw) as [H60 _]. destruct (window_now ts Hts) as [_ ->].
  unfold in_window in *. unfold fresh_token, EXPIRY_MARGIN_SECS. cbn [expires_at]. rewrite H60.
  by rewrite (proj2 (Z.ltb_lt _ _)) by lia.
Qed.

Lemma fast_path_f0 now : in_window now -> @fast_path lib name cfg now f0 = Ok None.
Proof. intros Hw. unfold fast_path. rewrite (se_target Hset), load_f0. cbn [result_bind]. by rewrite stale. Qed.

Lemma fast_path_f1 now ts : in_window now -> in_window ts ->
  @fast_path lib name cfg now (f1 ts) = Ok (Some (mint sub client_id)).
Proof.
  intros Hw Hts. unfold fast_path. rewrite (se_target Hset), load_f1. cbn [result_bind]. by rewrite fresh.
Qed.

(** The one refresh the issuer grants. *)
Lemma grant_once : exists d, @discover lib issuer s0 = (Ok d, s0) /\
  @token_request lib TokenResponse (@json_token lib) (token_endpoint d) (refresh_form r0 client_id) s0
    = (Ok (Ok granted), s1).
Proof.
  eexists. split; [by apply discover_issuer, (se_url Hset)|]. cbn [token_endpoint json_token issuer_oidc].
  rewrite <- (se_current Hset), (post_refreshed _ _ _ client_id sub) by apply (se_sub Hset).
  unfold granted. by rewrite (se_rotates Hset).
Qed.

Lemma lookup_moved (l : list Pc) i pc pc' j : l !! i = Some pc -> forall q, <[i := pc']> l !! j = Some q ->
  (j = i /\ q = pc') \/ (j <> i /\ l !! j = Some q).
Proof.
  intros Hi q [(-> & <- & _)|[Hne Hj]]%list_lookup_insert_Some; [by left|right]. by split.
Qed.

Lemma moved_self (l : list Pc) i pc pc' : l !! i = Some pc -> <[i := pc']> l !! i = Some pc'.
Proof. intros Hi. apply list_lookup_insert_eq. by eapply lookup_lt_Some. Qed.

(** Clients that hold nothing move without touching anything. *)
Lemma step_begin st i now : race_inv st -> in_window now -> procs st !! i = Some Begin ->
  exists pc, step st i now = @move lib i pc (lock st) (cache st) (net st) st /\
    (pc = WantsLock \/ pc = Returned (Ok (mint sub client_id)) /\ exists ts, in_window ts /\ cache st = f1 ts).
Proof.
  intros Hinv Hw Hi. unfold race_step. rewrite Hi. destruct Hinv as [Hc _ _ _|j Hc _ _ _ _|ts Hts Hc _ _ _]; rewrite Hc.
  - rewrite fast_path_f0 by done. eexists. split; [done|by left].
  - rewrite fast_path_f0 by done. eexists. split; [done|by left].
  - rewrite (fast_path_f1 now ts) by done. eexists. split; [done|]. right. split; [done|]. by exists ts.
Qed.

Lemma inv_begin st i pc : race_inv st -> procs st !! i = Some Begin ->
  pc = WantsLock \/ pc = Returned (Ok (mint sub client_id)) /\ (exists ts, in_window ts /\ cache st = f1 ts) ->
  race_inv {| procs := <[i := pc]> (procs st); lock := lock st; cache := cache st; net := net st |}.
Proof.
  intros Hinv Hi Hpc.
  destruct Hinv as [Hc Hn Hp Hl|j Hc Hn Hl Hj Hp|ts Hts Hc Hn Hp Hl].
  - destruct Hpc as [->|[-> (ts & Hts & Hc')]].
    + apply BeforeGrant; cbn; [done|done| |].
      * intros j q Hq. destruct (lookup_moved _ _ _ _ _ Hi _ Hq) as [[-> ->]|[_ Hq']]; [left; by right|by apply Hp].
      * intros j Hlj. destruct (Hl j Hlj) as (q & Hq & Hh). exists q. split; [|done].
        rewrite list_lookup_insert_ne; [done|]. intros ->. rewrite Hi in Hq. injection Hq as <-. by destruct Hh.
    + exfalso. rewrite Hc in Hc'. by apply (f0_f1_window ts).
  - destruct Hpc as [->|[-> (ts & Hts & Hc')]].
    + apply (Granted _ j); cbn; [done|done|done| |].
      * rewrite list_lookup_insert_ne; [done|]. intros ->. congruence.
      * intros k q Hq Hk. destruct (lookup_moved _ _ _ _ _ Hi _ Hq) as [[-> ->]|[_ Hq']]; [by right|by eapply Hp].
    + exfalso. rewrite Hc in Hc'. by apply (f0_f1_window ts).
  - apply (Stored _ ts); cbn; [done|done|done| |].
    + intros j q Hq. destruct (lookup_moved _ _ _ _ _ Hi _ Hq) as [[-> ->]|[_ Hq']]; [|by apply Hp].
      destruct Hpc as [->|[-> _]]; [left; by right|by right; right].
    + intros j Hlj. specialize (Hl j Hlj). rewrite list_lookup_insert_ne; [done|]. intros ->. congruence.
Qed.

(** Only the holder of the lock is not idle or done. *)
Lemma inv_wants st i : race_inv st -> procs st !! i = Some WantsLock -> lock st = None ->
  race_inv {| procs := <[i := HasLock]> (procs st); lock := Some i; cache := cache st; net := net st |}.
Proof.
  intros Hinv Hi Hnone. destruct Hinv as [Hc Hn Hp Hl|j Hc Hn Hl Hj Hp|ts Hts Hc Hn Hp Hl]; [|congruence|].
  - apply BeforeGrant; cbn; [done|done| |].
    + intros j q Hq. destruct (lookup_moved _ _ _ _ _ Hi _ Hq) as [[-> ->]|[_ Hq']]; [by right; auto|].
      destruct (Hp j q Hq') as [?|[? _]]; [by left|congruence].
    + intros j [= <-]. exists HasLock. split; [by eapply moved_self|by left].
  - apply (Stored _ ts); cbn; [done|done|done| |].
    + intros j q Hq. destruct (lookup_moved _ _ _ _ _ Hi _ Hq) as [[-> ->]|[_ Hq']]; [by right; left|].
      destruct (Hp j q Hq') as [?|[[? _]|?]]; [by left|congruence|by right; right].
    + intros j [= <-]. by eapply moved_self.
Qed.

Lemma inv_has_lock st i now st' : race_inv st -> in_window now -> procs st !! i = Some HasLock ->
  step st i now = Some st' -> race_inv st'.
Proof.
  intros Hinv Hw Hi Hstep. unfold race_step in Hstep. rewrite Hi in Hstep.
  destruct Hinv as [Hc Hn Hp Hl|j Hc Hn Hl Hj Hp|ts Hts Hc Hn Hp Hl]; rewrite Hc in Hstep.
  - rewrite load_f0, stale in Hstep by done. injection Hstep as <-.
    destruct (Hp i _ Hi) as [[?|?]|[Hlock _]]; [done|done|].
    apply BeforeGrant; cbn; [done|done| |].
    + intros j q Hq. destruct (lookup_moved _ _ _ _ _ Hi _ Hq) as [[-> ->]|[_ Hq']]; [by right; auto|by apply Hp].
    + intros j Hj. rewrite Hlock in Hj. injection Hj as <-. exists (Refreshing r0). split; [by eapply moved_self|by right].
  - exfalso. destruct (Nat.eq_dec i j) as [->|Hne]; [congruence|]. by destruct (Hp i _ Hi Hne).
  - rewrite load_f1, (fresh now ts) in Hstep by done. injection Hstep as <-.
    destruct (Hp i _ Hi) as [[?|?]|[[Hlock _]|?]]; [done|done| |done].
    apply (Stored _ ts); cbn; [done|done|done| |done].
    intros j q Hq. destruct (lookup_moved _ _ _ _ _ Hi _ Hq) as [[-> ->]|[Hne Hq']]; [by right; right|].
    destruct (Hp j q Hq') as [?|[[Hlj _]|?]]; [by left|congruence|by right; right].
Qed.

Lemma inv_refreshing st i old now st' : race_inv st -> procs st !! i = Some (Refreshing old) ->
  step st i now = Some st' -> race_inv st'.
Proof.
  intros Hinv Hi Hstep. unfold race_step in Hstep. rewrite Hi in Hstep.
  destruct Hinv as [Hc Hn Hp Hl|j Hc Hn Hl Hj Hp|ts Hts Hc Hn Hp Hl].
  - destruct (Hp i _ Hi) as [[?|?]|[Hlock [?|[= ->]]]]; [done|done|done|].
    destruct grant_once as (d & Hd & Ht). rewrite Hn, Hd, Ht in Hstep. injection Hstep as <-.
    apply (Granted _ i); cbn; [done|done|done|by eapply moved_self|].
    intros k q Hq Hk. destruct (lookup_moved _ _ _ _ _ Hi _ Hq) as [[? _]|[_ Hq']]; [done|].
    destruct (Hp k q Hq') as [?|[Hlk _]]; [done|congruence].
  - exfalso. destruct (Nat.eq_dec i j) as [->|Hne]; [congruence|]. by destruct (Hp i _ Hi Hne).
  - exfalso. by destruct (Hp i _ Hi) as [[?|?]|[[_ ?]|?]].
Qed.

Lemma inv_storing st i t now st' : race_inv st -> in_window now -> procs st !! i = Some (Storing t) ->
  step st i now = Some st' -> race_inv st'.
Proof.
  intros Hinv Hw Hi Hstep. unfold race_step in Hstep. rewrite Hi in Hstep.
  destruct Hinv as [Hc Hn Hp Hl|j Hc Hn Hl Hj Hp|ts Hts Hc Hn Hp Hl].
  - exfalso. by destruct (Hp i _ Hi) as [[?|?]|[_ [?|?]]].
  - destruct (Nat.eq_dec i j) as [->|Hne]; [|by destruct (Hp i _ Hi Hne)].
    rewrite Hj in Hi. injection Hi as <-. cbn in Hstep. injection Hstep as <-.
    apply (Stored _ now); cbn; [done|done|done| |done].
    intros k q Hq. destruct (lookup_moved _ _ _ _ _ Hj _ Hq) as [[-> ->]|[Hk Hq']]; [by right; right|].
    left. by eapply Hp.
  - exfalso. by destruct (Hp i _ Hi) as [[?|?]|[[_ ?]|?]].
Qed.

Lemma inv_step st i now st' : race_inv st -> in_window now -> step st i now = Some st' -> race_inv st'.
Proof.
  intros Hinv Hw Hstep. destruct (procs st !! i) as [pc|] eqn:Hi; [|unfold race_step in Hstep; by rewrite Hi in Hstep].
  destruct pc as [| | |old|t|r].
  - destruct (step_begin st i now Hinv Hw Hi) as (pc & Hs & Hpc). rewrite Hs in Hstep. injection Hstep as <-.
    by apply inv_begin.
  - unfold race_step in Hstep. rewrite Hi in Hstep. destruct (lock st) eqn:Hl; [done|]. injection Hstep as <-.
    by apply inv_wants.
  - by eapply inv_has_lock.
  - by eapply inv_refreshing.
  - by eapply inv_storing.
  - unfold race_step in Hstep. by rewrite Hi in Hstep.
Qed.

(** ** Progress *)

(** Operations a client has left. *)
Definition left_of (pc : Pc) : nat :=
  match pc with
  | Begin => 5 | WantsLock => 4 | HasLock => 3 | Refreshing _ => 2 | Storing _ => 1 | Returned _ => 0
  end.
Definition work (l : list Pc) : nat := sum_list_with left_of l.

Lemma work_move (l : list Pc) i pc pc' : l !! i = Some pc -> (left_of pc' < left_of pc)%nat ->
  (S (work (<[i := pc']> l)) <= work l)%nat.
Proof.
  unfold work. revert i. induction l as [|x l IH]; intros [|i] Hi Hlt; try done.
  - injection Hi as ->. cbn. lia.
  - specialize (IH i Hi Hlt). change (S (left_of x + sum_list_with left_of (<[i:=pc']> l)) <= left_of x + sum_list_with left_of l)%nat. lia.
Qed.

Lemma step_work st i now st' : step st i now = Some st' -> (S (work (procs st')) <= work (procs st))%nat.
Proof.
  unfold race_step. destruct (procs st !! i) as [pc|] eqn:Hi; [|done].
  assert (Hgo : forall pc' l f n, @move lib i pc' l f n st = Some st' -> (left_of pc' < left_of pc)%nat ->
    (S (work (procs st')) <= work (procs st))%nat).
  { intros pc' l f n [= <-] Hlt. by eapply work_move. }
  destruct pc as [| | |old|t|r]; [| | | | |done].
  - intros Hs. eapply Hgo; [exact Hs|]. destruct (fast_path _ _ _ _) as [[t|]|e]; cbn; lia.
  - destruct (lock st); [done|]. intros Hs. eapply Hgo; [exact Hs|]. cbn. lia.
  - destruct (load_cached_tokens _ _) as [c|e].
    + destruct (fresh_token _ _); [intros Hs; eapply Hgo; [exact Hs|cbn; lia]|].
      destruct (cached_refresh c); intros Hs; (eapply Hgo; [exact Hs|cbn; lia]).
    + intros Hs; eapply Hgo; [exact Hs|cbn; lia].
  - destruct (discover _ _) as [[d|e] n]; [|intros Hs; eapply Hgo; [exact Hs|cbn; lia]].
    destruct (token_request _ _ _ _) as [[[t|er]|e] n']; intros Hs; (eapply Hgo; [exact Hs|cbn; lia]).
  - destruct (store_tokens _ _ _ _) as [[u|e] f]; intros Hs; (eapply Hgo; [exact Hs|cbn; lia]).
Qed.

(** The holder of the lock can always move, and without one any client can. *)
Lemma can_move st now : race_inv st -> in_window now ->
  (forall i pc, procs st !! i = Some pc -> left_of pc = 0%nat) \/
  exists i st', step st i now = Some st'.
Proof.
  intros Hinv Hw.
  assert (Hholder : forall j, lock st = Some j -> exists st', step st j now = Some st').
  { intros j Hlock. unfold race_step. destruct Hinv as [Hc Hn Hp Hl|k Hc Hn Hl Hk Hp|ts Hts Hc Hn Hp Hl].
    - destruct (Hl j Hlock) as (pc & Hj & [->| ->]); rewrite Hj.
      + rewrite Hc, load_f0, stale by done. by eexists.
      + destruct grant_once as (d & Hd & Ht). rewrite Hn, Hd, Ht. by eexists.
    - assert (k = j) as -> by congruence. rewrite Hk. by eexists.
    - rewrite (Hl j Hlock), Hc, load_f1, (fresh now ts) by done. by eexists. }
  destruct (lock st) as [j|] eqn:Hlock; [right; exists j; by apply Hholder|].
  destruct (decide (Forall (fun pc => left_of pc = 0%nat) (procs st))) as [Hall|Hsome].
  { left. rewrite Forall_lookup in Hall. done. }
  right. apply not_Forall_Exists in Hsome; [|apply _].
  apply Exists_exists in Hsome as (pc & Hin & Hne). apply list_elem_of_lookup in Hin as [i Hi]. exists i.
  assert (Hidle : idle pc).
  { destruct Hinv as [Hc Hn Hp Hl|k Hc Hn Hl Hk Hp|ts Hts Hc Hn Hp Hl]; [|congruence|].
    - destruct (Hp i pc Hi) as [?|[? _]]; [done|congruence].
    - destruct (Hp i pc Hi) as [?|[[? _]| ->]]; [done|congruence|]. by cbn in Hne. }
  unfold race_step. rewrite Hi. destruct Hidle as [->| ->]; [by eexists|]. rewrite Hlock. by eexists.
Qed.

Lemma run_inv sched : forall st st', race_inv st -> Forall (fun p => in_window p.2) sched ->
  run st sched = Some st' -> race_inv st' /\ (length sched + work (procs st') <= work (procs st))%nat.
Proof.
  induction sched as [|[i now] sched IH]; intros st st' Hinv Hws; cbn [race_run length]; [by intros [= <-]|].
  inversion Hws as [|? ? Hw Hws']; subst. destruct (step st i now) as [st1|] eqn:Hs; [|done]. intros Hr.
  pose proof (step_work _ _ _ _ Hs). pose proof (inv_step _ _ _ _ Hinv Hw Hs) as Hinv1.
  destruct (IH _ _ Hinv1 Hws' Hr). split; [done|lia].
Qed.

Lemma start_inv n : race_inv (@race_start lib n f0 s0).
Proof.
  apply BeforeGrant; cbn; [done|done| |done].
  intros j pc [-> _]%lookup_replicate. left. by left.
Qed.

End OneGrant.

(** ** Properties *)

(** C25: concurrent refreshes share one grant.  Any number of clients find the
    same expired access token, against a provider with single-use refresh
    tokens.  Whatever the interleaving of their operations, every client that
    returns gets the same new access token, the issuer grants at most one
    refresh (exactly one once somebody returned), nobody deadlocks, and after
    at most five operations per client all have returned. *)
Theorem concurrent_refreshes_share_one_grant `{JL : JsonLib, !JsonLibOk} (url : string)
    (jwks : Value) (mint : string -> string -> string) (name : string) (cfg : TargetConfig) (issuer client_id sub old_access r0 : string) (e0 t0 : Z) (s0 : Issuer)
    (n : nat) (sched : list (nat * Z)) (st : @Race (issuer_oidc url jwks mint)) :
  setting url cfg issuer client_id sub r0 e0 t0 s0 ->
  Forall (fun p => in_window t0 p.2) sched ->
  @race_run (issuer_oidc url jwks mint) name cfg issuer client_id
    (@race_start (issuer_oidc url jwks mint) n (f0 old_access r0 e0) s0) sched = Some st ->
  (forall i r, procs st !! i = Some (Returned r) ->
     r = Ok (mint sub client_id) /\ refreshes (rotation (net st)) = refreshes (rotation s0) + 1) /\
  refreshes (rotation (net st)) <= refreshes (rotation s0) + 1 /\
  (length sched <= 5 * n)%nat /\
  forall now, in_window t0 now ->
    (forall i pc, procs st !! i = Some pc -> exists r, pc = Returned r) \/
    exists i st', @race_step (issuer_oidc url jwks mint) name cfg issuer client_id st i now = Some st'.
Proof.
  intros Hset Hws Hrun.
  destruct (run_inv url jwks mint name cfg issuer client_id sub old_access r0 e0 t0 s0 Hset _ _ _
    (start_inv url jwks mint client_id sub old_access r0 e0 t0 s0 n) Hws Hrun) as [Hinv Hlen].
  split; [|split; [|split]].
  - intros i r Hi. destruct Hinv as [Hc Hn Hp Hl|j Hc Hn Hl Hj Hp|ts Hts Hc Hn Hp Hl].
    + exfalso. by destruct (Hp i _ Hi) as [[?|?]|[_ [?|?]]].
    + exfalso. destruct (Nat.eq_dec i j) as [->|Hne]; [congruence|]. by destruct (Hp i _ Hi Hne).
    + destruct (Hp i _ Hi) as [[?|?]|[[_ ?]|[= ->]]]; [done|done|done|]. by rewrite Hn.
  - destruct Hinv as [Hc Hn _ _|j Hc Hn _ _ _|ts Hts Hc Hn _ _]; rewrite Hn; cbn; lia.
  - assert (Hw : forall k, work (replicate k Begin) = (5 * k)%nat).
    { induction k as [|k IH]; [done|]. unfold work in *. cbn. rewrite IH. lia. }
    cbn in Hlen. rewrite Hw in Hlen. lia.
  - intros now Hw. destruct (can_move url jwks mint name cfg issuer client_id sub old_access r0 e0 t0 s0 Hset st now Hinv Hw)
      as [Hall|?]; [left|by right].
    intros i pc Hi. specialize (Hall i pc Hi). destruct pc; try done. by eexists.
Qed.

(** Two clients; the second waits for the lock and finds the new token. *)
Definition example_mint (sub client_id : string) : string := "jwt:" +:+ sub.

Definition example_issuer : Issuer := rotate_refresh_tokens (grant_device_flow "joerg" 0 issuer_start).

Lemma concurrent_refreshes_share_one_grant_witness :
  let JL := toy_json in
  let lib := issuer_oidc "http://issuer" Null example_mint in
  let sched := [(0, 1000); (1, 1000); (1, 1001); (1, 1001); (1, 1001); (1, 1002); (0, 1003); (0, 1003)]%nat in
  let sched := map (fun p => (p.1, Z.of_nat p.2)) sched in
  exists st, @race_run lib "box" example_config "http://issuer/" "herdr"
      (@race_start lib 2 (@f0 JL "old" REFRESH_TOKEN 0) example_issuer) sched = Some st /\
    procs st = [Returned (Ok "jwt:joerg"%string); Returned (Ok "jwt:joerg"%string)] /\
    refreshes (rotation (net st)) <= 0 + 1.
Proof.
  intros JL lib p sched. eexists. split; [vm_compute; reflexivity|]. split; [vm_compute; reflexivity|].
  refine (proj1 (proj2 (@concurrent_refreshes_share_one_grant JL toy_json_ok "http://issuer" Null example_mint "box" example_config "http://issuer/"
    "herdr" "joerg" "old" REFRESH_TOKEN 0 1000 example_issuer 2 sched _ _ _ _))).
  - split; try reflexivity; [lia|]. rewrite u64_modulus_eq. lia.
  - unfold in_window. subst sched p. repeat (constructor; [cbn; lia|]). constructor.
  - vm_compute. reflexivity.
Defined.
