(* ===== verification/Agent.v ===== *)
(** * Agent forwarding ([server/src/agent.rs], [client/src/agent.rs])

    Programs on the server connect to the hub's socket; each such connection is
    a numbered stream, relayed over the agent channel that attached last to the
    client, which dials its local agent for it.  Every operation of both sides is
    a function on the state of its side; [AgentSystem] interleaves them.

    Messages are decoded: [Channel] shows that the transport delivers what was
    encoded.  An mpsc queue is the list of what was sent and not received; a
    send succeeds as long as the receiver has not been dropped. *)

From stdpp Require Import gmap.
From S2P Require Import Prelude Proto OutboundLog Session.

(** ** Server *)

(** One connection of a program ([relay_agent_stream]): the bytes read from the
    program, the queue behind [write_rx] and the bytes written to the program.
    [via] records the connection that carried its AgentOpen; nothing reads it. *)
Record Relay := {
  via : option nat;
  from_program : bytes;
  write_rx : list bytes;
  to_program : bytes;
  relay_done : bool;
}.

(** [AgentHub]: the attached channel's sender (by connection), the ids whose
    write half is in the map of streams, the next id, and the relay tasks. *)
Record AgentHub := {
  channel : option nat;
  streams : gset Z;
  next_id : Z;
  relays : gmap Z Relay;
}.

Definition hub_start : AgentHub :=
  {| channel := None; streams := ∅; next_id := 1; relays := ∅ |}.

(** [handle_agent_channel]: in its loop, past the loop, returned (which drops
    the receiver). *)
Inductive Serve : Type :=
| Serving
| Ending
| Gone.

(** ** Client *)

(** [relay_agent_stream] of the client: the bytes read from the local agent, the
    queue behind its [write_rx], and the bytes written to the agent. *)
Record AgentTask := {
  dialled : bool;
  from_agent : bytes;
  task_rx : list bytes;
  to_agent : bytes;
  task_done : bool;
}.

(** [relay_agent_channel]: whether it still runs, the queue behind
    [outbound_tx], its map of streams, and the tasks it spawned.  Stream ids are
    unique, so tasks are named by them. *)
Record ClientRelay := {
  relaying : bool;
  outbound : list ChannelMessage;
  senders : gset Z;
  agents : gmap Z AgentTask;
}.

(** One agent channel: the server's task with the queue behind [channel_rx],
    the client's relay, and what is in transit either way. *)
Record AgentConn := {
  serve : Serve;
  channel_rx : list ChannelMessage;
  to_relay : list ChannelMessage;
  to_hub : list ChannelMessage;
  relay : ClientRelay;
}.

Definition conn_start : AgentConn :=
  {| serve := Serving; channel_rx := []; to_relay := []; to_hub := [];
     relay := {| relaying := true; outbound := []; senders := ∅; agents := ∅ |} |}.

Record AgentSys := {
  hub : AgentHub;
  conns : list AgentConn;
}.

Definition agent_start : AgentSys := {| hub := hub_start; conns := [] |}.

(** ** The hub's operations *)

Definition with_relay (id : Z) (r : Relay) (h : AgentHub) : AgentHub :=
  {| channel := channel h; streams := streams h; next_id := next_id h; relays := <[id := r]> (relays h) |}.

Definition drop_stream (id : Z) (h : AgentHub) : AgentHub :=
  {| channel := channel h; streams := streams h ∖ {[id]}; next_id := next_id h; relays := relays h |}.

Definition with_hub (h : AgentHub) (sys : AgentSys) : AgentSys := {| hub := h; conns := conns sys |}.

Definition update_conn (k : nat) (c : AgentConn) (sys : AgentSys) : AgentSys :=
  {| hub := hub sys; conns := <[k := c]> (conns sys) |}.

Definition queue_for (m : ChannelMessage) (c : AgentConn) : AgentConn :=
  {| serve := serve c; channel_rx := channel_rx c ++ [m]; to_relay := to_relay c; to_hub := to_hub c;
     relay := relay c |}.

(** [send_to_channel]. *)
Definition send_to_channel (m : ChannelMessage) (sys : AgentSys) : bool * AgentSys :=
  match channel (hub sys) with
  | Some k =>
      match conns sys !! k with
      | Some c =>
          match serve c with
          | Gone => (false, sys)
          | _ => (true, update_conn k (queue_for m c) sys)
          end
      | None => (false, sys)
      end
  | None => (false, sys)
  end.

(** The end of [relay_agent_stream]: the stream leaves the map, the client is
    told, and the receiver is dropped. *)
Definition close_relay (id : Z) (r : Relay) (sys : AgentSys) : AgentSys :=
  let r := {| via := via r; from_program := from_program r; write_rx := []; to_program := to_program r;
              relay_done := true |} in
  (send_to_channel (AgentClose id) (with_hub (drop_stream id (with_relay id r (hub sys))) sys)).2.

(** The beginning of [relay_agent_stream], once [channel_attached]. *)
Definition open_stream (sys : AgentSys) : AgentSys :=
  let id := next_id (hub sys) in
  let h := {| channel := channel (hub sys); streams := streams (hub sys) ∪ {[id]};
              next_id := add_u64 id 1; relays := relays (hub sys) |} in
  let fresh_relay via done :=
    {| via := via; from_program := []; write_rx := []; to_program := []; relay_done := done |} in
  match send_to_channel (AgentOpen id) (with_hub h sys) with
  | (true, sys) => with_hub (with_relay id (fresh_relay (channel h) false) (hub sys)) sys
  | (false, sys) => with_hub (drop_stream id (with_relay id (fresh_relay None true) (hub sys))) sys
  end.

(** The [read] branch of its loop. *)
Definition relay_read (id : Z) (res : ReadResult) (sys : AgentSys) : option AgentSys :=
  match relays (hub sys) !! id with
  | Some r =>
      if relay_done r then None
      else
        match res with
        | ReadErr | ReadOk [] => Some (close_relay id r sys)
        | ReadOk data =>
            let r := {| via := via r; from_program := from_program r ++ data; write_rx := write_rx r;
                        to_program := to_program r; relay_done := false |} in
            match send_to_channel (AgentData id data) (with_hub (with_relay id r (hub sys)) sys) with
            | (true, sys) => Some sys
            | (false, sys) => Some (close_relay id r sys)
            end
        end
  | None => None
  end.

(** The [write_rx] branch: the queue's head, or the end of a closed stream. *)
Definition relay_write (id : Z) (w : WriteResult) (sys : AgentSys) : option AgentSys :=
  match relays (hub sys) !! id with
  | Some r =>
      if relay_done r then None
      else
        match write_rx r with
        | data :: rest =>
            match w with
            | WroteAll =>
                Some (with_hub (with_relay id
                  {| via := via r; from_program := from_program r; write_rx := rest;
                     to_program := to_program r ++ data; relay_done := false |} (hub sys)) sys)
            | WroteErr n =>
                Some (close_relay id
                  {| via := via r; from_program := from_program r; write_rx := rest;
                     to_program := to_program r ++ take n data; relay_done := false |} sys)
            end
        | [] => if bool_decide (id ∈ streams (hub sys)) then None else Some (close_relay id r sys)
        end
  | None => None
  end.

(** ** The agent channel's task on the server *)

(** [handle_agent_channel] replaces the hub's channel by its own. *)
Definition attach_channel (sys : AgentSys) : AgentSys :=
  let h := hub sys in
  {| hub := {| channel := Some (length (conns sys)); streams := streams h; next_id := next_id h;
               relays := relays h |};
     conns := conns sys ++ [conn_start] |}.

(** A message of the client. *)
Definition hub_message (m : ChannelMessage) (h : AgentHub) : AgentHub :=
  match m with
  | AgentData id data =>
      if bool_decide (id ∈ streams h) then
        match relays h !! id with
        | Some r =>
            if relay_done r then h
            else with_relay id {| via := via r; from_program := from_program r; write_rx := write_rx r ++ [data];
                                  to_program := to_program r; relay_done := false |} h
        | None => h
        end
      else h
  | AgentClose id => drop_stream id h
  | _ => h
  end.

(** The loop ends by an error or a closed connection. *)
Definition serve_ends (c : AgentConn) : AgentConn :=
  {| serve := Ending; channel_rx := channel_rx c; to_relay := to_relay c; to_hub := to_hub c; relay := relay c |}.

(** The [outbound] branch: the queue's head is sent, or the send fails. *)
Definition serve_outbound (sent : bool) (c : AgentConn) : option AgentConn :=
  match channel_rx c with
  | [] => None
  | m :: rest =>
      let c := {| serve := serve c; channel_rx := rest;
                  to_relay := if sent then to_relay c ++ [m] else to_relay c;
                  to_hub := to_hub c; relay := relay c |} in
      Some (if sent then c else serve_ends c)
  end.

(** [send_if_modified] after the loop: only its own channel is detached; then
    the task returns. *)
Definition detach_channel (k : nat) (c : AgentConn) (sys : AgentSys) : AgentSys :=
  let h := hub sys in
  let c := {| serve := Gone; channel_rx := []; to_relay := to_relay c; to_hub := to_hub c; relay := relay c |} in
  {| hub := {| channel := if bool_decide (channel h = Some k) then None else channel h; streams := streams h;
               next_id := next_id h; relays := relays h |};
     conns := <[k := c]> (conns sys) |}.

(** ** The client's operations *)

Definition with_agent (id : Z) (t : AgentTask) (r : ClientRelay) : ClientRelay :=
  {| relaying := relaying r; outbound := outbound r; senders := senders r; agents := <[id := t]> (agents r) |}.

(** A message of the server. *)
Definition client_message (m : ChannelMessage) (r : ClientRelay) : ClientRelay :=
  match m with
  | AgentOpen id =>
      {| relaying := relaying r; outbound := outbound r; senders := senders r ∪ {[id]};
         agents := <[id := {| dialled := false; from_agent := []; task_rx := []; to_agent := [];
                              task_done := false |}]> (agents r) |}
  | AgentData id data =>
      if bool_decide (id ∈ senders r) then
        match agents r !! id with
        | Some t =>
            if task_done t then r
            else with_agent id {| dialled := dialled t; from_agent := from_agent t; task_rx := task_rx t ++ [data];
                                  to_agent := to_agent t; task_done := false |} r
        | None => r
        end
      else r
  | AgentClose id =>
      {| relaying := relaying r; outbound := outbound r; senders := senders r ∖ {[id]}; agents := agents r |}
  | _ => r
  end.

(** [relay_agent_channel] returns: its queue and its map of streams are dropped. *)
Definition client_ends (r : ClientRelay) : ClientRelay :=
  {| relaying := false; outbound := []; senders := ∅; agents := agents r |}.

(** A task sends on [outbound_tx]. *)
Definition send_outbound (m : ChannelMessage) (r : ClientRelay) : bool * ClientRelay :=
  if relaying r then
    (true, {| relaying := true; outbound := outbound r ++ [m]; senders := senders r; agents := agents r |})
  else (false, r).

Definition end_task (id : Z) (t : AgentTask) (r : ClientRelay) : ClientRelay :=
  with_agent id {| dialled := dialled t; from_agent := from_agent t; task_rx := []; to_agent := to_agent t;
                   task_done := true |} r.

(** A task that ends and tells the server. *)
Definition close_task (id : Z) (t : AgentTask) (r : ClientRelay) : ClientRelay :=
  (send_outbound (AgentClose id) (end_task id t r)).2.

(** [UnixStream::connect]. *)
Definition task_dial (id : Z) (connected : bool) (r : ClientRelay) : option ClientRelay :=
  match agents r !! id with
  | Some t =>
      if task_done t || dialled t then None
      else if connected then
        Some (with_agent id {| dialled := true; from_agent := from_agent t; task_rx := task_rx t;
                               to_agent := to_agent t; task_done := false |} r)
      else Some (close_task id t r)
  | None => None
  end.

(** The [read] branch of the task's loop. *)
Definition task_read (id : Z) (res : ReadResult) (r : ClientRelay) : option ClientRelay :=
  match agents r !! id with
  | Some t =>
      if task_done t || negb (dialled t) then None
      else
        match res with
        | ReadErr | ReadOk [] => Some (close_task id t r)
        | ReadOk data =>
            let t := {| dialled := true; from_agent := from_agent t ++ data; task_rx := task_rx t;
                        to_agent := to_agent t; task_done := false |} in
            match send_outbound (AgentData id data) (with_agent id t r) with
            | (true, r) => Some r
            | (false, r) => Some (end_task id t r)
            end
        end
  | None => None
  end.

(** The [write_rx] branch; a task whose sender is gone returns silently. *)
Definition task_write (id : Z) (w : WriteResult) (r : ClientRelay) : option ClientRelay :=
  match agents r !! id with
  | Some t =>
      if task_done t || negb (dialled t) then None
      else
        match task_rx t with
        | data :: rest =>
            let t n := {| dialled := true; from_agent := from_agent t; task_rx := rest;
                          to_agent := to_agent t ++ take n data; task_done := false |} in
            match w with
            | WroteAll => Some (with_agent id (t (length data)) r)
            | WroteErr n => Some (close_task id (t n) r)
            end
        | [] => if bool_decide (id ∈ senders r) then None else Some (end_task id t r)
        end
  | None => None
  end.

(** The [outbound] branch of the loop. *)
Definition client_outbound (sent : bool) (c : AgentConn) : option AgentConn :=
  match outbound (relay c) with
  | [] => None
  | m :: rest =>
      let r := {| relaying := relaying (relay c); outbound := rest; senders := senders (relay c);
                  agents := agents (relay c) |} in
      Some {| serve := serve c; channel_rx := channel_rx c; to_relay := to_relay c;
              to_hub := if sent then to_hub c ++ [m] else to_hub c;
              relay := if sent then r else client_ends r |}
  end.

(** ** All of it interleaved *)

Inductive AgentEvent : Type :=
| ProgramConnects
| ProgramSends (id : Z) (res : ReadResult)
| ProgramReceives (id : Z) (w : WriteResult)
| ChannelAttaches
| ServerSends (k : nat) (sent : bool)
| ServerReceives (k : nat)
| ServerLoses (k : nat)
| ServerDetaches (k : nat)
| ClientReceives (k : nat)
| ClientSends (k : nat) (sent : bool)
| ClientLoses (k : nat)
| AgentDialled (k : nat) (id : Z) (connected : bool)
| AgentSends (k : nat) (id : Z) (res : ReadResult)
| AgentReceives (k : nat) (id : Z) (w : WriteResult).

Definition is_serving (c : AgentConn) : bool := match serve c with Serving => true | _ => false end.
Definition is_ending (c : AgentConn) : bool := match serve c with Ending => true | _ => false end.

Definition with_client (r : ClientRelay) (c : AgentConn) : AgentConn :=
  {| serve := serve c; channel_rx := channel_rx c; to_relay := to_relay c; to_hub := to_hub c; relay := r |}.

(** An operation on connection [k], if its condition holds. *)
Definition on_conn (k : nat) (ok : AgentConn -> bool) (f : AgentConn -> option AgentConn) (sys : AgentSys)
    : option AgentSys :=
  match conns sys !! k with
  | Some c => if ok c then (fun c => update_conn k c sys) <$> f c else None
  | None => None
  end.

Definition agent_step (sys : AgentSys) (ev : AgentEvent) : option AgentSys :=
  match ev with
  | ProgramConnects => Some (open_stream sys)
  | ProgramSends id res => relay_read id res sys
  | ProgramReceives id w => relay_write id w sys
  | ChannelAttaches => Some (attach_channel sys)
  | ServerSends k sent => on_conn k is_serving (serve_outbound sent) sys
  | ServerReceives k =>
      match conns sys !! k with
      | Some c =>
          match is_serving c, to_hub c with
          | true, m :: rest =>
              Some (with_hub (hub_message m (hub sys))
                (update_conn k {| serve := serve c; channel_rx := channel_rx c; to_relay := to_relay c;
                                  to_hub := rest; relay := relay c |} sys))
          | _, _ => None
          end
      | None => None
      end
  | ServerLoses k => on_conn k is_serving (fun c => Some (serve_ends c)) sys
  | ServerDetaches k =>
      match conns sys !! k with
      | Some c => if is_ending c then Some (detach_channel k c sys) else None
      | None => None
      end
  | ClientReceives k =>
      on_conn k (fun c => relaying (relay c))
        (fun c => match to_relay c with
                  | m :: rest => Some {| serve := serve c; channel_rx := channel_rx c; to_relay := rest;
                                         to_hub := to_hub c; relay := client_message m (relay c) |}
                  | [] => None
                  end) sys
  | ClientSends k sent => on_conn k (fun c => relaying (relay c)) (client_outbound sent) sys
  | ClientLoses k =>
      on_conn k (fun c => relaying (relay c)) (fun c => Some (with_client (client_ends (relay c)) c)) sys
  | AgentDialled k id connected =>
      on_conn k (fun _ => true) (fun c => (fun r => with_client r c) <$> task_dial id connected (relay c)) sys
  | AgentSends k id res =>
      on_conn k (fun _ => true) (fun c => (fun r => with_client r c) <$> task_read id res (relay c)) sys
  | AgentReceives k id w =>
      on_conn k (fun _ => true) (fun c => (fun r => with_client r c) <$> task_write id w (relay c)) sys
  end.

Fixpoint agent_run (sys : AgentSys) (evs : list AgentEvent) : option AgentSys :=
  match evs with
  | [] => Some sys
  | ev :: evs => match agent_step sys ev with Some sys => agent_run sys evs | None => None end
  end.
