(* ===== verification/AgentFlow.v ===== *)
(** * What agent streams carry

    The invariant of the interleaved agent relays of [Agent], and its two
    consequences: the bytes of every stream arrive in order, complete while its
    channel lasts and never mixed with another stream's; and the hub always
    talks to the channel that attached last.  The bytes a receiver has and the
    messages in transit to it are folded together by [flow]: what the stream
    will have delivered once everything in transit has arrived. *)

From stdpp Require Import gmap.
From S2P Require Import Prelude Proto OutboundLog Session Agent.

(** ** Folding messages in transit into a stream *)

Definition msg_id (m : ChannelMessage) : option Z :=
  match m with AgentOpen id | AgentData id _ | AgentClose id => Some id | _ => None end.

(** A receiver of a stream: absent, or open or closed with its bytes. *)
Definition deliver (st : option (bool * bytes)) (m : ChannelMessage) : option (bool * bytes) :=
  match m, st with
  | AgentOpen _, None => Some (true, [])
  | AgentData _ d, Some (true, b) => Some (true, b ++ d)
  | AgentClose _, Some (_, b) => Some (false, b)
  | _, _ => st
  end.

Definition flow (id : Z) (st : option (bool * bytes)) (m : ChannelMessage) : option (bool * bytes) :=
  if bool_decide (msg_id m = Some id) then deliver st m else st.

Definition flows (id : Z) (st : option (bool * bytes)) (q : list ChannelMessage) : option (bool * bytes) :=
  fold_left (flow id) q st.

Lemma flows_app id st q k : flows id st (q ++ k) = flows id (flows id st q) k.
Proof. unfold flows. apply fold_left_app. Qed.

Lemma flows_cons id st m q : flows id st (m :: q) = flows id (flow id st m) q.
Proof. done. Qed.

Lemma flow_other id st m : msg_id m <> Some id -> flow id st m = st.
Proof. intros Hm. unfold flow. by rewrite bool_decide_eq_false_2. Qed.

Lemma flow_self id st m : msg_id m = Some id -> flow id st m = deliver st m.
Proof. intros Hm. unfold flow. by rewrite bool_decide_eq_true_2. Qed.

(** Whether a message is about stream [id]. *)
Local Ltac about i id :=
  destruct (decide (i = id)) as [->|?];
    [rewrite flow_self by done; cbn [deliver] | rewrite flow_other by (cbn; congruence)].

Lemma flow_closed id b m : flow id (Some (false, b)) m = Some (false, b).
Proof. unfold flow. destruct (bool_decide _); [|done]. by destruct m. Qed.

Lemma flows_closed id b q : flows id (Some (false, b)) q = Some (false, b).
Proof. induction q as [|m q IH]; [done|]. by rewrite flows_cons, flow_closed. Qed.

(** Later messages only add bytes, and never reopen a stream. *)
Lemma flow_mono id o b m : exists o' b', flow id (Some (o, b)) m = Some (o', b') /\
  b `prefix_of` b' /\ (o' = true -> o = true).
Proof.
  unfold flow. destruct (bool_decide _); [|by exists o, b].
  destruct m as [| | | | | | | |i|i d|i]; try (by exists o, b).
  - destruct o; [|by exists false, b]. eexists _, _. split; [done|]. split; [by apply prefix_app_r|done].
  - eexists _, _. split; [done|]. by split.
Qed.

Lemma flows_mono id q : forall o b, exists o' b', flows id (Some (o, b)) q = Some (o', b') /\
  b `prefix_of` b' /\ (o' = true -> o = true).
Proof.
  induction q as [|m q IH]; intros o b; [by exists o, b|]. rewrite flows_cons.
  destruct (flow_mono id o b m) as (o1 & b1 & -> & Hp1 & Ho1).
  destruct (IH o1 b1) as (o2 & b2 & -> & Hp2 & Ho2). exists o2, b2.
  split; [done|]. split; [by etrans|auto].
Qed.

Lemma flows_Some id st o b q : flows id st q = Some (o, b) -> forall k, exists o' b',
  flows id st (q ++ k) = Some (o', b') /\ b `prefix_of` b' /\ (o' = true -> o = true).
Proof. intros Hq k. rewrite flows_app, Hq. apply flows_mono. Qed.

Lemma flows_None id q : forall o b, flows id None q = Some (o, b) ->
  exists m, m ∈ q /\ m = AgentOpen id.
Proof.
  induction q as [|m q IH]; intros o b; [done|]. rewrite flows_cons. unfold flow. case_bool_decide as Hm.
  - destruct m; try (intros Hq; apply IH in Hq as (m' & Hin & ->); eexists; split; [by right|done]).
    intros _. cbn in Hm. injection Hm as ->. eexists. split; [by left|done].
  - intros Hq. apply IH in Hq as (m' & Hin & ->). eexists. split; [by right|done].
Qed.

(** ** The two receivers of a stream *)

Definition agent_view (r : ClientRelay) (id : Z) : option (bool * bytes) :=
  (fun t => (bool_decide (id ∈ senders r) && negb (task_done t), to_agent t ++ concat (task_rx t)))
    <$> agents r !! id.

Definition relay_view (h : AgentHub) (id : Z) (r : Relay) : bool * bytes :=
  (bool_decide (id ∈ streams h) && negb (relay_done r), to_program r ++ concat (write_rx r)).

Lemma concat_snoc (l : list bytes) d : concat (l ++ [d]) = concat l ++ d.
Proof. rewrite concat_app. cbn. by rewrite app_nil_r. Qed.

(** Receiving a message is a step of [flow]. *)
Lemma client_message_flow r m id : (forall i, m = AgentOpen i -> agents r !! i = None) ->
  agent_view (client_message m r) id = flow id (agent_view r id) m.
Proof.
  intros Hopen. unfold agent_view. destruct m as [| | | | | | | |i|i d|i];
    try (by rewrite flow_other); cbn [client_message].
  - specialize (Hopen i eq_refl). cbn [senders agents]. about i id.
    + rewrite lookup_insert_eq, Hopen. cbn. by rewrite bool_decide_eq_true_2 by set_solver.
    + rewrite lookup_insert_ne by done. destruct (agents r !! id); [cbn|done].
      f_equal. f_equal. f_equal. apply bool_decide_ext. set_solver.
  - destruct (decide (i ∈ senders r)) as [Hin|Hin].
    2: { rewrite (bool_decide_eq_false_2 (i ∈ senders r)) by done. about i id; [|done].
         destruct (agents r !! id); [cbn|done]. by rewrite bool_decide_eq_false_2 by done. }
    rewrite (bool_decide_eq_true_2 (i ∈ senders r)) by done.
    destruct (agents r !! i) as [t|] eqn:Ht; [|about i id; [by rewrite Ht|done]].
    destruct (task_done t) eqn:Hd.
    { about i id; [|done]. rewrite Ht. cbn. by rewrite Hd, andb_false_r. }
    cbn [with_agent senders agents]. about i id.
    + rewrite lookup_insert_eq, Ht. cbn. rewrite bool_decide_eq_true_2, Hd by done.
      cbn. by rewrite concat_snoc, app_assoc.
    + by rewrite lookup_insert_ne.
  - cbn [senders agents]. about i id; (destruct (agents r !! id); [cbn|done]).
    + by rewrite bool_decide_eq_false_2 by set_solver.
    + f_equal. f_equal. f_equal. apply bool_decide_ext. set_solver.
Qed.

Lemma hub_message_flow h m id r : relays h !! id = Some r -> exists r',
  relays (hub_message m h) !! id = Some r' /\ via r' = via r /\ from_program r' = from_program r /\
  Some (relay_view (hub_message m h) id r') = flow id (Some (relay_view h id r)) m.
Proof.
  intros Hr. unfold relay_view. destruct m as [| | | | | | | |i|i d|i];
    try (exists r; rewrite flow_other by done; by split_and!); cbn [hub_message].
  - exists r. split_and!; [done..|]. by about i id.
  - destruct (decide (i ∈ streams h)) as [Hin|Hin].
    2: { rewrite (bool_decide_eq_false_2 (i ∈ streams h)) by done. exists r. split_and!; [done..|].
         about i id; [|done]. by rewrite bool_decide_eq_false_2 by done. }
    rewrite (bool_decide_eq_true_2 (i ∈ streams h)) by done.
    destruct (relays h !! i) as [ri|] eqn:Hri; [|exists r; split_and!; [done..|]; about i id; [congruence|done]].
    destruct (relay_done ri) eqn:Hd.
    { exists r. split_and!; [done..|]. about i id; [|done].
      assert (ri = r) as -> by congruence. by rewrite Hd, andb_false_r. }
    cbn [with_relay relays streams]. about i id.
    + assert (ri = r) as -> by congruence. eexists. rewrite lookup_insert_eq.
      split_and!; [done..|]. cbn. rewrite bool_decide_eq_true_2, Hd by done. cbn. by rewrite concat_snoc, app_assoc.
    + exists r. rewrite lookup_insert_ne by done. by split_and!.
  - exists r. cbn [drop_stream relays streams]. split_and!; [done..|]. about i id.
    + by rewrite bool_decide_eq_false_2 by set_solver.
    + f_equal. f_equal. f_equal. apply bool_decide_ext. set_solver.
Qed.

Lemma hub_message_None h m id : relays h !! id = None -> relays (hub_message m h) !! id = None.
Proof.
  intros Hr. destruct m as [| | | | | | | |i|i d|i]; try done. cbn.
  case_bool_decide; [|done]. destruct (relays h !! i) as [ri|] eqn:Hri; [|done]. destruct (relay_done ri); [done|].
  cbn. rewrite lookup_insert_ne; [done|]. intros ->. congruence.
Qed.

Lemma hub_message_same h m : channel (hub_message m h) = channel h /\ next_id (hub_message m h) = next_id h.
Proof.
  destruct m as [| | | | | | | |i|i d|i]; try done. cbn.
  case_bool_decide; [|done]. destruct (relays h !! i) as [ri|]; [|done]. by destruct (relay_done ri).
Qed.

(** ** The invariant *)

(** What is in transit to the client's and to the hub's end of a channel; what a
    loop that ended still had queued is not. *)
Definition down (c : AgentConn) : list ChannelMessage :=
  to_relay c ++ (if is_serving c then channel_rx c else []).
Definition up (c : AgentConn) : list ChannelMessage := to_hub c ++ outbound (relay c).

Definition read_agent (r : ClientRelay) (id : Z) : bytes :=
  match agents r !! id with Some t => from_agent t | None => [] end.
Definition task_live (r : ClientRelay) (id : Z) : Prop :=
  relaying r = true /\ forall t, agents r !! id = Some t -> task_done t = false.

Definition open_id (m : ChannelMessage) : option Z := match m with AgentOpen id => Some id | _ => None end.
Definition opens (c : AgentConn) : list Z := omap open_id (to_relay c ++ channel_rx c).

(** Towards the agent: never more than was read from the program, and all of it
    while the stream and its channel last. *)
Definition down_ok (h : AgentHub) (k : nat) (c : AgentConn) : Prop :=
  forall id o b, flows id (agent_view (relay c) id) (down c) = Some (o, b) ->
    exists r, relays h !! id = Some r /\ via r = Some k /\ b `prefix_of` from_program r /\
      (o = true -> channel h = Some k -> is_serving c = true -> b = from_program r).

(** Towards the program, from a hub whose end of the stream is [sv]. *)
Definition up_flow (c : AgentConn) (id : Z) (sv : bool * bytes) : Prop :=
  exists o b, flows id (Some sv) (up c) = Some (o, b) /\ b `prefix_of` read_agent (relay c) id /\
    (o = true -> task_live (relay c) id -> b = read_agent (relay c) id).

Record conn_ok (h : AgentHub) (k : nat) (c : AgentConn) : Prop := {
  co_opens : NoDup (opens c);
  co_new : forall id, id ∈ opens c -> agents (relay c) !! id = None /\ id < next_id h;
  co_about : forall id m, m ∈ up c -> msg_id m = Some id -> is_Some (agents (relay c) !! id);
  co_down : down_ok h k c;
  co_up : forall id r, relays h !! id = Some r -> via r = Some k -> up_flow c id (relay_view h id r);
}.

Record agent_inv (sys : AgentSys) : Prop := {
  ai_ids : forall id r, relays (hub sys) !! id = Some r -> id < next_id (hub sys);
  ai_unsent : forall id r, relays (hub sys) !! id = Some r -> via r = None ->
    relay_done r = true /\ to_program r = [];
  ai_via : forall id r k, relays (hub sys) !! id = Some r -> via r = Some k -> is_Some (conns sys !! k);
  ai_conns : forall k c, conns sys !! k = Some c -> conn_ok (hub sys) k c;
}.

(** ** Steps of one channel *)

Section ConnSteps.
Context (h : AgentHub) (k : nat).

(** An end of the stream that closes keeps a prefix. *)
Lemma flows_shrink id o b q o' b' : flows id (Some (o, b)) q = Some (o', b') ->
  forall b0, b0 `prefix_of` b -> flows id (Some (false, b0)) q = Some (false, b0) /\ b0 `prefix_of` b'.
Proof.
  intros Hq b0 Hp. rewrite flows_closed. split; [done|].
  destruct (flows_mono id q o b) as (o1 & b1 & H1 & Hp1 & _). rewrite H1 in Hq. injection Hq as <- <-. by etrans.
Qed.

(** The client's end of a stream before and after a step of its own. *)
Definition view_shrinks (v v' : option (bool * bytes)) : Prop :=
  v' = v \/ exists o b b', v = Some (o, b) /\ v' = Some (false, b') /\ b' `prefix_of` b.

Lemma down_ok_step c c' : down_ok h k c ->
  (exists lost, down c = down c' ++ lost /\
     (is_serving c' = true -> is_serving c = true /\ lost = [])) ->
  (forall id, view_shrinks (agent_view (relay c) id) (agent_view (relay c') id)) ->
  down_ok h k c'.
Proof.
  intros Hd (lost & Hl & Hserv) Hv id o' b' Hf.
  assert (exists o b, flows id (agent_view (relay c) id) (down c) = Some (o, b) /\ b' `prefix_of` b /\
            (o' = true -> lost = [] -> o = true /\ b' = b)) as (o & b & Hfl & Hp & Heq).
  { rewrite Hl. destruct (Hv id) as [Hsame|(o0 & b0 & b0' & Hv0 & Hv1 & Hp0)].
    - rewrite Hsame in Hf. destruct (flows_Some _ _ _ _ _ Hf lost) as (o & b & Hfl & Hp & Ho).
      exists o, b. split_and!; [done|done|]. intros -> ->. rewrite app_nil_r in Hfl.
      rewrite Hf in Hfl. by injection Hfl as <- <-.
    - rewrite Hv1, flows_closed in Hf. injection Hf as <- <-. rewrite Hv0.
      destruct (flows_mono id (down c' ++ lost) o0 b0) as (o & b & Hfl & Hp & _).
      exists o, b. split_and!; [done|by etrans|done]. }
  destruct (Hd id o b Hfl) as (r & Hr & Hvia & Hpr & Hall). exists r. split_and!; [done|done|by etrans|].
  intros Ho Hch Hs. destruct (Hserv Hs) as [Hs' Hlost]. destruct (Heq Ho Hlost) as [Ho' ->]. by apply Hall.
Qed.

Lemma up_flow_step c c' id sv : up_flow c id sv ->
  (exists lost, up c = up c' ++ lost /\ (relaying (relay c') = true -> lost = [])) ->
  read_agent (relay c') id = read_agent (relay c) id ->
  (task_live (relay c') id -> task_live (relay c) id) -> up_flow c' id sv.
Proof.
  intros (o & b & Hf & Hp & Heq) (lost & Hl & Hlost) Hread Hlive. rewrite Hl in Hf.
  rewrite flows_app in Hf. destruct sv as [so sb]. destruct (flows_mono id (up c') so sb) as (o1 & b1 & H1 & _).
  rewrite H1 in Hf. destruct (flows_mono id lost o1 b1) as (o2 & b2 & H2 & Hp2 & _).
  rewrite H2 in Hf. injection Hf as -> ->. exists o1, b1. rewrite Hread. split_and!; [done|by etrans|].
  intros -> Hlv. rewrite (Hlost (proj1 Hlv)) in H2. cbn in H2. injection H2 as <- <-. by apply Heq, Hlive.
Qed.

Lemma sublist_omap {A B} (f : A -> option B) l l' : sublist l l' -> sublist (omap f l) (omap f l').
Proof.
  induction 1 as [|x l l' _ IH|x l l' _ IH]; [done| |]; cbn; destruct (f x); try done; by constructor.
Qed.

(** What the server's loop does: messages move on or are lost with the loop. *)
Lemma conn_ok_serve c c' : conn_ok h k c -> relay c' = relay c -> to_hub c' = to_hub c ->
  sublist (to_relay c' ++ channel_rx c') (to_relay c ++ channel_rx c) ->
  (exists lost, down c = down c' ++ lost /\ (is_serving c' = true -> is_serving c = true /\ lost = [])) ->
  conn_ok h k c'.
Proof.
  intros [H1 H2 H3 H4 H5] Hr Hu Hsub Hd. unfold opens in *.
  assert (Hup : up c' = up c) by (unfold up; by rewrite Hr, Hu).
  assert (Hop : sublist (opens c') (opens c)) by (unfold opens; by apply sublist_omap).
  split; rewrite ?Hr, ?Hup.
  - by eapply sublist_NoDup.
  - intros id Hin. apply H2. by eapply elem_of_sublist.
  - exact H3.
  - eapply down_ok_step; [done|done|]. intros id. left. by rewrite Hr.
  - intros id r Hid Hvia. unfold up_flow. rewrite Hup, Hr. by apply H5.
Qed.

(** The client takes the next message. *)
Lemma conn_ok_receive c m rest : conn_ok h k c -> to_relay c = m :: rest ->
  conn_ok h k {| serve := serve c; channel_rx := channel_rx c; to_relay := rest; to_hub := to_hub c;
                 relay := client_message m (relay c) |}.
Proof.
  intros [H1 H2 H3 H4 H5] Hq. unfold opens in H1, H2. rewrite Hq in H1, H2. cbn [app omap list_omap] in H1, H2.
  assert (Hopen : forall i, m = AgentOpen i -> agents (relay c) !! i = None).
  { intros i ->. apply (H2 i). cbn. by left. }
  assert (Hview := fun id => client_message_flow (relay c) m id Hopen).
  assert (Hread : forall id, read_agent (client_message m (relay c)) id = read_agent (relay c) id /\
            (task_live (client_message m (relay c)) id -> task_live (relay c) id) /\
            outbound (client_message m (relay c)) = outbound (relay c) /\
            (is_Some (agents (relay c) !! id) -> is_Some (agents (client_message m (relay c)) !! id)) /\
            (agents (relay c) !! id = None -> m <> AgentOpen id -> agents (client_message m (relay c)) !! id = None)).
  { intros id. unfold read_agent, task_live. destruct m as [| | | | | | | |i|i d|i]; try (by split_and!).
    - specialize (Hopen i eq_refl). cbn. destruct (decide (i = id)) as [->|Hi].
      + rewrite lookup_insert_eq, Hopen. split_and!; [done| |done|by eexists|done]. by intros [? _].
      + rewrite lookup_insert_ne by done. by split_and!.
    - cbn. destruct (bool_decide _); [|by split_and!]. destruct (agents (relay c) !! i) as [t|] eqn:Ht; [|by split_and!].
      destruct (task_done t) eqn:Hd; [by split_and!|]. cbn. destruct (decide (i = id)) as [->|Hi].
      + rewrite lookup_insert_eq, Ht. split_and!; [done| |done|by eexists|done].
        intros [? _]. split; [done|]. by intros t' [= <-].
      + rewrite lookup_insert_ne by done. by split_and!. }
  split; unfold opens; cbn [to_relay channel_rx relay].
  - destruct (open_id m); [by inversion H1|done].
  - intros id Hin. destruct (H2 id) as [Hn Hlt].
    { cbn. destruct (open_id m); [by right|done]. }
    split; [|done]. apply Hread; [done|]. intros ->. cbn in H1. by apply NoDup_cons in H1 as [? _].
  - intros id m' Hin Hm'. apply Hread. apply (H3 id m'); [|done]. revert Hin. unfold up. cbn.
    by destruct (Hread id) as (_ & _ & -> & _).
  - intros id o b. unfold down. cbn [to_relay channel_rx relay is_serving serve]. rewrite Hview.
    intros Hf. apply H4. unfold down. by rewrite Hq.
  - intros id r Hr Hvia. destruct (Hread id) as (Hra & Hlv & Hout & _).
    eapply up_flow_step; [by apply (H5 id r)| |done|done].
    exists []. unfold up. cbn. by rewrite Hout, app_nil_r.
Qed.

(** A step of the client's relay that leaves the server's side alone. *)
Lemma conn_ok_client c r' : conn_ok h k c ->
  (forall id, is_Some (agents (relay c) !! id) <-> is_Some (agents r' !! id)) ->
  (forall id, view_shrinks (agent_view (relay c) id) (agent_view r' id)) ->
  (forall id m, m ∈ outbound r' -> msg_id m = Some id -> is_Some (agents r' !! id)) ->
  (forall id r, relays h !! id = Some r -> via r = Some k -> up_flow (with_client r' c) id (relay_view h id r)) ->
  conn_ok h k (with_client r' c).
Proof.
  intros [H1 H2 H3 H4 H5] Hdom Hview Hout Hup. split; unfold opens in *; cbn in *.
  - done.
  - intros id Hin. destruct (H2 id Hin) as [Hn Hlt]. split; [|done].
    apply eq_None_not_Some. rewrite <- Hdom, Hn. by intros [? ?].
  - intros id m [Hin|Hin]%elem_of_app Hm; [|by eapply Hout]. apply Hdom, (H3 id m); [|done].
    unfold up. set_solver.
  - eapply down_ok_step; [done| |exact Hview]. exists []. unfold down, is_serving. cbn.
    rewrite app_nil_r. by split.
  - exact Hup.
Qed.

(** The relay returns, or loses the message it was sending. *)
Lemma conn_ok_client_ends c r' : conn_ok h k c -> agents r' = agents (relay c) ->
  conn_ok h k (with_client (client_ends r') c).
Proof.
  intros Hok Ha. apply conn_ok_client; [done| | |by intros id m Hin%elem_of_nil|].
  - intros id. cbn. by rewrite Ha.
  - intros id. unfold agent_view. cbn. rewrite Ha. destruct (agents (relay c) !! id) as [t|]; [right|by left].
    cbn. rewrite (bool_decide_eq_false_2 (id ∈ ∅)) by apply not_elem_of_empty. by eexists _, _, _.
  - intros id r Hr Hvia. eapply up_flow_step; [by eapply (co_up _ _ _ Hok)| | |].
    + exists (outbound (relay c)). unfold up. cbn. by rewrite app_nil_r.
    + unfold read_agent. cbn. by rewrite Ha.
    + by intros [? _].
Qed.

Lemma conn_ok_outbound c c' sent : conn_ok h k c -> client_outbound sent c = Some c' -> conn_ok h k c'.
Proof.
  intros Hok. unfold client_outbound. destruct (outbound (relay c)) as [|m rest] eqn:Hq; [done|].
  intros [= <-]. destruct sent.
  - destruct Hok as [H1 H2 H3 H4 H5]. unfold opens, up_flow, up in *.
    split; unfold opens, up_flow, up; cbn in *; rewrite ?Hq, <- ?app_assoc in *; try done.
  - change (conn_ok h k (with_client (client_ends {| relaying := relaying (relay c); outbound := rest;
      senders := senders (relay c); agents := agents (relay c) |}) c)). by apply conn_ok_client_ends.
Qed.

(** A task ends, having written a prefix of what it was to write. *)
Lemma conn_ok_end_task c id t0 t : conn_ok h k c -> agents (relay c) !! id = Some t0 ->
  to_agent t `prefix_of` to_agent t0 ++ concat (task_rx t0) -> from_agent t0 `prefix_of` from_agent t ->
  conn_ok h k (with_client (end_task id t (relay c)) c).
Proof.
  intros Hok Ht Hp Hfrom. unfold end_task. apply conn_ok_client; [done| | | |].
  - intros i. cbn. destruct (decide (id = i)) as [->|]; [rewrite lookup_insert_eq, Ht|by rewrite lookup_insert_ne].
    split; by eexists.
  - intros i. unfold agent_view. cbn. destruct (decide (id = i)) as [->|]; [|left; by rewrite lookup_insert_ne].
    right. rewrite lookup_insert_eq, Ht. cbn. rewrite andb_false_r, app_nil_r. by eexists _, _, _.
  - intros i m Hin Hm. cbn in *. destruct (decide (id = i)) as [->|]; [rewrite lookup_insert_eq; by eexists|].
    rewrite lookup_insert_ne by done. apply (co_about _ _ _ Hok i m); [|done]. unfold up. set_solver.
  - intros i r Hr Hvia. destruct (co_up _ _ _ Hok i r Hr Hvia) as (o & b & Hf & Hb & Heq).
    exists o, b. unfold read_agent, task_live in *. cbn. split; [exact Hf|].
    destruct (decide (id = i)) as [->|]; [rewrite lookup_insert_eq|by rewrite lookup_insert_ne].
    rewrite Ht in Hb. split; [by etrans|]. cbn. intros _ [_ Hd]. by specialize (Hd _ eq_refl).
Qed.

(** A task that goes on, with the same bytes on both sides. *)
Lemma conn_ok_same_task c id t0 t : conn_ok h k c -> agents (relay c) !! id = Some t0 ->
  to_agent t ++ concat (task_rx t) = to_agent t0 ++ concat (task_rx t0) -> from_agent t = from_agent t0 ->
  task_done t = task_done t0 -> conn_ok h k (with_client (with_agent id t (relay c)) c).
Proof.
  intros Hok Ht Hbytes Hfrom Hdone. apply conn_ok_client; [done| | | |].
  - intros i. cbn. destruct (decide (id = i)) as [->|]; [rewrite lookup_insert_eq, Ht|by rewrite lookup_insert_ne].
    split; by eexists.
  - intros i. left. unfold agent_view. cbn. destruct (decide (id = i)) as [->|]; [|by rewrite lookup_insert_ne].
    rewrite lookup_insert_eq, Ht. cbn. by rewrite Hbytes, Hdone.
  - intros i m Hin Hm. cbn in *. destruct (decide (id = i)) as [->|]; [rewrite lookup_insert_eq; by eexists|].
    rewrite lookup_insert_ne by done. apply (co_about _ _ _ Hok i m); [|done]. unfold up. set_solver.
  - intros i r Hr Hvia. destruct (co_up _ _ _ Hok i r Hr Hvia) as (o & b & Hf & Hb & Heq).
    exists o, b. unfold read_agent, task_live in *. cbn. split; [exact Hf|].
    destruct (decide (id = i)) as [->|]; [rewrite lookup_insert_eq|by rewrite lookup_insert_ne].
    rewrite Ht in Hb, Heq. rewrite Hfrom. split; [done|]. intros Ho [Hrel Hd]. apply Heq; [done|].
    split; [done|]. intros t' [= <-]. rewrite <- Hdone. by apply Hd.
Qed.

(** The messages a task puts on the relay's queue. *)
Lemma conn_ok_send_close c id : conn_ok h k c -> is_Some (agents (relay c) !! id) ->
  (forall t, agents (relay c) !! id = Some t -> task_done t = true) ->
  conn_ok h k (with_client (send_outbound (AgentClose id) (relay c)).2 c).
Proof.
  intros Hok Ht Hdone. unfold send_outbound. destruct (relaying (relay c)) eqn:Hrel; [|by destruct c].
  apply conn_ok_client; cbn; [done|done|by left| |].
  - intros i m Hin Hm. apply elem_of_app in Hin as [Hin|Hin].
    + apply (co_about _ _ _ Hok i m); [|done]. unfold up. set_solver.
    + apply list_elem_of_singleton in Hin as ->. by injection Hm as <-.
  - intros i r Hr Hvia. destruct (co_up _ _ _ Hok i r Hr Hvia) as (o & b & Hf & Hb & Heq).
    unfold up_flow, up. cbn -[flows]. rewrite app_assoc, flows_app. unfold up in Hf. rewrite Hf, flows_cons.
    destruct (decide (id = i)) as [->|Hi].
    + rewrite flow_self by done. exists false, b. by split_and!.
    + rewrite flow_other by (cbn; congruence). exists o, b. split_and!; [done|exact Hb|].
      intros Ho [_ Hl]. by apply Heq.
Qed.

Lemma conn_ok_close_task c id t0 t : conn_ok h k c -> agents (relay c) !! id = Some t0 ->
  to_agent t `prefix_of` to_agent t0 ++ concat (task_rx t0) -> from_agent t0 `prefix_of` from_agent t ->
  conn_ok h k (with_client (close_task id t (relay c)) c).
Proof.
  intros Hok Ht Hp Hf. unfold close_task.
  change (conn_ok h k (with_client (send_outbound (AgentClose id)
    (relay (with_client (end_task id t (relay c)) c))).2 (with_client (end_task id t (relay c)) c))).
  apply conn_ok_send_close; [by eapply conn_ok_end_task| |]; cbn; rewrite lookup_insert_eq; [by eexists|].
  by intros t' [= <-].
Qed.

Lemma conn_ok_task_dial c id connected r : conn_ok h k c -> task_dial id connected (relay c) = Some r ->
  conn_ok h k (with_client r c).
Proof.
  intros Hok. unfold task_dial. destruct (agents (relay c) !! id) as [t|] eqn:Ht; [|done].
  destruct (task_done t) eqn:Hd, (dialled t); try done. destruct connected; intros [= <-].
  - by eapply conn_ok_same_task.
  - eapply conn_ok_close_task; [done|done|by apply prefix_app_r|done].
Qed.

Lemma conn_ok_task_write c id w r : conn_ok h k c -> task_write id w (relay c) = Some r ->
  conn_ok h k (with_client r c).
Proof.
  intros Hok. unfold task_write. destruct (agents (relay c) !! id) as [t|] eqn:Ht; [|done].
  destruct (task_done t) eqn:Hd, (dialled t); try done. cbn [orb negb].
  destruct (task_rx t) as [|data rest] eqn:Hq.
  - destruct (bool_decide _); [done|]. intros [= <-].
    eapply conn_ok_end_task; [done|done|by apply prefix_app_r|done].
  - destruct w as [|n]; intros [= <-].
    + eapply conn_ok_same_task; [done|done| |done|done]. cbn. by rewrite Hq, firstn_all, <- app_assoc.
    + eapply conn_ok_close_task; [done|done| |done]. cbn. rewrite Hq. cbn.
      apply prefix_app, prefix_app_r. exists (drop n data). by rewrite take_drop.
Qed.

(** The agent's bytes go out while the relay runs. *)
Lemma conn_ok_task_read c id res r : conn_ok h k c -> task_read id res (relay c) = Some r ->
  conn_ok h k (with_client r c).
Proof.
  intros Hok. unfold task_read. destruct (agents (relay c) !! id) as [t|] eqn:Ht; [|done].
  destruct (task_done t) eqn:Hd, (dialled t) eqn:Hdial; try done. cbn [orb negb].
  assert (Hclose : conn_ok h k (with_client (close_task id t (relay c)) c)).
  { eapply conn_ok_close_task; [done|done|by apply prefix_app_r|done]. }
  destruct res as [[|x data]|]; [by intros [= <-]| |by intros [= <-]].
  unfold send_outbound. cbn [relaying with_agent]. destruct (relaying (relay c)) eqn:Hrel; intros [= <-].
  - apply conn_ok_client; cbn; [done| | | |].
    + intros i. destruct (decide (id = i)) as [->|]; [rewrite lookup_insert_eq, Ht|by rewrite lookup_insert_ne].
      split; by eexists.
    + intros i. left. unfold agent_view. cbn.
      destruct (decide (id = i)) as [->|]; [rewrite lookup_insert_eq, Ht|by rewrite lookup_insert_ne]. cbn. by rewrite Hd.
    + intros i m Hin Hm. destruct (decide (id = i)) as [->|Hi]; [rewrite lookup_insert_eq; by eexists|].
      rewrite lookup_insert_ne by done. apply elem_of_app in Hin as [Hin|Hin].
      * apply (co_about _ _ _ Hok i m); [|done]. unfold up. set_solver.
      * apply list_elem_of_singleton in Hin as ->. by injection Hm as ->.
    + intros i rl Hr Hvia. destruct (co_up _ _ _ Hok i rl Hr Hvia) as (o & b & Hf & Hb & Heq).
      unfold up_flow, up, read_agent, task_live in *. cbn -[flows]. rewrite app_assoc, flows_app, Hf, flows_cons.
      destruct (decide (id = i)) as [->|Hi].
      * rewrite flow_self by done. rewrite lookup_insert_eq. rewrite Ht in Hb, Heq. cbn.
        destruct o; [|exists false, b; split_and!; [done|by apply prefix_app_r|done]].
        exists true, (b ++ x :: data). rewrite Heq; [by split_and!|done|].
        split; [done|]. by intros t' [= <-].
      * rewrite flow_other by (cbn; congruence). rewrite lookup_insert_ne by done. exists o, b.
        split_and!; [done|exact Hb|]. intros Ho [_ Hl]. by apply Heq.
  - assert (Hend : with_client (end_task id {| dialled := true; from_agent := from_agent t ++ x :: data;
      task_rx := task_rx t; to_agent := to_agent t; task_done := false |}
      (with_agent id {| dialled := true; from_agent := from_agent t ++ x :: data; task_rx := task_rx t;
         to_agent := to_agent t; task_done := false |} (relay c))) c =
      with_client (end_task id {| dialled := true; from_agent := from_agent t ++ x :: data;
      task_rx := task_rx t; to_agent := to_agent t; task_done := false |} (relay c)) c).
    { unfold end_task, with_agent. cbn. by rewrite insert_insert_eq. }
    rewrite Hend. eapply conn_ok_end_task; [done|done|by apply prefix_app_r|by apply prefix_app_r].
Qed.

End ConnSteps.

(** ** Steps of the hub *)

(** The hub's state seen from channel [k] after a step that queued nothing on
    it: streams keep what they read, and their program's end may close. *)
Lemma conn_ok_hub h h' k c : conn_ok h k c -> next_id h <= next_id h' ->
  (forall id r, relays h !! id = Some r -> exists r', relays h' !! id = Some r' /\ via r' = via r /\
     from_program r `prefix_of` from_program r' /\
     (channel h' = Some k -> is_serving c = true -> channel h = Some k /\ from_program r' = from_program r)) ->
  (forall id r', relays h' !! id = Some r' -> via r' = Some k -> exists r, relays h !! id = Some r /\
     via r = Some k /\ view_shrinks (Some (relay_view h id r)) (Some (relay_view h' id r'))) ->
  conn_ok h' k c.
Proof.
  intros [H1 H2 H3 H4 H5] Hnext Hdown Hup. split; [done| |done| |].
  - intros id Hin. destruct (H2 id Hin). split; [done|lia].
  - intros id o b Hf. destruct (H4 id o b Hf) as (r & Hr & Hvia & Hp & Hall).
    destruct (Hdown id r Hr) as (r' & Hr' & Hvia' & Hp' & Hch). exists r'.
    split_and!; [done|congruence|by etrans|]. intros Ho Hk Hs. destruct (Hch Hk Hs) as [Hk' ->]. by apply Hall.
  - intros id r' Hr' Hvia'. destruct (Hup id r' Hr' Hvia') as (r & Hr & Hvia & Hv).
    destruct (H5 id r Hr Hvia) as (o & b & Hf & Hb & Heq).
    destruct Hv as [Hsame|(so & sb & sb' & Hs & Hs' & Hp)]; [assert (relay_view h' id r' = relay_view h id r) as -> by congruence; by exists o, b|].
    unfold up_flow. replace (relay_view h' id r') with (false, sb') by congruence.
    rewrite Hs in Hf.
    destruct (flows_shrink _ _ _ _ _ _ Hf sb' Hp) as [Hf' Hp']. exists false, sb'.
    split_and!; [done|by etrans|done].
Qed.

Lemma down_queue m c : down (queue_for m c) = down c ++ (if is_serving c then [m] else []).
Proof. unfold down, is_serving. cbn. destruct (serve c); by rewrite <- ?app_assoc, ?app_nil_r. Qed.

Lemma opens_queue m c : opens (queue_for m c) = opens c ++ omap open_id [m].
Proof. unfold opens. cbn [to_relay channel_rx queue_for]. by rewrite app_assoc, omap_app. Qed.

(** Queuing on the attached channel: data just read, the end of a stream, a new
    stream. *)
Lemma conn_ok_queue_data h k c id r data : conn_ok h k c -> relays h !! id = Some r ->
  let r' := {| via := via r; from_program := from_program r ++ data; write_rx := write_rx r;
               to_program := to_program r; relay_done := relay_done r |} in
  channel h = Some k -> conn_ok (with_relay id r' h) k (queue_for (AgentData id data) c).
Proof.
  intros Hok Hr r' Hch. pose proof Hok as [H1 H2 H3 H4 H5]. split; rewrite ?opens_queue; cbn [omap list_omap open_id];
    rewrite ?app_nil_r; [done|exact H2|exact H3| |].
  - intros i o b. rewrite down_queue, flows_app. change (relay (queue_for _ c)) with (relay c).
    destruct (flows i (agent_view (relay c) i) (down c)) as [[o0 b0]|] eqn:Hf.
    + destruct (H4 i o0 b0 Hf) as (ri & Hri & Hvia & Hp & Hall). cbn [relays with_relay].
      destruct (decide (id = i)) as [->|Hi].
      * rewrite Hr in Hri. injection Hri as <-. rewrite lookup_insert_eq.
        destruct (is_serving c) eqn:Hs.
        -- rewrite flows_cons, flow_self by done. destruct o0; intros [= <- <-]; exists r'.
           ++ rewrite (Hall eq_refl Hch eq_refl). by split_and!.
           ++ split_and!; [done|done|by apply prefix_app_r|done].
        -- intros [= <- <-]. exists r'. split_and!; [done|done|by apply prefix_app_r|].
           unfold is_serving in Hs |- *. cbn. congruence.
      * rewrite lookup_insert_ne by done. intros Hf'. exists ri.
        assert (Some (o, b) = Some (o0, b0)) as [= -> ->].
        { rewrite <- Hf'. destruct (is_serving c); [|done]. rewrite flows_cons, flow_other by (cbn; congruence). done. }
        by split_and!.
    + destruct (is_serving c); [|done]. rewrite flows_cons. unfold flow. destruct (bool_decide _); done.
  - intros i ri Hri Hvia. change (up_flow c i (relay_view (with_relay id r' h) i ri)). cbn [relays with_relay] in Hri.
    destruct (decide (id = i)) as [->|Hi].
    + rewrite lookup_insert_eq in Hri. injection Hri as <-. by apply (H5 i r).
    + rewrite lookup_insert_ne in Hri by done. by apply (H5 i ri).
Qed.

Lemma conn_ok_queue_close h k c id : conn_ok h k c -> conn_ok h k (queue_for (AgentClose id) c).
Proof.
  intros Hok. pose proof Hok as [H1 H2 H3 H4 H5]. split; rewrite ?opens_queue; cbn [omap list_omap open_id];
    rewrite ?app_nil_r; [done|exact H2|exact H3| |exact H5].
  intros i o b. rewrite down_queue, flows_app. change (relay (queue_for _ c)) with (relay c).
  destruct (flows i (agent_view (relay c) i) (down c)) as [[o0 b0]|] eqn:Hf.
  - destruct (H4 i o0 b0 Hf) as (ri & Hri & Hvia & Hp & Hall). destruct (is_serving c) eqn:Hs.
    + rewrite flows_cons. destruct (decide (id = i)) as [->|Hi].
      * rewrite flow_self by done. intros [= <- <-]. exists ri. by split_and!.
      * rewrite flow_other by (cbn; congruence). intros [= <- <-]. exists ri. split_and!; [done|done|done|].
        intros ? ? _. by apply Hall.
    + intros [= <- <-]. exists ri. split_and!; [done|done|done|]. intros _ _ Hs'. unfold is_serving in *. cbn in Hs'. congruence.
  - destruct (is_serving c); [|done]. rewrite flows_cons. unfold flow. destruct (bool_decide _); done.
Qed.

(** A stream's new id is unknown to every channel. *)
Lemma fresh_stream h k c id : conn_ok h k c -> relays h !! id = None ->
  flows id (agent_view (relay c) id) (down c) = None /\ agents (relay c) !! id = None.
Proof.
  intros Hok Hr. assert (Hf : flows id (agent_view (relay c) id) (down c) = None).
  { destruct (flows id _ _) as [[o b]|] eqn:Hf; [|done].
    destruct (co_down _ _ _ Hok id o b Hf) as (r & Hr' & _). congruence. }
  split; [done|]. unfold agent_view in Hf. destruct (agents (relay c) !! id) as [t|]; [|done]. cbn in Hf.
  match type of Hf with flows _ (Some (?o, ?b)) ?q = _ => destruct (flows_mono id q o b) as (? & ? & Hx & _) end.
  congruence.
Qed.

Lemma up_fresh h k c id sv : conn_ok h k c -> agents (relay c) !! id = None -> up_flow c id (sv, []).
Proof.
  intros Hok Ha. exists sv, []. unfold read_agent. rewrite Ha. split_and!; [|done|done].
  assert (Hno : forall m, m ∈ up c -> msg_id m <> Some id).
  { intros m Hin Hm. destruct (co_about _ _ _ Hok id m Hin Hm). congruence. }
  induction (up c) as [|m q IH]; [done|]. rewrite flows_cons, flow_other by (apply Hno; by left).
  apply IH. intros m' Hin. apply Hno. by right.
Qed.

(** A new stream: on the channel that carries its AgentOpen, and on all others. *)
Definition opened (h : AgentHub) (via : option nat) (done : bool) (ss : gset Z) : AgentHub :=
  {| channel := channel h; streams := ss; next_id := next_id h + 1;
     relays := <[next_id h := {| via := via; from_program := []; write_rx := []; to_program := [];
                                 relay_done := done |}]> (relays h) |}.

Lemma relay_view_opened h via done ss id r : id <> next_id h -> (id ∈ ss <-> id ∈ streams h) ->
  relay_view (opened h via done ss) id r = relay_view h id r.
Proof. intros Hid Hss. unfold relay_view. cbn. f_equal. f_equal. by apply bool_decide_ext. Qed.

Lemma conn_ok_opened_elsewhere h k c via done ss : conn_ok h k c -> relays h !! next_id h = None ->
  via <> Some k -> (forall id, id <> next_id h -> id ∈ ss <-> id ∈ streams h) ->
  conn_ok (opened h via done ss) k c.
Proof.
  intros Hok Hfresh Hvia Hss. apply (conn_ok_hub h); [done|cbn; lia| |].
  - intros id r Hr. exists r. cbn. rewrite lookup_insert_ne by congruence. by split_and!.
  - intros id r'. cbn. destruct (decide (next_id h = id)) as [<-|Hid].
    + rewrite lookup_insert_eq. by intros [= <-].
    + rewrite lookup_insert_ne by done. intros Hr' Hv. exists r'. split_and!; [done|done|left].
      by rewrite relay_view_opened by (done || by apply Hss).
Qed.

Lemma conn_ok_opened_here h k c ss : conn_ok h k c -> relays h !! next_id h = None ->
  (forall id, id <> next_id h -> id ∈ ss <-> id ∈ streams h) ->
  conn_ok (opened h (Some k) false ss) k (queue_for (AgentOpen (next_id h)) c).
Proof.
  intros Hok Hfresh Hss. pose proof Hok as [H1 H2 H3 H4 H5].
  destruct (fresh_stream h k c _ Hok Hfresh) as [Hf Ha].
  split; rewrite ?opens_queue; cbn [omap list_omap open_id].
  - apply NoDup_app. split_and!; [done| |by apply NoDup_singleton].
    intros id Hin ->%list_elem_of_singleton. destruct (H2 _ Hin). lia.
  - intros id [Hin|Hin]%elem_of_app; cbn.
    + destruct (H2 id Hin). split; [done|lia].
    + apply list_elem_of_singleton in Hin as ->. split; [done|lia].
  - exact H3.
  - intros i o b. rewrite down_queue, flows_app. change (relay (queue_for _ c)) with (relay c).
    cbn [opened relays]. destruct (decide (next_id h = i)) as [<-|Hi].
    + rewrite Hf, lookup_insert_eq. destruct (is_serving c); [|done]. rewrite flows_cons, flow_self by done.
      intros [= <- <-]. eexists. by split_and!.
    + rewrite lookup_insert_ne by done. intros Hfl. apply (H4 i). rewrite <- Hfl.
      destruct (is_serving c); [|by destruct (flows _ _ _)].
      rewrite flows_cons, flow_other by (cbn; congruence). done.
  - intros i r. cbn [opened relays]. destruct (decide (next_id h = i)) as [<-|Hi].
    + rewrite lookup_insert_eq. intros [= <-] _. by eapply (up_fresh h k c).
    + rewrite lookup_insert_ne by done. intros Hr Hvia. rewrite relay_view_opened by (done || by apply Hss).
      by apply (H5 i r).
Qed.

(** ** Every step *)

Lemma send_to_channel_cases m sys : (exists k c, channel (hub sys) = Some k /\ conns sys !! k = Some c /\
    serve c <> Gone /\ send_to_channel m sys = (true, update_conn k (queue_for m c) sys)) \/
  (send_to_channel m sys = (false, sys) /\
   forall k c, channel (hub sys) = Some k -> conns sys !! k = Some c -> is_serving c = false).
Proof.
  unfold send_to_channel, is_serving. destruct (channel (hub sys)) as [k|]; [|right; by split].
  destruct (conns sys !! k) as [c|] eqn:Hc; [|right; split; [done|congruence]].
  destruct (serve c) eqn:Hs; [left|left|right; split; [done|]].
  - by exists k, c; rewrite Hs.
  - by exists k, c; rewrite Hs.
  - intros k' c' [= <-] ?. assert (c' = c) as -> by congruence. by rewrite Hs.
Qed.

Lemma list_insert_is_Some {A} (l : list A) i j x : is_Some (l !! j) -> is_Some (<[i := x]> l !! j).
Proof. rewrite !lookup_lt_is_Some. by rewrite length_insert. Qed.

Lemma inv_update_conn sys k c : agent_inv sys -> conn_ok (hub sys) k c -> is_Some (conns sys !! k) ->
  agent_inv (update_conn k c sys).
Proof.
  intros [H1 H2 H3 H4] Hok Hk. split; cbn; [done|done| |].
  - intros id r j Hr Hv. by eapply list_insert_is_Some, H3.
  - intros j c' [(<- & <- & _)|[_ Hj]]%list_lookup_insert_Some; [done|by apply H4].
Qed.

Lemma inv_on_conn sys k ok f sys' : agent_inv sys ->
  (forall c c', conn_ok (hub sys) k c -> ok c = true -> f c = Some c' -> conn_ok (hub sys) k c') ->
  on_conn k ok f sys = Some sys' -> agent_inv sys'.
Proof.
  intros Hinv Hf. unfold on_conn. destruct (conns sys !! k) as [c|] eqn:Hc; [|done].
  destruct (ok c) eqn:Hok; [|done]. destruct (f c) as [c'|] eqn:Hfc; [|done]. intros [= <-].
  apply inv_update_conn; [done| |by eexists]. apply (Hf c); [by apply (ai_conns _ Hinv)|done|done].
Qed.

(** A step of one relay: it reads nothing, keeps its channel, and its program's
    end shrinks or stays. *)
Lemma inv_relay sys id r r' ss : agent_inv sys -> relays (hub sys) !! id = Some r -> relay_done r = false ->
  via r' = via r -> from_program r' = from_program r ->
  (forall i, i <> id -> i ∈ ss <-> i ∈ streams (hub sys)) ->
  (let h' := {| channel := channel (hub sys); streams := ss; next_id := next_id (hub sys);
                relays := <[id := r']> (relays (hub sys)) |} in
   view_shrinks (Some (relay_view (hub sys) id r)) (Some (relay_view h' id r')) ->
   agent_inv (with_hub h' sys)).
Proof.
  intros [H1 H2 H3 H4] Hr Hd Hvia Hfrom Hss h' Hv.
  assert (Hex : forall i ri', relays h' !! i = Some ri' -> exists ri, relays (hub sys) !! i = Some ri /\
            via ri' = via ri /\ view_shrinks (Some (relay_view (hub sys) i ri)) (Some (relay_view h' i ri'))).
  { intros i ri'. cbn. destruct (decide (id = i)) as [<-|Hi].
    - rewrite lookup_insert_eq. intros [= <-]. by exists r.
    - rewrite lookup_insert_ne by done. intros Hi'. exists ri'. split_and!; [done|done|left].
      unfold relay_view. cbn. f_equal. f_equal. f_equal. apply bool_decide_ext, Hss. done. }
  split; cbn [hub conns with_hub].
  - intros i ri' Hi. destruct (Hex i ri' Hi) as (ri & Hri & _). by apply (H1 i ri).
  - intros i ri' Hi Hn. cbn in Hi. destruct (decide (id = i)) as [<-|Hne].
    + rewrite lookup_insert_eq in Hi. injection Hi as <-. destruct (H2 id r Hr); congruence.
    + rewrite lookup_insert_ne in Hi by done. by apply (H2 i).
  - intros i ri' k Hi Hk. destruct (Hex i ri' Hi) as (ri & Hri & Hv' & _). apply (H3 i ri k Hri). congruence.
  - intros k c Hc. apply (conn_ok_hub (hub sys)); [by apply H4|done| |].
    + intros i ri Hi. cbn. destruct (decide (id = i)) as [<-|Hne].
      * rewrite lookup_insert_eq. assert (ri = r) as -> by congruence. exists r'. rewrite Hfrom. by split_and!.
      * rewrite lookup_insert_ne by done. exists ri. by split_and!.
    + intros i ri' Hi Hk. destruct (Hex i ri' Hi) as (ri & Hri & Hv' & Hsh). exists ri. split_and!; [done|congruence|done].
Qed.

Lemma inv_send_close sys id : agent_inv sys -> agent_inv (send_to_channel (AgentClose id) sys).2.
Proof.
  intros Hinv. destruct (send_to_channel_cases (AgentClose id) sys) as [(k & c & _ & Hc & _ & ->)|[-> _]]; [|done].
  apply inv_update_conn; [done| |by eexists]. by apply conn_ok_queue_close, (ai_conns _ Hinv).
Qed.

(** A relay that ends, having written a prefix of what it was to write. *)
Lemma inv_close_relay sys id r r0 : agent_inv sys -> relays (hub sys) !! id = Some r0 -> relay_done r0 = false ->
  via r = via r0 -> from_program r = from_program r0 ->
  to_program r `prefix_of` to_program r0 ++ concat (write_rx r0) -> agent_inv (close_relay id r sys).
Proof.
  intros Hinv Hr Hd Hvia Hfrom Hp. unfold close_relay. apply inv_send_close.
  unfold drop_stream, with_relay. cbn. eapply inv_relay; [done|exact Hr|done|done|done|set_solver|].
  right. unfold relay_view. cbn. rewrite andb_false_r, app_nil_r. by eexists _, _, _.
Qed.

Lemma inv_relay_write sys id w sys' : agent_inv sys -> relay_write id w sys = Some sys' -> agent_inv sys'.
Proof.
  intros Hinv. unfold relay_write. destruct (relays (hub sys) !! id) as [r|] eqn:Hr; [|done].
  destruct (relay_done r) eqn:Hd; [done|]. destruct (write_rx r) as [|data rest] eqn:Hq.
  - destruct (bool_decide _); [done|]. intros [= <-].
    by eapply inv_close_relay; [done|exact Hr|done|done|done|apply prefix_app_r].
  - destruct w as [|n]; intros [= <-].
    + unfold with_relay. eapply inv_relay; [done|exact Hr|done|done|done|done|].
      left. unfold relay_view. cbn. by rewrite Hd, Hq, <- app_assoc.
    + eapply inv_close_relay; [done|exact Hr|done|done|done|]. cbn. rewrite Hq. cbn.
      apply prefix_app, prefix_app_r. exists (drop n data). by rewrite take_drop.
Qed.

(** A relay that has read more, when nothing was or could be queued for it yet. *)
Lemma inv_read_more sys id r data : agent_inv sys -> relays (hub sys) !! id = Some r -> relay_done r = false ->
  let r' := {| via := via r; from_program := from_program r ++ data; write_rx := write_rx r;
               to_program := to_program r; relay_done := false |} in
  (forall k c, channel (hub sys) = Some k -> conns sys !! k = Some c -> is_serving c = false) ->
  agent_inv (with_hub (with_relay id r' (hub sys)) sys).
Proof.
  intros Hinv Hr Hd r' Hno. pose proof Hinv as [H1 H2 H3 H4]. split; cbn.
  - intros i ri [[<- <-]|[_ Hi]]%lookup_insert_Some; [by eapply H1|by eapply H1].
  - intros i ri [[<- <-]|[_ Hi]]%lookup_insert_Some Hn; [|by eapply H2]. destruct (H2 id r Hr Hn). congruence.
  - intros i ri k [[<- <-]|[_ Hi]]%lookup_insert_Some Hv; [by eapply H3|by eapply H3].
  - intros k c Hc. apply (conn_ok_hub (hub sys)); [by apply H4|done| |].
    + intros i ri Hi. cbn. destruct (decide (id = i)) as [<-|Hne].
      * rewrite lookup_insert_eq. assert (ri = r) as -> by congruence. exists r'.
        split_and!; [done|done|by apply prefix_app_r|]. intros Hch Hs. by rewrite (Hno k c) in Hs.
      * rewrite lookup_insert_ne by done. exists ri. by split_and!.
    + cbn. intros i ri' [[<- <-]|[_ Hi]]%lookup_insert_Some Hv.
      * exists r. split_and!; [done|done|left]. unfold relay_view. cbn. by rewrite Hd.
      * exists ri'. split_and!; [done|done|by left].
Qed.

Lemma inv_relay_read sys id res sys' : agent_inv sys -> relay_read id res sys = Some sys' -> agent_inv sys'.
Proof.
  intros Hinv. unfold relay_read. destruct (relays (hub sys) !! id) as [r|] eqn:Hr; [|done].
  destruct (relay_done r) eqn:Hd; [done|].
  assert (Hclose : agent_inv (close_relay id r sys)).
  { eapply inv_close_relay; [done|exact Hr|done|done|done|by apply prefix_app_r]. }
  destruct res as [[|x data]|]; [by intros [= <-]| |by intros [= <-]].
  set (r' := {| via := via r |}).
  destruct (send_to_channel_cases (AgentData id (x :: data)) (with_hub (with_relay id r' (hub sys)) sys))
    as [(k & c & Hch & Hc & Hs & ->)|[-> Hno]]; intros [= <-]; cbn in Hch, Hc || cbn in Hno.
  - pose proof Hinv as [H1 H2 H3 H4]. split; cbn.
    + intros i ri [[<- <-]|[_ Hi]]%lookup_insert_Some; [by eapply H1|by eapply H1].
    + intros i ri [[<- <-]|[_ Hi]]%lookup_insert_Some Hn; [|by eapply H2]. destruct (H2 id r Hr Hn). congruence.
    + intros i ri j Hi Hv. apply list_insert_is_Some.
      apply lookup_insert_Some in Hi as [[<- <-]|[_ Hi]]; by eapply H3.
    + intros j cj [(<- & <- & _)|[Hj Hcj]]%list_lookup_insert_Some.
      * replace r' with {| via := via r; from_program := from_program r ++ x :: data; write_rx := write_rx r;
          to_program := to_program r; relay_done := relay_done r |} by (unfold r'; by rewrite Hd).
        apply conn_ok_queue_data; [by apply H4|done|done].
      * assert (Hx : conn_ok (hub sys) j cj) by by apply H4. apply (conn_ok_hub (hub sys)); [done|done| |].
        -- intros i ri Hi. cbn. destruct (decide (id = i)) as [<-|Hne].
           ++ rewrite lookup_insert_eq. assert (ri = r) as -> by congruence. exists r'.
              split_and!; [done|done|by apply prefix_app_r|]. intros Hch'. congruence.
           ++ rewrite lookup_insert_ne by done. exists ri. by split_and!.
        -- cbn. intros i ri' [[<- <-]|[_ Hi]]%lookup_insert_Some Hv.
           ++ exists r. split_and!; [done|done|left]. unfold relay_view. cbn. by rewrite Hd.
           ++ exists ri'. split_and!; [done|done|by left].
  - eapply inv_close_relay; [by apply inv_read_more|cbn; apply lookup_insert_eq|done|done|done|by apply prefix_app_r].
Qed.

Lemma inv_opened sys via done ss : agent_inv sys ->
  (via = None -> done = true) -> (forall k, via = Some k -> is_Some (conns sys !! k)) ->
  (forall k c, conns sys !! k = Some c -> conn_ok (opened (hub sys) via done ss) k c) ->
  agent_inv (with_hub (opened (hub sys) via done ss) sys).
Proof.
  intros [H1 H2 H3 H4] Hdone Hvia Hok. split; cbn; [| | |done].
  - intros i r [[<- <-]|[_ Hi]]%lookup_insert_Some; [lia|]. specialize (H1 i r Hi). lia.
  - intros i r [[<- <-]|[_ Hi]]%lookup_insert_Some Hn; [cbn in *; auto|by eapply H2].
  - intros i r k [[<- <-]|[_ Hi]]%lookup_insert_Some Hv; [by apply Hvia|by eapply H3].
Qed.

Lemma inv_open_stream sys : agent_inv sys -> 0 <= next_id (hub sys) < u64_modulus - 1 ->
  agent_inv (open_stream sys) /\ next_id (hub (open_stream sys)) = next_id (hub sys) + 1.
Proof.
  intros Hinv Hid. unfold open_stream. set (id := next_id (hub sys)).
  assert (Hfresh : relays (hub sys) !! id = None).
  { destruct (relays (hub sys) !! id) as [r|] eqn:Hr; [|done]. apply (ai_ids _ Hinv) in Hr. unfold id in Hr. lia. }
  replace (add_u64 id 1) with (id + 1) by (rewrite add_u64_small; [done|unfold is_u64, id; lia]).
  set (h := {| channel := channel (hub sys) |}).
  destruct (send_to_channel_cases (AgentOpen id) (with_hub h sys)) as [(k & c & Hch & Hc & _ & ->)|[-> _]];
    (split; [|done]).
  - cbn in Hch, Hc. change (channel h) with (channel (hub sys)). rewrite Hch.
    change (agent_inv (with_hub (opened (hub sys) (Some k) false (streams h)) (update_conn k (queue_for (AgentOpen id) c) sys))).
    assert (Hss : forall i, i <> next_id (hub sys) -> i ∈ streams h <-> i ∈ streams (hub sys)) by (cbn; set_solver).
    pose proof Hinv as [H1 H2 H3 H4]. split; cbn.
    + intros i r [[<- <-]|[_ Hi]]%lookup_insert_Some; [lia|]. specialize (H1 i r Hi). lia.
    + intros i r [[<- <-]|[_ Hi]]%lookup_insert_Some Hn; [done|by eapply H2].
    + intros i r j [[<- <-]|[_ Hi]]%lookup_insert_Some Hv; apply list_insert_is_Some; [|by eapply H3].
      injection Hv as <-. by eexists.
    + intros j cj [(<- & <- & _)|[Hj Hcj]]%list_lookup_insert_Some.
      * by apply conn_ok_opened_here; [apply H4| |].
      * apply conn_ok_opened_elsewhere; [by apply H4|done|congruence|done].
  - change (agent_inv (with_hub (opened (hub sys) None true (streams h ∖ {[id]})) sys)).
    apply inv_opened; [done|done|done|]. intros k c Hc.
    apply conn_ok_opened_elsewhere; [by apply (ai_conns _ Hinv)|done|done|cbn; set_solver].
Qed.

Lemma inv_server_receives sys k c m rest : agent_inv sys -> conns sys !! k = Some c -> to_hub c = m :: rest ->
  agent_inv (with_hub (hub_message m (hub sys))
    (update_conn k {| serve := serve c; channel_rx := channel_rx c; to_relay := to_relay c;
                      to_hub := rest; relay := relay c |} sys)).
Proof.
  intros Hinv Hc Hq. pose proof Hinv as [H1 H2 H3 H4]. destruct (hub_message_same (hub sys) m) as [Hch Hnext].
  assert (Hback : forall i r', relays (hub_message m (hub sys)) !! i = Some r' -> exists r,
            relays (hub sys) !! i = Some r /\ via r' = via r /\ from_program r' = from_program r /\
            Some (relay_view (hub_message m (hub sys)) i r') = flow i (Some (relay_view (hub sys) i r)) m).
  { intros i r' Hr'. destruct (relays (hub sys) !! i) as [r|] eqn:Hr.
    - destruct (hub_message_flow (hub sys) m i r Hr) as (r2 & Hr2 & Hx). exists r. split; [done|]. congruence.
    - apply (hub_message_None _ m) in Hr. congruence. }
  assert (Hown : forall j cj i r, conns sys !! j = Some cj -> relays (hub sys) !! i = Some r -> via r = Some j ->
            j <> k -> msg_id m <> Some i).
  { intros j cj i r Hj Hr Hv Hne Hm. pose proof (H4 k c Hc) as Hok.
    destruct (co_about _ _ _ Hok i m) as [t Ht]; [unfold up; rewrite Hq; set_solver|done|].
    destruct (flows_mono i (down c) (bool_decide (i ∈ senders (relay c)) && negb (task_done t))
      (to_agent t ++ concat (task_rx t))) as (o & b & Hf & _).
    destruct (co_down _ _ _ Hok i o b) as (r2 & Hr2 & Hv2 & _); [by unfold agent_view; rewrite Ht|congruence]. }
  split; cbn.
  - intros i r' Hr'. rewrite Hnext. destruct (Hback i r' Hr') as (r & Hr & _). by eapply H1.
  - intros i r' Hr' Hn. destruct (Hback i r' Hr') as (r & Hr & Hv & _ & Hfl).
    destruct (H2 i r Hr) as [Hd Hto]; [congruence|]. destruct m as [| | | | | | | |j|j d|j]; cbn in Hr';
      try (assert (r' = r) as -> by congruence; done).
    destruct (bool_decide _); [|by assert (r' = r) as -> by congruence].
    destruct (relays (hub sys) !! j) as [rj|] eqn:Hj; [|by assert (r' = r) as -> by congruence].
    destruct (relay_done rj) eqn:Hdj; [by assert (r' = r) as -> by congruence|].
    cbn in Hr'. apply lookup_insert_Some in Hr' as [[<- <-]|[_ Hr']]; [congruence|].
    by assert (r' = r) as -> by congruence.
  - intros i r' j Hr' Hv'. destruct (Hback i r' Hr') as (r & Hr & Hv & _). apply list_insert_is_Some.
    apply (H3 i r); congruence.
  - intros j cj Hj. assert (Hcj : exists c0, conns sys !! j = Some c0 /\ (j = k -> c0 = c) /\
        serve cj = serve c0 /\ relay cj = relay c0 /\ opens cj = opens c0 /\ down cj = down c0 /\
        up c0 = (if decide (j = k) then [m] else []) ++ up cj).
    { apply list_lookup_insert_Some in Hj as [(<- & <- & _)|[Hne Hj]].
      - exists c. rewrite decide_True by done. split_and!; try done. unfold up. by rewrite Hq.
      - exists cj. rewrite decide_False by done. by split_and!. }
    destruct Hcj as (c0 & Hc0 & Hck & Hs & Hrl & Hop & Hdn & Hup). destruct (H4 j c0 Hc0) as [C1 C2 C3 C4 C5].
    split; rewrite ?Hop, ?Hrl, ?Hnext; [done|exact C2| | |].
    + intros i m' Hin. apply C3. rewrite Hup. set_solver.
    + intros i o b. rewrite Hdn, Hrl. intros Hf. destruct (C4 i o b Hf) as (r & Hr & Hv & Hp & Hall).
      destruct (hub_message_flow (hub sys) m i r Hr) as (r' & Hr' & Hv' & Hfrom & _). exists r'.
      rewrite Hfrom, Hch. split_and!; [done|congruence|done|]. unfold is_serving in *. by rewrite Hs.
    + intros i r' Hr' Hv'. destruct (Hback i r' Hr') as (r & Hr & Hv & _ & Hfl).
      destruct (C5 i r Hr) as (o & b & Hf & Hb & Heq); [congruence|]. exists o, b. rewrite Hrl, Hfl.
      split_and!; [|done|done]. rewrite Hup in Hf. destruct (decide (j = k)) as [->|Hne].
      * by rewrite <- flows_cons.
      * cbn [app] in Hf. rewrite flow_other; [done|]. eapply (Hown j); [exact Hc0|exact Hr|congruence|done].
Qed.

Lemma inv_detach sys k c : agent_inv sys -> conns sys !! k = Some c -> agent_inv (detach_channel k c sys).
Proof.
  intros [H1 H2 H3 H4] Hc. unfold detach_channel.
  assert (Hhub : forall j cj, conn_ok (hub sys) j cj -> conn_ok {| channel := if bool_decide (channel (hub sys) = Some k)
    then None else channel (hub sys); streams := streams (hub sys); next_id := next_id (hub sys);
    relays := relays (hub sys) |} j cj).
  { intros j cj Hok. apply (conn_ok_hub (hub sys)); [done|done| |].
    - intros i r Hr. exists r. split_and!; [done..|]. cbn. by case_bool_decide.
    - intros i r Hr Hv. exists r. split_and!; [done|done|by left]. }
  split; cbn; [done|done| |].
  - intros i r j Hr Hv. by eapply list_insert_is_Some, H3.
  - intros j cj [(<- & <- & _)|[_ Hj]]%list_lookup_insert_Some; [|by apply Hhub, H4]. apply Hhub.
    eapply conn_ok_serve; [by apply H4|done|done| |]; cbn.
    + rewrite app_nil_r. apply sublist_inserts_r. done.
    + exists (if is_serving c then channel_rx c else []). unfold down, is_serving. cbn. by rewrite app_nil_r.
Qed.

Lemma inv_attach sys : agent_inv sys -> agent_inv (attach_channel sys).
Proof.
  intros [H1 H2 H3 H4]. unfold attach_channel. split; cbn; [done|done| |].
  - intros i r k Hr Hv. destruct (H3 i r k Hr Hv) as [c Hc]. rewrite lookup_app_l; [by eexists|].
    by eapply lookup_lt_Some.
  - intros k c [Hc|[Hle Hc]]%lookup_app_Some.
    + apply (conn_ok_hub (hub sys)); [by apply H4|done| |].
      * intros i r Hr. exists r. split_and!; [done..|]. intros [= <-]. apply lookup_lt_Some in Hc. lia.
      * intros i r Hr Hv. exists r. split_and!; [done|done|by left].
    + apply list_lookup_singleton_Some in Hc as [Hk <-].
      split; cbn; [apply NoDup_nil_2|by intros i Hin%elem_of_nil|by intros i m Hin%elem_of_nil|by intros i o b|].
      intros i r Hr Hv. destruct (H3 i r k Hr Hv) as [c Hc]. apply lookup_lt_Some in Hc. lia.
Qed.

Lemma agent_step_inv sys ev sys' : agent_inv sys -> 0 <= next_id (hub sys) < u64_modulus - 1 ->
  agent_step sys ev = Some sys' -> agent_inv sys'.
Proof.
  intros Hinv Hid. destruct ev; cbn [agent_step].
  - intros [= <-]. by apply inv_open_stream.
  - by apply inv_relay_read.
  - by apply inv_relay_write.
  - intros [= <-]. by apply inv_attach.
  - apply inv_on_conn; [done|]. intros c c' Hok Hs. unfold serve_outbound.
    destruct (channel_rx c) as [|m rest] eqn:Hq; [done|]. intros [= <-]. destruct sent.
    + eapply conn_ok_serve; [done|done|done| |]; cbn.
      * by rewrite Hq, <- app_assoc.
      * exists []. unfold down, is_serving in *. cbn. destruct (serve c); try done.
        split; [by rewrite Hq, app_nil_r, <- app_assoc|done].
    + eapply conn_ok_serve; [done|done|done| |]; cbn.
      * rewrite Hq. apply sublist_app; [done|]. by constructor.
      * exists (m :: rest). unfold down. rewrite Hs. cbn. rewrite app_nil_r, Hq. by split.
  - destruct (conns sys !! k) as [c|] eqn:Hc; [|done]. destruct (is_serving c); [|done].
    destruct (to_hub c) as [|m rest] eqn:Hq; [done|]. intros [= <-]. by apply (inv_server_receives sys k c m rest).
  - apply inv_on_conn; [done|]. intros c c' Hok Hs [= <-].
    eapply conn_ok_serve; [done|done|done|done|]. exists (channel_rx c). unfold down. rewrite Hs. cbn.
    by rewrite app_nil_r.
  - destruct (conns sys !! k) as [c|] eqn:Hc; [|done]. destruct (is_ending c); [|done]. intros [= <-].
    by apply inv_detach.
  - apply inv_on_conn; [done|]. intros c c' Hok _. destruct (to_relay c) as [|m rest] eqn:Hq; [done|].
    intros [= <-]. by apply conn_ok_receive.
  - apply inv_on_conn; [done|]. intros c c' Hok _. by apply conn_ok_outbound.
  - apply inv_on_conn; [done|]. intros c c' Hok _ [= <-]. by apply conn_ok_client_ends.
  - apply inv_on_conn; [done|]. intros c c' Hok _ (r & Hr & ->)%fmap_Some. by eapply conn_ok_task_dial.
  - apply inv_on_conn; [done|]. intros c c' Hok _ (r & Hr & ->)%fmap_Some. by eapply conn_ok_task_read.
  - apply inv_on_conn; [done|]. intros c c' Hok _ (r & Hr & ->)%fmap_Some. by eapply conn_ok_task_write.
Qed.

Lemma agent_start_inv : agent_inv agent_start.
Proof. by split. Qed.

(** Ids are handed out one by one. *)
Lemma send_to_channel_hub m sys : hub (send_to_channel m sys).2 = hub sys.
Proof.
  destruct (send_to_channel_cases m sys) as [(k & c & _ & _ & _ & ->)|[-> _]]; done.
Qed.

Lemma close_relay_hub id r sys : channel (hub (close_relay id r sys)) = channel (hub sys) /\
  next_id (hub (close_relay id r sys)) = next_id (hub sys).
Proof. unfold close_relay. by rewrite send_to_channel_hub. Qed.

Lemma on_conn_hub k ok f sys sys' : on_conn k ok f sys = Some sys' -> hub sys' = hub sys.
Proof.
  unfold on_conn. destruct (conns sys !! k) as [c|]; [|done]. destruct (ok c); [|done].
  destruct (f c); [|done]. by intros [= <-].
Qed.

Lemma relay_read_hub id res sys sys' : relay_read id res sys = Some sys' ->
  channel (hub sys') = channel (hub sys) /\ next_id (hub sys') = next_id (hub sys).
Proof.
  unfold relay_read. destruct (relays (hub sys) !! id) as [r|]; [|done]. destruct (relay_done r); [done|].
  destruct res as [[|x data]|]; [by intros [= <-]; apply close_relay_hub| |by intros [= <-]; apply close_relay_hub].
  match goal with |- context [send_to_channel ?m ?s] => pose proof (send_to_channel_hub m s) as Hs;
    destruct (send_to_channel m s) as [[] sys1] end; cbn in Hs; intros [= <-];
    rewrite ?(proj1 (close_relay_hub _ _ _)), ?(proj2 (close_relay_hub _ _ _)), Hs; done.
Qed.

Lemma relay_write_hub id w sys sys' : relay_write id w sys = Some sys' ->
  channel (hub sys') = channel (hub sys) /\ next_id (hub sys') = next_id (hub sys).
Proof.
  unfold relay_write. destruct (relays (hub sys) !! id) as [r|]; [|done]. destruct (relay_done r); [done|].
  destruct (write_rx r); [destruct (bool_decide _); [done|]|destruct w]; intros [= <-]; try done;
    apply close_relay_hub.
Qed.

Lemma agent_step_next sys ev sys' : agent_inv sys -> 1 <= next_id (hub sys) < u64_modulus - 1 ->
  agent_step sys ev = Some sys' -> next_id (hub sys) <= next_id (hub sys') <= next_id (hub sys) + 1.
Proof.
  intros Hinv Hid. destruct ev; cbn [agent_step];
    try (intros Hs%on_conn_hub; rewrite Hs; lia).
  - intros [= <-]. destruct (inv_open_stream sys) as [_ ->]; [done|lia|lia].
  - intros Hs%relay_read_hub. lia.
  - intros Hs%relay_write_hub. lia.
  - intros [= <-]. cbn. lia.
  - destruct (conns sys !! k) as [c|]; [|done]. destruct (is_serving c); [|done].
    destruct (to_hub c) as [|m rest]; [done|]. intros [= <-]. cbn.
    destruct (hub_message_same (hub sys) m) as [_ ->]. lia.
  - destruct (conns sys !! k) as [c|]; [|done]. destruct (is_ending c); [|done]. intros [= <-]. cbn. lia.
Qed.

Lemma agent_run_next evs : forall sys sys', agent_inv sys -> 1 <= next_id (hub sys) ->
  next_id (hub sys) + len evs < u64_modulus -> agent_run sys evs = Some sys' ->
  agent_inv sys' /\ next_id (hub sys) <= next_id (hub sys') <= next_id (hub sys) + len evs.
Proof.
  induction evs as [|ev evs IH]; intros sys sys' Hinv Hid Hb; cbn [agent_run]; [intros [= <-]; split; [done|len_lia]|].
  destruct (agent_step sys ev) as [sys1|] eqn:Hs; [|done]. rewrite len_cons in *. pose proof (len_nonneg evs).
  pose proof (agent_step_next sys ev sys1 Hinv ltac:(lia) Hs). intros Hr.
  destruct (IH sys1 sys') as [Hi Hn]; [eapply agent_step_inv; [done|lia|done]|lia|lia|done|]. split; [done|lia].
Qed.
