(* ===== verification/AgentProps.v ===== *)
(** * What agent forwarding guarantees

    Consequences of the invariant of [AgentFlow]: the bytes of agent streams,
    the channel the hub talks to, and what a reconnect does to the requests in
    flight. *)

From stdpp Require Import gmap.
From S2P Require Import Prelude Proto OutboundLog Session Agent AgentFlow.

(** ** Streams *)

Lemma prefix_trans_l (a b c : bytes) : a ++ b `prefix_of` c -> a `prefix_of` c.
Proof. intros H. etrans; [|exact H]. by apply prefix_app_r. Qed.

(** Both ends of a stream are open and its channel is the attached one. *)
Record stream_up (sys : AgentSys) (k : nat) (c : AgentConn) (id : Z) (t : AgentTask) (r : Relay) : Prop := {
  su_channel : channel (hub sys) = Some k;
  su_serving : serve c = Serving;
  su_relaying : relaying (relay c) = true;
  su_agent : id ∈ senders (relay c) /\ task_done t = false;
  su_relay : id ∈ streams (hub sys) /\ relay_done r = false;
}.

(** Nothing is queued or in transit on a channel or at the ends of a stream. *)
Definition nothing_in_transit (c : AgentConn) (t : AgentTask) (r : Relay) : Prop :=
  to_relay c = [] /\ channel_rx c = [] /\ to_hub c = [] /\ outbound (relay c) = [] /\
  task_rx t = [] /\ write_rx r = [].

Lemma run_from_start evs sys : agent_run agent_start evs = Some sys -> len evs + 1 < u64_modulus -> agent_inv sys.
Proof. intros Hrun Hb. eapply (agent_run_next evs agent_start); [apply agent_start_inv|cbn; lia|cbn; lia|exact Hrun]. Qed.

Lemma task_relay sys k c id t : agent_inv sys -> conns sys !! k = Some c -> agents (relay c) !! id = Some t ->
  exists r, relays (hub sys) !! id = Some r /\ via r = Some k /\ to_agent t `prefix_of` from_program r /\
    (forall r', stream_up sys k c id t r' -> nothing_in_transit c t r' -> to_agent t = from_program r).
Proof.
  intros Hinv Hc Ht. pose proof (ai_conns _ Hinv k c Hc) as Hok.
  assert (Hv : agent_view (relay c) id = Some (bool_decide (id ∈ senders (relay c)) && negb (task_done t),
                                              to_agent t ++ concat (task_rx t))).
  { unfold agent_view. by rewrite Ht. }
  destruct (flows_mono id (down c) (bool_decide (id ∈ senders (relay c)) && negb (task_done t))
    (to_agent t ++ concat (task_rx t))) as (o & b & Hf & Hp & _).
  destruct (co_down _ _ _ Hok id o b) as (r & Hr & Hvia & Hpr & Hall); [by rewrite Hv|].
  exists r. split_and!; [done|done| |].
  - eapply prefix_trans_l. by etrans.
  - intros r' [U1 U2 U3 [U4 U5] U6] (T1 & T2 & _ & _ & T5 & _). unfold down in Hf. rewrite T1, T2 in Hf.
    rewrite bool_decide_eq_true_2, U5, T5 in Hf by done. cbn in Hf.
    assert (o = true /\ b = to_agent t) as [-> ->].
    { destruct (is_serving c); cbn in Hf; rewrite app_nil_r in Hf; by injection Hf as <- <-. }
    apply Hall; [done|done|]. unfold is_serving. by rewrite U2.
Qed.

(** C26: agent streams are faithful.  After any interleaving of programs, agent
    channels, losses, reconnects and local agents, every connection a client
    made to its agent belongs to exactly one program's stream, opened over that
    channel; the agent received a prefix of what that program wrote, the program
    received a prefix of what that agent answered, and when the stream is up and
    nothing is in transit both received everything.  A program without such a
    connection receives nothing. *)
Theorem agent_streams_faithful (evs : list AgentEvent) (sys : AgentSys) :
  agent_run agent_start evs = Some sys -> len evs + 1 < u64_modulus ->
  (forall k c id t, conns sys !! k = Some c -> agents (relay c) !! id = Some t ->
     exists r, relays (hub sys) !! id = Some r /\ via r = Some k /\
       to_agent t `prefix_of` from_program r /\ to_program r `prefix_of` from_agent t /\
       (stream_up sys k c id t r -> nothing_in_transit c t r ->
        to_agent t = from_program r /\ to_program r = from_agent t)) /\
  (forall id r, relays (hub sys) !! id = Some r ->
     (forall k c, via r = Some k -> conns sys !! k = Some c -> agents (relay c) !! id = None) ->
     to_program r = []).
Proof.
  intros Hrun Hb. pose proof (run_from_start _ _ Hrun Hb) as Hinv. split.
  - intros k c id t Hc Ht. destruct (task_relay _ _ _ _ _ Hinv Hc Ht) as (r & Hr & Hvia & Hp & Hall).
    exists r. destruct (co_up _ _ _ (ai_conns _ Hinv k c Hc) id r Hr Hvia) as (o & b & Hf & Hpb & Heq).
    unfold read_agent in Hpb, Heq. rewrite Ht in Hpb, Heq. unfold relay_view in Hf.
    split_and!; [done|done|done| |].
    + destruct (flows_mono id (up c) (bool_decide (id ∈ streams (hub sys)) && negb (relay_done r))
        (to_program r ++ concat (write_rx r))) as (o' & b' & Hf' & Hp' & _).
      assert (b' = b) as -> by congruence. eapply prefix_trans_l. by etrans.
    + intros Hup Htr. split; [by eapply Hall|]. destruct Hup as [U1 U2 U3 [U4 U5] [U6 U7]].
      destruct Htr as (_ & _ & T3 & T4 & _ & T6). unfold up in Hf. rewrite T3, T4, T6 in Hf.
      rewrite bool_decide_eq_true_2, U7 in Hf by done. cbn in Hf. rewrite app_nil_r in Hf. injection Hf as <- <-.
      apply Heq; [done|]. split; [done|]. intros t' Ht'. congruence.
  - intros id r Hr Hno. destruct (via r) as [k|] eqn:Hvia; [|by apply (ai_unsent _ Hinv id r)].
    destruct (ai_via _ Hinv id r k Hr Hvia) as [c Hc].
    destruct (co_up _ _ _ (ai_conns _ Hinv k c Hc) id r Hr Hvia) as (o & b & Hf & Hpb & _).
    unfold read_agent in Hpb. rewrite (Hno k c eq_refl Hc) in Hpb. apply prefix_nil_inv in Hpb as ->.
    unfold relay_view in Hf.
    destruct (flows_mono id (up c) (bool_decide (id ∈ streams (hub sys)) && negb (relay_done r))
      (to_program r ++ concat (write_rx r))) as (o' & b' & Hf' & Hp' & _).
    assert (b' = []) as -> by congruence. apply prefix_nil_inv in Hp'. by destruct (to_program r).
Qed.

(** A request and its answer over one channel. *)
Definition round_trip (k : nat) (id : Z) : list AgentEvent :=
  [ProgramConnects; ServerSends k true; ClientReceives k; AgentDialled k id true;
   ProgramSends id (ReadOk [1; 2]); ServerSends k true; ClientReceives k; AgentReceives k id WroteAll;
   AgentSends k id (ReadOk [9]); ClientSends k true; ServerReceives k; ProgramReceives id WroteAll].

Lemma agent_streams_faithful_witness :
  exists sys c t r, agent_run agent_start (ChannelAttaches :: round_trip 0 1) = Some sys /\
    conns sys !! 0%nat = Some c /\ agents (relay c) !! 1 = Some t /\ relays (hub sys) !! 1 = Some r /\
    from_program r = [1; 2] /\ from_agent t = [9] /\
    to_agent t = from_program r /\ to_program r = from_agent t.
Proof.
  destruct (agent_run agent_start (ChannelAttaches :: round_trip 0 1)) as [sys|] eqn:Hrun;
    [|vm_compute in Hrun; discriminate].
  destruct (agent_streams_faithful _ sys Hrun ltac:(reflexivity)) as [Hf _].
  vm_compute in Hrun. injection Hrun as <-.
  destruct (Hf 0%nat _ 1 _ eq_refl eq_refl) as (r & Hr & _ & _ & _ & Hall).
  eexists _, _, _, r. split; [reflexivity|]. split; [reflexivity|]. split; [reflexivity|]. split; [exact Hr|].
  injection Hr as <-. split; [reflexivity|]. split; [reflexivity|]. apply Hall.
  - split; try reflexivity; split; try reflexivity; set_solver.
  - repeat split; reflexivity.
Defined.

(** ** The attached channel *)

Definition modes (sys : AgentSys) : list Serve := map serve (conns sys).

(** The channel is the newest one, unless that one's task has returned. *)
Definition newest (ch : option nat) (ms : list Serve) : Prop :=
  match ch with
  | Some k => S k = length ms /\ exists s, ms !! k = Some s /\ s <> Gone
  | None => forall s, last ms = Some s -> s = Gone
  end.

Lemma modes_update k c c' sys : conns sys !! k = Some c -> serve c' = serve c ->
  modes (update_conn k c' sys) = modes sys.
Proof.
  intros Hc Hs. unfold modes. cbn. change (serve <$> <[k:=c']> (conns sys) = serve <$> conns sys).
  rewrite list_fmap_insert. apply list_insert_id. by rewrite list_lookup_fmap, Hc, Hs.
Qed.

Lemma send_to_channel_modes m sys : modes (send_to_channel m sys).2 = modes sys.
Proof.
  destruct (send_to_channel_cases m sys) as [(k & c & _ & Hc & _ & ->)|[-> _]]; [|done].
  by apply (modes_update k c).
Qed.

Lemma close_relay_modes id r sys : modes (close_relay id r sys) = modes sys.
Proof. unfold close_relay. by rewrite send_to_channel_modes. Qed.

Lemma relay_read_modes id res sys sys' : relay_read id res sys = Some sys' -> modes sys' = modes sys.
Proof.
  unfold relay_read. destruct (relays (hub sys) !! id) as [r|]; [|done]. destruct (relay_done r); [done|].
  destruct res as [[|x data]|]; try (intros [= <-]; apply close_relay_modes).
  match goal with |- context [send_to_channel ?m ?s] => pose proof (send_to_channel_modes m s) as Hs;
    destruct (send_to_channel m s) as [[] sys1] end; cbn in Hs; intros [= <-]; by rewrite ?close_relay_modes, Hs.
Qed.

Lemma relay_write_modes id w sys sys' : relay_write id w sys = Some sys' -> modes sys' = modes sys.
Proof.
  unfold relay_write. destruct (relays (hub sys) !! id) as [r|]; [|done]. destruct (relay_done r); [done|].
  destruct (write_rx r); [destruct (bool_decide _); [done|]|destruct w]; intros [= <-]; try done;
    apply close_relay_modes.
Qed.

Lemma open_stream_modes sys : channel (hub (open_stream sys)) = channel (hub sys) /\ modes (open_stream sys) = modes sys.
Proof.
  unfold open_stream.
  match goal with |- context [send_to_channel ?m ?s] => pose proof (send_to_channel_modes m s) as Hs;
    pose proof (send_to_channel_hub m s) as Hh; destruct (send_to_channel m s) as [[] sys1] end;
    cbn in Hs, Hh; unfold modes in *; cbn; by rewrite Hh, Hs.
Qed.

Lemma on_conn_inv k ok f sys sys' : on_conn k ok f sys = Some sys' ->
  exists c c', conns sys !! k = Some c /\ ok c = true /\ f c = Some c' /\ sys' = update_conn k c' sys.
Proof.
  unfold on_conn. destruct (conns sys !! k) as [c|]; [|done]. destruct (ok c) eqn:Hok; [|done].
  destruct (f c) as [c'|] eqn:Hf; [|done]. intros [= <-]. by exists c, c'.
Qed.

(** A step of a channel's task: none, or out of its loop. *)
Lemma on_conn_newest k ok f sys sys' : newest (channel (hub sys)) (modes sys) ->
  (forall c c', ok c = true -> f c = Some c' -> serve c' = serve c \/ (serve c = Serving /\ serve c' = Ending)) ->
  on_conn k ok f sys = Some sys' -> newest (channel (hub sys')) (modes sys').
Proof.
  intros Hn Hf Hs. apply on_conn_inv in Hs as (c & c' & Hc & Hok & Hfc & ->).
  destruct (Hf c c' Hok Hfc) as [Hsame|[Hserv Hend]]; [by rewrite (modes_update k c)|].
  unfold modes in *. cbn. change (map serve (<[k:=c']> (conns sys))) with (serve <$> <[k:=c']> (conns sys)).
  change (map serve (conns sys)) with (serve <$> conns sys) in Hn.
  assert (Hk : (serve <$> conns sys) !! k = Some Serving) by by rewrite list_lookup_fmap, Hc; cbn; f_equal.
  rewrite list_fmap_insert, Hend. destruct (channel (hub sys)) as [j|]; cbn in *.
  - rewrite length_insert. destruct Hn as [Hl (s & Hj & Hg)]. split; [done|].
    destruct (decide (j = k)) as [->|]; [exists Ending; split; [|done]|exists s; by rewrite list_lookup_insert_ne].
    apply list_lookup_insert_eq. by eapply lookup_lt_Some.
  - intros s. rewrite last_lookup, length_insert. intros [(-> & _ & Hlt)|[_ Hl]]%list_lookup_insert_Some.
    + specialize (Hn Serving). rewrite last_lookup, Hk in Hn. by specialize (Hn eq_refl).
    + apply Hn. by rewrite last_lookup.
Qed.

Lemma detach_newest k c sys : newest (channel (hub sys)) (modes sys) -> conns sys !! k = Some c ->
  newest (channel (hub (detach_channel k c sys))) (modes (detach_channel k c sys)).
Proof.
  intros Hn Hc. unfold modes, detach_channel in *. cbn.
  match goal with |- newest _ (map serve (<[k:=?c']> _)) => change (map serve (<[k:=c']> (conns sys))) with (serve <$> <[k:=c']> (conns sys)) end.
  change (map serve (conns sys)) with (serve <$> conns sys) in Hn. rewrite list_fmap_insert. cbn.
  case_bool_decide as Hch; cbn.
  - rewrite Hch in Hn. cbn in Hn. destruct Hn as [Hl _]. intros s. rewrite last_lookup, length_insert, <- Hl.
    cbn. rewrite list_lookup_insert_eq by lia. by intros [= <-].
  - destruct (channel (hub sys)) as [j|]; cbn in *.
    + rewrite length_insert. destruct Hn as [Hl (s & Hj & Hg)]. split; [done|]. exists s.
      rewrite list_lookup_insert_ne by congruence. done.
    + intros s. rewrite last_lookup, length_insert. intros [(_ & <- & _)|[_ Hl]]%list_lookup_insert_Some; [done|].
      apply Hn. by rewrite last_lookup.
Qed.

Lemma agent_step_newest sys ev sys' : newest (channel (hub sys)) (modes sys) -> agent_step sys ev = Some sys' ->
  newest (channel (hub sys')) (modes sys').
Proof.
  intros Hn. destruct ev; cbn [agent_step].
  - intros [= <-]. by destruct (open_stream_modes sys) as [-> ->].
  - intros Hs. rewrite (relay_read_modes _ _ _ _ Hs), (proj1 (relay_read_hub _ _ _ _ Hs)). done.
  - intros Hs. rewrite (relay_write_modes _ _ _ _ Hs), (proj1 (relay_write_hub _ _ _ _ Hs)). done.
  - intros [= <-]. cbn. unfold modes. cbn. rewrite map_app, length_app, length_map. cbn. split; [lia|].
    exists Serving. split; [|done]. rewrite lookup_app_r by (rewrite length_map; lia).
    by rewrite length_map, Nat.sub_diag.
  - apply on_conn_newest; [done|]. intros c c' Hs. unfold serve_outbound. destruct (channel_rx c); [done|].
    intros [= <-]. destruct sent; [by left|right]. unfold is_serving in Hs. by destruct (serve c).
  - destruct (conns sys !! k) as [c|] eqn:Hc; [|done]. destruct (is_serving c); [|done].
    destruct (to_hub c) as [|m rest]; [done|]. intros [= <-]. destruct (hub_message_same (hub sys) m) as [Hch _].
    cbn. rewrite Hch. change (newest (channel (hub sys)) (modes (update_conn k {| serve := serve c;
      channel_rx := channel_rx c; to_relay := to_relay c; to_hub := rest; relay := relay c |} sys))).
    by rewrite (modes_update k c).
  - apply on_conn_newest; [done|]. intros c c' Hs [= <-]. right. unfold is_serving in Hs. by destruct (serve c).
  - destruct (conns sys !! k) as [c|] eqn:Hc; [|done]. destruct (is_ending c); [|done]. intros [= <-].
    by apply detach_newest.
  - apply on_conn_newest; [done|]. intros c c' _. destruct (to_relay c); [done|]. intros [= <-]. by left.
  - apply on_conn_newest; [done|]. intros c c' _. unfold client_outbound. destruct (outbound (relay c)); [done|].
    intros [= <-]. by left.
  - apply on_conn_newest; [done|]. intros c c' _ [= <-]. by left.
  - apply on_conn_newest; [done|]. intros c c' _ (r & _ & ->)%fmap_Some. by left.
  - apply on_conn_newest; [done|]. intros c c' _ (r & _ & ->)%fmap_Some. by left.
  - apply on_conn_newest; [done|]. intros c c' _ (r & _ & ->)%fmap_Some. by left.
Qed.

(** C27: requests go to the most recently attached client.  Whatever order
    channels attach, fail and return in, the channel the hub sends to is the one
    that attached last, and its task has not returned; the late return of an
    older channel never detaches the newer one; and the hub is without a channel
    only if the newest one's task has returned. *)
Theorem agent_channel_is_newest (evs : list AgentEvent) (sys : AgentSys) :
  agent_run agent_start evs = Some sys ->
  match channel (hub sys) with
  | Some k => S k = length (conns sys) /\ exists c, conns sys !! k = Some c /\ serve c <> Gone
  | None => forall c, last (conns sys) = Some c -> serve c = Gone
  end.
Proof.
  assert (Hrun : forall evs sys0, newest (channel (hub sys0)) (modes sys0) ->
    agent_run sys0 evs = Some sys -> newest (channel (hub sys)) (modes sys)).
  { clear evs. induction evs as [|ev evs IH]; intros sys0 Hn; cbn [agent_run]; [by intros [= <-]|].
    destruct (agent_step sys0 ev) as [sys1|] eqn:Hs; [|done]. apply IH. by eapply agent_step_newest. }
  intros Hs. apply Hrun in Hs; [|by intros s]. unfold modes in Hs.
  change (map serve (conns sys)) with (serve <$> conns sys) in Hs. destruct (channel (hub sys)) as [k|]; cbn in Hs.
  - rewrite length_fmap in Hs. destruct Hs as [Hl (s & Hk & Hg)]. split; [done|].
    rewrite list_lookup_fmap in Hk. destruct (conns sys !! k) as [c|]; [|done]. injection Hk as <-. by exists c.
  - intros c Hc. apply Hs. by rewrite fmap_last, Hc.
Qed.

(** Two clients; the first one's task returns after the second attached. *)
Lemma agent_channel_is_newest_witness :
  exists sys, agent_run agent_start [ChannelAttaches; ServerLoses 0; ChannelAttaches; ServerDetaches 0] = Some sys /\
    channel (hub sys) = Some 1%nat /\
    S 1 = length (conns sys) /\ exists c, conns sys !! 1%nat = Some c /\ serve c <> Gone.
Proof.
  eexists. split; [reflexivity|]. split; [reflexivity|].
  exact (agent_channel_is_newest [ChannelAttaches; ServerLoses 0; ChannelAttaches; ServerDetaches 0] _ eq_refl).
Defined.

(** ** Requests in flight when the channel is replaced *)

(** A channel that will not bring the hub another message. *)
Definition dead_end (c : AgentConn) : Prop :=
  is_serving c = false \/ (to_hub c = [] /\ relaying (relay c) = false).

(** A stream whose program waits, opened over such a channel. *)
Record orphaned (sys : AgentSys) (id : Z) (r : Relay) (k : nat) : Prop := {
  or_relay : relays (hub sys) !! id = Some r;
  or_open : id ∈ streams (hub sys) /\ relay_done r = false /\ write_rx r = [];
  or_via : via r = Some k;
  or_dead : exists c, conns sys !! k = Some c /\ dead_end c;
}.

Lemma orphaned_update sys id r k j c c' : orphaned sys id r k -> conns sys !! j = Some c ->
  (dead_end c -> dead_end c') -> orphaned (update_conn j c' sys) id r k.
Proof.
  intros [H1 H2 H3 (ck & Hk & Hd)] Hj Hdead. split; [done..|]. cbn.
  destruct (decide (k = j)) as [->|]; [exists c'|exists ck; by rewrite list_lookup_insert_ne].
  rewrite list_lookup_insert_eq by (by eapply lookup_lt_Some). split; [done|]. apply Hdead. congruence.
Qed.

Lemma orphaned_on_conn sys id r k j ok f sys' : orphaned sys id r k ->
  (forall c c', ok c = true -> f c = Some c' -> dead_end c -> dead_end c') ->
  on_conn j ok f sys = Some sys' -> orphaned sys' id r k.
Proof.
  intros Ho Hf Hs. apply on_conn_inv in Hs as (c & c' & Hc & Hok & Hfc & ->).
  eapply orphaned_update; [done|exact Hc|]. by apply Hf.
Qed.

Lemma orphaned_queue sys id r k m : orphaned sys id r k -> orphaned (send_to_channel m sys).2 id r k.
Proof.
  intros Ho. destruct (send_to_channel_cases m sys) as [(j & c & _ & Hc & _ & ->)|[-> _]]; [|done].
  by eapply orphaned_update.
Qed.

(** The hub changes other streams only. *)
Lemma orphaned_hub sys id r k h : orphaned sys id r k -> relays h !! id = relays (hub sys) !! id ->
  (id ∈ streams (hub sys) -> id ∈ streams h) -> orphaned (with_hub h sys) id r k.
Proof. intros [H1 [H2 H2'] H3 H4] Hr Hs. split; cbn; [congruence|split; auto|done|done]. Qed.

Lemma orphaned_close sys id r k i ri : orphaned sys id r k -> i <> id -> orphaned (close_relay i ri sys) id r k.
Proof.
  intros Ho Hi. apply orphaned_queue, orphaned_hub; [done| |]; cbn; [by rewrite lookup_insert_ne|set_solver].
Qed.

Lemma orphaned_read sys id r k i res sys' : orphaned sys id r k -> i <> id -> relay_read i res sys = Some sys' ->
  orphaned sys' id r k.
Proof.
  intros Ho Hi. unfold relay_read. destruct (relays (hub sys) !! i) as [ri|]; [|done].
  destruct (relay_done ri); [done|].
  destruct res as [[|x data]|]; try (intros [= <-]; by apply orphaned_close).
  match goal with |- context [send_to_channel ?m ?s] =>
    assert (Hq : orphaned (send_to_channel m s).2 id r k)
      by (apply orphaned_queue, orphaned_hub; [done|cbn; by rewrite lookup_insert_ne|done]);
    destruct (send_to_channel m s) as [[] sys1] end; cbn in Hq; intros [= <-]; [done|].
  by apply orphaned_close.
Qed.

Lemma orphaned_write sys id r k i w sys' : orphaned sys id r k -> relay_write i w sys = Some sys' ->
  orphaned sys' id r k.
Proof.
  intros Ho. pose proof Ho as [H1 (H2 & H3 & H4) _ _]. unfold relay_write.
  destruct (decide (i = id)) as [->|Hi].
  { rewrite H1, H3, H4, bool_decide_eq_true_2 by done. done. }
  destruct (relays (hub sys) !! i) as [ri|]; [|done]. destruct (relay_done ri); [done|].
  destruct (write_rx ri); [destruct (bool_decide _); [done|]|destruct w]; intros [= <-];
    try by apply orphaned_close.
  apply orphaned_hub; [done|cbn; by rewrite lookup_insert_ne|done].
Qed.

Lemma orphaned_open sys id r k : agent_inv sys -> orphaned sys id r k -> orphaned (open_stream sys) id r k.
Proof.
  intros Hinv Ho. assert (Hid : next_id (hub sys) <> id).
  { intros <-. pose proof (ai_ids _ Hinv _ _ (or_relay _ _ _ _ Ho)). lia. }
  unfold open_stream.
  match goal with |- context [send_to_channel ?m ?s] =>
    assert (Hq : orphaned (send_to_channel m s).2 id r k)
      by (apply orphaned_queue, orphaned_hub; [done|done|cbn; set_solver]);
    destruct (send_to_channel m s) as [[] sys1] end; cbn in Hq;
    (apply orphaned_hub; [done|cbn; by rewrite lookup_insert_ne|cbn; set_solver]).
Qed.

(** A message for the stream could only come over its own channel. *)
Lemma orphaned_message sys id r k j c m rest : agent_inv sys -> orphaned sys id r k ->
  conns sys !! j = Some c -> is_serving c = true -> to_hub c = m :: rest ->
  orphaned (with_hub (hub_message m (hub sys))
    (update_conn j {| serve := serve c; channel_rx := channel_rx c; to_relay := to_relay c;
                      to_hub := rest; relay := relay c |} sys)) id r k.
Proof.
  intros Hinv Ho Hc Hserv Hq. pose proof Ho as [H1 (H2 & H3 & H4) Hvia (ck & Hk & Hd)].
  assert (Hm : msg_id m <> Some id).
  { intros Hm. destruct (co_about _ _ _ (ai_conns _ Hinv j c Hc) id m) as [t Ht]; [unfold up; rewrite Hq; set_solver|done|].
    destruct (task_relay _ _ _ _ _ Hinv Hc Ht) as (r' & Hr' & Hv' & _).
    assert (c = ck) as -> by congruence. destruct Hd as [Hd|[Hd _]]; congruence. }
  assert (Hhub : relays (hub_message m (hub sys)) !! id = relays (hub sys) !! id /\
                 (id ∈ streams (hub sys) -> id ∈ streams (hub_message m (hub sys)))).
  { destruct m as [| | | | | | | |i|i d|i]; try done; cbn in Hm |- *.
    - case_bool_decide; [|done]. destruct (relays (hub sys) !! i) as [ri|]; [|done]. destruct (relay_done ri); [done|].
      cbn. rewrite lookup_insert_ne by congruence. done.
    - split; [done|]. intros Hin. apply elem_of_difference. split; [done|]. rewrite elem_of_singleton. congruence. }
  change (orphaned (with_hub (hub_message m (hub sys)) (update_conn j {| serve := serve c;
    channel_rx := channel_rx c; to_relay := to_relay c; to_hub := rest; relay := relay c |} sys)) id r k).
  apply orphaned_hub; [|apply Hhub|apply Hhub]. eapply orphaned_update; [done|exact Hc|].
  unfold dead_end, is_serving in *. cbn. rewrite Hq. intros [?|[? _]]; [by left|done].
Qed.

(** The client's tasks bring nothing on a relay that has returned. *)
Lemma send_outbound_relaying m r : relaying (send_outbound m r).2 = relaying r.
Proof. unfold send_outbound. by destruct (relaying r) eqn:Hr; cbn. Qed.

Lemma dead_end_client c r' : relaying r' = relaying (relay c) -> dead_end c -> dead_end (with_client r' c).
Proof. unfold dead_end, is_serving. cbn. intros ->. done. Qed.

Lemma task_steps_relaying id r r' connected res w :
  task_dial id connected r = Some r' \/ task_read id res r = Some r' \/ task_write id w r = Some r' ->
  relaying r' = relaying r.
Proof.
  intros [Hs|[Hs|Hs]]; revert Hs; unfold task_dial, task_read, task_write, close_task;
    (destruct (agents r !! id) as [t|]; [|done]); (destruct (_ || _); [done|]).
  - destruct connected; intros [= <-]; [done|]. by rewrite send_outbound_relaying.
  - destruct res as [[|x data]|]; try (intros [= <-]; by rewrite send_outbound_relaying).
    match goal with |- context [send_outbound ?m ?s] => pose proof (send_outbound_relaying m s) as Hs;
      destruct (send_outbound m s) as [[] r1] end; cbn in Hs; by intros [= <-].
  - destruct (task_rx t); [destruct (bool_decide _); [done|]|destruct w]; intros [= <-]; try done;
      by rewrite send_outbound_relaying.
Qed.

Lemma orphaned_step sys ev sys' id r k : agent_inv sys -> orphaned sys id r k ->
  (forall res, ev <> ProgramSends id res) -> agent_step sys ev = Some sys' -> orphaned sys' id r k.
Proof.
  intros Hinv Ho Hev. destruct ev; cbn [agent_step].
  - intros [= <-]. by apply orphaned_open.
  - apply orphaned_read; [done|]. intros ->. by eapply Hev.
  - by apply orphaned_write.
  - intros [= <-]. destruct Ho as [H1 H2 H3 (c & Hc & Hd)]. split; [done..|]. exists c. cbn.
    rewrite lookup_app_l by (by eapply lookup_lt_Some). done.
  - apply orphaned_on_conn; [done|]. intros c c' Hs. unfold serve_outbound. destruct (channel_rx c); [done|].
    intros [= <-]. destruct sent; intros [?|?]; [congruence|by right|by left|by left].
  - destruct (conns sys !! k0) as [c|] eqn:Hc; [|done]. destruct (is_serving c) eqn:Hs; [|done].
    destruct (to_hub c) as [|m rest] eqn:Hq; [done|]. intros [= <-]. by apply orphaned_message.
  - apply orphaned_on_conn; [done|]. intros c c' _ [= <-] _. by left.
  - destruct (conns sys !! k0) as [c|] eqn:Hc; [|done]. destruct (is_ending c); [|done]. intros [= <-].
    change (orphaned (with_hub {| channel := if bool_decide (channel (hub sys) = Some k0) then None
      else channel (hub sys); streams := streams (hub sys); next_id := next_id (hub sys);
      relays := relays (hub sys) |} (update_conn k0 {| serve := Gone; channel_rx := []; to_relay := to_relay c;
      to_hub := to_hub c; relay := relay c |} sys)) id r k).
    apply orphaned_hub; [|done|done]. eapply orphaned_update; [done|exact Hc|]. intros _. by left.
  - apply orphaned_on_conn; [done|]. intros c c' Hr. destruct (to_relay c); [done|]. intros [= <-].
    intros [?|[_ ?]]; [by left|congruence].
  - apply orphaned_on_conn; [done|]. intros c c' Hr. unfold client_outbound. destruct (outbound (relay c)); [done|].
    intros [= <-] [?|[_ ?]]; [by left|congruence].
  - apply orphaned_on_conn; [done|]. intros c c' Hr [= <-] [?|[? _]]; [by left|by right].
  - apply orphaned_on_conn; [done|]. intros c c' _ (r' & Hr' & ->)%fmap_Some. apply dead_end_client.
    by apply (task_steps_relaying id0 _ _ connected ReadErr WroteAll); left.
  - apply orphaned_on_conn; [done|]. intros c c' _ (r' & Hr' & ->)%fmap_Some. apply dead_end_client.
    by apply (task_steps_relaying id0 _ _ true res WroteAll); right; left.
  - apply orphaned_on_conn; [done|]. intros c c' _ (r' & Hr' & ->)%fmap_Some. apply dead_end_client.
    by apply (task_steps_relaying id0 _ _ true ReadErr w); right; right.
Qed.

(** C37: a reconnect of the agent channel leaves requests in flight hanging.  If
    a program waits for its agent on a stream whose channel can bring no more
    messages (its loop ended, or the client's relay returned), then whatever
    happens afterwards, new channels and new streams included, as long as the
    program keeps waiting it gets neither an answer nor the end of its
    connection: the relay of its stream never changes again. *)
Theorem reconnect_orphans_requests (evs evs' : list AgentEvent) (sys sys' : AgentSys) (id : Z) (r : Relay) (k : nat) :
  agent_run agent_start evs = Some sys -> len evs + len evs' + 1 < u64_modulus ->
  orphaned sys id r k ->
  Forall (fun ev => forall res, ev <> ProgramSends id res) evs' ->
  agent_run sys evs' = Some sys' ->
  relays (hub sys') !! id = Some r /\ relay_done r = false /\ id ∈ streams (hub sys').
Proof.
  intros Hrun Hb Ho Hwait Hrun'.
  assert (Hall : forall evs0 sys0, agent_inv sys0 -> 1 <= next_id (hub sys0) ->
    next_id (hub sys0) + len evs0 < u64_modulus -> orphaned sys0 id r k ->
    Forall (fun ev => forall res, ev <> ProgramSends id res) evs0 ->
    agent_run sys0 evs0 = Some sys' -> orphaned sys' id r k).
  { clear. induction evs0 as [|ev evs0 IH]; intros sys0 Hinv Hid Hb Ho Hw; cbn [agent_run]; [by intros [= <-]|].
    inversion Hw as [|? ? Hev Hw']; subst. destruct (agent_step sys0 ev) as [sys1|] eqn:Hs; [|done].
    rewrite len_cons in Hb. pose proof (len_nonneg evs0).
    pose proof (agent_step_next sys0 ev sys1 Hinv ltac:(lia) Hs).
    apply IH; [eapply agent_step_inv; [done|lia|done]|lia|lia|by eapply orphaned_step|done]. }
  destruct (agent_run_next evs agent_start sys) as [Hinv Hnext];
    [apply agent_start_inv|cbn; lia|cbn; len_lia|done|].
  destruct (Hall evs' sys) as [H1 [H2 [H3 H4]] _ _]; [done|cbn in Hnext; lia|cbn in Hnext; lia|done|done|done|done].
Qed.

(** The request of stream 1 was sent over channel 0, which broke; channel 1 then
    serves stream 2 completely. *)
Definition broken_request : list AgentEvent :=
  [ChannelAttaches; ProgramConnects; ServerSends 0 true; ProgramSends 1 (ReadOk [1; 2]); ServerLoses 0;
   ServerDetaches 0; ClientLoses 0; ChannelAttaches].

Lemma reconnect_orphans_requests_witness :
  exists sys sys' r, agent_run agent_start broken_request = Some sys /\ orphaned sys 1 r 0 /\
    agent_run sys (round_trip 1 2) = Some sys' /\
    to_program <$> relays (hub sys') !! 2 = Some [9] /\
    from_program r = [1; 2] /\ to_program r = [] /\
    relays (hub sys') !! 1 = Some r /\ relay_done r = false /\ 1 ∈ streams (hub sys').
Proof.
  destruct (agent_run agent_start broken_request) as [sys|] eqn:Hrun; [|vm_compute in Hrun; discriminate].
  destruct (agent_run sys (round_trip 1 2)) as [sys'|] eqn:Hrun'.
  2: { exfalso. revert Hrun'. vm_compute in Hrun. injection Hrun as <-. vm_compute. discriminate. }
  pose (r := {| via := Some 0%nat; from_program := [1; 2]; write_rx := []; to_program := []; relay_done := false |}).
  assert (Ho : orphaned sys 1 r 0).
  { clear Hrun'. vm_compute in Hrun. injection Hrun as <-. split; [reflexivity| |reflexivity|].
    - split; [set_solver|split; reflexivity].
    - eexists. split; [reflexivity|]. left. reflexivity. }
  exists sys, sys', r. split; [reflexivity|]. split; [exact Ho|]. split; [exact Hrun'|].
  split; [vm_compute in Hrun; injection Hrun as <-; vm_compute in Hrun'; injection Hrun' as <-; reflexivity|].
  split; [reflexivity|]. split; [reflexivity|].
  apply (reconnect_orphans_requests broken_request (round_trip 1 2) sys sys' 1 r 0);
    [exact Hrun|reflexivity|exact Ho|repeat constructor; intros res Heq; discriminate Heq|exact Hrun'].
Defined.
