(* ===== verification/AgentSetup.v ===== *)
(** * Setting agent forwarding up ([SharedAgentHub], [AgentHub::start],
    [channel_attached] in [server/src/agent.rs]; [forward_agent],
    [connect_agent_channel] in [client/src/agent.rs])

    The hub is created once per server, on a stable path if there is a runtime
    directory; the client attaches its agent channel with a handshake of its own
    and tries again one second after whatever ended the last one. *)

From S2P Require Import Prelude Proto OutboundLog Session Channel Target RunExec Agent.

Local Open Scope rust_scope.

(** ** The server's hub *)

Definition CHANNEL_WAIT : Z := 5000.

(** What the file system answers while the hub starts: the temporary directory
    ([None] if it cannot be created), whether the path is taken, whether what is
    there can be removed, and whether the socket can be bound. *)
Record HubEnv := {
  tempdir : option bytes;
  path_exists : bytes -> bool;
  removed : bool;
  bound : bool;
}.

(** [AgentHub::start]: the socket's path and the new hub. *)
Definition agent_hub_start (runtime_dir : option bytes) (env : HubEnv) : result (bytes * AgentHub) unit :=
  let? socket_path :=
    match runtime_dir with
    | Some dir =>
        let socket_path := path_join dir (as_bytes "agent.sock") in
        if path_exists env socket_path && negb (removed env) then Err tt else Ok socket_path
    | None =>
        let? dir := ok_or (tempdir env) tt in
        Ok (path_join dir (as_bytes "agent.sock"))
    end in
  if bound env then Ok (socket_path, hub_start) else Err tt.

(** [SharedAgentHub]. *)
Record SharedAgentHub := {
  runtime_dir : option bytes;
  shared_hub : option (bytes * AgentHub);
}.

Definition shared_agent_hub_new (runtime_dir : option bytes) : SharedAgentHub :=
  {| runtime_dir := runtime_dir; shared_hub := None |}.

Definition get_or_start (env : HubEnv) (s : SharedAgentHub) : result (bytes * AgentHub) unit * SharedAgentHub :=
  match shared_hub s with
  | Some hub => (Ok hub, s)
  | None =>
      match agent_hub_start (runtime_dir s) env with
      | Ok hub => (Ok hub, {| runtime_dir := runtime_dir s; shared_hub := Some hub |})
      | Err e => (Err e, s)
      end
  end.

(** [channel_attached]: whether a channel is attached within [CHANNEL_WAIT] of
    [start]; [attached_at] is when the next one attaches. *)
Definition channel_attached (start : Z) (h : AgentHub) (attached_at : option Z) : bool :=
  match channel h with
  | Some _ => true
  | None => match attached_at with Some t => t <? start + CHANNEL_WAIT | None => false end
  end.

(** ** The client's agent channel *)

Definition RECONNECT_DELAY : Z := 1000.

Section Client.
Context `{TransportLib} `{WireLib} `{!Serde Welcome}.

(** [connect_agent_channel]: the token, the connection, the two sends and the
    Welcome; [None] while the answer is pending (there is no timeout). *)
Definition connect_agent_channel (token : result string ClientError) (conn : result Items ClientError)
    (hello_ok request_ok : result unit ClientError) : option (result Items ClientError) :=
  match (let? _ := token in let? conn := conn in let? _ := hello_ok in let? _ := request_ok in Ok conn) with
  | Err e => Some (Err e)
  | Ok conn =>
      match RunExec.recv (T:=Welcome) conn with
      | (None, _) => None
      | (Some (Err e), _) => Some (Err e)
      | (Some (Ok _), conn) => Some (Ok conn)
      end
  end.

(** [forward_agent]: an attempt either ends in a relay, which runs until
    its connection drops, or fails; both are followed by a pause and the next
    attempt. *)
Inductive Forward : Type :=
| Attempting
| RelayingOn (conn : Items)
| Pausing (until : Z).

Definition forward_agent (now : Z) (attempt : option (result Items ClientError)) (dropped : bool)
    (st : Forward) : Forward :=
  match st with
  | Attempting =>
      match attempt with
      | Some (Ok conn) => RelayingOn conn
      | Some (Err _) => Pausing (now + RECONNECT_DELAY)
      | None => Attempting
      end
  | RelayingOn conn => if dropped then Pausing (now + RECONNECT_DELAY) else RelayingOn conn
  | Pausing until => if until <=? now then Attempting else Pausing until
  end.

End Client.

(** A started hub is kept, whatever the file system answers later. *)
Lemma get_or_start_stable env env' s hub s' : get_or_start env s = (Ok hub, s') ->
  get_or_start env' s' = (Ok hub, s').
Proof.
  unfold get_or_start. destruct (shared_hub s) as [h|] eqn:Hs.
  - intros [= <- <-]. by rewrite Hs.
  - destruct (agent_hub_start _ _) as [h|e]; [|done]. by intros [= <- <-].
Qed.
