(* ===== verification/Daemon.v ===== *)
(** * The running server ([Server], [handle_channel], [attach], [expire_sessions]
    in [server/src/lib.rs])

    All of the server's tasks over one shared state: connections that
    authenticate and attach, the attach loops, the sessions' own tasks, agent
    channels and the expiry sweep.  A handshake and one iteration of an attach
    loop are one step each; the creation and the drop of an attach guard are two
    steps each, the two atomic operations they consist of, between which
    anything else may happen. *)

From S2P Require Import Prelude Proto Auth OutboundLog Session Exec Channel Registry Attach Handover.

Local Open Scope rust_scope.

(** ** State *)

(** What a connection does after its handshake: stream a session, serve as its
    agent channel, or nothing any more: its function has returned.  In all cases
    it has an attach guard on the session, or is about to create or drop it. *)
Inductive Role : Type :=
| Streams (token : string) (a : Attach)
| Forwards
| Over.

Record Connection := {
  on : nat;
  role : Role;
  guard : GuardPc;
}.

(** The connection after an operation of its guard; its task ends with the
    last. *)
Definition guarded (pc : GuardPc) (c : Connection) : option Connection :=
  match pc with Dropped => None | _ => Some {| on := on c; role := role c; guard := pc |} end.

(** The guard is dropped only when the function returns. *)
Definition may_move (c : Connection) : bool :=
  match guard c, role c with Held, Over => true | Held, _ => false | _, _ => true end.

Section Daemon.
Context `{TL : TransportLib} `{WL : WireLib} `{HL : HttpLib}
  `{SM : !Serde ChannelMessage} `{SH : !Serde Hello} `{SR : !Serde ExecRequest}.

(** [Server], with the connections it accepted: [None] once their task ended. *)
Record Daemon := {
  server : Server;
  authn : Auth;
  world : World;
  connections : list (option Connection);
}.

Definition daemon_start (sv : Server) (au : Auth) (w : World) : Daemon :=
  {| server := sv; authn := au; world := w; connections := [] |}.

Definition no_sessions : Server :=
  {| sessions := ∅; objects := ∅; tasks := ∅; token_counter := 0 |}.

Definition with_objects (h : heap) (sv : Server) : Server :=
  {| sessions := sessions sv; objects := h; tasks := tasks sv; token_counter := token_counter sv |}.

Definition forget (remove_it : bool) (token : string) (sv : Server) : Server :=
  {| sessions := if remove_it then remove token (sessions sv) else sessions sv; objects := objects sv;
     tasks := tasks sv; token_counter := token_counter sv |}.

(** ** Steps *)

Inductive DaemonEvent : Type :=
| Accepts (ch : Items) (welcome_ok started_ok : bool) (env : ExecEnv) (now : Z)
| Guards (i : nat) (now : Z)
| Flushes (i : nat) (sent : bool)
| Reacts (i : nat) (needs_ping : bool) (ev : AttachEvent)
| ChannelEnds (i : nat)
| TaskSteps (addr : nat) (ev : TaskEvent)
| Sweeps (now : Z).

(** Connection [i] goes on as [c], or its task has ended. *)
Definition settle (i : nat) (c : option Connection) (sv : Server) (d : Daemon) : Daemon :=
  {| server := sv; authn := authn d; world := world d; connections := <[i := c]> (connections d) |}.

(** [handle_channel]: the handshake, and the function it leads to, which starts
    with the creation of a guard; [attach] returns at once if [Started] cannot
    be sent. *)
Definition accepts (ch : Items) (welcome_ok started_ok : bool) (env : ExecEnv) (now : Z) (d : Daemon) : Daemon :=
  let '(h, au, w, sv) := handle_connection ch (authn d) (world d) welcome_ok (server d) env in
  let c :=
    match h with
    | Accepted _ (AttachTo token addr sent_up_to) _ =>
        Some {| on := addr; guard := Idle;
                role := if started_ok then Streams token (attach_start sent_up_to now) else Over |}
    | Accepted _ (AgentOf addr) _ => Some {| on := addr; guard := Idle; role := Forwards |}
    | _ => None
    end in
  {| server := sv; authn := au; world := w; connections := connections d ++ [c] |}.

(** A session is referenced by the registry and by the connections on it. *)
Definition referenced (addr : nat) (d : Daemon) : bool :=
  existsb (fun '(_, a) => bool_decide (a = addr)) (entries (sessions (server d))) ||
  existsb (fun c => match c with Some c => bool_decide (on c = addr) | None => false end) (connections d).

Definition daemon_step (timeout : Z) (d : Daemon) (ev : DaemonEvent) : option Daemon :=
  let sv := server d in
  match ev with
  | Accepts ch welcome_ok started_ok env now => Some (accepts ch welcome_ok started_ok env now d)
  | Guards i now =>
      match connections d !! i with
      | Some (Some c) =>
          match objects sv !! on c with
          | Some s =>
              if may_move c then
                match guard_moves now (guard c) s with
                | Some (pc, s) => Some (settle i (guarded pc c) (with_objects (<[on c := s]> (objects sv)) sv) d)
                | None => None
                end
              else None
          | None => None
          end
      | _ => None
      end
  | Flushes i sent =>
      match connections d !! i with
      | Some (Some {| on := addr; role := Streams token a; guard := Held |}) =>
          match objects sv !! addr with
          | Some s =>
              let role := if sent then Streams token (flush s a).2 else Over in
              Some (settle i (Some {| on := addr; role := role; guard := Held |}) sv d)
          | None => None
          end
      | _ => None
      end
  | Reacts i needs_ping ev =>
      match connections d !! i with
      | Some (Some {| on := addr; role := Streams token a; guard := Held |}) =>
          match objects sv !! addr with
          | Some s =>
              match react needs_ping s a ev with
              | Some r =>
                  let sv := forget (r_remove r) token (with_objects (<[addr := r_session r]> (objects sv)) sv) in
                  let role := match r_result r with None => Streams token (r_attach r) | Some _ => Over end in
                  Some (settle i (Some {| on := addr; role := role; guard := Held |}) sv d)
              | None => None
              end
          | None => None
          end
      | _ => None
      end
  | ChannelEnds i =>
      match connections d !! i with
      | Some (Some {| on := addr; role := Forwards; guard := Held |}) =>
          Some (settle i (Some {| on := addr; role := Over; guard := Held |}) sv d)
      | _ => None
      end
  | TaskSteps addr ev =>
      match objects sv !! addr, tasks sv !! addr with
      | Some s, Some t =>
          if match ev with InboundDropped => referenced addr d | _ => false end then None
          else
            match task_step s t ev with
            | Some (s, t, _, status) =>
                Some {| server := {| sessions := sessions sv; objects := <[addr := s]> (objects sv);
                                     tasks := match status with
                                              | Running => <[addr := t]> (tasks sv)
                                              | Returned => delete addr (tasks sv)
                                              end;
                                     token_counter := token_counter sv |};
                        authn := authn d; world := world d; connections := connections d |}
            | None => None
            end
      | _, _ => None
      end
  | Sweeps now =>
      let '(r, h) := expire_sweep timeout now (sessions sv) (objects sv) in
      Some {| server := {| sessions := r; objects := h; tasks := tasks sv; token_counter := token_counter sv |};
              authn := authn d; world := world d; connections := connections d |}
  end.

Fixpoint daemon_run (timeout : Z) (d : Daemon) (evs : list DaemonEvent) : option Daemon :=
  match evs with
  | [] => Some d
  | ev :: evs => match daemon_step timeout d ev with Some d => daemon_run timeout d evs | None => None end
  end.

End Daemon.
