(* ===== verification/DaemonInv.v ===== *)
(** * The server's state stays well formed

    The invariant of [Daemon]: the registry, the sessions, their tasks and the
    guards of their connections agree with each other in every reachable state,
    whatever runs between the two operations of a guard's creation or drop. *)

From stdpp Require Import gmap.
From S2P Require Import Prelude Proto Auth OutboundLog Session Exec Channel Registry Attach Handover Daemon.

(** ** Counting guards *)

(** The connections on a session whose guard is counted. *)
Definition counts (addr : nat) (c : option Connection) : Z :=
  match c with Some c => if bool_decide (on c = addr) && counted (guard c) then 1 else 0 | None => 0 end.
Definition count_on (addr : nat) (l : list (option Connection)) : Z := foldr (fun c n => counts addr c + n) 0 l.

(** A connection on the session whose guard is counted, or is about to set the
    detach time. *)
Definition visited (addr : nat) (l : list (option Connection)) : Prop :=
  exists i c, l !! i = Some (Some c) /\ on c = addr /\ pending (guard c).

Lemma counts_range addr c : 0 <= counts addr c <= 1.
Proof. unfold counts. destruct c as [c|]; [|lia]. destruct (_ && _); lia. Qed.

Lemma counts_elsewhere addr c : on c <> addr -> counts addr (Some c) = 0.
Proof. intros Hne. cbn. by rewrite bool_decide_eq_false_2. Qed.

Lemma counts_on c : counts (on c) (Some c) = if counted (guard c) then 1 else 0.
Proof. cbn. by rewrite bool_decide_eq_true_2. Qed.

Lemma count_on_nonneg addr l : 0 <= count_on addr l.
Proof. induction l as [|c l IH]; cbn; [lia|]. pose proof (counts_range addr c). fold (count_on addr l). lia. Qed.

Lemma count_on_snoc addr l c : count_on addr (l ++ [c]) = count_on addr l + counts addr c.
Proof. induction l as [|x l IH]; cbn; [lia|]. fold (count_on addr (l ++ [c])) (count_on addr l). lia. Qed.

Lemma count_on_insert addr l i c c' : l !! i = Some c ->
  count_on addr (<[i := c']> l) = count_on addr l - counts addr c + counts addr c'.
Proof.
  revert i. induction l as [|x l IH]; intros [|i] Hi; try done.
  - injection Hi as ->. cbn. lia.
  - specialize (IH i Hi). cbn. change (counts addr x + count_on addr (<[i := c']> l) =
      counts addr x + count_on addr l - counts addr c + counts addr c'). lia.
Qed.

Lemma count_on_zero addr l : (forall i c, l !! i = Some (Some c) -> on c <> addr) -> count_on addr l = 0.
Proof.
  induction l as [|x l IH]; intros Hno; [done|]. cbn. fold (count_on addr l).
  rewrite IH by (intros i c Hi; exact (Hno (S i) c Hi)). destruct x as [c|]; [|done].
  rewrite counts_elsewhere; [done|]. exact (Hno 0%nat c eq_refl).
Qed.

Lemma count_on_visited addr l : 0 < count_on addr l -> visited addr l.
Proof.
  induction l as [|x l IH]; cbn; [lia|]. fold (count_on addr l). intros Hpos.
  destruct (Z_lt_le_dec 0 (count_on addr l)) as [Hl|Hl].
  - destruct (IH Hl) as (i & c & Hi & Hc). by exists (S i), c.
  - unfold counts in Hpos. destruct x as [c|]; [|lia]. exists 0%nat, c. split; [done|].
    case_bool_decide as Hon; [|cbn in Hpos; lia]. split; [done|].
    destruct (guard c); cbn in Hpos |- *; done || lia.
Qed.

(** Another connection on the session keeps it visited. *)
Lemma visited_insert addr l i c c' : l !! i = Some (Some c) -> on c <> addr -> visited addr l ->
  visited addr (<[i := c']> l).
Proof.
  intros Hi Hne (j & x & Hj & Hx). exists j, x. rewrite list_lookup_insert_ne; [done|].
  intros ->. rewrite Hj in Hi. injection Hi as ->. by destruct Hx.
Qed.

Lemma visited_snoc addr l c : visited addr l -> visited addr (l ++ [c]).
Proof. intros (i & x & Hi & Hx). exists i, x. split; [by apply lookup_app_l_Some|done]. Qed.

(** ** What the steps leave of a session *)

(** The guards' fields and the input queue's end. *)
Definition guarded_alike (s s' : Session) : Prop :=
  attached s' = attached s /\ detached_at s' = detached_at s /\ inbound_closed s' = inbound_closed s.

Lemma guarded_alike_refl s : guarded_alike s s.
Proof. by split_and!. Qed.

Lemma with_log_alike l s : guarded_alike s (with_log l s).
Proof. by split_and!. Qed.

#[local] Hint Resolve guarded_alike_refl with_log_alike : core.

Lemma send_input_alike x s : guarded_alike s (send_input x s).1.
Proof. unfold send_input. destruct (inbound_closed s) eqn:Hc; [done|]. by split_and!. Qed.

Section React.
Context `{TL : TransportLib} `{WL : WireLib} `{HL : HttpLib} `{SM : !Serde ChannelMessage}.

Lemma lost_alike s a r : guarded_alike s (r_session (lost s a r)).
Proof. unfold lost. destruct (resumable s); [done|]. apply send_input_alike. Qed.

Lemma react_alike np s a ev r : react np s a ev = Some r -> guarded_alike s (r_session r).
Proof.
  destruct ev as [now ping_ok|is_err|now ev]; cbn [react].
  - destruct np; [|done]. destruct (_ <=? _); [intros [= <-]; apply lost_alike|].
    destruct ping_ok; by intros [= <-].
  - destruct (exit_seq a); [done|]. destruct (_ && _); by intros [= <-].
  - intros [= <-]. destruct ev as [bs|bs| |e]; cbn [on_event].
    + destruct (decode bs) as [m|e]; [|done]. unfold on_message.
      destruct m; try apply send_input_alike. destruct (match _ with Some _ => _ | None => _ end); done.
    + destruct (decode bs); [apply send_input_alike|done].
    + apply lost_alike.
    + apply lost_alike.
Qed.

End React.

Lemma task_step_alike s t ev s' t' effs st : task_step s t ev = Some (s', t', effs, st) ->
  inbound_closed s = false ->
  attached s' = attached s /\ detached_at s' = detached_at s /\
  inbound_closed s' = match st with Running => false | Returned => true end.
Proof.
  unfold task_step. intros Hstep Hc. revert Hstep.
  assert (Hfin : forall s1 t1 effs1, guarded_alike s s1 ->
    (let '(s, t, effs', status) := finish s1 t1 in Some (s, t, effs1 ++ effs', status)) =
      Some (s', t', effs, st) -> attached s' = attached s /\ detached_at s' = detached_at s /\
      inbound_closed s' = match st with Running => false | Returned => true end).
  { intros s1 t1 effs1 (H1 & H2 & H3). unfold finish. destruct (exit_code t1).
    - destruct (negb _ && negb _); intros [= <- _ _ <-]; cbn; split_and!; congruence.
    - intros [= <- _ _ <-]. split_and!; congruence. }
  destruct ev as [r|r|r|w reclaim|]; cbn [select].
  - destruct (stdout_open t); [|done]. destruct r as [[|b r]|]; by apply Hfin.
  - destruct (stderr_open t); [|done]. destruct r as [[|b r]|]; by apply Hfin.
  - case_bool_decide; [|done]. destruct (read_exit t r). by apply Hfin.
  - destruct (inbound s) as [|[[]|[]| |] rest]; cbn [handle_input]; try done; try by apply (Hfin _ _ []).
    + destruct (_ <? _); by apply (Hfin _ _ []).
    + destruct (_ <? _); by apply (Hfin _ _ []).
    + destruct (_ =? _); by apply (Hfin _ _ []).
    + by intros [= <- _ _ <-].
    + by intros [= <- _ _ <-].
  - destruct (inbound s); [|done]. by intros [= <- _ _ <-].
Qed.

(** The sessions of a heap changed in place, each by [R]. *)
Definition in_place (R : Session -> Session -> Prop) (h h' : heap) : Prop :=
  forall addr, match h !! addr with
               | Some s => exists s', h' !! addr = Some s' /\ R s s'
               | None => h' !! addr = None
               end.

Section InPlace.
Variable R : Session -> Session -> Prop.
Hypothesis R_refl : forall s, R s s.
Hypothesis R_trans : forall s1 s2 s3, R s1 s2 -> R s2 s3 -> R s1 s3.

Lemma in_place_refl h : in_place R h h.
Proof. intros a. destruct (h !! a) as [s|]; [by exists s|done]. Qed.

Lemma in_place_trans h1 h2 h3 : in_place R h1 h2 -> in_place R h2 h3 -> in_place R h1 h3.
Proof.
  intros H1 H2 a. specialize (H1 a). specialize (H2 a). destruct (h1 !! a) as [s|].
  - destruct H1 as (s' & Hs' & HR). rewrite Hs' in H2. destruct H2 as (s2 & Hs2 & HR2). by eauto.
  - by rewrite H1 in H2.
Qed.

Lemma in_place_insert h addr s s' : h !! addr = Some s -> R s s' -> in_place R h (<[addr := s']> h).
Proof.
  intros Hs HR a. destruct (decide (addr = a)) as [<-|].
  - rewrite Hs, lookup_insert_eq. by exists s'.
  - rewrite lookup_insert_ne by done. destruct (h !! a) as [x|]; [by exists x|done].
Qed.

Lemma in_place_modify h addr f : (forall s, R s (f s)) -> in_place R h (modify addr f h).
Proof.
  intros Hf a. unfold modify. destruct (decide (addr = a)) as [<-|].
  - rewrite lookup_alter_eq. destruct (h !! addr) as [s|]; [by exists (f s)|done].
  - rewrite lookup_alter_ne by done. destruct (h !! a) as [x|]; [by exists x|done].
Qed.

Lemma in_place_sweep timeout now r h : (forall s, R s (send_input Abort s).1) ->
  in_place R h (expire_sweep timeout now r h).2.
Proof.
  intros Hf. unfold expire_sweep. generalize (expired timeout now r h). intros xs. revert r h.
  induction xs as [|[tk ad] xs IH]; intros r h; cbn [fold_left]; [apply in_place_refl|].
  eapply in_place_trans; [|apply IH]. by apply in_place_modify.
Qed.

End InPlace.

Lemma guarded_alike_trans s1 s2 s3 : guarded_alike s1 s2 -> guarded_alike s2 s3 -> guarded_alike s1 s3.
Proof. intros (H1 & H2 & H3) (G1 & G2 & G3). unfold guarded_alike. split_and!; congruence. Qed.

(** ** The invariant *)

Section Invariant.
Context `{TL : TransportLib} `{WL : WireLib} `{HL : HttpLib}
  `{SM : !Serde ChannelMessage} `{SH : !Serde Hello} `{SR : !Serde ExecRequest}.

(** A token this process has issued, or cannot issue. *)
Definition spent (pid counter : Z) (token : string) : Prop :=
  forall nanos c, 0 <= nanos -> counter <= c -> token <> (new_resume_token pid nanos c).1.

(** A connection's session exists, and the token it resumes names that session
    or none any more. *)
Definition conn_ok (pid : Z) (sv : Server) (c : Connection) : Prop :=
  is_Some (objects sv !! on c) /\
  forall token a, role c = Streams token a ->
    spent pid (token_counter sv) token /\ (forall addr, sessions sv !! token = Some addr -> addr = on c).

Record server_ok (pid : Z) (sv : Server) (conns : list (option Connection)) : Prop := {
  so_registered : forall token addr, sessions sv !! token = Some addr -> is_Some (objects sv !! addr);
  so_one_token : forall t1 t2 addr, sessions sv !! t1 = Some addr -> sessions sv !! t2 = Some addr -> t1 = t2;
  so_spent : forall token addr, sessions sv !! token = Some addr -> spent pid (token_counter sv) token;
  so_conns : forall i c, conns !! i = Some (Some c) -> conn_ok pid sv c;
  so_tasks : forall addr, is_Some (tasks sv !! addr) -> is_Some (objects sv !! addr);
  so_running : forall addr s, objects sv !! addr = Some s -> (is_Some (tasks sv !! addr) <-> inbound_closed s = false);
  so_count : forall addr s, objects sv !! addr = Some s -> attached s = count_on addr conns;
  so_detached : forall addr s, objects sv !! addr = Some s -> detached_at s = None -> visited addr conns;
}.

Definition daemon_ok (pid : Z) (d : Daemon) : Prop := server_ok pid (server d) (connections d).

Lemma no_sessions_ok pid : server_ok pid no_sessions [].
Proof. split; cbn; intros *; rewrite ?lookup_empty; done. Qed.

(** Sessions changed in place, tokens at most removed. *)
Lemma server_ok_in_place pid sv sv' conns : server_ok pid sv conns ->
  (forall token addr, sessions sv' !! token = Some addr -> sessions sv !! token = Some addr) ->
  tasks sv' = tasks sv -> token_counter sv' = token_counter sv ->
  in_place guarded_alike (objects sv) (objects sv') -> server_ok pid sv' conns.
Proof.
  intros [H1 H2 H3 H4 H5 H6 H7 H8] Hreg Htasks Hcounter Hobj.
  assert (Hdom : forall addr, is_Some (objects sv !! addr) -> is_Some (objects sv' !! addr)).
  { intros addr [s Hs]. specialize (Hobj addr). rewrite Hs in Hobj. destruct Hobj as (s' & -> & _). by eexists. }
  assert (Hback : forall addr s', objects sv' !! addr = Some s' -> exists s, objects sv !! addr = Some s /\ guarded_alike s s').
  { intros addr s' Hs'. specialize (Hobj addr). destruct (objects sv !! addr) as [s|]; [|congruence].
    destruct Hobj as (s2 & Hs2 & Hg). exists s. split; [done|]. congruence. }
  split; rewrite ?Htasks, ?Hcounter; [eauto..| |eauto| | |].
  - intros i c Hi. destruct (H4 i c Hi) as [Hc Ht]. split; [by apply Hdom|]. rewrite Hcounter.
    intros token a Hr. destruct (Ht token a Hr) as [Hsp Hn]. split; [done|]. eauto.
  - intros addr s' Hs'. destruct (Hback addr s' Hs') as (s & Hs & _ & _ & ->). by apply H6.
  - intros addr s' Hs'. destruct (Hback addr s' Hs') as (s & Hs & -> & _ & _). by apply H7.
  - intros addr s' Hs'. destruct (Hback addr s' Hs') as (s & Hs & _ & -> & _). by apply (H8 addr).
Qed.

(** A connection goes on, its guard as it was. *)
Definition goes_on (c c' : Connection) : Prop :=
  on c' = on c /\ guard c' = guard c /\ forall token a, role c' = Streams token a -> exists a0, role c = Streams token a0.

Lemma server_ok_replace pid sv conns i c c' : server_ok pid sv conns -> conns !! i = Some (Some c) ->
  goes_on c c' -> server_ok pid sv (<[i := Some c']> conns).
Proof.
  intros [H1 H2 H3 H4 H5 H6 H7 H8] Hi (Hon & Hg & Hrole). split; [done..| |done|done| |].
  - intros j x [(<- & [= <-] & _)|[_ Hj]]%list_lookup_insert_Some; [|by eapply H4].
    destruct (H4 i c Hi) as [Hc Ht]. split; [by rewrite Hon|]. intros token a Hr. rewrite Hon.
    destruct (Hrole token a Hr) as [a0 Hr0]. by eapply Ht.
  - intros addr s Hs. rewrite (count_on_insert _ _ _ _ _ Hi). cbn. rewrite Hon, Hg, (H7 addr s Hs). lia.
  - intros addr s Hs Hd. destruct (H8 addr s Hs Hd) as (j & x & Hj & Hx). destruct (decide (i = j)) as [<-|Hne].
    + exists i, c'. rewrite Hi in Hj. injection Hj as <-. rewrite Hon, Hg. split; [|done].
      apply list_lookup_insert_eq. by eapply lookup_lt_Some.
    + exists j, x. by rewrite list_lookup_insert_ne.
Qed.

(** A connection that has only made its handshake, or none. *)
Lemma server_ok_snoc pid sv conns c : server_ok pid sv conns ->
  (forall x, c = Some x -> conn_ok pid sv x /\ guard x = Idle) -> server_ok pid sv (conns ++ [c]).
Proof.
  intros [H1 H2 H3 H4 H5 H6 H7 H8] Hc. split; [done..| |done|done| |].
  - intros j x [Hj|[_ Hj]]%lookup_app_Some; [by eapply H4|]. apply list_lookup_singleton_Some in Hj as [_ ->].
    by apply Hc.
  - intros addr s Hs. rewrite count_on_snoc, (H7 addr s Hs). destruct c as [x|]; cbn; [|lia].
    destruct (Hc x eq_refl) as [_ ->]. rewrite andb_false_r. lia.
  - intros addr s Hs Hd. by apply visited_snoc, (H8 addr s).
Qed.

(** ** An operation of a guard *)

Lemma guard_moves_alike now pc s pc' s' : guard_moves now pc s = Some (pc', s') ->
  inbound_closed s' = inbound_closed s.
Proof. destruct pc as [| | |[]|]; cbn; by intros [= _ <-]. Qed.

Lemma guard_moves_count now pc s pc' s' : guard_moves now pc s = Some (pc', s') ->
  attached s' = attached s - (if counted pc then 1 else 0) + (if counted pc' then 1 else 0).
Proof. destruct pc as [| | |[]|]; cbn; intros [= <- <-]; cbn; lia. Qed.

(** If the session has no detach time afterwards, then because this guard will
    still be dropped or set it, because another one is counted, or because it
    had none before and this guard has nothing to do with it. *)
Lemma guard_moves_detached now pc s pc' s' : guard_moves now pc s = Some (pc', s') -> detached_at s' = None ->
  pending pc' \/ (counted pc = true /\ attached s <> 1) \/ (detached_at s = None /\ ~ pending pc).
Proof.
  destruct pc as [| | |[]|]; cbn; intros [= <- <-]; cbn; try (by left); try done.
  - intros _. destruct (Z.eqb_spec (attached s) 1); [by left|by right; left].
  - intros Hd. right; right. by split; [|intros []].
Qed.

Lemma server_ok_move pid sv conns i c s now pc s' : server_ok pid sv conns -> conns !! i = Some (Some c) ->
  objects sv !! on c = Some s -> guard_moves now (guard c) s = Some (pc, s') ->
  server_ok pid (with_objects (<[on c := s']> (objects sv)) sv) (<[i := guarded pc c]> conns).
Proof.
  intros [H1 H2 H3 H4 H5 H6 H7 H8] Hi Hs Hm.
  pose proof (guard_moves_alike _ _ _ _ _ Hm) as Hcl. pose proof (guard_moves_count _ _ _ _ _ Hm) as Hatt.
  assert (Hdom : forall a, is_Some (objects sv !! a) -> is_Some (<[on c := s']> (objects sv) !! a)).
  { intros a Ha. apply lookup_insert_is_Some. destruct (decide (on c = a)); [by left|by right]. }
  assert (Hnew : forall x, guarded pc c = Some x -> on x = on c /\ role x = role c /\ guard x = pc).
  { intros x. destruct pc; intros [= <-]; done. }
  assert (Hcount : forall a, counts a (guarded pc c) = if bool_decide (on c = a) && counted pc then 1 else 0).
  { intros a. destruct pc; cbn; by rewrite ?andb_false_r. }
  split; cbn; [by eauto|done|done| |by eauto| | |].
  - intros j x [(<- & Hx & _)|[_ Hj]]%list_lookup_insert_Some.
    + destruct (Hnew x Hx) as (Hon & Hr & _). destruct (H4 i c Hi) as [Hc Ht].
      split; rewrite Hon; [by apply Hdom|]. rewrite Hr. exact Ht.
    + destruct (H4 j x Hj) as [Hc Ht]. split; [by apply Hdom|exact Ht].
  - intros a x [[<- <-]|[Hne Hx]]%lookup_insert_Some; [rewrite Hcl|]; by apply H6.
  - intros a x [[<- <-]|[Hne Hx]]%lookup_insert_Some; rewrite (count_on_insert _ _ _ _ _ Hi), Hcount.
    + rewrite counts_on, bool_decide_eq_true_2 by done. rewrite Hatt, (H7 _ s Hs). done.
    + rewrite counts_elsewhere, bool_decide_eq_false_2 by done. rewrite (H7 a x Hx). cbn. lia.
  - intros a x [[<- <-]|[Hne Hx]]%lookup_insert_Some Hd; [|eapply visited_insert; [done|done|by eapply H8]].
    assert (Hat : (i < length conns)%nat) by (by eapply lookup_lt_Some).
    destruct (guard_moves_detached _ _ _ _ _ Hm Hd) as [Hp|[[Hcnt Hne1]|[Hd0 Hnp]]].
    + destruct pc; try done; (eexists i, _; split; [by apply list_lookup_insert_eq|by split]).
    + apply count_on_visited. rewrite (count_on_insert _ _ _ _ _ Hi), counts_on, Hcnt, <- (H7 _ s Hs).
      pose proof (counts_range (on c) (guarded pc c)).
      assert (1 <= attached s); [|lia]. rewrite (H7 _ s Hs).
      pose proof (count_on_insert (on c) conns i (Some c) None Hi) as Hx. rewrite counts_on, Hcnt in Hx. cbn in Hx.
      pose proof (count_on_nonneg (on c) (<[i := None]> conns)). lia.
    + destruct (H8 _ s Hs Hd0) as (j & y & Hj & Hy). exists j, y. rewrite list_lookup_insert_ne; [done|].
      intros ->. rewrite Hi in Hj. injection Hj as <-. by destruct Hy.
Qed.

(** ** The handshake *)

Definition env_ok (pid : Z) (env : ExecEnv) : Prop := daemon_pid env = pid /\ 0 <= nanos env.

Lemma spent_mono pid c c' token : spent pid c token -> c <= c' -> spent pid c' token.
Proof. intros Hs Hc n k Hn Hk. apply Hs; lia. Qed.

(** A session that is registered under a token nobody holds. *)
Lemma server_ok_insert pid sv conns token s t counter : server_ok pid sv conns ->
  sessions sv !! token = None -> token_counter sv <= counter -> spent pid counter token ->
  (forall i c a, conns !! i = Some (Some c) -> role c <> Streams token a) ->
  attached s = 0 -> detached_at s <> None -> inbound_closed s = false ->
  server_ok pid {| sessions := insert_session token (fresh_addr sv) (sessions sv);
                   objects := <[fresh_addr sv := s]> (objects sv); tasks := <[fresh_addr sv := t]> (tasks sv);
                   token_counter := counter |} conns.
Proof.
  intros Hok Hnew Hle Hspent Hunused Hatt Hdet Hcl. pose proof Hok as [H1 H2 H3 H4 H5 H6 H7 H8].
  destruct (fresh_addr_new sv) as [Hfo Hft]. unfold insert_session. split; cbn.
  - intros tk a [[_ <-]|[_ Hr]]%lookup_insert_Some; apply lookup_insert_is_Some; [by left|].
    destruct (decide (fresh_addr sv = a)); [by left|right; split; [done|by eapply H1]].
  - intros t1 t2 a [[<- <-]|[Hn1 Hr1]]%lookup_insert_Some [[<- Ha]|[Hn2 Hr2]]%lookup_insert_Some; [done|..].
    + destruct (H1 _ _ Hr2). congruence.
    + destruct (H1 _ _ Hr1). congruence.
    + by eapply H2.
  - intros tk a [[<- _]|[_ Hr]]%lookup_insert_Some; [done|]. eapply spent_mono; [by eapply H3|done].
  - intros i c Hi. destruct (H4 i c Hi) as [Hc Hr]. split; cbn.
    + apply lookup_insert_is_Some. destruct (decide (fresh_addr sv = on c)); [by left|by right].
    + intros tk a Htk. destruct (Hr tk a Htk) as [Hsp Hname]. split; [by eapply spent_mono|].
      intros ad [[<- _]|[_ Had]]%lookup_insert_Some; [|by apply Hname]. by destruct (Hunused i c a Hi).
  - intros a [<-|[Hne Ha]]%lookup_insert_is_Some; apply lookup_insert_is_Some; [by left|right].
    split; [done|by apply H5].
  - intros a x [[<- <-]|[Hne Hx]]%lookup_insert_Some.
    + rewrite lookup_insert_eq, Hcl. split; [done|by eexists].
    + rewrite lookup_insert_ne by done. by apply H6.
  - intros a x [[<- <-]|[Hne Hx]]%lookup_insert_Some; [|by apply H7]. rewrite Hatt, count_on_zero; [done|].
    intros i c Hi Hon. destruct (H4 i c Hi) as [[y Hy] _]. congruence.
  - intros a x [[<- <-]|[Hne Hx]]%lookup_insert_Some; [done|by apply (H8 a)].
Qed.

(** A session that starts: its token is new, so that nobody's is displaced. *)
Lemma server_ok_start pid sv conns env s t : server_ok pid sv conns -> 0 <= pid -> env_ok pid env ->
  0 <= token_counter sv < u64_modulus - 1 ->
  attached s = 0 -> detached_at s <> None -> inbound_closed s = false ->
  let token := (new_resume_token pid (nanos env) (token_counter sv)).1 in
  let sv' := {| sessions := insert_session token (fresh_addr sv) (sessions sv);
                objects := <[fresh_addr sv := s]> (objects sv); tasks := <[fresh_addr sv := t]> (tasks sv);
                token_counter := add_u64 (token_counter sv) 1 |} in
  server_ok pid sv' conns /\ sessions sv !! token = None.
Proof.
  intros Hok Hpid [_ Hn] Hcount Hatt Hdet Hcl token sv'.
  assert (Hnew : sessions sv !! token = None).
  { destruct (sessions sv !! token) as [addr|] eqn:Ht; [|done].
    by destruct (so_spent _ _ _ Hok token addr Ht (nanos env) (token_counter sv)). }
  split; [|done]. apply server_ok_insert; [done|done| | | |done|done|done];
    rewrite ?add_u64_small by (unfold is_u64; lia); [lia| |].
  - intros n k Hn' Hk Heq. apply resume_token_injective in Heq; [|lia..]. lia.
  - intros i c a Hi Hr. destruct (so_conns _ _ _ Hok i c Hi) as [_ Ht]. destruct (Ht token a Hr) as [Hsp _].
    by destruct (Hsp (nanos env) (token_counter sv)).
Qed.

Lemma dispatch_ok pid sv conns env req : server_ok pid sv conns -> 0 <= pid -> env_ok pid env ->
  0 <= token_counter sv < u64_modulus - 1 ->
  let '(d, sv') := dispatch sv env req in
  server_ok pid sv' conns /\
  (forall token addr, sessions sv !! token = Some addr -> sessions sv' !! token = Some addr) /\
  token_counter sv <= token_counter sv' <= token_counter sv + 1 /\
  match d with
  | AttachTo token addr _ => sessions sv' !! token = Some addr
  | AgentOf addr => is_Some (objects sv' !! addr)
  | Refused _ _ => True
  end.
Proof.
  intros Hok Hpid Henv Hcount. destruct req as [command resumable forward|token n|token]; cbn [dispatch].
  - destruct (forward && negb (hub_started env)); [split_and!; [done|done|lia|lia|done]|].
    destruct (spawned env) as [[[[[w o] e] x] child]|]; [|split_and!; [done|done|lia|lia|done]].
    pose proof (proj1 Henv) as Hp.
    destruct (start_session w o e x child resumable forward (exec_now env)) as [s t] eqn:Hst.
    unfold start_session in Hst. injection Hst as Hs _. rewrite Hp.
    destruct (server_ok_start pid sv conns env s t) as [Hok' Hnew]; [done|done|done|done|by subst..|].
    destruct (new_resume_token pid (nanos env) (token_counter sv)) as [tk counter] eqn:Htk.
    assert (counter = token_counter sv + 1) as ->.
    { unfold new_resume_token in Htk. injection Htk as _ <-. apply add_u64_small. unfold is_u64. lia. }
    rewrite add_u64_small in Hok' by (unfold is_u64; lia). cbn [fst] in Hok', Hnew.
    split_and!; [exact Hok'| |cbn; lia|cbn; lia|cbn].
    + intros tk' a Ha. cbn. unfold insert_session. rewrite lookup_insert_ne; [done|]. intros ->. congruence.
    + unfold insert_session. by rewrite lookup_insert_eq.
  - unfold get. destruct (sessions sv !! token) as [addr|] eqn:Ht; by (split_and!; [done|done|lia|lia|]).
  - unfold get. destruct (sessions sv !! token) as [addr|] eqn:Ht; [|split_and!; [done|done|lia|lia|done]].
    destruct (objects sv !! addr) as [s|] eqn:Hs; [|split_and!; [done|done|lia|lia|done]].
    destruct (agent s); (split_and!; [done|done|lia|lia|]); [by rewrite Hs|done].
Qed.

Lemma handshake_ok pid sv conns ch au w welcome_ok env : server_ok pid sv conns -> 0 <= pid -> env_ok pid env ->
  0 <= token_counter sv < u64_modulus - 1 ->
  let '(h, _, _, sv') := handle_connection ch au w welcome_ok sv env in
  server_ok pid sv' conns /\
  (forall token addr, sessions sv !! token = Some addr -> sessions sv' !! token = Some addr) /\
  token_counter sv <= token_counter sv' <= token_counter sv + 1 /\
  match h with
  | Accepted _ (AttachTo token addr _) _ => sessions sv' !! token = Some addr
  | Accepted _ (AgentOf addr) _ => is_Some (objects sv' !! addr)
  | _ => True
  end.
Proof.
  intros Hok Hpid Henv Hcount. unfold handle_connection.
  assert (Hsame : server_ok pid sv conns /\
    (forall token addr, sessions sv !! token = Some addr -> sessions sv !! token = Some addr) /\
    token_counter sv <= token_counter sv <= token_counter sv + 1 /\ True) by (split_and!; [done|done|lia|lia|done]).
  destruct (Server.recv ch) as [[[hello|e]|] ch1]; [|exact Hsame|exact Hsame].
  destruct (verify au (hello_token hello) w) as [[[sub|e] au1] w1]; [|exact Hsame].
  destruct welcome_ok; cbn [negb]; [|exact Hsame].
  destruct (Server.recv ch1) as [[[req|e]|] ch2]; [|exact Hsame|exact Hsame].
  pose proof (dispatch_ok pid sv conns env req Hok Hpid Henv Hcount) as Hd.
  destruct (dispatch sv env req) as [[token addr n|addr|[reason|] e] sv']; exact Hd.
Qed.

(** ** Every step *)

Definition event_ok (pid : Z) (ev : DaemonEvent) : Prop :=
  match ev with Accepts _ _ _ env _ => env_ok pid env | _ => True end.

Lemma registered_conn_ok pid sv conns token addr c : server_ok pid sv conns -> sessions sv !! token = Some addr ->
  on c = addr -> (forall tk a, role c = Streams tk a -> tk = token) -> conn_ok pid sv c.
Proof.
  intros Hok Ht Hon Hrole. split; [rewrite Hon; by eapply so_registered|]. intros tk a ->%Hrole.
  split; [by eapply so_spent|]. congruence.
Qed.

Lemma accepts_ok pid ch welcome_ok started_ok env now d : daemon_ok pid d -> 0 <= pid -> env_ok pid env ->
  0 <= token_counter (server d) < u64_modulus - 1 ->
  let d' := accepts ch welcome_ok started_ok env now d in
  daemon_ok pid d' /\
  (forall token addr, sessions (server d) !! token = Some addr -> sessions (server d') !! token = Some addr) /\
  token_counter (server d) <= token_counter (server d') <= token_counter (server d) + 1.
Proof.
  intros Hok Hpid Henv Hcount. unfold daemon_ok, accepts in *.
  pose proof (handshake_ok pid _ _ ch (authn d) (world d) welcome_ok env Hok Hpid Henv Hcount) as Hh.
  destruct (handle_connection ch (authn d) (world d) welcome_ok (server d) env) as [[[h au] w] sv].
  destruct Hh as (Hok' & Hkept & Hn & Haddr).
  cbn [server connections]. split_and!; [|done|lia|lia]. apply server_ok_snoc; [done|].
  destruct h as [rs|rs e|rs [token addr n|addr|den e] ch']; try done; intros x [= <-]; (split; [|done]).
  - apply (registered_conn_ok pid sv (connections d) token addr); [done|done|done|].
    destruct started_ok; [by intros ? ? [= <- _]|done].
  - split; [done|]. by intros ? ? [=].
Qed.

(** A connection that goes on after a change of its session in place. *)
Lemma settle_ok pid d sv i c c' : server_ok pid sv (connections d) -> connections d !! i = Some (Some c) ->
  goes_on c c' -> daemon_ok pid (settle i (Some c') sv d).
Proof. intros Hok Hi Hc'. by eapply server_ok_replace. Qed.

Lemma stream_goes_on addr token a r : (forall tk a', r = Streams tk a' -> tk = token) ->
  goes_on {| on := addr; role := Streams token a; guard := Held |} {| on := addr; role := r; guard := Held |}.
Proof. intros Hr. split; [done|]. split; [done|]. intros tk a' Htk. rewrite (Hr tk a' Htk). by eexists. Qed.

Lemma task_steps_ok pid d addr s t ev s' t' effs st : daemon_ok pid d ->
  objects (server d) !! addr = Some s -> tasks (server d) !! addr = Some t ->
  task_step s t ev = Some (s', t', effs, st) ->
  server_ok pid {| sessions := sessions (server d); objects := <[addr := s']> (objects (server d));
                   tasks := match st with Running => <[addr := t']> (tasks (server d))
                                        | Returned => delete addr (tasks (server d)) end;
                   token_counter := token_counter (server d) |} (connections d).
Proof.
  intros [H1 H2 H3 H4 H5 H6 H7 H8] Hs Ht Hstep.
  assert (Hcl : inbound_closed s = false) by (apply (H6 _ _ Hs); by eexists).
  destruct (task_step_alike _ _ _ _ _ _ _ Hstep Hcl) as (Ha & Hd & Hc).
  assert (Hdom : forall a, is_Some (objects (server d) !! a) -> is_Some (<[addr := s']> (objects (server d)) !! a)).
  { intros a Hx. apply lookup_insert_is_Some. destruct (decide (addr = a)); [by left|by right]. }
  split; cbn; [eauto|done|done| | | | |].
  - intros i c Hi. destruct (H4 i c Hi) as [Hc2 Hr]. split; [by apply Hdom|exact Hr].
  - intros a Hx. apply Hdom, H5. destruct st.
    + apply lookup_insert_is_Some in Hx as [<-|[_ Hx]]; [by eexists|done].
    + apply lookup_delete_is_Some in Hx as [_ Hx]. done.
  - intros a x [[<- <-]|[Hne Hx]]%lookup_insert_Some.
    + rewrite Hc. destruct st; [rewrite lookup_insert_eq; split; [done|by eexists]|].
      rewrite lookup_delete_eq. split; [by intros [? ?]|done].
    + rewrite <- (H6 a x Hx). destruct st; [by rewrite lookup_insert_ne|by rewrite lookup_delete_ne].
  - intros a x [[<- <-]|[Hne Hx]]%lookup_insert_Some; [rewrite Ha; by apply (H7 addr)|by apply (H7 a)].
  - intros a x [[<- <-]|[Hne Hx]]%lookup_insert_Some; [rewrite Hd; by apply (H8 addr)|by apply (H8 a)].
Qed.

Lemma daemon_step_ok pid timeout d ev d' : daemon_ok pid d -> 0 <= pid -> event_ok pid ev ->
  0 <= token_counter (server d) < u64_modulus - 1 -> daemon_step timeout d ev = Some d' ->
  daemon_ok pid d' /\ token_counter (server d) <= token_counter (server d') <= token_counter (server d) + 1.
Proof.
  intros Hok Hpid Hev Hcount. destruct ev; cbn [daemon_step].
  - intros [= <-]. destruct (accepts_ok pid ch welcome_ok started_ok env now d Hok Hpid Hev Hcount) as (? & _ & ?). done.
  - destruct (connections d !! i) as [[c|]|] eqn:Hi; try done.
    destruct (objects (server d) !! on c) as [s|] eqn:Hs; [|done]. destruct (may_move c); [|done].
    destruct (guard_moves now (guard c) s) as [[pc s']|] eqn:Hm; [|done]. intros [= <-].
    split; [by eapply server_ok_move|cbn; lia].
  - destruct (connections d !! i) as [[[addr [token a| |] []]|]|] eqn:Hi; try done.
    destruct (objects (server d) !! addr) as [s|] eqn:Hs; [|done]. intros [= <-].
    split; [|cbn; lia]. eapply settle_ok; [exact Hok|exact Hi|]. apply stream_goes_on.
    destruct sent; [by intros ? ? [= <- _]|done].
  - destruct (connections d !! i) as [[[addr [token a| |] []]|]|] eqn:Hi; try done.
    destruct (objects (server d) !! addr) as [s|] eqn:Hs; [|done].
    destruct (react needs_ping s a ev) as [r|] eqn:Hr; [|done]. intros [= <-].
    split; [|cbn; lia]. eapply settle_ok; [|exact Hi|].
    + eapply server_ok_in_place; [exact Hok| |done|done|]; cbn.
      * intros tk ad. unfold forget, remove. cbn. destruct (r_remove r); [|done]. by intros [_ ?]%lookup_delete_Some.
      * eapply in_place_insert; [done|done|]. by eapply react_alike.
    + apply stream_goes_on. destruct (r_result r); [done|by intros ? ? [= <- _]].
  - destruct (connections d !! i) as [[[addr [token a| |] []]|]|] eqn:Hi; try done. intros [= <-].
    split; [|cbn; lia]. eapply settle_ok; [exact Hok|exact Hi|]. split; [done|]. split; [done|]. by intros ? ? [=].
  - destruct (objects (server d) !! addr) as [s|] eqn:Hs; [|done].
    destruct (tasks (server d) !! addr) as [t|] eqn:Ht; [|done].
    destruct (match ev with InboundDropped => _ | _ => _ end); [done|].
    destruct (task_step s t ev) as [[[[s' t'] effs] st]|] eqn:Hstep; [|done]. intros [= <-]. cbn.
    split; [exact (task_steps_ok pid d addr s t ev s' t' effs st Hok Hs Ht Hstep)|lia].
  - destruct (expire_sweep timeout now (sessions (server d)) (objects (server d))) as [r h] eqn:He. intros [= <-].
    split; [|cbn; lia]. eapply server_ok_in_place; [exact Hok| |done|done|]; cbn.
    + intros tk ad Hr. unfold expire_sweep in He.
      pose proof (fold_remove (expired timeout now (sessions (server d)) (objects (server d)))
        (sessions (server d)) (objects (server d))) as Hf. rewrite He in Hf. destruct Hf as [Hf _].
      rewrite Hf in Hr. by case_bool_decide.
    + replace h with (expire_sweep timeout now (sessions (server d)) (objects (server d))).2 by (by rewrite He).
      apply in_place_sweep; [done|apply guarded_alike_trans|apply send_input_alike].
Qed.

End Invariant.
