(* ===== verification/DaemonProps.v ===== *)
(** * What the running server guarantees to sessions

    Consequences of the invariant of [DaemonInv] for every server that starts
    empty or from a handover and then runs: a new connection disturbs nobody
    else's session, and the expiry sweep reaches every session nobody comes back
    to. *)

From stdpp Require Import gmap.
From S2P Require Import Prelude Proto Auth OutboundLog Session Exec Channel Registry Attach Handover Daemon DaemonInv.

Section Facts.
Context `{TL : TransportLib} `{WL : WireLib} `{HL : HttpLib}
  `{SM : !Serde ChannelMessage} `{SH : !Serde Hello} `{SR : !Serde ExecRequest}.

(** ** The server as it starts *)

(** Restored tokens come from a process with another id. *)
Definition boots (pid : Z) (sv : Server) : Prop :=
  sv = no_sessions \/
  exists is_pipe hub_started now accepted recs named,
    (forall token rec, (recs : records) !! token = Some rec -> spent pid 0 token) /\
    restore_sessions is_pipe hub_started now accepted (Some (Ok recs)) named no_sessions = (Ok tt, sv).

Definition reachable (pid timeout n : Z) (d : Daemon) : Prop :=
  exists sv au w evs, boots pid sv /\ Forall (event_ok pid) evs /\ len evs = n /\
    daemon_run timeout (daemon_start sv au w) evs = Some d.

Lemma restored_start is_pipe hub_started now accepted rec roles s t :
  restore_one is_pipe hub_started now accepted rec roles = Ok (s, t) ->
  attached s = 0 /\ detached_at s <> None /\ inbound_closed s = false.
Proof.
  unfold restore_one. destruct (receiver _ _), (receiver _ _), (receiver _ _); try done. cbn.
  destruct (rec_forward_agent rec && negb hub_started); [done|]. by intros [= <- _].
Qed.

Lemma restore_loop_server_ok is_pipe hub_started now accepted groups pid recs : forall sv sv',
  server_ok pid sv [] -> token_counter sv = 0 -> NoDup (map fst recs) ->
  (forall token rec, (token, rec) ∈ recs -> spent pid 0 token /\ sessions sv !! token = None) ->
  restore_loop is_pipe hub_started now accepted groups recs sv = (Ok tt, sv') ->
  server_ok pid sv' [] /\ token_counter sv' = 0.
Proof.
  induction recs as [|[token rec] recs IH]; intros sv sv' Hok H0 Hnd Hrecs; cbn [restore_loop].
  - by intros [= <-].
  - destruct (restore_one _ _ _ _ _ _) as [[s t]|e] eqn:Hone; [|done]. cbn in Hnd. apply NoDup_cons in Hnd as [Hnin Hnd].
    destruct (restored_start _ _ _ _ _ _ _ _ Hone) as (Ha & Hd & Hc).
    destruct (Hrecs token rec) as [Hsp Hnew]; [by left|].
    apply IH; [|done|done|].
    + apply server_ok_insert; [done|done|lia| |done|done|done|done]. by rewrite H0.
    + intros token' rec' Hin. destruct (Hrecs token' rec') as [? Hn]; [by right|]. split; [done|]. cbn.
      unfold insert_session. rewrite lookup_insert_ne; [done|]. intros <-. apply Hnin.
      apply list_elem_of_In, in_map_iff. exists (token, rec'). by rewrite <- list_elem_of_In.
Qed.

Lemma boots_ok pid sv : boots pid sv -> server_ok pid sv [] /\ token_counter sv = 0.
Proof.
  intros [->|(ip & hs & now & acc & recs & named & Hsp & Hr)]; [split; [apply no_sessions_ok|done]|].
  cbn in Hr. eapply restore_loop_server_ok; [apply no_sessions_ok|done| | |exact Hr].
  - apply NoDup_fst_map_to_list.
  - intros token rec Hin%elem_of_map_to_list. split; [by eapply Hsp|done].
Qed.

Lemma daemon_run_app timeout evs1 evs2 : forall d,
  daemon_run timeout d (evs1 ++ evs2) =
  match daemon_run timeout d evs1 with Some d => daemon_run timeout d evs2 | None => None end.
Proof. induction evs1 as [|ev evs1 IH]; intros d; cbn; [done|]. destruct (daemon_step timeout d ev); [apply IH|done]. Qed.

Lemma daemon_run_next pid timeout evs : forall d d', daemon_ok pid d -> 0 <= pid -> Forall (event_ok pid) evs ->
  0 <= token_counter (server d) -> token_counter (server d) + len evs < u64_modulus ->
  daemon_run timeout d evs = Some d' ->
  daemon_ok pid d' /\ 0 <= token_counter (server d') <= token_counter (server d) + len evs.
Proof.
  induction evs as [|ev evs IH]; intros d d' Hok Hpid Hev H0 Hb; cbn [daemon_run].
  - intros [= <-]. split; [done|]. change (len []) with 0. lia.
  - inversion Hev as [|? ? Hev1 Hev2]; subst. rewrite len_cons in *. pose proof (len_nonneg evs).
    destruct (daemon_step timeout d ev) as [d1|] eqn:Hs; [|done].
    destruct (daemon_step_ok pid timeout d ev d1) as [Hok1 Hc]; [done|done|done|lia|done|]. intros Hr.
    destruct (IH d1 d') as [? ?]; [done|done|done|lia|lia|done|]. split; [done|lia].
Qed.

Lemma reachable_ok pid timeout n d : reachable pid timeout n d -> 0 <= pid -> n < u64_modulus ->
  daemon_ok pid d /\ 0 <= token_counter (server d) <= n.
Proof.
  intros (sv & au & w & evs & Hb & Hev & <- & Hr) Hpid Hn. destruct (boots_ok pid sv Hb) as [Hok H0].
  apply (daemon_run_next pid timeout evs (daemon_start sv au w)) in Hr as [? ?]; cbn; try done; try lia.
  cbn in *. split; [done|lia].
Qed.

(** ** Who a step touches *)

(** The handshake of this connection ends on session [addr]. *)
Definition visits (addr : nat) (d : Daemon) (ev : DaemonEvent) : bool :=
  match ev with
  | Accepts ch welcome_ok _ env _ =>
      match (handle_connection ch (authn d) (world d) welcome_ok (server d) env).1.1.1 with
      | Accepted _ (AttachTo _ a _) _ | Accepted _ (AgentOf a) _ => bool_decide (a = addr)
      | _ => false
      end
  | _ => false
  end.

(** A handshake changes nothing, or adds one session. *)
Definition only_adds (env : ExecEnv) (sv sv' : Server) : Prop :=
  sv' = sv \/
  exists token s t counter,
    token = (new_resume_token (daemon_pid env) (nanos env) (token_counter sv)).1 /\ task_inv [] 0 s t /\
    sv' = {| sessions := insert_session token (fresh_addr sv) (sessions sv);
             objects := <[fresh_addr sv := s]> (objects sv); tasks := <[fresh_addr sv := t]> (tasks sv);
             token_counter := counter |}.

Lemma dispatch_only_adds sv env req : only_adds env sv (dispatch sv env req).2.
Proof.
  destruct req as [command resumable forward|token n|token]; cbn [dispatch].
  - destruct (forward && negb (hub_started env)); [by left|].
    destruct (spawned env) as [[[[[w o] e] x] child]|]; [|by left].
    destruct (start_session w o e x child resumable forward (exec_now env)) as [s t] eqn:Hst.
    destruct (new_resume_token (daemon_pid env) (nanos env) (token_counter sv)) as [tk counter] eqn:Htk.
    right. exists tk, s, t, counter.
    rewrite Htk. pose proof (fresh_inv w o e x child resumable forward (exec_now env)) as Hi. by rewrite Hst in Hi.
  - destruct (get token (sessions sv)); by left.
  - destruct (get token (sessions sv)) as [addr|]; [|by left].
    destruct (objects sv !! addr) as [s|]; [|by left]. destruct (agent s); by left.
Qed.

Lemma handshake_only_adds ch au w welcome_ok sv env :
  only_adds env sv (handle_connection ch au w welcome_ok sv env).2.
Proof.
  unfold handle_connection. destruct (Server.recv ch) as [[[hello|e]|] ch1]; [|by left|by left].
  destruct (verify au (hello_token hello) w) as [[[sub|e] au1] w1]; [|by left].
  destruct welcome_ok; cbn [negb]; [|by left].
  destruct (Server.recv ch1) as [[[req|e]|] ch2]; [|by left|by left].
  pose proof (dispatch_only_adds sv env req) as Hd.
  destruct (dispatch sv env req) as [[token addr n|addr|[reason|] e] sv']; exact Hd.
Qed.

(** Only a token that was just made becomes registered. *)
Lemma handshake_token ch au w welcome_ok sv env token :
  token <> (new_resume_token (daemon_pid env) (nanos env) (token_counter sv)).1 ->
  sessions (handle_connection ch au w welcome_ok sv env).2 !! token = sessions sv !! token.
Proof.
  intros Hne. destruct (handshake_only_adds ch au w welcome_ok sv env) as [->|(tk & s & t & counter & -> & _ & ->)]; [done|].
  cbn. unfold insert_session. by rewrite lookup_insert_ne.
Qed.

Lemma only_adds_keeps env sv sv' addr : only_adds env sv sv' -> is_Some (objects sv !! addr) ->
  objects sv' !! addr = objects sv !! addr /\ tasks sv' !! addr = tasks sv !! addr.
Proof.
  intros [->|(token & s & t & counter & _ & _ & ->)] [x Hx]; [done|]. cbn.
  assert (fresh_addr sv <> addr) by (intros <-; destruct (fresh_addr_new sv); congruence).
  by rewrite !lookup_insert_ne.
Qed.

Definition streams_alike (s s' : Session) : Prop :=
  inbound s' = inbound s /\ inbound_closed s' = inbound_closed s /\ log s' = log s /\
  stdin_applied s' = stdin_applied s /\ agent s' = agent s /\ resumable s' = resumable s.

(** No connection, starting or ending ones included, is on the session. *)
Definition nobody_on (addr : nat) (conns : list (option Connection)) : Prop :=
  forall i c, conns !! i = Some (Some c) -> on c <> addr.

Lemma nobody_on_insert addr conns i c : nobody_on addr conns -> (forall x, c = Some x -> on x <> addr) ->
  nobody_on addr (<[i := c]> conns).
Proof.
  intros Hno Hc j x [(_ & Hx & _)|[_ Hj]]%list_lookup_insert_Some; [by apply Hc|by eapply Hno].
Qed.

Lemma nobody_on_snoc addr conns c : nobody_on addr conns -> (forall x, c = Some x -> on x <> addr) ->
  nobody_on addr (conns ++ [c]).
Proof.
  intros Hno Hc j x [Hj|[_ Hj]]%lookup_app_Some; [by eapply Hno|].
  apply list_lookup_singleton_Some in Hj as [_ ->]. by apply Hc.
Qed.

(** A new connection changes no session. *)
Lemma accepts_touches ch welcome_ok started_ok env now d addr s :
  objects (server d) !! addr = Some s ->
  let ev := Accepts ch welcome_ok started_ok env now in
  let d' := accepts ch welcome_ok started_ok env now d in
  (exists c, connections d' = connections d ++ [c] /\
     (visits addr d ev = false -> forall x, c = Some x -> on x <> addr)) /\
  tasks (server d') !! addr = tasks (server d) !! addr /\
  objects (server d') !! addr = Some s.
Proof.
  intros Hs ev d'. unfold ev, d', visits, accepts. clear ev d'.
  pose proof (handshake_only_adds ch (authn d) (world d) welcome_ok (server d) env) as Hadds.
  destruct (handle_connection ch (authn d) (world d) welcome_ok (server d) env) as [[[h au] w] sv].
  cbn [snd fst] in *. destruct (only_adds_keeps _ _ _ addr Hadds) as [Ho Ht]; [by eexists|]. rewrite Hs in Ho.
  cbn [connections server]. split_and!; [|done|done]. eexists. split; [done|].
  destruct h as [rs|rs e|rs [token a n|a|den e] ch']; try done;
    intros Hne x [= <-]; by apply bool_decide_eq_false in Hne.
Qed.

(** An operation of a guard touches the two fields that guards share. *)
Lemma guard_moves_streams now pc s pc' s' : guard_moves now pc s = Some (pc', s') -> streams_alike s s'.
Proof. destruct pc as [| | |[]|]; cbn; intros [= _ <-]; by split_and!. Qed.

Lemma guards_touch timeout d i now d' addr s : daemon_step timeout d (Guards i now) = Some d' ->
  objects (server d) !! addr = Some s ->
  sessions (server d') = sessions (server d) /\ tasks (server d') = tasks (server d) /\
  exists s', objects (server d') !! addr = Some s' /\ streams_alike s s' /\
    (forall c, connections d !! i = Some (Some c) -> on c <> addr -> s' = s).
Proof.
  cbn [daemon_step]. destruct (connections d !! i) as [[c|]|] eqn:Hi; try done.
  destruct (objects (server d) !! on c) as [s0|] eqn:Hs0; [|done]. destruct (may_move c); [|done].
  destruct (guard_moves now (guard c) s0) as [[pc s1]|] eqn:Hm; [|done]. intros [= <-] Hs.
  cbn. split_and!; [done|done|]. destruct (decide (on c = addr)) as [<-|Hne].
  - exists s1. rewrite lookup_insert_eq. assert (s0 = s) as -> by congruence.
    split_and!; [done|by eapply guard_moves_streams|]. intros x [= <-]. done.
  - exists s. rewrite lookup_insert_ne by done. by split_and!.
Qed.

(** A queued Abort stays queued until it ends the task. *)
Lemma select_keeps_abort s t ev s' t' effs : select s t ev = Some (s', t', effs, Running) ->
  Abort ∈ inbound s -> Abort ∈ inbound s'.
Proof.
  assert (Hpump : forall mk closed r, inbound (pump mk closed s t r).1.1 = inbound s).
  { intros mk closed r. by destruct r as [[|b r]|]. }
  intros Hsel Hin. destruct ev as [r|r|r|w reclaim|]; cbn [select] in Hsel.
  - destruct (stdout_open t); [|done]. specialize (Hpump Stdout (with_open false (stderr_open t) t) r).
    destruct (pump _ _ s t r) as [[s1 t1] e1]. injection Hsel as <- _ _. cbn in Hpump. by rewrite Hpump.
  - destruct (stderr_open t); [|done]. specialize (Hpump Stderr (with_open (stdout_open t) false t) r).
    destruct (pump _ _ s t r) as [[s1 t1] e1]. injection Hsel as <- _ _. cbn in Hpump. by rewrite Hpump.
  - case_bool_decide; [|done]. destruct (read_exit t r). by injection Hsel as <- _ _.
  - destruct (inbound s) as [|x rest]; [done|]. apply elem_of_cons in Hin as [<-|Hin]; [done|].
    revert Hsel. destruct x as [[]|[]| |]; cbn [handle_input]; try (destruct (_ <? _)); try (destruct (_ =? _));
      first [done|by intros [= <- _ _]].
  - destruct (inbound s); [|done]. by inversion Hin.
Qed.

Lemma task_step_keeps_abort s t ev s' t' effs : task_step s t ev = Some (s', t', effs, Running) ->
  Abort ∈ inbound s -> Abort ∈ inbound s'.
Proof.
  unfold task_step. destruct (select s t ev) as [[[[s1 t1] e1] st1]|] eqn:Hsel; [|done].
  destruct st1; [|done]. intros Hfin Hin. apply (select_keeps_abort _ _ _ _ _ _ Hsel) in Hin. revert Hfin.
  unfold finish. destruct (exit_code t1); [destruct (negb _ && negb _)|]; first [done|by intros [= <- _ _]].
Qed.

(** What a sweep does to one session. *)
Lemma sweep_session timeout now r h token addr s : h !! addr = Some s ->
  r !! token = Some addr \/ r !! token = None ->
  let '(r', h') := expire_sweep timeout now r h in
  exists s', h' !! addr = Some s' /\ guarded_alike s s' /\
    (r' !! token = r !! token \/ r' !! token = None) /\
    (is_expired timeout now s = true -> r' !! token = None) /\
    (inbound_closed s = false ->
     Abort ∈ inbound s \/ (r !! token = Some addr /\ r' !! token = None) -> Abort ∈ inbound s').
Proof.
  intros Hs Htok. pose proof (in_place_sweep guarded_alike guarded_alike_refl guarded_alike_trans timeout now r h
    (send_input_alike Abort) addr) as Halike. rewrite Hs in Halike.
  unfold expire_sweep in *.
  pose proof (fold_remove (expired timeout now r h) r h) as Hrem.
  pose proof (fold_abort (expired timeout now r h) r h addr s Hs) as Hab.
  destruct (fold_left _ _ _) as [r' h']. cbn [snd] in *. destruct Hrem as [Hr Hh].
  destruct Halike as (s' & Hs' & Halike). destruct Hab as (s2 & Hs2 & Hab).
  assert (s2 = s') as -> by congruence. exists s'. split_and!; [done|done| | |].
  - rewrite Hr. case_bool_decide; [by right|by left].
  - intros Hx. destruct Htok as [Ht|Hn]; rewrite Hr; [|by case_bool_decide].
    rewrite bool_decide_eq_true_2; [done|].
    assert (Hin : (token, addr) ∈ expired timeout now r h) by (apply expired_spec; eauto).
    exact (in_map_fst _ _ _ Hin).
  - intros Hc Hwhy. destruct (Hab Hc) as (_ & [k Hk] & Hmem). destruct Hwhy as [Ha|[Ht Hgone]].
    + rewrite Hk. set_solver.
    + apply Hmem. rewrite Hr, Ht in Hgone. case_bool_decide as Hin; [|done].
      apply list_elem_of_In, in_map_iff in Hin as ([tk ad] & Heq & Hin). cbn in Heq. subst tk.
      pose proof Hin as Hin'. apply list_elem_of_In, expired_spec in Hin as (Ht2 & _).
      assert (ad = addr) as -> by congruence. apply list_elem_of_In in Hin'. exact (in_map_snd _ _ _ Hin').
Qed.

(** ** Sessions nobody comes back to *)

(** Session [addr], once registered as [token], has had no connection since [t];
    if it is not registered any more, it was told to abort. *)
Record abandoned (pid : Z) (token : string) (addr : nat) (t : Z) (d : Daemon) : Prop := {
  ab_ok : daemon_ok pid d;
  ab_spent : spent pid (token_counter (server d)) token;
  ab_named : sessions (server d) !! token = Some addr \/ sessions (server d) !! token = None;
  ab_alone : nobody_on addr (connections d);
  ab_session : exists s, objects (server d) !! addr = Some s /\ detached_at s = Some t /\
    (sessions (server d) !! token = None -> inbound_closed s = false -> Abort ∈ inbound s);
}.

(** A step that leaves the session, its token and its connections alone. *)
Lemma abandoned_elsewhere pid token addr t d d' : abandoned pid token addr t d -> daemon_ok pid d' ->
  token_counter (server d) <= token_counter (server d') ->
  nobody_on addr (connections d') ->
  sessions (server d') !! token = sessions (server d) !! token ->
  objects (server d') !! addr = objects (server d) !! addr -> abandoned pid token addr t d'.
Proof.
  intros [_ H2 H3 H4 H5] Hok Hle Hcount Htok Hobj. split; rewrite ?Htok, ?Hobj; [done| |done|done|done].
  by eapply spent_mono.
Qed.

Lemma accepts_token pid d ch welcome_ok started_ok env now token : daemon_ok pid d -> env_ok pid env ->
  0 <= token_counter (server d) -> spent pid (token_counter (server d)) token ->
  sessions (server (accepts ch welcome_ok started_ok env now d)) !! token = sessions (server d) !! token.
Proof.
  intros Hok [Hp Hn] H0 Hsp. unfold accepts.
  pose proof (handshake_token ch (authn d) (world d) welcome_ok (server d) env token) as Ht. rewrite Hp in Ht.
  specialize (Ht (Hsp _ _ Hn (Z.le_refl _))).
  destruct (handle_connection ch (authn d) (world d) welcome_ok (server d) env) as [[[h au] w] sv]. exact Ht.
Qed.

Lemma abandoned_task_steps pid timeout token addr t d ad ev d' : abandoned pid token addr t d -> daemon_ok pid d' ->
  daemon_step timeout d (TaskSteps ad ev) = Some d' -> abandoned pid token addr t d'.
Proof.
  intros [Hok Hsp Hnamed Halone (s & Hs & Hdet & Hgone)] Hok' Hstep. cbn [daemon_step] in Hstep.
  destruct (objects (server d) !! ad) as [s1|] eqn:Hs1; [|done].
  destruct (tasks (server d) !! ad) as [t1|] eqn:Ht1; [|done].
  destruct (match ev with InboundDropped => _ | _ => _ end); [done|].
  destruct (task_step s1 t1 ev) as [[[[s2 t2] effs] st]|] eqn:Htask; [|done]. injection Hstep as <-.
  assert (Hcl : inbound_closed s1 = false) by (apply (so_running _ _ _ Hok _ _ Hs1); by eexists).
  destruct (task_step_alike _ _ _ _ _ _ _ Htask Hcl) as (_ & Hd2 & Hc2).
  split; [exact Hok'|exact Hsp|exact Hnamed|exact Halone|]. cbn. destruct (decide (ad = addr)) as [->|Hne].
  - assert (s1 = s) as -> by congruence. exists s2. rewrite lookup_insert_eq. split_and!; [done|congruence|].
    intros Hn. rewrite Hc2. destruct st; [|done]. intros _. eapply task_step_keeps_abort; [exact Htask|]. by apply Hgone.
  - exists s. by rewrite lookup_insert_ne.
Qed.

Lemma abandoned_sweeps pid timeout token addr t d now d' : abandoned pid token addr t d -> daemon_ok pid d' ->
  daemon_step timeout d (Sweeps now) = Some d' ->
  abandoned pid token addr t d' /\ (timeout <= now - t -> sessions (server d') !! token = None).
Proof.
  intros [Hok Hsp Hnamed Halone (s & Hs & Hdet & Hgone)] Hok' Hstep. cbn [daemon_step] in Hstep.
  pose proof (sweep_session timeout now (sessions (server d)) (objects (server d)) token addr s Hs Hnamed) as Hsweep.
  destruct (expire_sweep timeout now (sessions (server d)) (objects (server d))) as [r h]. injection Hstep as <-.
  destruct Hsweep as (s' & Hs' & (_ & Hd' & Hc') & Hr & Hx & Hab). split.
  - split; [exact Hok'|exact Hsp| |exact Halone|]; cbn.
    + destruct Hr as [->| ->]; [exact Hnamed|by right].
    + exists s'. split_and!; [done|congruence|]. intros Hn Hc. apply Hab; [congruence|].
      destruct Hnamed as [Ht|Ht]; [right; by rewrite Ht|left; apply Hgone; congruence].
  - intros Hlate. apply Hx. unfold is_expired, saturating_sub. rewrite Hdet. apply Z.leb_le. lia.
Qed.

Lemma abandoned_step pid timeout token addr t d ev d' : abandoned pid token addr t d -> 0 <= pid -> event_ok pid ev ->
  0 <= token_counter (server d) < u64_modulus - 1 ->
  visits addr d ev = false -> daemon_step timeout d ev = Some d' -> abandoned pid token addr t d'.
Proof.
  intros Hab Hpid Hev Hcount Hvis Hstep. pose proof Hab as [Hok Hsp Hnamed Halone (s & Hs & Hdet & Hgone)].
  destruct (daemon_step_ok pid timeout d ev d' Hok Hpid Hev Hcount Hstep) as [Hok' Hle].
  assert (Helse : nobody_on addr (connections d') -> sessions (server d') !! token = sessions (server d) !! token ->
    objects (server d') !! addr = objects (server d) !! addr -> abandoned pid token addr t d').
  { intros H1 H2 H3. eapply abandoned_elsewhere; [exact Hab|done|lia|done|done|done]. }
  assert (Hkeep : forall i c r, connections d !! i = Some (Some c) ->
    nobody_on addr (<[i := Some {| on := on c; role := r; guard := Held |}]> (connections d))).
  { intros i c r Hi. apply nobody_on_insert; [done|]. intros x [= <-]. exact (Halone i c Hi). }
  destruct ev; cbn [daemon_step] in Hstep.
  - injection Hstep as <-.
    destruct (accepts_touches ch welcome_ok started_ok env now d addr s Hs) as ((c & Hc & Hz) & _ & Hs').
    apply Helse.
    + rewrite Hc. apply nobody_on_snoc; [done|by apply Hz].
    + apply (accepts_token pid); [done|done|lia|done].
    + by rewrite Hs', Hs.
  - destruct (guards_touch timeout d i now d' addr s Hstep Hs) as (H1 & _ & s' & Hs' & _ & He). cbn [daemon_step] in Hstep.
    destruct (connections d !! i) as [[c|]|] eqn:Hi; try done. pose proof (Halone i c Hi) as Hne.
    destruct (objects (server d) !! on c) as [s0|]; [|done]. destruct (may_move c); [|done].
    destruct (guard_moves now (guard c) s0) as [[pc s1]|]; [|done]. injection Hstep as <-.
    apply Helse; [|by rewrite H1|by rewrite Hs', Hs, (He c)].
    cbn. apply nobody_on_insert; [done|]. intros x. by destruct pc; intros [= <-].
  - destruct (connections d !! i) as [[[ad [tk a| |] []]|]|] eqn:Hi; try done.
    destruct (objects (server d) !! ad) as [s1|] eqn:Hs1; [|done]. injection Hstep as <-.
    apply Helse; [exact (Hkeep i _ _ Hi)|done|done].
  - destruct (connections d !! i) as [[[ad [tk a| |] []]|]|] eqn:Hi; try done. pose proof (Halone i _ Hi) as Hne.
    destruct (objects (server d) !! ad) as [s1|] eqn:Hs1; [|done].
    destruct (react needs_ping s1 a ev) as [r|] eqn:Hr; [|done]. injection Hstep as <-. cbn [on] in Hne.
    apply Helse; [exact (Hkeep i _ _ Hi)| |cbn; by rewrite lookup_insert_ne].
    cbn. destruct (r_remove r); [|done]. unfold remove.
    destruct (decide (tk = token)) as [->|Htk]; [|by rewrite lookup_delete_ne].
    rewrite lookup_delete_eq. destruct Hnamed as [Hn|Hn]; [|done].
    destruct (so_conns _ _ _ Hok i _ Hi) as [_ Hc]. destruct (Hc token a eq_refl) as [_ Heq].
    by destruct Hne; rewrite (Heq addr Hn).
  - destruct (connections d !! i) as [[[ad [tk a| |] []]|]|] eqn:Hi; try done. injection Hstep as <-.
    apply Helse; [exact (Hkeep i _ _ Hi)|done|done].
  - by apply (abandoned_task_steps pid timeout token addr t d addr0 ev d').
  - by apply (abandoned_sweeps pid timeout token addr t d now d').
Qed.

(** No connection of this run ends up on session [addr]. *)
Fixpoint unvisited (timeout : Z) (addr : nat) (d : Daemon) (evs : list DaemonEvent) : bool :=
  match evs with
  | [] => true
  | ev :: evs =>
      negb (visits addr d ev) &&
      match daemon_step timeout d ev with Some d => unvisited timeout addr d evs | None => true end
  end.

Lemma abandoned_run pid timeout token addr t evs : forall d d', abandoned pid token addr t d -> 0 <= pid ->
  Forall (event_ok pid) evs -> 0 <= token_counter (server d) -> token_counter (server d) + len evs < u64_modulus ->
  unvisited timeout addr d evs = true -> daemon_run timeout d evs = Some d' -> abandoned pid token addr t d'.
Proof.
  induction evs as [|ev evs IH]; intros d d' Hab Hpid Hev H0 Hb Hun; cbn [daemon_run]; [by intros [= <-]|].
  inversion Hev as [|? ? Hev1 Hev2]; subst. rewrite len_cons in Hb. pose proof (len_nonneg evs).
  cbn [unvisited] in Hun. apply andb_true_iff in Hun as [Hv Hun]. apply negb_true_iff in Hv.
  destruct (daemon_step timeout d ev) as [d1|] eqn:Hs; [|done].
  destruct (daemon_step_ok pid timeout d ev d1) as [_ Hc]; [apply Hab|done|done|lia|done|].
  apply IH; [|done|done|lia|lia|done]. eapply abandoned_step; [exact Hab|done|done|lia|done|done].
Qed.

(** A session nobody is connected to has a detach time, and a registered one is
    abandoned. *)
Lemma nobody_detached pid sv conns addr s : server_ok pid sv conns -> objects sv !! addr = Some s ->
  nobody_on addr conns -> is_Some (detached_at s).
Proof.
  intros Hok Hs Hno. destruct (detached_at s) as [t|] eqn:Hd; [by eexists|].
  destruct (so_detached _ _ _ Hok addr s Hs Hd) as (i & c & Hi & Hon & _). by destruct (Hno i c Hi).
Qed.

Lemma detached_abandoned pid d token addr s t : daemon_ok pid d -> sessions (server d) !! token = Some addr ->
  objects (server d) !! addr = Some s -> nobody_on addr (connections d) -> detached_at s = Some t ->
  abandoned pid token addr t d.
Proof.
  intros Hok Ht Hs Hno Hd. split; [done|by eapply so_spent|by left|done|].
  exists s. split_and!; [done|done|congruence].
Qed.

End Facts.

(** ** Properties *)

Section Properties.
Context `{TL : TransportLib} `{WL : WireLib} `{HL : HttpLib}
  `{SM : !Serde ChannelMessage} `{SH : !Serde Hello} `{SR : !Serde ExecRequest}.

(** C32: the server's state stays well formed.  After any sequence of
    connections, messages, pipe events, failures and sweeps, with the operations
    of all attach guards interleaved in any order, from an empty or a restored
    server: registered tokens and connections refer to existing sessions, no
    session has two tokens, no token in use can be issued again, a connection's
    token is its own session's, a session accepts input exactly while its task
    runs, its counter is the number of guards between their two operations on
    it, and it lacks a detach time only while some guard is counted or about to
    set one, so that a session without connections always has one.  (That a
    session with a connection has none does not follow: see
    [attach_guard_race].) *)
Theorem daemon_well_formed (pid timeout n : Z) (d : Daemon) :
  reachable pid timeout n d -> 0 <= pid -> n < u64_modulus -> daemon_ok pid d.
Proof. intros Hr Hpid Hn. by destruct (reachable_ok pid timeout n d Hr Hpid Hn). Qed.

(** C33: a new connection disturbs nobody.  Whatever a client sends in its
    handshake, every registered session stays registered under its token with
    its task, its log and its input queue as they were; a session the handshake
    does not end on is not changed at all, and all other connections go on.  Nor
    does any operation of a guard that follows, the new connection's included,
    change more than the counter and the detach time of the one session the
    guard is on. *)
Theorem connection_disturbs_nobody (pid timeout n : Z) (d d' : Daemon) (ch : Items) (welcome_ok started_ok : bool)
    (env : ExecEnv) (now : Z) (token : string) (addr : nat) :
  let ev := Accepts ch welcome_ok started_ok env now in
  reachable pid timeout n d -> 0 <= pid -> n + 1 < u64_modulus -> event_ok pid ev ->
  daemon_step timeout d ev = Some d' ->
  sessions (server d) !! token = Some addr ->
  sessions (server d') !! token = Some addr /\
  tasks (server d') !! addr = tasks (server d) !! addr /\
  connections d `prefix_of` connections d' /\
  exists s s', objects (server d) !! addr = Some s /\ objects (server d') !! addr = Some s' /\
    streams_alike s s' /\ (visits addr d ev = false -> s' = s) /\
    (forall i now' d2, daemon_step timeout d' (Guards i now') = Some d2 ->
       sessions (server d2) = sessions (server d') /\ tasks (server d2) = tasks (server d') /\
       exists s2, objects (server d2) !! addr = Some s2 /\ streams_alike s' s2 /\
         (forall c, connections d' !! i = Some (Some c) -> on c <> addr -> s2 = s')).
Proof.
  intros ev Hr Hpid Hn Hev Hstep Ht. destruct (reachable_ok pid timeout n d Hr Hpid) as [Hok H0]; [lia|].
  injection Hstep as <-. destruct (so_registered _ _ _ Hok token addr Ht) as [s Hs].
  destruct (accepts_touches ch welcome_ok started_ok env now d addr s Hs) as ((c & Hc & _) & Htask & Hs').
  split_and!; [|done|rewrite Hc; by apply prefix_app_r|].
  - rewrite (accepts_token pid); [done|done|done|lia|by eapply so_spent].
  - exists s, s. split; [done|]. split; [done|]. split; [by split_and!|]. split; [done|].
    intros i now' d2 Hg. by eapply guards_touch.
Qed.

(** C34: an abandoned session ends.  A registered session that no connection is
    on has a detach time [t]; and if none of the connections that arrive later
    ends on it, then, whatever else happens on the server meanwhile, the first
    sweep at or after [t + timeout] leaves its token unregistered, and its
    command is told to abort unless its task has ended by then. *)
Theorem abandoned_session_expires (pid timeout n : Z) (d : Daemon) (token : string) (addr : nat) (s : Session) :
  reachable pid timeout n d -> 0 <= pid -> n < u64_modulus ->
  sessions (server d) !! token = Some addr -> objects (server d) !! addr = Some s ->
  nobody_on addr (connections d) ->
  exists t, detached_at s = Some t /\
    forall now evs d', n + len evs + 1 < u64_modulus -> Forall (event_ok pid) evs ->
      unvisited timeout addr d evs = true -> timeout <= now - t ->
      daemon_run timeout d (evs ++ [Sweeps now]) = Some d' ->
      sessions (server d') !! token = None /\
      exists s', objects (server d') !! addr = Some s' /\ detached_at s' = Some t /\
        (is_Some (tasks (server d') !! addr) -> Abort ∈ inbound s').
Proof.
  intros Hr Hpid Hn Ht Hs Hno. destruct (reachable_ok pid timeout n d Hr Hpid Hn) as [Hok H0].
  destruct (nobody_detached pid _ _ addr s Hok Hs Hno) as [t Hd]. exists t. split; [done|].
  intros now evs d' Hb Hev Hun Hlate Hrun. pose proof (len_nonneg evs) as Hlen.
  pose proof (detached_abandoned pid d token addr s t Hok Ht Hs Hno Hd) as Hab.
  rewrite daemon_run_app in Hrun. destruct (daemon_run timeout d evs) as [d1|] eqn:Hd1; [|done].
  apply (abandoned_run pid timeout token addr t evs d d1) in Hab; [|done|done|lia|lia|done|done].
  cbn [daemon_run] in Hrun. destruct (daemon_step timeout d1 (Sweeps now)) as [d2|] eqn:Hstep; [|done].
  injection Hrun as <-.
  destruct (daemon_run_next pid timeout evs d d1 Hok) as [_ Hcnt]; [done|done|lia|lia|done|].
  assert (Hok2 : daemon_ok pid d2) by (apply (daemon_step_ok pid timeout d1 (Sweeps now) d2); [apply Hab|done|done|lia|exact Hstep]).
  destruct (abandoned_sweeps pid timeout token addr t d1 now d2 Hab Hok2 Hstep) as [Hab2 Hgone].
  specialize (Hgone Hlate). split; [done|]. destruct (ab_session _ _ _ _ _ Hab2) as (s' & Hs' & Hd' & Habort).
  exists s'. split_and!; [done|done|]. intros Htask. apply Habort; [done|]. by apply (so_running _ _ _ Hok2 _ _ Hs').
Qed.

End Properties.

(** ** Witnesses *)

(** An empty request starts a command, any other resumes the session it names. *)
Definition toy_start : @Serde toy_wire ExecRequest :=
  @Build_Serde toy_wire ExecRequest (fun _ => Err tt)
    (fun bs => Ok (match bs with [] => Exec "true" true false | _ => Resume (of_bytes bs) 0 end)).

Definition toy_event (request : string) : @DaemonEvent toy_lib :=
  Accepts (@WsItems toy_lib [WsBinary (0 :: as_bytes "secret"); WsBinary (0 :: as_bytes request)]) true true
    {| hub_started := true; spawned := Some (4, 5, 6, 7, Some 100); exec_now := 10; daemon_pid := 1; nanos := 2 |} 10.

Definition toy_daemon : @Daemon toy_jwt toy_http :=
  @daemon_start toy_jwt toy_http no_sessions (@auth_new toy_jwt (Some "secret"%string) None) 0%nat.

Definition toy_run (d : @Daemon toy_jwt toy_http) (evs : list (@DaemonEvent toy_lib)) :
    option (@Daemon toy_jwt toy_http) :=
  @daemon_run toy_lib toy_wire toy_jwt toy_http toy_message toy_hello toy_start 200 d evs.

Definition toy_now (evs : list (@DaemonEvent toy_lib)) : @Daemon toy_jwt toy_http :=
  unwrap_or (toy_run toy_daemon evs) toy_daemon.

Lemma toy_reachable evs : Forall (event_ok 1) evs -> toy_run toy_daemon evs = Some (toy_now evs) ->
  @reachable toy_lib toy_wire toy_jwt toy_http toy_message toy_hello toy_start 1 200 (len evs) (toy_now evs).
Proof.
  intros Hev Hrun. exists no_sessions, (@auth_new toy_jwt (Some "secret"%string) None), 0%nat, evs.
  split_and!; [by left|done|done|exact Hrun].
Qed.

(** The guard of connection [i] is created, or dropped. *)
Definition toy_guard (i : nat) (now : Z) : list (@DaemonEvent toy_lib) := [Guards i now; Guards i now].

(** A session, resumed by a second connection while the first is there. *)
Definition toy_two : list (@DaemonEvent toy_lib) :=
  [toy_event ""] ++ toy_guard 0 10 ++ [toy_event "1-2-0"] ++ toy_guard 1 10.

Ltac events_ok := repeat (constructor; [exact I || (split; [reflexivity|cbn; lia])|]); constructor.

Lemma daemon_well_formed_witness :
  option_map attached (objects (server (toy_now toy_two)) !! 0%nat) = Some 2 /\
  daemon_ok 1 (toy_now toy_two).
Proof.
  split; [vm_compute; reflexivity|].
  apply (@daemon_well_formed toy_lib toy_wire toy_jwt toy_http toy_message toy_hello toy_start 1 200 6).
  - apply (toy_reachable toy_two); [events_ok|vm_compute; reflexivity].
  - lia.
  - reflexivity.
Defined.

Lemma connection_disturbs_nobody_witness :
  let d := toy_now ([toy_event ""] ++ toy_guard 0 10) in
  let d' := toy_now ([toy_event ""] ++ toy_guard 0 10 ++ [toy_event "1-2-0"]) in
  sessions (server d) !! "1-2-0"%string = Some 0%nat /\
  sessions (server d') !! "1-2-0"%string = Some 0%nat.
Proof.
  intros d d'. assert (Ht : sessions (server d) !! "1-2-0"%string = Some 0%nat) by (vm_compute; reflexivity).
  split; [exact Ht|].
  apply (@connection_disturbs_nobody toy_lib toy_wire toy_jwt toy_http toy_message toy_hello toy_start 1 200 3 d d'
    (@WsItems toy_lib [WsBinary (0 :: as_bytes "secret"); WsBinary (0 :: as_bytes "1-2-0")]) true true
    {| hub_started := true; spawned := Some (4, 5, 6, 7, Some 100); exec_now := 10; daemon_pid := 1; nanos := 2 |}
    10 "1-2-0"%string 0%nat).
  - apply (toy_reachable ([toy_event ""] ++ toy_guard 0 10)); [events_ok|vm_compute; reflexivity].
  - lia.
  - reflexivity.
  - split; [reflexivity|cbn; lia].
  - vm_compute; reflexivity.
  - exact Ht.
Defined.

(** The client disconnects at 50; the sweep at 300 expires its session. *)
Definition toy_left : list (@DaemonEvent toy_lib) :=
  [toy_event ""] ++ toy_guard 0 10 ++ [Reacts 0 true (Incoming 50 Server.Closed)] ++ toy_guard 0 50.

Lemma abandoned_session_expires_witness :
  let d := toy_now toy_left in
  exists d', toy_run d [Sweeps 60; Sweeps 300] = Some d' /\
    sessions (server d) !! "1-2-0"%string = Some 0%nat /\ sessions (server d') !! "1-2-0"%string = None.
Proof.
  intros d. eexists. split; [reflexivity|]. split; [vm_compute; reflexivity|].
  destruct (@abandoned_session_expires toy_lib toy_wire toy_jwt toy_http toy_message toy_hello toy_start 1 200 6 d
    "1-2-0"%string 0%nat (unwrap_or (objects (server d) !! 0%nat) example_session.1)) as (t & Ht & Hend).
  - apply (toy_reachable toy_left); [events_ok|vm_compute; reflexivity].
  - lia.
  - reflexivity.
  - vm_compute; reflexivity.
  - vm_compute; reflexivity.
  - intros i c Hi. change (connections d) with [@None Connection] in Hi. by destruct i.
  - assert (t = 50) as -> by (vm_compute in Ht; congruence).
    refine (proj1 (Hend 300 [Sweeps 60] _ _ _ _ _ _)).
    + reflexivity.
    + constructor; [exact I|constructor].
    + vm_compute; reflexivity.
    + lia.
    + reflexivity.
Defined.
