(* ===== verification/Restarts.v ===== *)
(** * Generations of daemons

    The server of [Daemon] over any number of restarts: it runs, is shut down,
    and its successor, another process, restores what it was handed.  The logs
    of all running sessions are faithful in every generation, the state stays
    well formed, and a restart keeps every running resumable session, whoever
    is connected and whatever happened before. *)

From stdpp Require Import gmap.
From S2P Require Import Prelude Proto Auth OutboundLog Session Exec Channel Registry Attach Handover Daemon DaemonInv DaemonProps.

(** ** Logs *)

(** A change of a session that its log survives: the history is the same, more
    of it may have been acknowledged. *)
Definition keeps_log (s s' : Session) : Prop :=
  forall hist acked t, task_inv hist acked s t -> exists acked', task_inv hist acked' s' t.

Lemma keeps_log_refl s : keeps_log s s.
Proof. intros hist acked t H. by exists acked. Qed.

Lemma keeps_log_trans s1 s2 s3 : keeps_log s1 s2 -> keeps_log s2 s3 -> keeps_log s1 s3.
Proof. intros H1 H2 hist acked t H. apply H1 in H as [acked' H]. by eapply H2. Qed.

Lemma keeps_log_same s s' : log s' = log s -> stdin_applied s' = stdin_applied s -> keeps_log s s'.
Proof. intros Hl Hs hist acked t [H1 H2 H3 H4]. exists acked. split; [by rewrite Hl|done|done|by rewrite Hs]. Qed.

Lemma keeps_log_send x s : keeps_log s (send_input x s).1.
Proof. intros hist acked t H. exists acked. by apply send_input_inv. Qed.

Lemma keeps_log_trim n s : keeps_log s (with_log (OutboundLog.trim n (log s)) s).
Proof. intros hist acked t H. eexists. by apply trim_inv. Qed.

Lemma keeps_log_guard now pc s pc' s' : guard_moves now pc s = Some (pc', s') -> keeps_log s s'.
Proof. destruct pc as [| | |[]|]; cbn; intros [= _ <-]; by apply keeps_log_same. Qed.

Section React.
Context `{TL : TransportLib} `{WL : WireLib} `{HL : HttpLib} `{SM : !Serde ChannelMessage}.

Lemma lost_keeps_log s a r : keeps_log s (r_session (lost s a r)).
Proof. unfold lost. destruct (resumable s); [apply keeps_log_refl|apply keeps_log_send]. Qed.

Lemma react_keeps_log np s a ev r : react np s a ev = Some r -> keeps_log s (r_session r).
Proof.
  destruct ev as [now ping_ok|is_err|now ev]; cbn [react].
  - destruct np; [|done]. destruct (_ <=? _); [intros [= <-]; apply lost_keeps_log|].
    destruct ping_ok; intros [= <-]; apply keeps_log_refl.
  - destruct (exit_seq a); [done|]. destruct (_ && _); intros [= <-]; apply keeps_log_refl.
  - intros [= <-]. destruct ev as [bs|bs| |e]; cbn [on_event]; try apply lost_keeps_log.
    + destruct (decode bs) as [m|e]; [|apply keeps_log_refl]. unfold on_message.
      destruct m; try apply keeps_log_send.
      destruct (match exit_seq a with Some _ => _ | None => _ end); apply keeps_log_trim.
    + destruct (decode bs); [apply keeps_log_send|apply keeps_log_refl].
Qed.

End React.

(** Every running session's log is the history of at most [n] messages. *)
Definition logs_ok (n : Z) (sv : Server) : Prop :=
  forall addr s t, objects sv !! addr = Some s -> tasks sv !! addr = Some t ->
    exists hist acked, task_inv hist acked s t /\ len hist <= n.

Lemma logs_ok_in_place n sv sv' : logs_ok n sv -> in_place keeps_log (objects sv) (objects sv') ->
  tasks sv' = tasks sv -> logs_ok n sv'.
Proof.
  intros Hok Hin Ht addr s' t Hs' Ht'. rewrite Ht in Ht'. specialize (Hin addr).
  destruct (objects sv !! addr) as [s|] eqn:Hs; [|congruence]. destruct Hin as (s2 & Hs2 & Hk).
  assert (s2 = s') as -> by congruence. destruct (Hok addr s t Hs Ht') as (hist & acked & Hinv & Hlen).
  apply Hk in Hinv as [acked' Hinv]. by exists hist, acked'.
Qed.

Lemma logs_ok_mono n m sv : logs_ok n sv -> n <= m -> logs_ok m sv.
Proof. intros H Hle addr s t Hs Ht. destruct (H addr s t Hs Ht) as (hist & acked & Hi & Hl). exists hist, acked. split; [done|lia]. Qed.

Section Steps.
Context `{TL : TransportLib} `{WL : WireLib} `{HL : HttpLib}
  `{SM : !Serde ChannelMessage} `{SH : !Serde Hello} `{SR : !Serde ExecRequest}.

Lemma only_adds_logs env n sv sv' : only_adds env sv sv' -> logs_ok n sv -> 0 <= n -> logs_ok n sv'.
Proof.
  intros [->|(token & s & t & counter & _ & Hinv & ->)] Hok Hn; [done|]. intros addr s' t'. cbn.
  intros [[<- <-]|[Hne Hs]]%lookup_insert_Some.
  - rewrite lookup_insert_eq. intros [= <-]. exists [], 0. split; [done|]. change (len []) with 0. lia.
  - rewrite lookup_insert_ne by done. by apply Hok.
Qed.

Lemma accepts_logs n ch welcome_ok started_ok env now d : logs_ok n (server d) -> 0 <= n ->
  logs_ok n (server (accepts ch welcome_ok started_ok env now d)).
Proof.
  intros Hok Hn. unfold accepts.
  pose proof (handshake_only_adds ch (authn d) (world d) welcome_ok (server d) env) as Hadds.
  destruct (handle_connection ch (authn d) (world d) welcome_ok (server d) env) as [[[h au] w] sv].
  cbn [snd] in Hadds. cbn [server].
  exact (only_adds_logs _ n _ _ Hadds Hok Hn).
Qed.

Lemma daemon_step_logs n timeout d ev d' : logs_ok n (server d) -> 0 <= n -> n + 1 < u64_modulus ->
  daemon_step timeout d ev = Some d' -> logs_ok (n + 1) (server d').
Proof.
  intros Hok Hn Hb. destruct ev; cbn [daemon_step].
  - intros [= <-]. eapply logs_ok_mono; [by apply accepts_logs|lia].
  - destruct (connections d !! i) as [[c|]|]; try done.
    destruct (objects (server d) !! on c) as [s|] eqn:Hs; [|done]. destruct (may_move c); [|done].
    destruct (guard_moves now (guard c) s) as [[pc s']|] eqn:Hm; [|done]. intros [= <-].
    eapply logs_ok_mono; [|apply Z.le_succ_diag_r]. eapply logs_ok_in_place; [exact Hok|cbn|done].
    eapply in_place_insert; [apply keeps_log_refl|exact Hs|by eapply keeps_log_guard].
  - destruct (connections d !! i) as [[[addr [token a| |] []]|]|]; try done.
    destruct (objects (server d) !! addr); [|done]. intros [= <-]. eapply logs_ok_mono; [exact Hok|lia].
  - destruct (connections d !! i) as [[[addr [token a| |] []]|]|]; try done.
    destruct (objects (server d) !! addr) as [s|] eqn:Hs; [|done].
    destruct (react needs_ping s a ev) as [r|] eqn:Hr; [|done]. intros [= <-].
    eapply logs_ok_mono; [|apply Z.le_succ_diag_r]. eapply logs_ok_in_place; [exact Hok|cbn|done].
    eapply in_place_insert; [apply keeps_log_refl|exact Hs|by eapply react_keeps_log].
  - destruct (connections d !! i) as [[[addr [token a| |] []]|]|]; try done. intros [= <-].
    eapply logs_ok_mono; [exact Hok|lia].
  - destruct (objects (server d) !! addr) as [s|] eqn:Hs; [|done].
    destruct (tasks (server d) !! addr) as [t|] eqn:Ht; [|done].
    destruct (match ev with InboundDropped => _ | _ => _ end); [done|].
    destruct (task_step s t ev) as [[[[s' t'] effs] st]|] eqn:Hstep; [|done]. intros [= <-].
    destruct (Hok addr s t Hs Ht) as (hist & acked & Hinv & Hlen).
    destruct (task_step_log hist acked _ _ _ _ _ _ _ Hinv ltac:(lia) Hstep) as [Hinv' Hlog].
    apply step_log_facts in Hlog as (_ & _ & Hl1 & _). intros a s2 t2. cbn.
    intros [[<- <-]|[Hne Hs2]]%lookup_insert_Some Ht2.
    + destruct st; [|by rewrite lookup_delete_eq in Ht2]. rewrite lookup_insert_eq in Ht2. injection Ht2 as <-.
      exists (hist ++ logged effs), acked. split; [done|]. rewrite len_app. lia.
    + assert (Ht2' : tasks (server d) !! a = Some t2).
      { destruct st; [by rewrite lookup_insert_ne in Ht2|by rewrite lookup_delete_ne in Ht2]. }
      destruct (Hok a s2 t2 Hs2 Ht2') as (h2 & k2 & Hi2 & Hl2). exists h2, k2. split; [done|lia].
  - destruct (expire_sweep timeout now (sessions (server d)) (objects (server d))) as [r h] eqn:He. intros [= <-].
    eapply logs_ok_mono; [|apply Z.le_succ_diag_r]. eapply logs_ok_in_place; [exact Hok|cbn|done].
    replace h with (expire_sweep timeout now (sessions (server d)) (objects (server d))).2 by (by rewrite He).
    apply in_place_sweep; [apply keeps_log_refl|apply keeps_log_trans|intros s; apply keeps_log_send].
Qed.

End Steps.

(** ** Tokens *)

Definition issued_by (pids : list Z) (token : string) : Prop :=
  exists pid nanos c, pid ∈ pids /\ 0 <= nanos /\ 0 <= c /\ token = (new_resume_token pid nanos c).1.

Definition tokens_from (pids : list Z) (sv : Server) : Prop :=
  forall token addr, sessions sv !! token = Some addr -> issued_by pids token.

(** Another process cannot issue it. *)
Lemma issued_spent pids token pid : issued_by pids token -> Forall (Z.le 0) pids -> 0 <= pid -> pid ∉ pids ->
  spent pid 0 token.
Proof.
  intros (p & n & c & Hp & Hn & Hc & ->) Hpos Hpid Hnot n2 c2 Hn2 Hc2 Heq.
  rewrite Forall_forall in Hpos. specialize (Hpos p Hp).
  apply resume_token_injective in Heq as [-> _]; [done|lia..].
Qed.

Lemma issued_mono pids pids' token : issued_by pids token -> pids ⊆ pids' -> issued_by pids' token.
Proof. intros (p & n & c & Hp & Hrest) Hsub. exists p, n, c. split; [by apply Hsub|done]. Qed.

Section Tokens.
Context `{TL : TransportLib} `{WL : WireLib} `{HL : HttpLib}
  `{SM : !Serde ChannelMessage} `{SH : !Serde Hello} `{SR : !Serde ExecRequest}.

Lemma accepts_tokens pid ch welcome_ok started_ok env now d token addr : env_ok pid env ->
  0 <= token_counter (server d) ->
  sessions (server (accepts ch welcome_ok started_ok env now d)) !! token = Some addr ->
  sessions (server d) !! token = Some addr \/ issued_by [pid] token.
Proof.
  intros [Hp Hn] H0. unfold accepts.
  pose proof (handshake_only_adds ch (authn d) (world d) welcome_ok (server d) env) as Hadds.
  destruct (handle_connection ch (authn d) (world d) welcome_ok (server d) env) as [[[h au] w] sv].
  cbn [snd] in Hadds.
  cbn. destruct Hadds as [->|(tk & s & t & counter & -> & _ & ->)]; [by left|]. cbn.
  intros [[<- _]|[_ Hs]]%lookup_insert_Some; [right|by left].
  rewrite Hp. eexists _, _, _. split_and!; [by left|exact Hn|exact H0|done].
Qed.

Lemma daemon_step_tokens pid timeout d ev d' token addr : event_ok pid ev -> 0 <= token_counter (server d) ->
  daemon_step timeout d ev = Some d' -> sessions (server d') !! token = Some addr ->
  sessions (server d) !! token = Some addr \/ issued_by [pid] token.
Proof.
  intros Hev H0. destruct ev; cbn [daemon_step].
  - intros [= <-]. by eapply accepts_tokens.
  - destruct (connections d !! i) as [[c|]|]; try done. destruct (objects (server d) !! on c); [|done].
    destruct (may_move c); [|done]. destruct (guard_moves _ _ _) as [[pc s']|]; [|done]. intros [= <-]. by left.
  - destruct (connections d !! i) as [[[ad [tk a| |] []]|]|]; try done.
    destruct (objects (server d) !! ad); [|done]. intros [= <-]. by left.
  - destruct (connections d !! i) as [[[ad [tk a| |] []]|]|]; try done.
    destruct (objects (server d) !! ad) as [s|]; [|done]. destruct (react _ _ _ _) as [r|]; [|done].
    intros [= <-]. cbn. unfold remove. destruct (r_remove r); [|by left].
    intros [_ ?]%lookup_delete_Some. by left.
  - destruct (connections d !! i) as [[[ad [tk a| |] []]|]|]; try done. intros [= <-]. by left.
  - destruct (objects (server d) !! addr0) as [s|]; [|done]. destruct (tasks (server d) !! addr0) as [t|]; [|done].
    destruct (match ev with InboundDropped => _ | _ => _ end); [done|].
    destruct (task_step s t ev) as [[[[s' t'] effs] st]|]; [|done]. intros [= <-]. by left.
  - pose proof (fold_remove (expired timeout now (sessions (server d)) (objects (server d)))
      (sessions (server d)) (objects (server d))) as Hrem.
    unfold expire_sweep. destruct (fold_left _ _ _) as [r h]. destruct Hrem as [Hrem _].
    intros [= <-]. cbn. rewrite Hrem. case_bool_decide; [done|by left].
Qed.

End Tokens.

(** ** What a restore creates *)

Lemma restore_loop_only is_pipe hub_started now accepted groups recs : forall sv sv',
  restore_loop is_pipe hub_started now accepted groups recs sv = (Ok tt, sv') ->
  (forall addr s t, objects sv' !! addr = Some s -> tasks sv' !! addr = Some t ->
     (objects sv !! addr = Some s /\ tasks sv !! addr = Some t) \/
     exists token rec, (token, rec) ∈ recs /\
       restore_one is_pipe hub_started now (accepted token) rec (unwrap_or (groups !! token) ∅) = Ok (s, t)) /\
  (forall token addr, sessions sv' !! token = Some addr ->
     sessions sv !! token = Some addr \/ exists rec, (token, rec) ∈ recs) /\
  token_counter sv' = token_counter sv.
Proof.
  induction recs as [|[tk rec] recs IH]; intros sv sv'; cbn [restore_loop]; [intros [= <-]; by auto|].
  destruct (restore_one _ _ _ (accepted tk) rec _) as [[s1 t1]|e] eqn:Hone; [|done]. intros Hrun.
  apply IH in Hrun as (Hobj & Htok & Hcnt). split_and!; [| |exact Hcnt].
  - intros addr s t Hs Ht. destruct (Hobj addr s t Hs Ht) as [[Hs' Ht']|(token & rec' & Hin & Hr)].
    + cbn in Hs', Ht'. apply lookup_insert_Some in Hs' as [[<- <-]|[Hne Hs']].
      * rewrite lookup_insert_eq in Ht'. injection Ht' as <-. right. exists tk, rec. by split; [left|].
      * rewrite lookup_insert_ne in Ht' by done. by left.
    + right. exists token, rec'. by split; [right|].
  - intros token addr Ht. destruct (Htok token addr Ht) as [Ht'|[rec' Hin]].
    + cbn in Ht'. unfold insert_session in Ht'. apply lookup_insert_Some in Ht' as [[<- _]|[_ Ht']]; [right; exists rec; by left|by left].
    + right. exists rec'. by right.
Qed.

(** ** Generations *)

Section Generations.
Context `{TL : TransportLib} `{WL : WireLib} `{HL : HttpLib}
  `{SM : !Serde ChannelMessage} `{SH : !Serde Hello} `{SR : !Serde ExecRequest}.

(** The current daemon, the process ids of all daemons so far (its own first),
    and the number of steps and restarts. *)
Inductive generations (timeout : Z) : list Z -> Z -> Daemon -> Prop :=
| Boots pid au w : 0 <= pid -> generations timeout [pid] 0 (daemon_start no_sessions au w)
| Steps pid pids n d ev d' : generations timeout (pid :: pids) n d -> event_ok pid ev ->
    daemon_step timeout d ev = Some d' -> generations timeout (pid :: pids) (n + 1) d'
| RestartsAs pid pids n d answer now accepted fds_ recs old' new' au w : generations timeout pids n d ->
    answers_truly answer (server d) -> handover_sessions answer (server d) = (fds_, recs, old') ->
    restore_sessions (fun _ => true) true now accepted (Some (Ok recs)) fds_ no_sessions = (Ok tt, new') ->
    0 <= pid -> pid ∉ pids -> generations timeout (pid :: pids) (n + 1) (daemon_start new' au w).

Record generation_ok (pids : list Z) (n : Z) (d : Daemon) : Prop := {
  go_pids : Forall (Z.le 0) pids;
  go_state : forall pid, head pids = Some pid -> daemon_ok pid d;
  go_logs : logs_ok n (server d);
  go_tokens : tokens_from pids (server d);
  go_counter : 0 <= token_counter (server d) <= n;
}.

Lemma registered_once pid sv conns : server_ok pid sv conns -> NoDup (map snd (entries (sessions sv))).
Proof.
  intros Hok. apply NoDup_fmap_2_strong; [|apply NoDup_map_to_list].
  intros [t1 a1] [t2 a2] H1%elem_of_map_to_list H2%elem_of_map_to_list Heq. cbn in Heq. subst a2.
  by rewrite (so_one_token _ _ _ Hok t1 t2 a1 H1 H2).
Qed.

(** The session a record was made from, and the one made from the record. *)
Lemma handed_restored answer sv n token addr s h (accepted : string -> bytes) now roles : logs_ok n sv -> answers_truly answer sv ->
  handed answer (objects sv) addr s h -> (forall role, roles !! role = roles_of h !! role) ->
  exists t hist acked s2 t2, tasks sv !! addr = Some t /\ task_inv hist acked s t /\ len hist <= n /\
    restore_one (fun _ => true) true now (accepted token) (set_forward_agent (agent s) (state h)) roles = Ok (s2, t2) /\
    task_inv hist acked s2 t2 /\ agent s2 = agent s /\ resumable s2 = true /\
    stdin t2 = stdin t /\ exit_code t2 = exit_code t /\ pgid t2 = pgid t /\ last_client_seq t2 = last_client_seq t.
Proof.
  intros Hlogs Htrue (Hs & Hres & Hcl & Hans) Hroles.
  destruct (Htrue addr h Hans) as (s' & t & Hs' & Ht & Hh). assert (s' = s) as -> by congruence.
  destruct (Hlogs addr s t Hs Ht) as (hist & acked & Hinv & Hlen).
  destruct (restore_handed now (accepted token) s t hist acked h roles Hh Hinv Hroles)
    as (s2 & t2 & Hone & Hinv2 & Hag & Hres2 & _ & _ & _ & Hin & Hex & Hap & Hpg & _).
  exists t, hist, acked, s2, t2. by split_and!.
Qed.

(** The successor of a daemon. *)
Lemma restart_ok pids n d answer now accepted fds_ recs old' new' : generation_ok pids n d -> is_Some (head pids) ->
  answers_truly answer (server d) -> handover_sessions answer (server d) = (fds_, recs, old') ->
  restore_sessions (fun _ => true) true now accepted (Some (Ok recs)) fds_ no_sessions = (Ok tt, new') ->
  logs_ok n new' /\ token_counter new' = 0 /\
  (forall token a, sessions new' !! token = Some a -> is_Some (sessions (server d) !! token)) /\
  (forall pid, 0 <= pid -> pid ∉ pids -> server_ok pid new' []).
Proof.
  intros [Hpids Hst Hlogs Htok Hcnt] [pid0 Hhead] Htrue Hho Hre. specialize (Hst pid0 Hhead).
  pose proof (handover_contents answer (server d) (registered_once _ _ _ Hst) Htrue) as Hcont.
  rewrite Hho in Hcont. destruct Hcont as [Hfrom Hto]. cbn [restore_sessions] in Hre.
  destruct (restore_loop_only _ _ _ _ _ _ _ _ Hre) as (Honly & Hreg & Hcnt0).
  assert (Hspent : forall pid token rec, 0 <= pid -> pid ∉ pids -> recs !! token = Some rec -> spent pid 0 token).
  { intros pid token rec Hp Hnot Hrec. destruct (Hfrom token rec Hrec) as (addr & s & h & Ht & _).
    by apply (issued_spent pids); [eapply Htok|..]. }
  split_and!.
  - intros a s2 t2 Hs2 Ht2. destruct (Honly a s2 t2 Hs2 Ht2) as [[Hx _]|(token & rec & Hin & Hone)];
      [cbn in Hx; by rewrite lookup_empty in Hx|].
    apply elem_of_map_to_list in Hin. destruct (Hfrom token rec Hin) as (addr & s & h & Ht & Hh).
    destruct (Hto token addr s h Ht Hh) as (_ & Hrec & Hroles). rewrite Hrec in Hin. injection Hin as <-.
    destruct (handed_restored answer (server d) n token addr s h accepted now _ Hlogs Htrue Hh Hroles)
      as (t & hist & acked & s3 & t3 & _ & _ & Hlen & Hone' & Hinv & _).
    rewrite Hone in Hone'. injection Hone' as <- <-. by exists hist, acked.
  - exact Hcnt0.
  - intros token a Ht. destruct (Hreg token a Ht) as [Hx|[rec Hin]]; [cbn in Hx; by rewrite lookup_empty in Hx|].
    apply elem_of_map_to_list in Hin. destruct (Hfrom token rec Hin) as (addr & _ & _ & Hd & _). by eexists.
  - intros pid Hp Hnot. eapply restore_loop_server_ok; [apply no_sessions_ok|done| | |exact Hre].
    + apply NoDup_fst_map_to_list.
    + intros token rec Hin%elem_of_map_to_list. split; [by eapply Hspent|done].
Qed.

Lemma generations_pids timeout pids n d : generations timeout pids n d -> is_Some (head pids) /\ 0 <= n.
Proof. induction 1; (split; [by eexists|lia]). Qed.

Lemma generations_ok timeout pids n d : generations timeout pids n d -> n < u64_modulus -> generation_ok pids n d.
Proof.
  induction 1 as [pid au w Hp|pid pids n d ev d' Hg IH Hev Hstep
    |pid pids n d answer now accepted fds_ recs old' new' au w Hg IH Htrue Hho Hre Hp Hnot]; intros Hb.
  - split; cbn; [by constructor| | |by intros ? ? ?|lia].
    + intros p [= <-]. apply no_sessions_ok.
    + by intros addr s t Hs.
  - pose proof (generations_pids _ _ _ _ Hg) as [_ Hn]. destruct IH as [H1 H2 H3 H4 H5]; [lia|].
    specialize (H2 pid eq_refl). inversion H1 as [|? ? Hp Hps]; subst.
    destruct (daemon_step_ok pid timeout d ev d' H2 Hp Hev) as [Hok Hc]; [lia|done|]. split.
    + done.
    + by intros p [= <-].
    + by eapply daemon_step_logs; [..|exact Hstep].
    + intros token a Ht. destruct (daemon_step_tokens pid timeout d ev d' token a Hev) as [Ht'|Hi]; [lia|done|done|..].
      * by eapply H4.
      * eapply issued_mono; [exact Hi|set_solver].
    + lia.
  - pose proof (generations_pids _ _ _ _ Hg) as [Hhead Hn]. assert (Hok : generation_ok pids n d) by (apply IH; lia).
    destruct (restart_ok pids n d answer now accepted fds_ recs old' new' Hok Hhead Htrue Hho Hre) as (Hl & Hc & Ht & Hs).
    split; cbn.
    + constructor; [done|apply Hok].
    + intros p [= <-]. by apply Hs.
    + eapply logs_ok_mono; [exact Hl|lia].
    + intros token a Ha. destruct (Ht token a Ha) as [addr Hd]. eapply issued_mono; [by eapply (go_tokens _ _ _ Hok)|set_solver].
    + lia.
Qed.

End Generations.

(** ** Property *)

(** C8: sessions survive any number of restarts.  Consider a server in any
    generation: it and its predecessors ran through arbitrary connections,
    messages, pipe events, failures and sweeps, and each predecessor was shut
    down and succeeded by a process with another id.  When it is shut down in
    turn, the restore succeeds; the successor starts well formed; it has no
    token its predecessor had not; and every resumable session whose task runs
    and answers is there under its token, no longer served by the old daemon,
    with the same history in its log (the same replay from every position), the
    same applied stdin, exit code, open stdin pipe and process group. *)
Theorem restarts_keep_sessions `{TL : TransportLib} `{WL : WireLib} `{HL : HttpLib}
    `{SM : !Serde ChannelMessage} `{SH : !Serde Hello} `{SR : !Serde ExecRequest}
    (timeout : Z) (pids : list Z) (n : Z) (d : Daemon) (answer : nat -> option SessionHandover)
    (now : Z) (accepted : string -> bytes) :
  generations timeout pids n d -> n + 1 < u64_modulus -> answers_truly answer (server d) ->
  let '(fds_, recs, old') := handover_sessions answer (server d) in
  exists new',
    restore_sessions (fun _ => true) true now accepted (Some (Ok recs)) fds_ no_sessions = (Ok tt, new') /\
    (forall pid au w, 0 <= pid -> pid ∉ pids -> daemon_ok pid (daemon_start new' au w)) /\
    (forall token a, sessions new' !! token = Some a -> is_Some (sessions (server d) !! token)) /\
    (forall token addr s, sessions (server d) !! token = Some addr -> objects (server d) !! addr = Some s ->
       resumable s = true -> is_Some (tasks (server d) !! addr) -> is_Some (answer addr) ->
       sessions old' !! token = None /\
       exists t s2 t2, tasks (server d) !! addr = Some t /\ restored new' token s2 t2 /\
         (forall m, 0 <= m -> OutboundLog.after (log s2) m = OutboundLog.after (log s) m) /\
         seq t2 = seq t /\ stdin_applied s2 = stdin_applied s /\ agent s2 = agent s /\ resumable s2 = true /\
         stdin t2 = stdin t /\ exit_code t2 = exit_code t /\ pgid t2 = pgid t).
Proof.
  intros Hg Hb Htrue. pose proof (generations_pids _ _ _ _ Hg) as [[pid0 Hhead] _].
  pose proof (generations_ok _ _ _ _ Hg ltac:(lia)) as Hok.
  pose proof (go_state _ _ _ Hok pid0 Hhead) as Hst.
  pose proof (handover_contents answer (server d) (registered_once _ _ _ Hst) Htrue) as Hcont.
  destruct (handover_sessions answer (server d)) as [[fds_ recs] old'] eqn:Hho. destruct Hcont as [_ Hto].
  destruct (restore_total recs fds_ now accepted no_sessions) as [new' Hre]. exists new'. split; [done|].
  destruct (restart_ok pids n d answer now accepted fds_ recs old' new' Hok (mk_is_Some _ _ Hhead) Htrue Hho Hre)
    as (_ & _ & Htok & Hs).
  split_and!; [intros pid au w Hp Hnot; by apply Hs|exact Htok|].
  intros token addr s Ht Hobj Hres Htask [h Hans].
  assert (Hh : handed answer (objects (server d)) addr s h).
  { split_and!; [done|done| |done]. by apply (so_running _ _ _ Hst _ _ Hobj). }
  destruct (Hto token addr s h Ht Hh) as (Hgone & Hrec & Hroles). split; [done|].
  destruct (handed_restored answer (server d) n token addr s h accepted now _ (go_logs _ _ _ Hok) Htrue Hh Hroles)
    as (t & hist & acked & s2 & t2 & Ht' & Hi & _ & Hone & Hi2 & Hfacts).
  pose proof (restore_loop_ok _ _ _ _ _ _ _ _ Hre (NoDup_fst_map_to_list recs)) as (_ & _ & Hall).
  destruct (Hall token (set_forward_agent (agent s) (state h))) as (s3 & t3 & Hone' & Hr); [by apply elem_of_map_to_list|].
  rewrite Hone in Hone'. injection Hone' as <- <-. exists t, s2, t2.
  destruct Hi as [L1 L2 L3 L4], Hi2 as [M1 M2 M3 M4], Hfacts as (F1 & F2 & F3 & F4 & F5 & F6).
  split_and!; [done|done| | | |done..].
  - intros m Hm. by rewrite (OutboundLog.after_represents _ _ _ m M1 Hm), (OutboundLog.after_represents _ _ _ m L1 Hm).
  - by rewrite M2.
  - by rewrite M4, L4.
Qed.

(** A daemon with one session, its client still connected, shut down. *)
Definition toy_old : @Daemon toy_jwt toy_http := toy_now ([toy_event ""] ++ toy_guard 0 10).
Definition toy_answer (addr : nat) : option SessionHandover :=
  match objects (server toy_old) !! addr, tasks (server toy_old) !! addr with
  | Some s, Some t => Some (handover_reply (fun _ => true) s t)
  | _, _ => None
  end.

Lemma restarts_keep_sessions_witness :
  let '(fds_, recs, old') := handover_sessions toy_answer (server toy_old) in
  map fst fds_ = ["1-2-0.stdin"; "1-2-0.stdout"; "1-2-0.stderr"; "1-2-0.exit"]%string /\
  exists new',
    restore_sessions (fun _ => true) true 77 (fun _ => []) (Some (Ok recs)) fds_ no_sessions = (Ok tt, new') /\
    @daemon_ok toy_jwt toy_http 3 (@daemon_start toy_jwt toy_http new' (@auth_new toy_jwt None None) 0%nat) /\
    (forall token a, sessions new' !! token = Some a -> is_Some (sessions (server toy_old) !! token)).
Proof.
  assert (Hg : @generations toy_lib toy_wire toy_jwt toy_http toy_message toy_hello toy_start 200 [1] 3 toy_old).
  { pose (go := @Steps toy_lib toy_wire toy_jwt toy_http toy_message toy_hello toy_start 200 1 []).
    refine (go 2 (toy_now [toy_event ""; Guards 0 10]) (Guards 0 10) toy_old _ I _).
    - refine (go 1 (toy_now [toy_event ""]) (Guards 0 10) _ _ I _).
      + refine (go 0 toy_daemon (toy_event "") _ _ _ _).
        * apply Boots. lia.
        * split; [reflexivity|cbn; lia].
        * vm_compute. reflexivity.
      + vm_compute. reflexivity.
    - vm_compute. reflexivity. }
  assert (Ht : answers_truly toy_answer (server toy_old)).
  { intros addr h. unfold toy_answer. destruct (objects (server toy_old) !! addr) as [s|] eqn:Hs; [|discriminate].
    destruct (tasks (server toy_old) !! addr) as [t|] eqn:Hx; [|discriminate].
    intros [= <-]. exists s, t. split_and!; reflexivity. }
  pose proof (@restarts_keep_sessions toy_lib toy_wire toy_jwt toy_http toy_message toy_hello toy_start
    200 [1] 3 toy_old toy_answer 77 (fun _ => []) Hg eq_refl Ht) as H.
  assert (Hf : map fst (handover_sessions toy_answer (server toy_old)).1.1 =
    ["1-2-0.stdin"; "1-2-0.stdout"; "1-2-0.stderr"; "1-2-0.exit"]%string) by (vm_compute; reflexivity).
  destruct (handover_sessions toy_answer (server toy_old)) as [[fds_ recs] old']. split; [exact Hf|].
  destruct H as (new' & Hre & Hok & Htok & _). exists new'. split; [exact Hre|]. split; [|exact Htok].
  apply Hok; [lia|]. apply (bool_decide_unpack _). vm_compute. exact I.
Defined.
