(* ===== verification/Transport.v ===== *)
(** * Sending over both transports ([send], [ping], [close] in
    [server/src/channel.rs] and [client/src/channel.rs])

    What a side hands to tungstenite or quinn, and the theorem that the choice
    of transport makes no difference: what was sent over a WebSocket and over a
    QUIC stream reaches the other side's [next] as the same events, apart from
    the datagrams. *)

From S2P Require Import Prelude Proto Channel.

Local Open Scope rust_scope.

(** ** What was handed to the library *)

(** The messages given to [ws.send], or the bytes given to [write_all] on the
    QUIC stream and whether it was finished. *)
Inductive WsOut : Type :=
| OutBinary (bs : bytes)
| OutPing
| OutClose.

Inductive Link : Type :=
| WsLink (sent : list WsOut)
| QuicLink (written : bytes) (finished : bool).

Section Answers.
Context `{TransportLib}.

(** The library's answer to a send; a failed [write_all] may have written part
    of its bytes. *)
Record Answer := {
  ws_error : option WsError;
  quic_error : option (QuicError * nat);
}.

Definition sent_ok : Answer := {| ws_error := None; quic_error := None |}.

(** [ws.send(..).await] and [send.write_all(..).await]. *)
Definition ws_send (a : Answer) (out : WsOut) (sent : list WsOut) : result unit WsError * Link :=
  match ws_error a with
  | None => (Ok tt, WsLink (sent ++ [out]))
  | Some e => (Err e, WsLink sent)
  end.
Definition write_all (a : Answer) (bs : bytes) (written : bytes) (finished : bool) : result unit QuicError * Link :=
  match quic_error a with
  | None => (Ok tt, QuicLink (written ++ bs) finished)
  | Some (e, n) => (Err e, QuicLink (written ++ firstn n bs) finished)
  end.

End Answers.

(** ** The server side *)

Module ServerSide.
Section ServerSide.
Context `{TransportLib} `{WireLib} {T : Type} `{!Serde T}.

(** The [ServerError]s of a send: [Protocol], [WebSocket], [Io]. *)
Inductive SendError : Type :=
| Protocol (e : ProtocolError)
| WebSocket (e : WsError)
| Io (e : QuicError).

Definition send (a : Answer) (msg : T) (l : Link) : result unit SendError * Link :=
  match l with
  | WsLink sent =>
      match encode msg with
      | Ok bs => let '(r, l) := ws_send a (OutBinary bs) sent in (map_err WebSocket r, l)
      | Err e => (Err (Protocol e), l)
      end
  | QuicLink written finished =>
      match encode_frame msg with
      | Ok bs => let '(r, l) := write_all a bs written finished in (map_err Io r, l)
      | Err e => (Err (Protocol e), l)
      end
  end.

Definition ping (a : Answer) (l : Link) : result unit SendError * Link :=
  match l with
  | WsLink sent => let '(r, l) := ws_send a OutPing sent in (map_err WebSocket r, l)
  | QuicLink _ _ => (Ok tt, l)
  end.

(** [close]: errors are ignored. *)
Definition close (a : Answer) (l : Link) : Link :=
  match l with
  | WsLink sent => (ws_send a OutClose sent).2
  | QuicLink written _ => QuicLink written true
  end.

End ServerSide.
End ServerSide.

(** ** The client side *)

Module ClientSide.
Section ClientSide.
Context `{TransportLib} `{WireLib} {T : Type} `{!Serde T}.

(** The [ClientError]s of a send. *)
Inductive SendError : Type :=
| Protocol (e : ProtocolError)
| WebSocket (e : WsError)
| Io (e : QuicError).

Definition send (a : Answer) (msg : T) (l : Link) : result unit SendError * Link :=
  match l with
  | WsLink sent =>
      match encode msg with
      | Ok bs => let '(r, l) := ws_send a (OutBinary bs) sent in (map_err WebSocket r, l)
      | Err e => (Err (Protocol e), l)
      end
  | QuicLink written finished =>
      match encode_frame msg with
      | Ok bs => let '(r, l) := write_all a bs written finished in (map_err Io r, l)
      | Err e => (Err (Protocol e), l)
      end
  end.

Definition ping (a : Answer) (l : Link) : result unit unit * Link :=
  match l with
  | WsLink sent => let '(r, l) := ws_send a OutPing sent in (map_err (fun _ => tt) r, l)
  | QuicLink _ _ => (Ok tt, l)
  end.

End ClientSide.
End ClientSide.

(** ** What arrives *)

Section Receiving.
Context `{TransportLib}.

(** The messages of a WebSocket as the other end's [ws.next()] returns them. *)
Definition as_item (out : WsOut) : WsItem :=
  match out with OutBinary bs => WsBinary bs | OutPing => WsOther | OutClose => WsClose end.

(** The channel at the other end: all messages of the WebSocket, or the bytes
    of the stream in any chunks with any datagrams in between, and its end. *)
Definition arrives (l : Link) (ch : Items) : Prop :=
  match l, ch with
  | WsLink sent, WsItems items => items = map as_item sent
  | QuicLink written finished, QuicItems d items =>
      d = FrameDecoder.new /\
      exists body, items = body ++ (if finished then [StreamEnded] else []) /\
        Forall healthy body /\ stream_bytes body = written
  | _, _ => False
  end.

Definition item_count (ch : Items) : nat :=
  match ch with WsItems items => length items | QuicItems _ items => length items end.

(** Calling [next] until it is pending or the connection has ended. *)
Fixpoint server_receive (fuel : nat) (ch : Items) : list Server.Event :=
  match fuel with
  | O => []
  | S fuel =>
      match Server.next ch with
      | (None, _) => []
      | (Some Server.Closed, _) => [Server.Closed]
      | (Some (Server.Failed e), _) => [Server.Failed e]
      | (Some ev, ch) => ev :: server_receive fuel ch
      end
  end.

Fixpoint client_receive (fuel : nat) (ch : Items) : list Client.Event :=
  match fuel with
  | O => []
  | S fuel =>
      match Client.next ch with
      | (None, _) => []
      | (Some Client.Disconnected, _) => [Client.Disconnected]
      | (Some ev, ch) => ev :: client_receive fuel ch
      end
  end.

Definition is_datagram (ev : Server.Event) : bool := match ev with Server.Datagram _ => true | _ => false end.
Definition reliable (evs : list Server.Event) : list Server.Event := List.filter (fun ev => negb (is_datagram ev)) evs.
Definition client_reliable (evs : list Client.Event) : list Client.Event :=
  List.filter (fun ev => match ev with Client.Datagram _ => false | _ => true end) evs.

(** *** Facts *)

Lemma client_next_ws items :
  Client.next_ws items = (let '(ev, items) := Server.next_ws items in (to_client <$> ev, items)).
Proof. induction items as [|[] items IH]; try done. Qed.

Lemma client_receive_server fuel : forall ch, client_receive fuel ch = map to_client (server_receive fuel ch).
Proof.
  induction fuel as [|fuel IH]; intros ch; [done|]. cbn [client_receive server_receive].
  assert (Hn : Client.next ch = (to_client <$> (Server.next ch).1, (Server.next ch).2)).
  { destruct ch as [items|d items]; cbn [Client.next Server.next].
    - rewrite client_next_ws. by destruct (Server.next_ws items).
    - rewrite client_next_quic. by destruct (Server.next_quic d items) as [[ev d'] rest]. }
  rewrite Hn. destruct (Server.next ch) as [[[bs|bs| |e]|] ch']; cbn; rewrite ?IH; done.
Qed.

Lemma client_reliable_map evs : client_reliable (map to_client evs) = map to_client (reliable evs).
Proof. induction evs as [|ev evs IH]; [done|]. destruct ev; cbn; try done; by f_equal. Qed.

(** Events of a WebSocket: a frame per message, and the end. *)
Definition ws_event (out : WsOut) : list Server.Event :=
  match out with OutBinary bs => [Server.Frame bs] | OutPing => [] | OutClose => [Server.Closed] end.

Lemma receive_ws outs tail : forall fuel, Forall (fun o => o <> OutClose) outs -> tail = [] \/ tail = [OutClose] ->
  (length outs + length tail < fuel)%nat ->
  server_receive fuel (WsItems (map as_item (outs ++ tail))) = concat (map ws_event (outs ++ tail)).
Proof.
  induction outs as [|o outs IH]; intros [|fuel] Ho Ht Hf; try (cbn in Hf; lia).
  - by destruct Ht as [->| ->].
  - inversion Ho as [|? ? Ho1 Ho2]; subst. cbn in Hf. destruct o as [bs| |]; [| |done].
    + cbn. f_equal. apply IH; [done|done|lia].
    + cbn. rewrite <- (IH (S fuel)) by (done || lia). done.
Qed.

Lemma next_quic_more items more : forall d ev d' rest, Server.next_quic d items = (Some ev, d', rest) ->
  Server.next_quic d (items ++ more) = (Some ev, d', rest ++ more).
Proof.
  induction items as [|it items IH]; intros d ev d' rest; cbn [Server.next_quic app];
    destruct (FrameDecoder.next_frame d) as [[[f|]|n] d1] eqn:Hf; try done; try (by intros [= <- <- <-]).
  - intros [= <- <- <-]. destruct more; cbn [Server.next_quic]; by rewrite Hf.
  - intros [= <- <- <-]. destruct more; cbn [Server.next_quic]; by rewrite Hf.
  - destruct it; try (by intros [= <- <- <-]). apply IH.
Qed.

(** The end of the stream is seen after everything before it. *)
Lemma receive_quic fuel tail : forall d items evs, events_fuel fuel d items = (evs, FrameDecoder.new) ->
  Forall arrival evs -> (length evs < fuel)%nat -> tail = [] \/ tail = [StreamEnded] ->
  server_receive fuel (QuicItems d (items ++ tail)) =
  evs ++ match tail with [] => [] | _ => [Server.Closed] end.
Proof.
  induction fuel as [|fuel IH]; intros d items evs He Hall Hlen Ht; [lia|].
  cbn [events_fuel] in He. cbn [server_receive Server.next].
  destruct (Server.next_quic d items) as [[[ev|] d1] rest] eqn:Hn.
  - rewrite (next_quic_more _ _ _ _ _ _ Hn). destruct (events_fuel fuel d1 rest) as [evs' d'] eqn:He'.
    injection He as <- ->. inversion Hall as [|? ? Ha Hall']; subst. cbn in Hlen.
    rewrite (IH d1 rest evs' He' Hall') by (done || lia). by destruct ev.
  - rewrite (next_quic_resume _ _ _ _ _ Hn). injection He as <- ->. by destruct Ht as [->| ->].
Qed.

End Receiving.

(** ** Both transports carry the same *)

Section Equivalence.
Context `{TransportLib} `{WireLib} `{!WireLibOk} {T : Type} `{!Serde T} `{!SerdeOk T}.

(** What a side does with its connection before it closes it or drops it. *)
Inductive Op : Type :=
| OpSend (msg : T)
| OpPing.

Definition messages (ops : list Op) : list T := omap (fun op => match op with OpSend m => Some m | OpPing => None end) ops.

Definition server_op (l : Link) (op : Op) : Link :=
  match op with
  | OpSend m => (ServerSide.send sent_ok m l).2
  | OpPing => (ServerSide.ping sent_ok l).2
  end.
Definition client_op (l : Link) (op : Op) : Link :=
  match op with
  | OpSend m => (ClientSide.send sent_ok m l).2
  | OpPing => (ClientSide.ping sent_ok l).2
  end.

Definition packed (m : T) : bytes := match encode m with Ok bs => bs | Err _ => [] end.
Definition out_of (op : Op) : WsOut := match op with OpSend m => OutBinary (packed m) | OpPing => OutPing end.

Lemma client_op_server l op : client_op l op = server_op l op.
Proof.
  destruct op as [m|], l as [sent|written fin]; cbn; try done.
  - by destruct (encode m).
  - by destruct (encode_frame m).
Qed.

Lemma messages_small op ops : Forall small (messages (op :: ops)) ->
  Forall small (messages ops) /\ match op with OpSend m => small m | OpPing => True end.
Proof. destruct op as [m|]; cbn; [by inversion 1|done]. Qed.

Lemma ops_ws ops : forall sent, Forall small (messages ops) ->
  fold_left server_op ops (WsLink sent) = WsLink (sent ++ map out_of ops).
Proof.
  induction ops as [|op ops IH]; intros sent Hs; cbn [fold_left map]; [by rewrite app_nil_r|].
  apply messages_small in Hs as [Hs Hop]. destruct op as [m|]; cbn [server_op out_of ServerSide.send ServerSide.ping].
  - destruct (small_encode m Hop) as (bs & Hp & _). unfold packed. rewrite Hp. cbn. rewrite IH by done.
    by rewrite <- app_assoc.
  - cbn. rewrite IH by done. by rewrite <- app_assoc.
Qed.

Lemma ops_quic ops : forall written fin, Forall small (messages ops) ->
  fold_left server_op ops (QuicLink written fin) =
  QuicLink (written ++ FrameDecoder.wire (map packed (messages ops))) fin.
Proof.
  induction ops as [|op ops IH]; intros written fin Hs; cbn [fold_left messages]; [by rewrite app_nil_r|].
  apply messages_small in Hs as [Hs Hop]. destruct op as [m|]; cbn [server_op ServerSide.send ServerSide.ping].
  - destruct (small_encode m Hop) as (bs & Hp & _ & Hf). rewrite Hf. cbn. rewrite IH by done.
    unfold packed, FrameDecoder.wire. cbn. rewrite Hp. by rewrite <- app_assoc.
  - cbn. by rewrite IH.
Qed.

Lemma packed_fit ms : Forall small ms -> Forall FrameDecoder.fits (map packed ms) /\ map decode (map packed ms) = map Ok ms.
Proof.
  induction 1 as [|m ms Hm _ [IH1 IH2]]; [done|]. destruct (small_encode m Hm) as (bs & Hp & Hfit & _).
  assert (Hpk : packed m = bs) by (unfold packed; by rewrite Hp). cbn [map]. rewrite Hpk.
  split; [by constructor|]. rewrite (decode_small m bs Hm Hp). by f_equal.
Qed.

(** The events of a connection that carried [ops] and was then closed or not. *)
Definition expected (ops : list Op) (closed : bool) : list Server.Event :=
  map (fun m => Server.Frame (packed m)) (messages ops) ++ (if closed then [Server.Closed] else []).

Lemma reliable_frames evs : Forall arrival evs -> reliable evs = map Server.Frame (frames_of evs).
Proof. induction 1 as [|ev evs Ha _ IH]; [done|]. destruct ev; try done. cbn. by f_equal. Qed.

Lemma arrivals_length evs : Forall arrival evs ->
  length evs = (length (frames_of evs) + length (event_datagrams evs))%nat.
Proof. induction 1 as [|ev evs Ha _ IH]; [done|]. unfold frames_of, event_datagrams in *. destruct ev; try done; cbn in *; lia. Qed.

Lemma datagrams_length (items : list QuicItem) : (length (datagrams_of items) <= length items)%nat.
Proof. induction items as [|[] items IH]; cbn; lia. Qed.

Lemma expected_ws (ops : list Op) (closed : bool) :
  concat (map ws_event (map out_of ops ++ (if closed then [OutClose] else []))) = expected ops closed.
Proof.
  unfold expected. induction ops as [|[m|] ops IH]; cbn; [by destruct closed|by f_equal|exact IH].
Qed.

Lemma arrives_ws (ops : list Op) (closed : bool) (ch : Items) (fuel : nat) : Forall small (messages ops) ->
  arrives (if closed then ServerSide.close sent_ok (fold_left server_op ops (WsLink []))
           else fold_left server_op ops (WsLink [])) ch -> (length ops + 1 < fuel)%nat ->
  server_receive fuel ch = expected ops closed.
Proof.
  intros Hs Har Hf. rewrite (ops_ws ops [] Hs) in Har. cbn [app] in Har.
  set (tail := if closed then [OutClose] else []).
  assert (Hch : ch = WsItems (map as_item (map out_of ops ++ tail))).
  { unfold tail. destruct closed, ch; try done; cbn in Har; subst; by rewrite ?app_nil_r. }
  rewrite Hch, receive_ws; [apply expected_ws| | |].
  - apply Forall_forall. intros o Ho%list_elem_of_In%in_map_iff. by destruct Ho as ([m|] & <- & _).
  - unfold tail. destruct closed; [by right|by left].
  - rewrite length_map. unfold tail. destruct closed; cbn; lia.
Qed.

Lemma arrives_quic (ops : list Op) (closed : bool) (ch : Items) (fuel : nat) : Forall small (messages ops) ->
  arrives (if closed then ServerSide.close sent_ok (fold_left server_op ops (QuicLink [] false))
           else fold_left server_op ops (QuicLink [] false)) ch -> (length ops + item_count ch + 1 < fuel)%nat ->
  reliable (server_receive fuel ch) = expected ops closed.
Proof.
  intros Hs Har Hf. rewrite (ops_quic ops [] false Hs) in Har. cbn [app] in Har.
  destruct ch as [|d items]; [by destruct closed|].
  assert (Hcase : exists body, d = FrameDecoder.new /\ items = body ++ (if closed then [StreamEnded] else []) /\
    Forall healthy body /\ stream_bytes body = FrameDecoder.wire (map packed (messages ops))).
  { destruct closed; cbn in Har; destruct Har as (-> & body & -> & Hh & Hb); by exists body. }
  destruct Hcase as (body & -> & -> & Hh & Hb). cbn [item_count] in Hf. rewrite length_app in Hf.
  assert (Hlen : (length (map packed (messages ops)) <= length ops)%nat).
  { rewrite length_map. clear. unfold messages. induction ops as [|[m|] ops IH]; cbn in *; lia. }
  destruct (packed_fit _ Hs) as [Hfit _]. pose proof (datagrams_length body).
  destruct (events_deliver _ (map packed (messages ops)) body [] [] fuel eq_refl)
    as (evs & He & Hfr & Hdg & Hall); [lia|done|done|apply FrameDecoder.partial_nil|by rewrite app_nil_r|].
  pose proof (arrivals_length evs Hall) as Hl. rewrite Hfr, Hdg in Hl.
  rewrite (receive_quic fuel (if closed then [StreamEnded] else []) FrameDecoder.new body evs He Hall); [|lia|destruct closed; [by right|by left]].
  unfold expected. pose proof (reliable_frames evs Hall) as Hrel. unfold reliable in *.
  rewrite List.filter_app, Hrel, Hfr, map_map. by destruct closed.
Qed.

(** C35: the choice of transport makes no difference.  Whatever messages and
    pings a side sends over a WebSocket and over a QUIC stream before it closes
    the connection or not, the other side's [next] returns the same events in
    the same order on both, a frame per message, decoding to the message, then
    the end, however the stream is cut into chunks, and apart from the datagrams
    that arrive in between. *)
Theorem transports_equivalent (ops : list Op) (closed : bool) (ws_ch quic_ch : Items) (fuel : nat) :
  let over (l : Link) := let l := fold_left server_op ops l in if closed then ServerSide.close sent_ok l else l in
  let over' (l : Link) := fold_left client_op ops l in
  Forall small (messages ops) -> (length ops + item_count quic_ch + 1 < fuel)%nat ->
  (arrives (over (WsLink [])) ws_ch -> arrives (over (QuicLink [] false)) quic_ch ->
   client_reliable (client_receive fuel quic_ch) = client_receive fuel ws_ch /\
   client_receive fuel ws_ch =
     map (fun m => Client.Frame (packed m)) (messages ops) ++ (if closed then [Client.Disconnected] else [])) /\
  (arrives (over' (WsLink [])) ws_ch -> arrives (over' (QuicLink [] false)) quic_ch ->
   reliable (server_receive fuel quic_ch) = server_receive fuel ws_ch /\
   server_receive fuel ws_ch = map (fun m => Server.Frame (packed m)) (messages ops)) /\
  map (fun m => decode (packed m)) (messages ops) = map Ok (messages ops).
Proof.
  intros over over' Hs Hf. split_and!.
  - intros Hw Hq. rewrite !client_receive_server, client_reliable_map.
    rewrite (arrives_ws ops closed ws_ch fuel Hs), (arrives_quic ops closed quic_ch fuel Hs) by (done || lia).
    split; [done|]. unfold expected. rewrite map_app, map_map. by destruct closed.
  - assert (Hsame : forall l, over' l = fold_left server_op ops l).
    { unfold over'. clear. induction ops as [|op ops IH]; intros l; [done|]. cbn. by rewrite client_op_server, IH. }
    rewrite !Hsame. intros Hw Hq.
    rewrite (arrives_ws ops false ws_ch fuel Hs), (arrives_quic ops false quic_ch fuel Hs) by (done || lia).
    split; [done|]. unfold expected. by rewrite app_nil_r.
  - rewrite <- map_map. by apply packed_fit.
Qed.

End Equivalence.

(** A ping and two messages, the second compressed, in three chunks around a datagram. *)
Lemma transports_equivalent_witness :
  let lib := Build_TransportLib unit unit in
  let ops := [OpSend [1; 2; 3]; OpPing; OpSend (replicate 100 7)] in
  let ws := @WsItems lib [WsBinary [0; 1; 2; 3]; WsOther; WsBinary [1; 7; 100]; WsClose] in
  let quic := @QuicItems lib FrameDecoder.new
    [Chunk [0; 0]; Chunk [0; 4; 0; 1; 2]; DatagramRead [9]; Chunk [3; 0; 0; 0; 3; 1; 7; 100]; StreamEnded] in
  client_receive 20 ws = [Client.Frame [0; 1; 2; 3]; Client.Frame [1; 7; 100]; Client.Disconnected] /\
  client_reliable (client_receive 20 quic) = client_receive 20 ws.
Proof.
  intros lib ops ws quic. split; [vm_compute; reflexivity|].
  eapply (@transports_equivalent lib toy_wire toy_wire_ok bytes toy_serde toy_serde_ok ops true ws quic 20).
  - repeat constructor; (eexists; split; [reflexivity|vm_compute; reflexivity]).
  - vm_compute. repeat constructor.
  - vm_compute. reflexivity.
  - split; [reflexivity|].
    exists [Chunk [0; 0]; Chunk [0; 4; 0; 1; 2]; DatagramRead [9]; Chunk [3; 0; 0; 0; 3; 1; 7; 100]].
    split; [reflexivity|]. split; [repeat constructor|vm_compute; reflexivity].
Defined.
