(* ===== verification/QuicSetup.v ===== *)
(** * Setting up QUIC and TLS ([connect_quic] in [client/src/channel.rs],
    [client/src/tls.rs], [server/src/quic.rs])

    The decisions the code makes around rustls, quinn and the resolver: which
    certificates are trusted, which host name is authenticated, which address
    family is bound, and where each attempt fails.  The answers of the
    libraries are arguments; durations are milliseconds. *)

From S2P Require Import Prelude Proto Channel Target.

Local Open Scope rust_scope.

(** ** Trust anchors *)

Section Roots.

(** A certificate is its DER bytes; [acceptable] is what [RootCertStore::add]
    takes. *)
Variable acceptable : bytes -> bool.

(** The loop of [native_roots]: each certificate once, unusable ones left out. *)
Fixpoint add_native (certs seen roots : list bytes) : list bytes :=
  match certs with
  | [] => roots
  | cert :: certs =>
      if bool_decide (cert ∈ seen) then add_native certs seen roots
      else add_native certs (cert :: seen) (if acceptable cert then roots ++ [cert] else roots)
  end.

(** [native_roots]: the bundle the probe found, unless the environment names
    another one. *)
Definition native_roots (ssl_cert_file ssl_cert_dir probed : option string)
    (from_bundle : string -> list bytes) (from_system : list bytes) : list bytes :=
  let explicit := bool_decide (is_Some ssl_cert_file) || bool_decide (is_Some ssl_cert_dir) in
  let certs :=
    match probed with
    | Some file => if explicit then from_system else from_bundle file
    | None => from_system
    end in
  add_native certs [] [].

(** The loop of [client_config] over the extra file: its first bad certificate
    is an error. *)
Fixpoint add_extra (certs : list (option bytes)) (roots : list bytes) : result (list bytes) ClientError :=
  match certs with
  | [] => Ok roots
  | Some cert :: certs => if acceptable cert then add_extra certs (roots ++ [cert]) else Err Io
  | None :: _ => Err Io
  end.

(** [client_config]; [pem_file_iter] is the file's certificates, [None] where
    one does not parse. *)
Definition client_config (roots : list bytes) (pem_file_iter : string -> option (list (option bytes)))
    (extra_ca : option string) : result (list bytes) ClientError :=
  match extra_ca with
  | Some path => match pem_file_iter path with Some certs => add_extra certs roots | None => Err Io end
  | None => Ok roots
  end.

(** The process-wide [ROOTS]: computed once, then kept. *)
Definition get_or_init (fresh : list bytes) (cell : option (list bytes)) : list bytes * option (list bytes) :=
  match cell with Some roots => (roots, cell) | None => (fresh, Some fresh) end.

(** [http_client]: trusts the system's roots only. *)
Definition http_client (roots : list bytes) (pem_file_iter : string -> option (list (option bytes))) (built : bool)
    : result (list bytes) ClientError :=
  let? trusted := client_config roots pem_file_iter None in
  if built then Ok trusted else Err Io.

End Roots.

(** ** Connections *)

Inductive SocketAddr : Type :=
| V4 (ip : Z) (port : Z)
| V6 (ip : Z) (port : Z).

Definition is_ipv4 (a : SocketAddr) : bool := match a with V4 _ _ => true | V6 _ _ => false end.

(** The settings of a connection; both sides use BBR. *)
Record QuicConfig := {
  alpn_protocols : list bytes;
  keep_alive_interval : Z;
  initial_rtt : Z;
  max_idle_timeout : Z;
}.

(** What the libraries answer during one call of [connect_quic]; [idle_fits] is
    whether a duration converts to quinn's [IdleTimeout]. *)
Record QuicAnswers := {
  native : list bytes;
  acceptable_root : bytes -> bool;
  pem_file : string -> option (list (option bytes));
  suits_quic : bool;
  idle_fits : Z -> bool;
  lookup_host : option (list SocketAddr);
  endpoint_bound : bool;
  handshake_done : bool;
  stream_opened : bool;
}.

(** The connection [connect_quic] makes: bound locally, authenticated as. *)
Record QuicConn := {
  local : SocketAddr;
  remote : SocketAddr;
  server_name : string;
  trusted : list bytes;
  config : QuicConfig;
  conn_items : FrameDecoder.FrameDecoder;
}.

(** [d.try_into().map_err(Error::other)]. *)
Definition idle_timeout (fits : Z -> bool) (d : Z) : result Z ClientError := if fits d then Ok d else Err Io.

Definition unspecified (a : SocketAddr) : SocketAddr := if is_ipv4 a then V4 0 0 else V6 0 0.

Definition connect_quic (target : Target) (addr : string) (q : QuicAnswers) : result QuicConn ClientError :=
  match rsplit_once 58 (as_bytes addr) with
  | None => Err Io
  | Some (host, _) =>
      let? roots := client_config (acceptable_root q) (native q) (pem_file q) (quic_ca target) in
      if negb (suits_quic q) then Err Io
      else
        let? idle := idle_timeout (idle_fits q) (keepalive_timeout target) in
        let config := {| alpn_protocols := [as_bytes PROTOCOL]; keep_alive_interval := keepalive_interval target;
                         initial_rtt := 100; max_idle_timeout := idle |} in
        match lookup_host q with
        | None | Some [] => Err Io
        | Some (remote :: _) =>
            if endpoint_bound q && handshake_done q && stream_opened q then
              Ok {| local := unspecified remote; remote := remote; server_name := of_bytes host;
                    trusted := roots; config := config; conn_items := FrameDecoder.new |}
            else Err Io
        end
  end.

(** ** The listener *)

Definition KEEP_ALIVE_INTERVAL : Z := 15000.
Definition IDLE_TIMEOUT : Z := 45000.
Definition INITIAL_RTT : Z := 100.

Inductive QuicSocket : Type :=
| Addr (a : SocketAddr)
| Inherited (fd : Z).

(** What the libraries answer during one call of [listen]; a certificate that
    does not parse is [None]. *)
Record ListenAnswers := {
  cert_file : option (list (option bytes));
  key_file : option bytes;
  single_cert : list bytes -> bytes -> bool;
  server_suits_quic : bool;
  server_idle_fits : Z -> bool;
  nonblocking : bool;
  has_runtime : bool;
  endpoint_ok : bool;
}.

Record Endpoint := {
  socket : QuicSocket;
  chain : list bytes;
  endpoint_config : QuicConfig;
}.

(** [collect::<Result<Vec<_>, _>>()]. *)
Fixpoint collect (certs : list (option bytes)) : option (list bytes) :=
  match certs with
  | [] => Some []
  | Some cert :: certs => match collect certs with Some l => Some (cert :: l) | None => None end
  | None :: _ => None
  end.

Definition listen (sock : QuicSocket) (q : ListenAnswers) : result Endpoint ClientError :=
  match cert_file q ≫= collect, key_file q with
  | Some certs, Some key =>
      if single_cert q certs key && server_suits_quic q then
        let? idle := idle_timeout (server_idle_fits q) IDLE_TIMEOUT in
        let config := {| alpn_protocols := [as_bytes PROTOCOL]; keep_alive_interval := KEEP_ALIVE_INTERVAL;
                         initial_rtt := INITIAL_RTT; max_idle_timeout := idle |} in
        let ok :=
          match sock with
          | Addr _ => endpoint_ok q
          | Inherited _ => nonblocking q && has_runtime q && endpoint_ok q
          end in
        if ok then Ok {| socket := sock; chain := certs; endpoint_config := config |} else Err Io
      else Err Io
  | _, _ => Err Io
  end.

(** ** Facts *)

(** Every certificate that is there and usable, once. *)
Lemma add_native_spec acceptable certs : forall seen roots,
  NoDup roots -> (forall c, c ∈ roots -> c ∈ seen) ->
  NoDup (add_native acceptable certs seen roots) /\
  forall c, c ∈ add_native acceptable certs seen roots <->
    c ∈ roots \/ (c ∈ certs /\ c ∉ seen /\ acceptable c = true).
Proof.
  induction certs as [|cert certs IH]; intros seen roots Hnd Hsub; cbn [add_native]; [set_solver|].
  case_bool_decide as Hin.
  - destruct (IH seen roots Hnd Hsub) as [H1 H2]. split; [done|]. intros c. rewrite H2. set_solver.
  - destruct (IH (cert :: seen) (if acceptable cert then roots ++ [cert] else roots)) as [H1 H2].
    + destruct (acceptable cert); [|done]. apply NoDup_app. set_solver by (try apply NoDup_singleton; done).
    + destruct (acceptable cert); set_solver.
    + split; [done|]. intros c. rewrite H2. destruct (decide (c = cert)) as [->|].
      * destruct (acceptable cert) eqn:Ha; set_solver.
      * destruct (acceptable cert) eqn:Ha; set_solver.
Qed.

Lemma native_roots_spec acceptable ssl_cert_file ssl_cert_dir probed from_bundle from_system :
  let roots := native_roots acceptable ssl_cert_file ssl_cert_dir probed from_bundle from_system in
  NoDup roots /\
  forall c, c ∈ roots <-> acceptable c = true /\
    c ∈ match probed, ssl_cert_file, ssl_cert_dir with
        | Some file, None, None => from_bundle file
        | _, _, _ => from_system
        end.
Proof.
  unfold native_roots.
  match goal with |- context [add_native acceptable ?certs [] []] =>
    destruct (add_native_spec acceptable certs [] []) as [H1 H2]; [constructor|set_solver|] end.
  split; [done|]. intros c. rewrite H2.
  destruct probed, ssl_cert_file, ssl_cert_dir; cbn; set_solver.
Qed.

(** Later calls see the roots of the first, whatever the system answers then. *)
Lemma get_or_init_stable fresh fresh' cell :
  get_or_init fresh' (get_or_init fresh cell).2 = get_or_init fresh cell.
Proof. by destruct cell. Qed.

(** An extra file only adds to the roots, all of its certificates or none. *)
Lemma client_config_spec acceptable roots pem_file_iter extra_ca trusted :
  client_config acceptable roots pem_file_iter extra_ca = Ok trusted ->
  exists extra, trusted = roots ++ extra /\ Forall (fun c => acceptable c = true) extra /\
    match extra_ca with Some path => pem_file_iter path = Some (map Some extra) | None => extra = [] end.
Proof.
  unfold client_config. destruct extra_ca as [path|]; [|intros [= <-]; exists []; by rewrite app_nil_r].
  destruct (pem_file_iter path) as [certs|]; [|done]. revert roots.
  induction certs as [|[cert|] certs IH]; intros roots; cbn [add_extra]; [| |done].
  - intros [= <-]. exists []. by rewrite app_nil_r.
  - destruct (acceptable cert) eqn:Ha; [|done]. intros (extra & -> & Hall & [= ->])%IH.
    exists (cert :: extra). rewrite <- app_assoc. split_and!; [done|by constructor|done].
Qed.

(** The server is authenticated as the part before the last colon, over a
    socket of the remote's family; without a colon nothing is attempted. *)
Lemma connect_quic_spec target addr q conn : connect_quic target addr q = Ok conn ->
  exists port, as_bytes addr = as_bytes (server_name conn) ++ 58 :: port /\
    is_ipv4 (local conn) = is_ipv4 (remote conn) /\
    client_config (acceptable_root q) (native q) (pem_file q) (quic_ca target) = Ok (trusted conn) /\
    max_idle_timeout (config conn) = keepalive_timeout target /\ idle_fits q (keepalive_timeout target) = true.
Proof.
  unfold connect_quic. destruct (rsplit_once 58 (as_bytes addr)) as [[host port]|] eqn:Hsplit; [|done].
  destruct (client_config _ _ _ _) as [roots|]; [|done]. cbn [result_bind]. destruct (negb _); [done|].
  unfold idle_timeout. destruct (idle_fits q _) eqn:Hfits; [|done]. cbn [result_bind].
  destruct (lookup_host q) as [[|remote rest]|]; try done. destruct (_ && _); [|done]. intros [= <-]. cbn -[as_bytes of_bytes].
  exists port. split_and!; [|by destruct remote|done|done|done].
  apply rsplit_once_inv in Hsplit. pose proof (is_bytes_as_bytes addr) as Hb. rewrite Hsplit in Hb.
  apply Forall_app in Hb as [Hb _]. by rewrite (as_of_bytes host Hb).
Qed.

(** With usable files the listener accepts only this protocol, on the socket it
    was given. *)
Lemma listen_spec sock q ep : listen sock q = Ok ep ->
  socket ep = sock /\ alpn_protocols (endpoint_config ep) = [as_bytes PROTOCOL] /\
  max_idle_timeout (endpoint_config ep) = IDLE_TIMEOUT /\ cert_file q = Some (map Some (chain ep)).
Proof.
  unfold listen. destruct (cert_file q) as [certs|]; [|done]. cbn [option_bind mbind].
  destruct (collect certs) as [chain|] eqn:Hc; [|done]. destruct (key_file q) as [key|]; [|done].
  destruct (_ && _); [|done]. unfold idle_timeout. destruct (server_idle_fits q _); [|done]. cbn.
  destruct (match sock with Addr _ => _ | Inherited _ => _ end); [|done].
  intros [= <-]. cbn. split_and!; [done|done|done|]. f_equal. clear -Hc. revert chain Hc.
  induction certs as [|[cert|] certs IH]; cbn; intros chain Hc; [by injection Hc as <-| |done].
  destruct (collect certs) as [l|]; [|done]. injection Hc as <-. cbn. f_equal. by apply IH.
Qed.
