(* ===== verification/Serve.v ===== *)
(** * Starting, serving and ending the daemon ([Server]'s constructors, setters,
    [serve], [serve_quic] and [shut_down] in [server/src/lib.rs]; the end of
    [main] in [server/src/main.rs])

    What happens before the first connection of [Daemon], which connections get
    a handler, and what is left for the next daemon.  Sockets, accepted streams
    and the file system answer through arguments; times are milliseconds. *)

From S2P Require Import Prelude Proto Auth OutboundLog Session Exec Channel Registry Attach Handover Target AgentSetup QuicSetup.
From S2P Require ServerMain.

Local Open Scope rust_scope.

(** ** The server before it serves *)

Definition DEFAULT_SESSION_TIMEOUT : Z := 7 * 24 * 60 * 60 * 1000.

(** [Server] but for [auth], which [ServerMain] determines, and [sessions]. *)
Record Settings := {
  listener : ServerMain.Source;
  quic : option Endpoint;
  login_shell : string;
  session_timeout : Z;
  agent : SharedAgentHub;
  session_env : list (string * string);
}.

(** [local_addr]: whether the listener tells its address, for the log. *)
Definition with_listener (l : ServerMain.Source) (local_addr : bool) (shell : string) : result Settings ClientError :=
  if local_addr then
    Ok {| listener := l; quic := None; login_shell := shell; session_timeout := DEFAULT_SESSION_TIMEOUT;
          agent := shared_agent_hub_new None; session_env := [] |}
  else Err Io.

(** [ok]: whether the address could be bound, [nonblocking]: whether the
    inherited listener could be made non-blocking and registered. *)
Definition bind (addr : string) (ok local_addr : bool) (shell : string) : result Settings ClientError :=
  if ok then with_listener (ServerMain.Address addr) local_addr shell else Err Io.
Definition from_std_listener (fd : Z) (nonblocking local_addr : bool) (shell : string) : result Settings ClientError :=
  if nonblocking then with_listener (ServerMain.Inherited fd) local_addr shell else Err Io.

Definition set_session_timeout (timeout : Z) (s : Settings) : Settings :=
  {| listener := listener s; quic := quic s; login_shell := login_shell s; session_timeout := timeout;
     agent := agent s; session_env := session_env s |}.
Definition set_session_env (env : list (string * string)) (s : Settings) : Settings :=
  {| listener := listener s; quic := quic s; login_shell := login_shell s; session_timeout := session_timeout s;
     agent := agent s; session_env := env |}.
Definition set_agent_runtime_dir (dir : bytes) (s : Settings) : Settings :=
  {| listener := listener s; quic := quic s; login_shell := login_shell s; session_timeout := session_timeout s;
     agent := shared_agent_hub_new (Some dir); session_env := session_env s |}.
Definition enable_quic_endpoint (sock : QuicSocket) (q : ListenAnswers) (local_addr : bool) (s : Settings)
    : result Settings ClientError :=
  let? endpoint := listen sock q in
  if negb local_addr then Err Io
  else Ok {| listener := listener s; quic := Some endpoint; login_shell := login_shell s;
             session_timeout := session_timeout s; agent := agent s; session_env := session_env s |}.
Definition enable_quic (addr : SocketAddr) : ListenAnswers -> bool -> Settings -> result Settings ClientError :=
  enable_quic_endpoint (QuicSetup.Addr addr).
Definition enable_quic_from_socket (fd : Z) : ListenAnswers -> bool -> Settings -> result Settings ClientError :=
  enable_quic_endpoint (QuicSetup.Inherited fd).

(** The addresses it listens on, as the sockets tell them. *)
Definition local_addr (answer : option SocketAddr) (s : Settings) : result SocketAddr ClientError := ok_or answer Io.
Definition quic_addr (answer : Endpoint -> option SocketAddr) (s : Settings) : option SocketAddr := quic s ≫= answer.

(** The asynchronous block of [main], up to [run]: [restore] is
    [restore_sessions] on the runtime directory. *)
Record StartAnswers := {
  listener_ok : bool;
  listener_addr : bool;
  endpoint_addr : bool;
  parse_addr : string -> option SocketAddr;
  listen_answers : ListenAnswers;
  runtime_directory : option bytes;
  restore : list (string * Z) -> result unit RestoreError * Server;
}.

Definition start_server (c : ServerMain.Config) (shell : string) (empty : Server) (a : StartAnswers)
    : result (Settings * Server) ClientError :=
  let? s :=
    match ServerMain.listener c with
    | ServerMain.Inherited fd => from_std_listener fd (listener_ok a) (listener_addr a) shell
    | ServerMain.Address addr => bind addr (listener_ok a) (listener_addr a) shell
    end in
  let s := match ServerMain.session_timeout c with Some secs => set_session_timeout (secs * 1000) s | None => s end in
  let? s :=
    match ServerMain.quic c with
    | None => Ok s
    | Some (_, _, ServerMain.Inherited fd) => enable_quic_from_socket fd (listen_answers a) (endpoint_addr a) s
    | Some (_, _, ServerMain.Address addr) =>
        match parse_addr a addr with
        | Some addr => enable_quic addr (listen_answers a) (endpoint_addr a) s
        | None => Err Io
        end
    end in
  match runtime_directory a with
  | None => Ok (s, empty)
  | Some dir =>
      match restore a (ServerMain.session_fds c) with
      | (Ok _, sv) => Ok (set_agent_runtime_dir dir s, sv)
      | (Err _, _) => Err Io
      end
  end.

(** ** Serving *)

(** What [select!] in [serve] returns, with the result of the WebSocket
    handshake that the connection's own task then waits for. *)
Inductive Turn : Type :=
| AcceptedStream (handshake_ok : bool)
| AcceptFailed
| Sigterm.

Inductive Outcome : Type :=
| ShutsDown
| ReturnsError.

(** The loop of [serve] on the turns seen so far: how many connections reached
    [handle_channel], and how it ended. *)
Fixpoint serve (turns : list Turn) : nat * option Outcome :=
  match turns with
  | [] => (0%nat, None)
  | AcceptedStream ok :: turns =>
      let '(n, outcome) := serve turns in ((if ok : bool then S n else n), outcome)
  | AcceptFailed :: _ => (0%nat, Some ReturnsError)
  | Sigterm :: _ => (0%nat, Some ShutsDown)
  end.

(** [serve_quic]: a connection and its stream for each incoming attempt, until
    the endpoint is closed. *)
Inductive QuicTurn : Type :=
| IncomingQuic (connected stream_accepted : bool)
| EndpointClosed.

Fixpoint serve_quic (turns : list QuicTurn) : list FrameDecoder.FrameDecoder * bool :=
  match turns with
  | [] => ([], true)
  | IncomingQuic connected stream_accepted :: turns =>
      let '(channels, open) := serve_quic turns in
      (if connected && stream_accepted then FrameDecoder.new :: channels else channels, open)
  | EndpointClosed :: _ => ([], false)
  end.

(** ** The end of the daemon *)

(** [shut_down]: without a runtime directory there is nowhere to put the
    sessions; otherwise the descriptors for the store and sessions.json, unless
    that cannot be written. *)
Definition shut_down (runtime_dir : option bytes) (answer : nat -> option SessionHandover) (written : bool)
    (sv : Server) : result (named_fds * option records) ClientError * Server :=
  match runtime_dir with
  | None => (Ok ([], None), sv)
  | Some _ =>
      let '(fds, recs, sv) := handover_sessions answer sv in
      (if written then Ok (fds, Some recs) else Err Io, sv)
  end.

(** [run]: what the process leaves behind when it ends. *)
Definition run_end (outcome : Outcome) (runtime_dir : option bytes) (answer : nat -> option SessionHandover)
    (written : bool) (sv : Server) : result (named_fds * option records) ClientError * Server :=
  match outcome with
  | ShutsDown => shut_down runtime_dir answer written sv
  | ReturnsError => (Err Io, sv)
  end.

(** ** Facts *)

(** Every connection before the first failed accept or SIGTERM is served. *)
Lemma serve_prefix oks turn rest : turn <> AcceptedStream true -> turn <> AcceptedStream false ->
  serve (map AcceptedStream oks ++ turn :: rest) =
  (length (List.filter id oks), Some match turn with Sigterm => ShutsDown | _ => ReturnsError end).
Proof.
  intros H1 H2. induction oks as [|ok oks IH]; cbn [map app serve].
  - by destruct turn as [[]| |].
  - rewrite IH. by destruct ok.
Qed.

(** A failed accept leaves nothing for the next daemon. *)
Lemma accept_error_hands_nothing_over oks rest runtime_dir answer written sv :
  let '(_, outcome) := serve (map AcceptedStream oks ++ AcceptFailed :: rest) in
  outcome = Some ReturnsError /\ run_end ReturnsError runtime_dir answer written sv = (Err Io, sv).
Proof. by rewrite serve_prefix. Qed.

(** The default timeout holds unless the option is given; QUIC is enabled
    exactly if it was configured; a server that starts is configured as asked. *)
Lemma start_server_spec c shell empty a s sv : start_server c shell empty a = Ok (s, sv) ->
  listener s = ServerMain.listener c /\
  session_timeout s = match ServerMain.session_timeout c with
                      | Some secs => secs * 1000
                      | None => DEFAULT_SESSION_TIMEOUT
                      end /\
  (is_Some (quic s) <-> is_Some (ServerMain.quic c)) /\
  runtime_dir (agent s) = runtime_directory a /\
  (runtime_directory a = None -> sv = empty).
Proof.
  unfold start_server. intros H.
  destruct (match ServerMain.listener c with ServerMain.Inherited _ => _ | _ => _ end) as [s0|] eqn:H0; [|done].
  assert (Hs0 : with_listener (ServerMain.listener c) true shell = Ok s0).
  { destruct (ServerMain.listener c); unfold from_std_listener, bind in H0; destruct (listener_ok a); try done;
      by destruct (listener_addr a). }
  injection Hs0 as <-. cbn [result_bind] in H. revert H. set (s1 := match ServerMain.session_timeout c with Some _ => _ | None => _ end).
  assert (Hs1 : listener s1 = ServerMain.listener c /\ quic s1 = None /\ runtime_dir (agent s1) = None /\
    session_timeout s1 = match ServerMain.session_timeout c with Some secs => secs * 1000 | None => DEFAULT_SESSION_TIMEOUT end).
  { subst s1. by destruct (ServerMain.session_timeout c). }
  clearbody s1. intros H.
  destruct (match ServerMain.quic c with None => _ | Some _ => _ end) as [s2|] eqn:H2; [|done]. cbn [result_bind] in H.
  assert (Hs2 : listener s2 = listener s1 /\ session_timeout s2 = session_timeout s1 /\ agent s2 = agent s1 /\
    (is_Some (quic s2) <-> is_Some (ServerMain.quic c))).
  { destruct Hs1 as (_ & Hq & _). destruct (ServerMain.quic c) as [[[cert key] src]|]; [|injection H2 as <-; by rewrite Hq].
    assert (Hen : exists sock, enable_quic_endpoint sock (listen_answers a) (endpoint_addr a) s1 = Ok s2).
    { destruct src as [fd|addr]; [by eexists|]. destruct (parse_addr a addr); [by eexists|done]. }
    destruct Hen as [sock Hen]. unfold enable_quic_endpoint in Hen. destruct (listen sock _); [|done].
    cbn in Hen. destruct (endpoint_addr a); [|done]. injection Hen as <-. cbn. split_and!; [done..|]. by split; eexists. }
  destruct Hs1 as (E1 & _ & E3 & E4), Hs2 as (F1 & F2 & F3 & F4).
  destruct (runtime_directory a) as [dir|].
  - destruct (restore a _) as [[u|e] sv']; [|done]. injection H as <- <-. cbn. by rewrite F1, F2, E1, E4.
  - injection H as <- <-. by rewrite F1, F2, F3, E1, E3, E4.
Qed.
