(* ===== verification/Latency.v ===== *)
(** * The latency benchmark ([client/examples/latency.rs])

    The measurements of both backends, their percentiles, and the command line.
    What the exec, the clock and the pipes answer are arguments; durations are
    nanoseconds.  The program has no errors of its own: every failure is a
    panic, and what was printed before it stays printed. *)

From stdpp Require Import sorting.
From S2P Require Import Prelude Proto Auth Session Target.

Local Open Scope rust_scope.

(** ** Panics and output *)

(** A failed [unwrap], [expect] or [assert_eq!], an index out of range, the
    [panic!] about the transport. *)
Inductive Panic : Type :=
| Unwrapped
| NotIterations
| WrongCode (code : Z)
| OutOfRange
| UnknownTransport (transport : string).

Inductive Line : Type :=
| TransportIs (transport : string)
| Report (name : string) (n : nat) (p50 p90 p99 : Z)
| BulkReport (total elapsed : Z).

(** ** The backends *)

Inductive Backend : Type :=
| Eternal (t : Target)
| Ssh (argv : list string).

(** What happens to the local ssh: started, its output copied to the end, the
    exit code of its status ([None] inside for a signal). *)
Record SshAnswers := {
  started : bool;
  copied : bool;
  waited : option (option Z);
}.

(** The program, its arguments, and the command as the last of them. *)
Definition ssh_command (argv : list string) (cmd : string) : option (string * list string) :=
  match argv with [] => None | program :: args => Some (program, args ++ [cmd]) end.

(** [Backend::exec]; [run] is what [run_exec] returns. *)
Definition exec (b : Backend) (cmd : string) (run : result Z ClientError) (ssh : SshAnswers) : result Z Panic :=
  match b with
  | Eternal _ => map_err (fun _ => Unwrapped) run
  | Ssh argv =>
      match ssh_command argv cmd with
      | None => Err OutOfRange
      | Some _ =>
          if started ssh && copied ssh then
            match waited ssh with Some code => Ok (unwrap_or code (-1)) | None => Err Unwrapped end
          else Err Unwrapped
      end
  end.

(** The input task: one byte at a time, until a read gives none or a write
    fails. *)
Fixpoint ssh_input (reads : list (result bytes unit)) (writes : list bool) : bytes :=
  match reads, writes with
  | Ok [b] :: reads, ok :: writes => if ok then b :: ssh_input reads writes else []
  | _, _ => []
  end.

(** ** The report *)

(** [samples[(samples.len() - 1) * p / 100]] of the sorted samples; without any
    the subtraction or the index panics. *)
Definition pct (samples : list Z) (p : nat) : result Z Panic :=
  match samples with
  | [] => Err OutOfRange
  | _ => ok_or (samples !! ((length samples - 1) * p / 100)%nat) OutOfRange
  end.

Definition report (name : string) (samples : list Z) : result Line Panic :=
  let samples := merge_sort Z.le samples in
  let? p50 := pct samples 50 in
  let? p90 := pct samples 90 in
  let? p99 := pct samples 99 in
  Ok (Report name (length samples) p50 p90 p99).

(** ** The measurements *)

(** [connect]: each run's exit code and time. *)
Fixpoint connect_samples (runs : list (result Z Panic * Z)) : result (list Z) Panic :=
  match runs with
  | [] => Ok []
  | (code, elapsed) :: runs =>
      let? code := code in
      if code =? 0 then let? samples := connect_samples runs in Ok (elapsed :: samples) else Err (WrongCode code)
  end.

Definition connect (n : nat) (run : nat -> result Z Panic * Z) : result Line Panic :=
  let? samples := connect_samples (map run (List.seq 0 n)) in report "connect" samples.

(** [echo]: a warm-up, then the times of [n] round trips ([None] when the pipe
    breaks); the exec's task must not have panicked, which is found out after
    the report is printed. *)
Definition echo (n : nat) (warm_up : bool) (trip : nat -> option Z) (exec : result Z Panic)
    : list (result Line Panic) :=
  [ if warm_up then let? samples := ok_or (mapM trip (List.seq 0 n)) Unwrapped in report "echo" samples
    else Err Unwrapped ] ++
  match exec with Ok _ => [] | Err _ => [Err Unwrapped] end.

(** [bulk]: reads until one gives nothing; [None] when they never do. *)
Fixpoint bulk_total (reads : list (option Z)) (total : Z) : option (result Z Panic) :=
  match reads with
  | [] => None
  | None :: _ => Some (Err Unwrapped)
  | Some n :: reads => if n =? 0 then Some (Ok total) else bulk_total reads (total + n)
  end.

Definition bulk (reads : list (option Z)) (elapsed : Z) (exec : result Z Panic) : option (result Line Panic) :=
  match bulk_total reads 0 with
  | None => None
  | Some total =>
      Some (let? total := total in
            let? _ := map_err (fun _ => Unwrapped) exec in
            Ok (BulkReport total elapsed))
  end.

(** ** [main] *)

(** The transport and the number of iterations; what is left of the arguments. *)
Definition main_args (args : list string) : result (string * Z * list string) Panic :=
  let '(transport, args) := match args with t :: args => (t, args) | [] => ("quic"%string, []) end in
  match args with
  | [] => Ok (transport, 50, [])
  | n :: args => let? n := ok_or (parse_u64 (as_bytes n)) NotIterations in Ok (transport, n, args)
  end.

(** The target of a server at these addresses. *)
Definition loopback_target (transport ws_addr quic cert_path : string) : result Target Panic :=
  let target := target_new ("ws://" +:+ ws_addr) "secret" in
  if bool_decide (transport = "ws"%string) then Ok target
  else if bool_decide (transport = "quic"%string) then
    Ok {| url := url target; token := Target.token target; keepalive_interval := keepalive_interval target;
          keepalive_timeout := keepalive_timeout target; connect_timeout := connect_timeout target;
          agent_socket := agent_socket target; quic_addr := Some quic; quic_ca := Some cert_path |}
  else Err (UnknownTransport transport).

(** The backend to measure; [server] says at which addresses the in-process
    server came up, for an [ssh] benchmark it is not started. *)
Definition backend_of (args : list string) (server : option (string * string)) (cert_path : string)
    : result (string * Backend * Z) Panic :=
  let? p := main_args args in
  let '(transport, n, rest) := p in
  if bool_decide (transport = "ssh"%string) then Ok (transport, Ssh rest, n)
  else
    let? addrs := ok_or server Unwrapped in
    let? target := loopback_target transport addrs.1 addrs.2 cert_path in
    Ok (transport, Eternal target, n).

(** Output up to the first panic. *)
Fixpoint lines (results : list (result Line Panic)) : list Line * option Panic :=
  match results with
  | [] => ([], None)
  | Ok l :: results => let '(ls, p) := lines results in (l :: ls, p)
  | Err p :: _ => ([], Some p)
  end.

Definition main (args : list string) (server : option (string * string)) (cert_path : string)
    (measure : Backend -> Z -> list (result Line Panic)) : list Line * option Panic :=
  match backend_of args server cert_path with
  | Err p => ([], Some p)
  | Ok (transport, backend, n) => lines (Ok (TransportIs transport) :: measure backend n)
  end.

(** ** Properties *)

(** The percentile's index is within the samples, and it is a sample. *)
Lemma pct_spec samples p : (p <= 100)%nat -> samples <> [] ->
  exists x, pct samples p = Ok x /\ samples !! ((length samples - 1) * p / 100)%nat = Some x.
Proof.
  intros Hp Hne. unfold pct. destruct samples as [|s samples]; [done|]. set (l := s :: samples).
  assert (Hlt : ((length l - 1) * p / 100 < length l)%nat).
  { apply Nat.Div0.div_lt_upper_bound. subst l. cbn [length]. nia. }
  destruct (lookup_lt_is_Some_2 l _ Hlt) as [x Hx]. exists x. by rewrite Hx.
Qed.

Lemma sorted_lookup_le (l : list Z) i j x y : StronglySorted Z.le l -> (i <= j)%nat ->
  l !! i = Some x -> l !! j = Some y -> x <= y.
Proof.
  intros Hs. revert i j. induction Hs as [|a l Hs IH Ha]; intros [|i] [|j] Hij Hi Hj; try done; try lia.
  - injection Hi as ->. injection Hj as ->. done.
  - injection Hi as ->. rewrite Forall_lookup in Ha. by eapply Ha.
  - apply (IH i j); [lia|done|done].
Qed.

(** At least that share of the samples is no larger than the percentile. *)
Lemma sorted_count_le (l : list Z) (i : nat) (x : Z) : StronglySorted Z.le l -> l !! i = Some x ->
  (i < length (filter (fun y => (y <= x)%Z) l))%nat.
Proof.
  intros Hs. revert i. induction Hs as [|a l Hs IH Ha]; intros [|i] Hi; try done.
  - injection Hi as ->. rewrite filter_cons_True by done. cbn. lia.
  - rewrite Forall_lookup in Ha. rewrite filter_cons_True by by apply (Ha i). cbn [length].
    specialize (IH i Hi). lia.
Qed.

Lemma report_empty name : report name [] = Err OutOfRange.
Proof. done. Qed.

(** The report panics exactly when there is nothing to report; otherwise the
    percentiles are samples, in order, and each covers its share. *)
Theorem report_percentiles (name : string) (samples : list Z) : samples <> [] ->
  exists p50 p90 p99, report name samples = Ok (Report name (length samples) p50 p90 p99) /\
    p50 <= p90 <= p99 /\
    Forall (fun '(p, x) => x ∈ samples /\
      ((length samples - 1) * p / 100 < length (filter (fun y => (y <= x)%Z) samples))%nat)
      [(50, p50); (90, p90); (99, p99)]%nat.
Proof.
  intros Hne. set (l := merge_sort Z.le samples).
  assert (Hperm : l ≡ₚ samples) by apply merge_sort_Permutation.
  assert (Hs : StronglySorted Z.le l) by apply (StronglySorted_merge_sort Z.le).
  assert (Hlen : length l = length samples) by by rewrite Hperm.
  assert (Hl : l <> []) by by intros Hl; rewrite Hl in Hlen; destruct samples.
  destruct (pct_spec l 50) as (p50 & E50 & H50); [lia|done|].
  destruct (pct_spec l 90) as (p90 & E90 & H90); [lia|done|].
  destruct (pct_spec l 99) as (p99 & E99 & H99); [lia|done|].
  exists p50, p90, p99. split; [|split].
  - unfold report. fold l. rewrite E50, E90, E99. cbn [result_bind]. by rewrite Hlen.
  - split; (eapply sorted_lookup_le; [exact Hs| |eassumption|eassumption]); apply Nat.Div0.div_le_mono; lia.
  - assert (Hx : forall p x, l !! ((length l - 1) * p / 100)%nat = Some x -> x ∈ samples /\
      ((length samples - 1) * p / 100 < length (filter (fun y => (y <= x)%Z) samples))%nat).
    { intros p x Hp. split; [rewrite <- Hperm; by eapply list_elem_of_lookup_2|].
      rewrite <- Hperm. by apply sorted_count_le. }
    repeat (apply Forall_cons; split; [by apply Hx|]). by apply Forall_nil.
Qed.

(** Every iteration counts: a report of [connect] has as many samples as were
    asked for, and all runs exited with 0. *)
Lemma connect_samples_ok runs samples : connect_samples runs = Ok samples ->
  samples = map snd runs /\ Forall (fun r => r.1 = Ok 0) runs.
Proof.
  revert samples. induction runs as [|[code t] runs IH]; intros samples; cbn [connect_samples]; [by intros [= <-]|].
  destruct code as [code|e]; cbn [result_bind]; [|done]. destruct (Z.eqb_spec code 0) as [->|]; [|done].
  destruct (connect_samples runs) as [ss|e]; cbn [result_bind]; [|done]. intros [= <-].
  destruct (IH ss eq_refl) as [-> Hall]. split; [done|]. by constructor.
Qed.

Lemma connect_reports n run line : connect n run = Ok line ->
  exists p50 p90 p99, line = Report "connect" n p50 p90 p99 /\ forall k, (k < n)%nat -> (run k).1 = Ok 0.
Proof.
  unfold connect. destruct (connect_samples (map run (List.seq 0 n))) as [ss|e] eqn:Hc; cbn [result_bind]; [|done].
  apply connect_samples_ok in Hc as [-> Hall].
  destruct (decide (n = 0%nat)) as [->|Hn]; [done|].
  destruct (report_percentiles "connect" (map snd (map run (List.seq 0 n)))) as (p50 & p90 & p99 & Hr & _).
  { destruct n; [done|]. cbn. done. }
  rewrite Hr, !length_map, length_seq. intros [= <-]. exists p50, p90, p99. split; [done|].
  intros k Hk. rewrite Forall_forall in Hall. apply Hall. apply list_elem_of_In, in_map, in_seq. lia.
Qed.

(** Reading ends with the first empty read, and the total is what came before. *)
Lemma bulk_total_app reads : forall total rest, Forall (fun n => 0 < n) reads ->
  bulk_total (map Some reads ++ Some 0 :: rest) total = Some (Ok (total + foldr Z.add 0 reads)).
Proof.
  induction reads as [|n reads IH]; intros total rest Hpos; cbn [map app bulk_total foldr].
  - cbn. by rewrite Z.add_0_r.
  - inversion_clear Hpos as [|? ? Hn Hp]. rewrite (proj2 (Z.eqb_neq n 0)) by lia. rewrite IH by done.
    do 2 f_equal. lia.
Qed.

(** The defaults, and the three kinds of command lines. *)
Example main_args_default : main_args [] = Ok ("quic"%string, 50, []).
Proof. reflexivity. Qed.

Example main_args_ssh : main_args ["ssh"; "7"; "ssh"; "-p"; "22"; "host"]%string =
  Ok ("ssh"%string, 7, ["ssh"; "-p"; "22"; "host"]%string).
Proof. vm_compute. reflexivity. Qed.

Example backend_ws : exists t, backend_of ["ws"]%string (Some ("127.0.0.1:1", "127.0.0.1:2")%string) "cert.pem" =
  Ok ("ws"%string, Eternal t, 50) /\ url t = "ws://127.0.0.1:1"%string /\ quic_addr t = None.
Proof. eexists. split; [reflexivity|]. by split. Qed.

(** An ssh benchmark without a command to run fails at its first exec. *)
Example ssh_needs_argv : main ["ssh"]%string None "cert.pem"
  (fun b n => [connect (Z.to_nat n) (fun _ => (exec b "true" (Ok 0) {| started := true; copied := true; waited := Some (Some 0) |}, 1))])
  = ([TransportIs "ssh"], Some OutOfRange).
Proof. vm_compute. reflexivity. Qed.

Example report_of_three : report "echo" [30; 10; 20] = Ok (Report "echo" 3 20 20 20).
Proof. vm_compute. reflexivity. Qed.
