(* ===== verification/UnitTests.v ===== *)
(** * The unit tests of the repository

    The [#[test]] functions beside the code ([proto/src/lib.rs],
    [server/src/lib.rs], [client/src/lib.rs], [client/src/main.rs],
    [client/src/channel.rs]) as propositions about the model, and proofs that
    it passes them.  Where a test runs on postcard, zstd or a TOML file, the
    model passes for every library that keeps its contract.  The [unwrap] of a
    test is a hypothesis when it is about such a library. *)

From S2P Require Import Prelude Proto Channel Session OutboundLog Target SshArgs.

Local Open Scope rust_scope.

(** ** [proto/src/lib.rs] *)

Section ProtoTests.
Context `{WL : WireLib, !WireLibOk}.

(** What every round-trip test does. *)
Definition roundtrips {T} `{!Serde T} (msg : T) : Prop :=
  forall bs, encode msg = Ok bs -> decode bs = Ok msg.

Lemma small_roundtrips {T} `{!Serde T, !SerdeOk T} (msg : T) : small msg -> roundtrips msg.
Proof. intros Hs bs Hb. by apply decode_small. Qed.

Context {SM : Serde ChannelMessage} {SMOk : SerdeOk ChannelMessage}.
Context {SR : Serde ExecRequest} {SROk : SerdeOk ExecRequest}.

Definition channel_message_roundtrip : Prop := roundtrips (Stdout 42 (as_bytes "hello")).

Lemma passes_channel_message_roundtrip : small (Stdout 42 (as_bytes "hello")) -> channel_message_roundtrip.
Proof. apply small_roundtrips. Qed.

Definition exec_request_roundtrip : Prop := roundtrips (Exec "/bin/sh -s" false false).

Lemma passes_exec_request_roundtrip : small (Exec "/bin/sh -s" false false) -> exec_request_roundtrip.
Proof. apply small_roundtrips. Qed.

(** [slice::chunks]. *)
Fixpoint chunks_fuel (fuel : nat) (n : nat) (bs : bytes) : list bytes :=
  match fuel, bs with
  | O, _ | _, [] => []
  | S fuel, _ => take n bs :: chunks_fuel fuel n (drop n bs)
  end.
Definition chunks (n : nat) (bs : bytes) : list bytes := chunks_fuel (length bs) n bs.

Lemma concat_chunks n bs : (0 < n)%nat -> concat (chunks n bs) = bs.
Proof.
  intros Hn. unfold chunks. assert (Hf : (length bs <= length bs)%nat) by lia.
  revert Hf. generalize (length bs) at 2 3 as fuel. intros fuel. revert bs.
  induction fuel as [|fuel IH]; intros [|b bs] Hf; cbn [chunks_fuel concat length] in *; try done; try lia.
  rewrite IH by (rewrite length_drop; cbn; lia). apply take_drop.
Qed.

Definition frame_decoder_reassembles (chunk : nat) (a b : ChannelMessage) : Prop :=
  forall fa fb, encode_frame a = Ok fa -> encode_frame b = Ok fb ->
    FrameDecoder.feed (chunks chunk (fa ++ fb)) FrameDecoder.new = (Ok [drop 4 fa; drop 4 fb], FrameDecoder.new).

Lemma passes_frame_decoder_reassembles chunk a b : (0 < chunk)%nat -> small a -> small b ->
  frame_decoder_reassembles chunk a b.
Proof.
  intros Hc Ha Hb fa fb Hfa Hfb.
  destruct (small_encode a Ha) as (pa & _ & Fa & Ea). destruct (small_encode b Hb) as (pb & _ & Fb & Eb).
  rewrite Ea in Hfa. injection Hfa as <-. rewrite Eb in Hfb. injection Hfb as <-.
  change (drop 4 (FrameDecoder.frame_bytes pa)) with pa. change (drop 4 (FrameDecoder.frame_bytes pb)) with pb.
  assert (Hw : concat (chunks chunk (FrameDecoder.frame_bytes pa ++ FrameDecoder.frame_bytes pb)) =
    FrameDecoder.wire [pa; pb]).
  { rewrite concat_chunks by done. unfold FrameDecoder.wire. cbn [map concat]. by rewrite app_nil_r. }
  apply (FrameDecoder.feed_split _ [pa; pb] [] []); [by repeat constructor|apply FrameDecoder.partial_nil..|].
  rewrite Hw. by rewrite app_nil_r.
Qed.

(** The test's frames: an acknowledgement and 30000 bytes of output, fed in
    pieces of 1337. *)
Definition frame_decoder_reassembles_split_and_coalesced_frames : Prop :=
  frame_decoder_reassembles 1337 (Ack 1) (Stdout 2 (replicate 30000 7)).

Lemma passes_frame_decoder_reassembles_split_and_coalesced_frames :
  small (Ack 1) -> small (Stdout 2 (replicate 30000 7)) -> frame_decoder_reassembles_split_and_coalesced_frames.
Proof. intros Ha Hb. apply passes_frame_decoder_reassembles; [lia|done|done]. Qed.

Definition frame_decoder_rejects_oversized_frames : Prop :=
  match FrameDecoder.next_frame (FrameDecoder.push (to_be_bytes (as_u32 (MAX_FRAME + 1))) FrameDecoder.new) with
  | (Err _, _) => True
  | _ => False
  end.

Lemma passes_frame_decoder_rejects_oversized_frames : frame_decoder_rejects_oversized_frames.
Proof. vm_compute. exact I. Qed.

(** Output that zstd makes shorter is sent compressed and comes back. *)
Definition large_output : ChannelMessage :=
  Stdout 9 (concat (replicate 500 (as_bytes "drwxr-xr-x 2 joerg users 4096 "))).

Definition large_output_is_compressed_and_roundtrips : Prop :=
  forall body packed bs, to_stdvec large_output = Ok body -> zstd_compress body 3 = Ok packed ->
    COMPRESS_MIN <= len body <= MAX_FRAME -> len packed < len body -> encode large_output = Ok bs ->
    head bs = Some ENC_ZSTD /\ decode bs = Ok large_output.

Lemma passes_large_output_is_compressed_and_roundtrips : large_output_is_compressed_and_roundtrips.
Proof.
  intros body packed bs Hb Hz [Hmin Hmax] Hlt He. unfold encode in He. rewrite Hb in He.
  cbn [map_err result_bind] in He. rewrite (proj2 (Z.leb_le _ _)), Hz in He by done.
  rewrite (proj2 (Z.ltb_lt _ _)) in He by done. injection He as <-. split; [done|].
  cbn [decode]. change (ENC_ZSTD =? ENC_RAW) with false. change (ENC_ZSTD =? ENC_ZSTD) with true.
  rewrite (zstd_roundtrip body 3 packed MAX_FRAME Hz) by done. cbn [map_err result_bind].
  by rewrite (serde_roundtrip large_output body Hb).
Qed.

End ProtoTests.

(** ** [server/src/lib.rs] *)

Definition outbound_log_replays_after_trim : bool :=
  let log := foldl (fun log seq => OutboundLog.push (Stdout seq [seq]) log) OutboundLog.default [1; 2; 3] in
  let log := OutboundLog.trim 2 log in
  forallb (fun last_seen =>
      match OutboundLog.after log last_seen with [Stdout 3 _] => true | _ => false end) [0; 2] &&
  bool_decide (OutboundLog.after log 3 = []).

Lemma passes_outbound_log_replays_after_trim : outbound_log_replays_after_trim = true.
Proof. vm_compute. reflexivity. Qed.

(** ** [client/src/lib.rs] *)

(** For any TOML parser that reads the test's file as the entry it holds. *)
Definition test_config : bytes :=
  as_bytes "[targets.workbox]" ++ [10] ++ as_bytes "url = " ++ [34] ++ as_bytes "ws://127.0.0.1:8422" ++ [34; 10] ++
  as_bytes "token = " ++ [34] ++ as_bytes "secret" ++ [34; 10].

Definition workbox : TargetConfig :=
  {| cfg_url := "ws://127.0.0.1:8422"; cfg_token := Some "secret"%string; cfg_issuer := None;
     cfg_client_id := None; cfg_forward_agent := false; cfg_quic_addr := None; cfg_quic_ca := None |}.

Definition load_target_finds_configured_entry `{TomlLib} : Prop :=
  (exists target, load_target (Some test_config) "config.toml" "workbox" = Ok target /\
     cfg_url target = "ws://127.0.0.1:8422"%string /\ cfg_token target = Some "secret"%string /\
     cfg_issuer target = None) /\
  load_target (Some test_config) "config.toml" "other" = Err (UnknownTarget "other").

Lemma passes_load_target_finds_configured_entry `{TomlLib} :
  toml_from_str test_config = Some {["workbox"%string := workbox]} -> load_target_finds_configured_entry.
Proof.
  intros Ht. unfold load_target_finds_configured_entry, load_target. cbn [ok_or result_bind]. rewrite Ht.
  cbn [ok_or result_bind]. split.
  - exists workbox. by rewrite lookup_singleton_eq.
  - by rewrite lookup_singleton_ne.
Qed.

(** ** [client/src/main.rs] *)

Definition args (words : list string) : list bytes := map as_bytes words.

Definition parses (line : list string) (t : string) (cmd : option string) : bool :=
  match parse_ssh_args (args line) with
  | Some parsed => bool_decide (SshArgs.target parsed = as_bytes t) &&
                   bool_decide (SshArgs.command parsed = as_bytes <$> cmd)
  | None => false
  end.

Definition parses_herdr_bootstrap_invocation : bool :=
  parses ["-F"; "/tmp/cfg"; "-S"; "/tmp/ctl"; "-o"; "ControlMaster=auto"; "-o"; "ControlPersist=yes"; "-T";
          "example"; "/bin/sh -s"] "example" (Some "/bin/sh -s")%string.

Definition parses_target_without_command : bool := parses ["-T"; "user@host"] "user@host" None.

Definition skips_other_ssh_options : bool :=
  parses ["-C"; "-p"; "22"; "-oBatchMode=yes"; "-TC"; "-l"; "root"; "eve"; "uname"; "-m"] "eve" (Some "uname -m")%string.

Definition missing_target_is_rejected : bool := bool_decide (parse_ssh_args (args ["-T"]) = None).

Lemma passes_main_tests :
  [parses_herdr_bootstrap_invocation; parses_target_without_command; skips_other_ssh_options;
   missing_target_is_rejected] = replicate 4 true.
Proof. vm_compute. reflexivity. Qed.

(** ** [client/src/channel.rs] *)

(** The frame arrives in two parts, and a [next] is dropped in between. *)
Definition quic_next_is_cancel_safe `{TransportLib} `{WireLib} `{!Serde ChannelMessage} : Prop :=
  let message := Stdout 7 (as_bytes "split across reads") in
  forall frame, encode_frame message = Ok frame -> (10 < length frame)%nat ->
    exists d', Client.next (QuicItems FrameDecoder.new [Chunk (take 10 frame)]) = (None, QuicItems d' []) /\
      exists bs rest, Client.next (QuicItems d' [Chunk (drop 10 frame)]) = (Some (Client.Frame bs), rest) /\
        decode bs = Ok message.

Lemma passes_quic_next_is_cancel_safe `{TransportLib} `{WireLib, !WireLibOk} {SM : Serde ChannelMessage} `{!SerdeOk ChannelMessage} :
  small (Stdout 7 (as_bytes "split across reads")) -> quic_next_is_cancel_safe.
Proof.
  intros Hsmall frame Hf Hlen. set (message := Stdout 7 (as_bytes "split across reads")) in *.
  destruct (small_encode message Hsmall) as (packed & Hp & Hfit & He). rewrite He in Hf. injection Hf as <-.
  set (frame := FrameDecoder.frame_bytes packed) in *. exists {| FrameDecoder.buf := take 10 frame |}.
  assert (Hpart : FrameDecoder.partial (take 10 frame)).
  { exists packed, (drop 10 frame). split_and!; [done|by rewrite take_drop|]. intros Hd.
    apply (f_equal length) in Hd. rewrite length_drop in Hd. cbn [length] in Hd. lia. }
  assert (Hnew : FrameDecoder.next_frame FrameDecoder.new = (Ok None, FrameDecoder.new)) by done.
  split.
  - cbn [Client.next Client.next_quic]. rewrite Hnew.
    change (FrameDecoder.push (take 10 frame) FrameDecoder.new) with {| FrameDecoder.buf := take 10 frame |}.
    by rewrite FrameDecoder.next_frame_partial.
  - exists packed, (QuicItems FrameDecoder.new []). cbn [Client.next Client.next_quic].
    rewrite FrameDecoder.next_frame_partial by done. unfold FrameDecoder.push. cbn [FrameDecoder.buf].
    rewrite take_drop. pose proof (FrameDecoder.next_frame_complete packed [] Hfit) as Hc.
    rewrite app_nil_r in Hc. fold frame in Hc. rewrite Hc. split; [done|]. by apply decode_small.
Qed.
