(* ===== verification/FlakyProxy.v ===== *)
(** * The proxy of the integration tests ([client/tests/support/proxy.rs])

    A TCP proxy that can be told to sever its connections or to stop
    forwarding.  Its tasks are the accept loop, one [forward] per connection and
    two [pump]s per [forward]; a step is one operation of one of them between
    two awaits, so that a change of the mode can come between a read and the
    write that belongs to it. *)

From S2P Require Import Prelude Session.

(** ** State *)

Inductive Mode : Type := Forward | Blackhole.

#[global] Instance Mode_eq_dec : EqDecision Mode.
Proof. solve_decision. Defined.

(** Where a [pump] is: at the top of its loop, in its [read], or with data that
    it has read. *)
Inductive PumpPc : Type :=
| Top
| Reading
| Holding (data : bytes)
| PumpEnded.

(** With the pieces read from one side and written to the other so far. *)
Record Pump := {
  pc : PumpPc;
  got : list bytes;
  put : list bytes;
}.

Definition pump_start : Pump := {| pc := Top; got := []; put := [] |}.

(** A connection: accepted while its task connects upstream, then a [forward]
    that has seen the given generation, then over. *)
Inductive ConnState : Type :=
| Dialing
| Forwarding (seen : Z)
| Over.

Record ProxyConn := {
  state : ConnState;
  upload : Pump;
  download : Pump;
}.

(** [alive]: the [FlakyProxy] itself, with both its senders. *)
Record FlakyProxy := {
  mode : Mode;
  generation : Z;
  alive : bool;
  conns : list ProxyConn;
}.

Definition start : FlakyProxy := {| mode := Forward; generation := 0; alive := true; conns := [] |}.

(** ** Operations of the owner *)

Definition with_mode (m : Mode) (p : FlakyProxy) : FlakyProxy :=
  {| mode := m; generation := generation p; alive := alive p; conns := conns p |}.
Definition sever (p : FlakyProxy) : FlakyProxy :=
  {| mode := mode p; generation := add_u64 (generation p) 1; alive := alive p; conns := conns p |}.
Definition blackhole : FlakyProxy -> FlakyProxy := with_mode Blackhole.
Definition restore : FlakyProxy -> FlakyProxy := with_mode Forward.
Definition drop_proxy (p : FlakyProxy) : FlakyProxy :=
  {| mode := mode p; generation := generation p; alive := false; conns := conns p |}.

(** ** The tasks *)

Inductive PumpEvent : Type :=
| ChecksMode
| Reads (r : ReadResult)
| Writes (ok : bool).

Definition at_pc (c : PumpPc) (u : Pump) : Pump := {| pc := c; got := got u; put := put u |}.

(** One operation of [pump]; [None] if it is elsewhere or waits.  A write that
    fails may have written a part, which the other side cannot tell from a
    severed connection. *)
Definition pump (m : Mode) (alive : bool) (ev : PumpEvent) (u : Pump) : option Pump :=
  match pc u, ev with
  | Top, ChecksMode =>
      match m with
      | Forward => Some (at_pc Reading u)
      | Blackhole => if alive then None else Some (at_pc PumpEnded u)
      end
  | Reading, Reads (ReadOk (b :: data)) =>
      Some {| pc := Holding (b :: data); got := got u ++ [b :: data]; put := put u |}
  | Reading, Reads _ => Some (at_pc PumpEnded u)
  | Holding data, Writes ok =>
      match m with
      | Blackhole => Some (at_pc Top u)
      | Forward =>
          if ok then Some {| pc := Top; got := got u; put := put u ++ [data] |} else Some (at_pc PumpEnded u)
      end
  | _, _ => None
  end.

Inductive ProxyEvent : Type :=
| Accepts
| Dialed (i : nat) (ok : bool)
| Pumps (i : nat) (up : bool) (ev : PumpEvent)
| Notices (i : nat)
| Severs
| Blackholes
| Restores
| Drops.

Definition with_state (s : ConnState) (c : ProxyConn) : ProxyConn :=
  {| state := s; upload := upload c; download := download c |}.

Definition with_conn (i : nat) (c : ProxyConn) (p : FlakyProxy) : FlakyProxy :=
  {| mode := mode p; generation := generation p; alive := alive p; conns := <[i := c]> (conns p) |}.

(** [Dialed] is the upstream connection and the first line of [forward], which
    marks the generation as seen; [Notices] is its [select!]: the generation
    changed, or its sender is gone, or both pumps have ended. *)
Definition proxy_step (p : FlakyProxy) (ev : ProxyEvent) : option FlakyProxy :=
  match ev with
  | Accepts =>
      Some {| mode := mode p; generation := generation p; alive := alive p;
              conns := conns p ++ [{| state := Dialing; upload := pump_start; download := pump_start |}] |}
  | Dialed i ok =>
      match conns p !! i with
      | Some c =>
          match state c with
          | Dialing => Some (with_conn i (with_state (if ok then Forwarding (generation p) else Over) c) p)
          | _ => None
          end
      | None => None
      end
  | Pumps i up ev =>
      match conns p !! i with
      | Some c =>
          match state c with
          | Forwarding seen =>
              match pump (mode p) (alive p) ev (if up then upload c else download c) with
              | Some u =>
                  Some (with_conn i
                    {| state := Forwarding seen; upload := if up then u else upload c;
                       download := if up then download c else u |} p)
              | None => None
              end
          | _ => None
          end
      | None => None
      end
  | Notices i =>
      match conns p !! i with
      | Some c =>
          match state c, pc (upload c), pc (download c) with
          | Forwarding seen, up, down =>
              if negb (seen =? generation p) || negb (alive p) ||
                 (match up, down with PumpEnded, PumpEnded => true | _, _ => false end)
              then Some (with_conn i (with_state Over c) p) else None
          | _, _, _ => None
          end
      | None => None
      end
  | Severs => if alive p then Some (sever p) else None
  | Blackholes => if alive p then Some (blackhole p) else None
  | Restores => if alive p then Some (restore p) else None
  | Drops => if alive p then Some (drop_proxy p) else None
  end.

Fixpoint proxy_run (p : FlakyProxy) (evs : list ProxyEvent) : option FlakyProxy :=
  match evs with
  | [] => Some p
  | ev :: evs => match proxy_step p ev with Some p => proxy_run p evs | None => None end
  end.

(** ** What it does to a stream *)

Definition held (u : Pump) : list bytes := match pc u with Holding data => [data] | _ => [] end.

(** Every piece written was read, in that order; pieces may be missing. *)
Definition pump_ok (u : Pump) : Prop := put u ++ held u `sublist_of` got u.

(** No piece is missing but those at the end. *)
Definition pump_exact (u : Pump) : Prop := put u ++ held u `prefix_of` got u /\ (pc u <> PumpEnded -> put u ++ held u = got u).

Lemma pump_keeps_ok m a ev u u' : pump m a ev u = Some u' -> pump_ok u -> pump_ok u'.
Proof.
  unfold pump, pump_ok, held. destruct u as [c g w], ev as [|r|ok]; destruct c; cbn; try done.
  - destruct m; [|destruct a]; try done; intros [= <-]; cbn; by rewrite app_nil_r.
  - destruct r as [[|b r]|]; intros [= <-]; cbn; rewrite ?app_nil_r; try done.
    intros Hs. by apply sublist_app.
  - destruct m; [destruct ok|]; intros [= <-]; cbn; rewrite ?app_nil_r; try done;
      intros Hs; (etrans; [|exact Hs]); by apply sublist_inserts_r.
Qed.

Lemma pump_keeps_exact a ev u u' : pump Forward a ev u = Some u' -> pump_exact u -> pump_exact u'.
Proof.
  unfold pump, pump_exact, held. destruct u as [c g w], ev as [|r|ok]; destruct c; cbn; try done.
  - intros [= <-]; cbn. intros [H1 H2]. split; [done|]. intros _. by apply H2.
  - destruct r as [[|b r]|]; intros [= <-]; cbn; rewrite ?app_nil_r; intros [H1 H2]; try done.
    rewrite (H2 ltac:(done)). by split.
  - destruct ok; intros [= <-]; cbn; rewrite ?app_nil_r; intros [H1 H2].
    + split; [done|]. intros _. by apply H2.
    + split; [|done]. etrans; [|exact H1]. by apply prefix_app_r.
Qed.

Section Runs.
Variables (P : Pump -> Prop) (allowed : ProxyEvent -> Prop) (modes : Mode -> Prop).
Hypothesis P_start : P pump_start.
Hypothesis P_pump : forall m a ev u u', modes m -> pump m a ev u = Some u' -> P u -> P u'.
Hypothesis modes_forward : modes Forward.
Hypothesis modes_allowed : allowed Blackholes -> modes Blackhole.

(** What every pump keeps holds of every connection. *)
Lemma proxy_run_pumps evs : forall p p', Forall allowed evs -> modes (mode p) ->
  Forall (fun c => P (upload c) /\ P (download c)) (conns p) -> proxy_run p evs = Some p' ->
  Forall (fun c => P (upload c) /\ P (download c)) (conns p').
Proof.
  induction evs as [|ev evs IH]; intros p p' Hev Hm Hc; cbn [proxy_run]; [by intros [= <-]|].
  inversion Hev as [|? ? Hev1 Hevs]; subst. destruct (proxy_step p ev) as [p1|] eqn:Hs; [|done]. intros Hrun.
  assert (Hset : forall i c, P (upload c) /\ P (download c) ->
    Forall (fun c => P (upload c) /\ P (download c)) (conns (with_conn i c p))) by (intros; by apply Forall_insert).
  assert (modes (mode p1) /\ Forall (fun c => P (upload c) /\ P (download c)) (conns p1)) as [Hm1 Hc1];
    [|by eapply IH].
  clear IH Hrun. destruct ev as [|i ok|i up ev|i| | | |]; cbn [proxy_step] in Hs.
  - injection Hs as <-. split; [done|]. apply Forall_app. split; [done|]. by repeat constructor.
  - destruct (conns p !! i) as [c|] eqn:Hi; [|done]. pose proof (Forall_lookup_1 _ _ _ _ Hc Hi).
    destruct (state c); try done. injection Hs as <-. split; [done|]. by apply Hset.
  - destruct (conns p !! i) as [c|] eqn:Hi; [|done]. pose proof (Forall_lookup_1 _ _ _ _ Hc Hi) as [Hu Hd].
    destruct (state c); try done. destruct (pump _ _ ev _) as [u|] eqn:Hp; [|done].
    injection Hs as <-. split; [done|]. apply Hset. destruct up; cbn; split; try done; by eapply P_pump.
  - destruct (conns p !! i) as [c|] eqn:Hi; [|done]. pose proof (Forall_lookup_1 _ _ _ _ Hc Hi).
    destruct (state c); try done. destruct (_ || _); [|done]. injection Hs as <-. split; [done|]. by apply Hset.
  - destruct (alive p); [|done]. by injection Hs as <-.
  - destruct (alive p); [|done]. injection Hs as <-. split; [by apply modes_allowed|done].
  - destruct (alive p); [|done]. by injection Hs as <-.
  - destruct (alive p); [|done]. by injection Hs as <-.
Qed.
End Runs.

(** Whatever it is told, the proxy neither invents, repeats nor reorders. *)
Lemma proxy_sublist evs p i c : proxy_run start evs = Some p -> conns p !! i = Some c ->
  put (upload c) `sublist_of` got (upload c) /\ put (download c) `sublist_of` got (download c).
Proof.
  intros Hrun Hi.
  assert (Hall : Forall (fun c => pump_ok (upload c) /\ pump_ok (download c)) (conns p)).
  { refine (proxy_run_pumps pump_ok (fun _ => True) (fun _ => True) _ _ _ _ evs start p _ _ _ Hrun);
      try done; [constructor|intros; eauto using pump_keeps_ok|by apply Forall_forall]. }
  destruct (Forall_lookup_1 _ _ _ _ Hall Hi) as [H1 H2].
  split; (etrans; [|eassumption]); by apply sublist_inserts_r.
Qed.

(** Severing and refused connections only cut a stream short: the bytes that
    came out are a prefix of those that went in. *)
Lemma proxy_prefix evs p i c : Forall (fun ev => ev <> Blackholes) evs -> proxy_run start evs = Some p ->
  conns p !! i = Some c ->
  concat (put (upload c)) `prefix_of` concat (got (upload c)) /\
  concat (put (download c)) `prefix_of` concat (got (download c)).
Proof.
  intros Hno Hrun Hi.
  assert (Hall : Forall (fun c => pump_exact (upload c) /\ pump_exact (download c)) (conns p)).
  { refine (proxy_run_pumps pump_exact (fun ev => ev <> Blackholes) (fun m => m = Forward) _ _ _ _ evs start p _ _ _ Hrun);
      try done. intros m a ev u u' ->. apply pump_keeps_exact. }
  assert (Hpre : forall u, pump_exact u -> concat (put u) `prefix_of` concat (got u)).
  { intros u [[rest Hr] _]. rewrite Hr, <- app_assoc, concat_app. by apply prefix_app_r. }
  destruct (Forall_lookup_1 _ _ _ _ Hall Hi) as [H1 H2]. split; by apply Hpre.
Qed.

(** The data that races with a blackhole is dropped, and what follows it is
    forwarded on the same connection after [restore]: the stream has a gap. *)
Definition gap_run : list ProxyEvent :=
  [Accepts; Dialed 0 true; Pumps 0 false ChecksMode; Pumps 0 false (Reads (ReadOk [1])); Blackholes;
   Pumps 0 false (Writes true); Restores; Pumps 0 false ChecksMode; Pumps 0 false (Reads (ReadOk [2]));
   Pumps 0 false (Writes true)].

Example gap_run_gap :
  option_map (fun p => map (fun c => (concat (got (download c)), concat (put (download c)))) (conns p))
    (proxy_run start gap_run) = Some [([1; 2], [2])].
Proof. reflexivity. Qed.

(** A connection made while the proxy is a blackhole is not forwarded. *)
Lemma blackhole_holds_new ev p i c : mode p = Blackhole -> alive p = true -> conns p !! i = Some c ->
  pc (upload c) = Top -> pc (download c) = Top -> forall up, proxy_step p (Pumps i up ev) = None.
Proof.
  intros Hm Ha Hi Hu Hd up. cbn. rewrite Hi. destruct (state c); try done.
  unfold pump. rewrite Hm, Ha. by destruct up; rewrite ?Hu, ?Hd; destruct ev.
Qed.

(** [sever] reaches the connections that are being forwarded, and no later one. *)
Lemma sever_reaches p i c seen : conns p !! i = Some c -> state c = Forwarding seen -> alive p = true ->
  0 <= seen <= generation p -> generation p + 1 < u64_modulus ->
  proxy_step (sever p) (Notices i) = Some (with_conn i (with_state Over c) (sever p)).
Proof.
  intros Hi Hs Ha Hseen Hb. cbn. rewrite Hi, Hs. rewrite add_u64_small by (unfold is_u64; lia).
  by rewrite (proj2 (Z.eqb_neq seen (generation p + 1))) by lia.
Qed.
