(* ===== verification/IntegrationTests.v ===== *)
(** * The integration tests of the repository ([client/tests], [server/tests])

    The scenarios of the tests, played on the composed models with the verdict
    the test asserts: a command that counts, interrupted in every way the
    tests know, at every point; the conversation of [server/tests/exec.rs];
    expiry; the agent; the choice of the transport.  The tests of OIDC are in
    [FakeIssuer] ([device_login_accepted], [bearer_tokens]) and [OidcRace]. *)

From S2P Require Import Prelude Proto Auth OutboundLog Session Exec Channel Registry Attach Handover.
From S2P Require Import Target RunExec Gapless System SystemOut SystemIn EndToEnd.
From S2P Require Daemon DaemonProps Agent AgentProps.

(** ** [client/tests/support] *)

(** [echo $i]. *)
Definition line (i : Z) : bytes :=
  if i <? 10 then [48 + i; 10] else [48 + i / 10; 48 + i mod 10; 10].

Definition upto (i j : Z) : list Z := map (fun k => i + Z.of_nat k) (List.seq 0 (Z.to_nat (j - i))).

(** [assert_counting_output]. *)
Definition assert_counting_output (sys : System) : bool :=
  match phase sys with
  | Finished (Ok code) =>
      (code =? 0) && bool_decide (out (client sys) = concat (map line (upto 1 21))) && bool_decide (err (client sys) = [])
  | _ => false
  end.

(** Events in this order; one that is not enabled does not happen. *)
Definition play (evs : list SysEvent) (sys : System) : System :=
  fold_left (fun sys ev =>
    unwrap_or (@sys_step example_lib toy_wire Auth.toy_jwt Auth.toy_http example_target "/bin/sh -s" "100-5-0" sys ev) sys)
    evs sys.

(** Everything on the way between server and client arrives on connection [i]
    and is handled. *)
Definition exchange (i : nat) : list SysEvent :=
  [Flushes i None] ++ replicate 25 (ClientFrame WroteAll) ++ replicate 25 (ServerFrame i) ++
  replicate 25 (TaskRuns (InboundRecv WroteAll (fun _ => true))).

Definition prints (i : Z) : list SysEvent := [TaskRuns (StdoutRead (ReadOk (line i)))].

(** The script counts from [i] up to, not including, [j]; the lines reach the
    client one by one over connection [k]. *)
Definition counts (k : nat) (i j : Z) : list SysEvent :=
  concat (map (fun i => prints i ++ exchange k) (upto i j)).

(** The script is typed and stdin ends. *)
Definition script : bytes := as_bytes "for i in $(seq 1 20); do echo $i; sleep 0.05; done" ++ [10].
Definition typed_script : list SysEvent :=
  [ClientReads (ReadOk script) true; ClientReads (ReadOk []) true] ++ exchange 0.

(** The shell ends. *)
Definition ends (k : nat) : list SysEvent :=
  [TaskRuns (ExitRead (ReadOk [48; 10])); TaskRuns (StdoutRead (ReadOk [])); TaskRuns (StderrRead (ReadOk []))] ++
  exchange k.

(** [spawn_counting_exec] around a disruption: [n] lines before it, [away] lines
    during it, and the rest when the client is back on connection 1. *)
Definition counting_exec (breaks repairs : list SysEvent) (n away : Z) : System :=
  play (typed_script ++ counts 0 1 (n + 1) ++ breaks ++ concat (map prints (upto (n + 1) (n + away + 1))) ++
        repairs ++ [Connects 900 false 25] ++ exchange 1 ++ counts 1 (n + away + 1) 21 ++ ends 1) example_begin.

Definition everywhere (test : Z -> Z -> bool) : bool :=
  forallb (fun n => forallb (test n) (upto 0 (21 - n))) (upto 0 21).

(** ** [client/tests/resume.rs] *)

(** [sever]: both sides see the end of the connection. *)
Definition exec_survives_severed_connection (n away : Z) : bool :=
  assert_counting_output (counting_exec [ServerLost 0; ClientLost] [] n away).

Lemma passes_exec_survives_severed_connection : everywhere exec_survives_severed_connection = true.
Proof. vm_compute. reflexivity. Qed.

(** [blackhole]: what the server sends from now on never arrives, and nobody is
    told.  The client's keepalive gives up and an attempt to reconnect times
    out; the server notices only after the client is back. *)
Definition exec_survives_blackholed_connection (n away : Z) : bool :=
  assert_counting_output
    (counting_exec [] [Flushes 0 None; ClientLost; ConnectFails ConnectTimeout (Ok tt)] n away) &&
  assert_counting_output
    (counting_exec [Flushes 0 None; ClientLost; ConnectFails ConnectTimeout (Ok tt)] [Flushes 0 None; ServerLost 0] n away).

Lemma passes_exec_survives_blackholed_connection : everywhere exec_survives_blackholed_connection = true.
Proof. vm_compute. reflexivity. Qed.

(** ** [client/tests/handover.rs] *)

(** The daemon hands the session over and dies; its successor restores it.  The
    session task must answer the request before more is printed. *)
Definition handover : list SysEvent :=
  [AsksHandover; TaskRuns (InboundRecv WroteAll (fun _ => true)); HandsOver; Restarts (fun _ => true) true 500; ClientLost].

Definition exec_survives_daemon_handover (n away : Z) : bool :=
  assert_counting_output (counting_exec handover [ConnectFails WebSocket (Ok tt)] n away) &&
  bool_decide (is_Some (handed (play (typed_script ++ counts 0 1 (n + 1) ++ take 2 handover) example_begin))).

Lemma passes_exec_survives_daemon_handover : everywhere exec_survives_daemon_handover = true.
Proof. vm_compute. reflexivity. Qed.

(** ** [client/tests/exec.rs] *)

Definition exec_roundtrip_through_client_and_server : bool :=
  let sys := play
    ([ClientReads (ReadOk (as_bytes "echo from-stdin-script" ++ [10] ++ as_bytes "echo on-stderr >&2" ++ [10] ++
                           as_bytes "exit 7" ++ [10])) true; ClientReads (ReadOk []) true] ++ exchange 0 ++
     [TaskRuns (StdoutRead (ReadOk (as_bytes "from-stdin-script" ++ [10])));
      TaskRuns (StderrRead (ReadOk (as_bytes "on-stderr" ++ [10])));
      TaskRuns (ExitRead (ReadOk [55; 10])); TaskRuns (StderrRead (ReadOk [])); TaskRuns (StdoutRead (ReadOk []))] ++
     exchange 0) example_begin in
  bool_decide (out (client sys) = as_bytes "from-stdin-script" ++ [10]) &&
  bool_decide (err (client sys) = as_bytes "on-stderr" ++ [10]) &&
  match phase sys with Finished (Ok code) => code =? 7 | _ => false end.

Lemma passes_exec_roundtrip_through_client_and_server : exec_roundtrip_through_client_and_server = true.
Proof. vm_compute. reflexivity. Qed.

(** ** [server/tests/exec.rs] *)

(** The requests and messages of the raw client. *)
Definition request_codec (command : string) (resumable : bool) : @Serde toy_wire ExecRequest :=
  @Build_Serde toy_wire ExecRequest (fun _ => Err tt)
    (fun bs => Ok (match bs with [] => Exec command resumable false | _ => Resume (of_bytes bs) 0 end)).
Definition message_codec : @Serde toy_wire ChannelMessage :=
  @Build_Serde toy_wire ChannelMessage (fun _ => Err tt)
    (fun bs => match bs with 1 :: n :: data => Ok (Stdin n data) | [2; n] => Ok (StdinEof n) | _ => Err tt end).

(** A connection that says hello with [token] and sends [request]. *)
Definition connects_with (token request : string) : @Daemon.DaemonEvent toy_lib :=
  Daemon.Accepts (@WsItems toy_lib [WsBinary (0 :: as_bytes token); WsBinary (0 :: as_bytes request)]) true true
    {| hub_started := true; spawned := Some (4, 5, 6, 7, Some 100); exec_now := 10; daemon_pid := 1; nanos := 2 |} 10.

(** [start_server] and what happens then. *)
Definition serves (command : string) (resumable : bool) (timeout : Z) (evs : list (@Daemon.DaemonEvent toy_lib)) :
    option (@Daemon.Daemon toy_jwt toy_http) :=
  @Daemon.daemon_run toy_lib toy_wire toy_jwt toy_http message_codec toy_hello (request_codec command resumable) timeout
    DaemonProps.toy_daemon evs.

(** The attach loop of connection [i]: its session's first message, and what
    its next flush sends. *)
Definition sends (i : nat) (d : @Daemon.Daemon toy_jwt toy_http) : option (ChannelMessage * list ChannelMessage) :=
  match Daemon.connections d !! i with
  | Some (Some {| Daemon.on := addr; Daemon.role := Daemon.Streams token a; Daemon.guard := Held |}) =>
      match objects (Daemon.server d) !! addr with
      | Some s => Some (started token s, (flush s a).1)
      | None => None
      end
  | _ => None
  end.

Definition incoming (bs : bytes) : @Daemon.DaemonEvent toy_lib :=
  Daemon.Reacts 0 true (@Incoming toy_lib 20 (@Server.Frame toy_lib (0 :: bs))).

(** The guard of connection 0, while nothing else happens. *)
Definition guards (now : Z) : list (@Daemon.DaemonEvent toy_lib) := [Daemon.Guards 0 now; Daemon.Guards 0 now].

Definition over_stdin : bytes := as_bytes "hello over stdin" ++ [10].
Definition err_line : bytes := as_bytes "err" ++ [10].

(** The messages of the test up to end of file on stdin: [cat] gets them. *)
Definition stdin_sent : list (@Daemon.DaemonEvent toy_lib) :=
  [connects_with "secret" ""] ++ guards 10 ++
  [incoming (1 :: 1 :: over_stdin); incoming [2; 2];
   Daemon.TaskSteps 0 (InboundRecv WroteAll (fun _ => true)); Daemon.TaskSteps 0 (InboundRecv WroteAll (fun _ => true))].

Definition exec_relays_stdio_and_exit_code : bool :=
  let serves := serves "cat; echo err >&2; exit 3" false 200 in
  match serves stdin_sent,
        serves (stdin_sent ++ map (Daemon.TaskSteps 0)
          [StdoutRead (ReadOk over_stdin); StderrRead (ReadOk err_line); StdoutRead (ReadOk []); StderrRead (ReadOk []);
           ExitRead (ReadOk [51; 10])]) with
  | Some d, Some d' =>
      bool_decide (child_stdin <$> (tasks (Daemon.server d) !! 0%nat) = Some over_stdin) &&
      bool_decide (sends 0 d' = Some (Started None, [Stdout 1 over_stdin; Stderr 2 err_line; Exit 3 3; Ack 2]))
  | _, _ => false
  end.

Lemma passes_exec_relays_stdio_and_exit_code : exec_relays_stdio_and_exit_code = true.
Proof. vm_compute. reflexivity. Qed.

(** No reply but the close of the connection, and nothing started. *)
Definition wrong_token_is_rejected : bool :=
  let ch := @WsItems toy_lib [WsBinary (0 :: as_bytes "wrong"); WsBinary [0]] in
  match @handle_connection toy_lib toy_wire toy_jwt toy_http toy_hello (request_codec "true" false) ch
          (@auth_new toy_jwt (Some "secret"%string) None) 0%nat true Daemon.no_sessions
          {| hub_started := true; spawned := Some (4, 5, 6, 7, Some 100); exec_now := 10; daemon_pid := 1; nanos := 2 |} with
  | (Rejected [ClosedChannel] (AuthFailed _), _, _, sv) => bool_decide (dom (sessions sv) = ∅) && bool_decide (dom (tasks sv) = ∅)
  | _ => false
  end.

Lemma passes_wrong_token_is_rejected : wrong_token_is_rejected = true.
Proof. vm_compute. reflexivity. Qed.

(** The client vanishes at 50; with a timeout of 200 the sweep at 450 forgets
    the session, and the resume is denied. *)
Definition disconnected_session_expires_after_timeout : bool :=
  match serves "sleep 60" true 200
          ([connects_with "secret" ""] ++ guards 10 ++
           [Daemon.Reacts 0 true (@Incoming toy_lib 50 (@Server.Failed toy_lib (@Server.WebSocketError toy_lib tt)))] ++
           guards 50 ++ [Daemon.Sweeps 450]) with
  | Some d =>
      match @handle_connection toy_lib toy_wire toy_jwt toy_http toy_hello (request_codec "sleep 60" true)
              (@WsItems toy_lib [WsBinary (0 :: as_bytes "secret"); WsBinary (0 :: as_bytes "1-2-0")])
              (Daemon.authn d) (Daemon.world d) true (Daemon.server d)
              {| hub_started := true; spawned := None; exec_now := 450; daemon_pid := 1; nanos := 2 |} with
      | (Rejected [SentWelcome; SentDenied _; ClosedChannel] _, _, _, _) => true
      | _ => false
      end
  | None => false
  end.

Lemma passes_disconnected_session_expires_after_timeout : disconnected_session_expires_after_timeout = true.
Proof. vm_compute. reflexivity. Qed.

(** ** [client/tests/quic.rs] and [client/tests/agent.rs] *)

(** Whatever keeps QUIC from connecting, the WebSocket is used. *)
Definition falls_back_to_websocket_when_quic_is_unreachable `{TransportLib} : Prop :=
  forall target quic ws, (forall conn, quic <> Some (Ok conn)) -> connect target quic true (Ok ws) = Ok ws.

Lemma passes_falls_back_to_websocket `{TransportLib} : falls_back_to_websocket_when_quic_is_unreachable.
Proof.
  intros target quic ws Hq. unfold connect. destruct (quic_addr target); [|done].
  destruct quic as [[conn|e]|]; [by destruct (Hq conn)|done|done].
Qed.

(** The agent's answer to what the program wrote reaches the program. *)
Definition remote_program_reaches_local_agent : bool :=
  let request := as_bytes "sign-me" in
  let reply := as_bytes "agent-reply:" ++ request in
  match Agent.agent_run Agent.agent_start
          [Agent.ChannelAttaches; Agent.ProgramConnects; Agent.ServerSends 0 true; Agent.ClientReceives 0;
           Agent.AgentDialled 0 1 true; Agent.ProgramSends 1 (ReadOk request); Agent.ServerSends 0 true;
           Agent.ClientReceives 0; Agent.AgentReceives 0 1 WroteAll; Agent.AgentSends 0 1 (ReadOk reply);
           Agent.ClientSends 0 true; Agent.ServerReceives 0; Agent.ProgramReceives 1 WroteAll] with
  | Some sys => bool_decide (Agent.to_program <$> (Agent.relays (Agent.hub sys) !! 1) = Some reply)
  | None => false
  end.

Lemma passes_remote_program_reaches_local_agent : remote_program_reaches_local_agent = true.
Proof. vm_compute. reflexivity. Qed.
